(* ===== verification/_CoqProject ===== *)
-Q . S2P
Prelude.v
Events.v
GoValue.v
Utils.v
ConfigDiff.v
Api.v
Metrics.v
ConfigGen.v
ConfigRules.v
Json.v
Kube.v
Ensure.v
Aero.v
Sizing.v
Readiness.v
Status.v
Breaker.v
Storage.v
DynamicConfig.v
ConfigMaps.v
PDB.v
Services.v
Monitoring.v
ACL.v
PodTemplate.v
Restart.v
Operations.v
Scaling.v
Webhook.v
Steps.v
Template.v
Sharing.v
Reconcile.v
Footprint.v
Watch.v
Telemetry.v
