(* ===== verification/Prelude.v ===== *)
(** * Verification of the Aerospike CE Kubernetes operator

    The operator keeps an [AerospikeCluster] custom resource and the objects that
    realise it in step: one StatefulSet and one ConfigMap per rack, services,
    disruption budgets, claims, monitoring objects, network policies, and the
    settings, roles and users of the running servers.  An
    admission webhook defaults and validates the resource; a controller
    reconciles it, over and over, against an API server and against servers that
    can fail at every call.  This library models the Go code of the repository as
    executable definitions and proves what makes it safe to run.

    ** How the code is modelled

    Pure Go functions are Coq functions of the same name.  Methods of the
    reconciler are computations of the state-and-error monad [M] (Kube.v) over a
    [World]: the objects stored in the API server, the servers' answers, the
    clock, the operator's in-memory state and the [cluster] object that a
    reconcile passes to its helpers by pointer ([w_mem], distinct from the stored
    [w_cluster]).  Every API call consults a list of faults first, so each theorem
    about a method covers each failure at each call; the writes, deletions, server
    commands and events of a run are recorded in its trace.  Integers keep their
    Go width where it matters ([i32], [in_i64]); floats are IEEE binary64; a
    configuration is a tree of [any] values with Go maps as association lists, and
    a result that depends on the iteration order of a map is shown not to.
    Code that is not in the repository is a field of the class [Environment]
    (Kube.v): the Aerospike client, the hash function, the embedded init script.

    ** Files

    - Prelude: record update, strings, decimal numbers, lists.
    - GoValue: [any], Go maps, float64.  Utils: internal/utils.
    - ConfigDiff, ConfigGen: the packages of these names.
    - Api: api/v1alpha1 types and the parts of Kubernetes objects that are used;
      Json: the encodings that are hashed.
    - Events, Metrics: the event reasons of events.go and the Prometheus vectors of
      internal/metrics, whose registry is part of the [World].
    - Kube: the monad, the API server, the predicates on runs ([keeps], [does],
      [achieves]) and their proof automation ([frame]).
    - Aero: aero_client.go, aero_info.go, reconciler_scaledown.go.
    - Sizing, Readiness, Status, Breaker, DynamicConfig, ConfigMaps, PDB, Restart,
      Operations: the files of internal/controller on these subjects
      (reconciler_readiness_gate.go, reconciler_status.go, pause_handler.go,
      reconciler_dynamic_config.go, reconciler_config.go, reconciler_pdb.go,
      reconciler_restart.go and reconciler_warm_restart.go,
      reconciler_operations.go) with the functions of reconciler.go they need.
    - Storage: internal/storage.  Scaling: reconciler_statefulset.go and
      reconciler_cleanup.go.
    - Steps: what holds of every sub-reconciler, proved once for any relation that
      satisfies the interface [Steps].  Reconcile: the loop of reconciler.go, which
      composes all of the above.  Footprint: what a whole reconcile leaves alone.
    - Watch: what SetupWithManager registers, and which event reconciles which
      cluster.  Telemetry: internal/telemetry and cmd/main.go.
    - ConfigRules, Webhook: the admission webhooks of api/v1alpha1, the rules for
      aerospikeConfig apart.  Template: internal/template, the template webhook and
      resolveTemplate.  Sharing: the copying and merging functions over a store of
      references, which justifies reading configurations as trees.
    - Ensure: create, update and delete as the reconcilers of objects do them, and
      the logic for what a pass delivers.  Services: reconciler_services.go,
      reconciler_pod_service.go, reconciler_pod_rbac.go, reconciler_seeds_finder.go.
      Monitoring: reconciler_monitoring.go and reconciler_networkpolicy.go.
      ACL: reconciler_acl.go and retry.go.
    - PodTemplate: internal/podutil and the volumes of internal/storage.  The
      template shares the affinity object of the cluster, so building it changes
      [w_mem].

    Besides [Environment], the parameters are classes with the documented laws of
    what they stand for: [ServiceAPI] (what the API server makes of a service),
    [JSONStore] (how a stored JSON value reads back), [AdminClient] (roles and
    users of the servers), [Validators] (apimachinery's parsers), [ControllerRuntime]
    (its stock predicates and owner handler), [SDK] (OpenTelemetry) and [Manager]
    (controller-runtime's manager); those that theorems depend on have an instance
    with which the concrete runs are evaluated.

    ** What is shown

    - Disruption is justified: rolling restarts, on-demand operations, scale-downs
      and rack teardowns disrupt only what they may, one batch at a time, behind
      a migration check that fails closed; the escape hatch opens only after
      persistent failure, and then does open (Restart, Operations, Scaling, Aero).
    - Data is not lost by mistake: only orphaned claims of settled racks are
      reclaimed, and all of them are when nothing fails (Scaling, Storage).
    - Configuration: merging, diffing, rendering and the two-phase dynamic update
      (Utils, ConfigDiff, ConfigGen, ConfigMaps, DynamicConfig).
    - The failure counter, the breaker, pausing and the status are consistent
      across whole reconciles (Breaker, Status, Reconcile).
    - Objects converge: a successful pass leaves what the spec asks for, and a
      second one has nothing to do (ConfigMaps, PDB, Scaling).
    - Admission: what an admitted cluster, update or template guarantees to the
      reconcilers: a Community Edition configuration that renders, sizes and
      budgets that are used as written, privileges that parse, mounts with volumes
      (ConfigRules, Webhook).  Templates: the resolved spec, and that
      the cluster's own values win (Template).
    - Pods are placed where they may be: blocked nodes, rack placement and one pod
      per node, against the scheduler's reading of an affinity (PodTemplate).
    - The services, monitoring objects and network policies the spec asks for, and
      no stale ones; refused monitoring kinds do not fail the loop (Services,
      Monitoring).  Roles and users of the servers after a synchronization, and
      what it never drops (ACL).
    - A reconcile never writes what belongs to the user, so it does not wake itself,
      and changes of secrets, pods and templates reach their clusters (Footprint,
      Watch).  Its metrics are gone once the cluster is (Footprint, Metrics);
      telemetry is set up as a whole or not at all, and always stopped (Telemetry).
    - A merged or copied configuration shares no memory with what it was made from,
      so nothing done to it reaches the custom resource (Sharing).

    Where the code does not do what it means to, a theorem says what it does; the
    manifest lists these as findings.

    ** Bounds and fuel

    Loops over lists recurse on the list.  The client retry has the attempt bound
    of the Go code; how often a conflict is retried is the client library's choice
    and a field of [Environment] ([retry_again]), for every value of which the
    theorems hold.  Recursion over a configuration is on the structure of [any].
    [readPairs], the reader of the exporter's labels, has as much fuel as there are
    labels, which is shown to be enough; [TrimSpace] has as much as there are bytes,
    which is enough as well (TrimSpace_clean).  [deepMergeRef] and its kin (Sharing)
    return once the fuel exceeds the height of the tree.  Nothing else needs fuel, so
    every other definition is total, and no theorem is conditional on termination.

    ** Not modelled

    Generated deep copies (the identity on values) and scheme registration.
    Logging, spans, help texts, event texts and the wording of rejections do not
    influence behaviour and are left out; so are most owner references, which the
    API server's garbage collector interprets (Services.v keeps those of roles and bindings, on
    which an update can fail).  Go's concurrency appears in one place
    ([collectAerospikeInfo]), whose queries are independent; they are made in
    order.  Reconciles of one cluster are never concurrent, by the work queue, which is
    controller-runtime's and not modelled: Watch ends with the requests it is given. *)

From Stdlib Require Export ZArith Ascii String.
From stdpp Require Export base strings sorting numbers pretty option gmap sets list.

#[global] Open Scope Z_scope.
#[export] Set Warnings "-register-all,-clear-no-such-hyp".

(** ** Record update

    Go assigns fields of a struct in place; [r <| f := v |>] is the record [r]
    with the field [f] replaced.  A record type registers the list of its
    projections once, as a [Fields] instance; the update of one projection is
    found by abstracting that projection out of the registered expansion. *)

Class Fields (R : Type) := expand : R -> R.
Class Update {R T : Type} (proj : R -> T) := update : (T -> T) -> R -> R.

Ltac derive_update R proj :=
  let inst := constr:(_ : Fields R) in
  let e := eval hnf in (@expand R inst) in
  let g := eval pattern proj in e in
  match g with
  | ?F _ =>
      let u := eval cbv beta in (fun f r => F (fun r' => f (proj r')) r) in
      exact u
  end.

#[export] Hint Extern 1 (@Update ?R _ ?proj) => derive_update R proj : typeclass_instances.

Declare Scope record_scope.
Delimit Scope record_scope with record.
Notation "r <| f := v |>" := (update (proj := f) (fun _ => v) r)
  (at level 1, left associativity, format "r  <| f  :=  v |>") : record_scope.
Notation "r <| f ::= g |>" := (update (proj := f) g r)
  (at level 1, left associativity, format "r  <| f  ::=  g |>") : record_scope.
#[global] Open Scope record_scope.

(** ** Error results

    A Go function returning [(T, error)] is a value of [res T]; the error is
    represented by its message. *)

Inductive res (A : Type) : Type :=
| Ok (a : A)
| Err (msg : string).

Arguments Ok {A} a.
Arguments Err {A} msg.

#[export] Instance res_ret : MRet res := fun A a => Ok a.
#[export] Instance res_bind : MBind res := fun A B f m =>
  match m with Ok a => f a | Err e => Err e end.
#[export] Instance res_fmap : FMap res := fun A B f m =>
  match m with Ok a => Ok (f a) | Err e => Err e end.

Definition is_ok {A} (r : res A) : bool :=
  match r with Ok _ => true | Err _ => false end.

(** ** Machine integers

    Go's [int32] and [int64] arithmetic wraps around in two's complement;
    [int] has 64 bits on every platform the operator is built for. *)

Definition wrap (w : Z) (z : Z) : Z := (z + 2 ^ (w - 1)) mod 2 ^ w - 2 ^ (w - 1).
Definition i32 (z : Z) : Z := wrap 32 z.
Definition i64 (z : Z) : Z := wrap 64 z.

Definition in_i32 (z : Z) : Prop := - 2 ^ 31 <= z < 2 ^ 31.
Definition in_i64 (z : Z) : Prop := - 2 ^ 63 <= z < 2 ^ 63.

#[export] Instance in_i32_dec z : Decision (in_i32 z).
Proof. unfold in_i32. apply _. Defined.
#[export] Instance in_i64_dec z : Decision (in_i64 z).
Proof. unfold in_i64. apply _. Defined.

(** ** Strings

    A Go string is a sequence of bytes, here a [string] of [ascii] characters.
    [concat_str] is a [strings.Builder] that has been written piece by piece. *)

Definition concat_str (l : list string) : string := foldr String.app "" l.

Fixpoint repeat_str (s : string) (n : nat) : string :=
  match n with O => "" | S n => s +:+ repeat_str s n end.

(** [strings.HasPrefix] with the remainder, i.e. [strings.CutPrefix]. *)
Fixpoint cut_prefix (p s : string) : option string :=
  match p, s with
  | EmptyString, _ => Some s
  | String a p, String b s => if decide (a = b) then cut_prefix p s else None
  | String _ _, EmptyString => None
  end.

Definition cut_suffix (s suf : string) : option string :=
  String.rev <$> cut_prefix (String.rev suf) (String.rev s).

(** The text before and after the first occurrence of the byte [c]. *)
Fixpoint split_first (c : ascii) (s : string) : option (string * string) :=
  match s with
  | EmptyString => None
  | String a s =>
      if decide (a = c) then Some ("", s)
      else '(x, y) ← split_first c s; Some (String a x, y)
  end.

(** The text before and after the last occurrence of the byte [c]
    ([strings.LastIndex]). *)
Fixpoint split_last (c : ascii) (s : string) : option (string * string) :=
  match s with
  | EmptyString => None
  | String a s =>
      match split_last c s with
      | Some (x, y) => Some (String a x, y)
      | None => if decide (a = c) then Some ("", s) else None
      end
  end.

Fixpoint str_contains (c : ascii) (s : string) : bool :=
  match s with
  | EmptyString => false
  | String a s => bool_decide (a = c) || str_contains c s
  end.

(** [strconv.Atoi]: an optional sign, at least one decimal digit, nothing else,
    and a value in the range of a 64-bit [int]. *)
Definition digit_val (a : ascii) : option Z :=
  let n := Z.of_N (N_of_ascii a) in
  if decide (48 <= n <= 57) then Some (n - 48) else None.

Fixpoint parse_digits (acc : Z) (s : string) : option Z :=
  match s with
  | EmptyString => Some acc
  | String a s => d ← digit_val a; parse_digits (10 * acc + d) s
  end.

Definition parse_nat (s : string) : option Z :=
  match s with EmptyString => None | _ => parse_digits 0 s end.

Definition check_i64 (z : Z) : option Z := if decide (in_i64 z) then Some z else None.

Definition atoi (s : string) : option Z :=
  match s with
  | String "-" t => z ← parse_nat t; check_i64 (- z)
  | String "+" t => z ← parse_nat t; check_i64 z
  | _ => z ← parse_nat s; check_i64 z
  end.

(** [strings.Split] on a one-byte separator: never the empty list. *)
Fixpoint split_on (c : ascii) (s : string) : list string :=
  match s with
  | EmptyString => [""]
  | String a s =>
      if decide (a = c) then "" :: split_on c s
      else match split_on c s with [] => [String a ""] | x :: l => String a x :: l end
  end.

(** [strings.Join]. *)
Fixpoint join (sep : string) (l : list string) : string :=
  match l with
  | [] => ""
  | [x] => x
  | x :: l => x +:+ sep +:+ join sep l
  end.

(** [strings.TrimSpace] on ASCII text. *)
Definition is_space (a : ascii) : bool :=
  let n := N_of_ascii a in bool_decide (n = 32 \/ 9 <= n <= 13)%N.

Fixpoint trim_left (s : string) : string :=
  match s with
  | EmptyString => ""
  | String a t => if is_space a then trim_left t else s
  end.

Fixpoint trim_right (s : string) : string :=
  match s with
  | EmptyString => ""
  | String a t =>
      match trim_right t with
      | EmptyString => if is_space a then "" else String a ""
      | t' => String a t'
      end
  end.

Definition trim_space (s : string) : string := trim_right (trim_left s).

(** [strings.Contains]. *)
Fixpoint contains_str (p s : string) : bool :=
  bool_decide (is_Some (cut_prefix p s)) ||
  match s with "" => false | String _ s => contains_str p s end.

(** [strings.HasPrefix], [strings.HasSuffix], [strings.TrimPrefix]. *)
Definition has_prefix (p s : string) : bool := bool_decide (is_Some (cut_prefix p s)).
Definition has_suffix (s suf : string) : bool := bool_decide (is_Some (cut_suffix s suf)).
Definition trim_prefix (p s : string) : string := default s (cut_prefix p s).

(** [strings.ToLower], as far as ASCII goes: besides the letters A to Z, the two
    runes that have an ASCII lower case are U+0130 and the Kelvin sign U+212A; the
    others keep their bytes, which no test on ASCII text can tell from theirs. *)
Definition lower_ascii (a : ascii) : ascii :=
  let n := N_of_ascii a in if (65 <=? n)%N && (n <=? 90)%N then ascii_of_N (n + 32) else a.

Fixpoint to_lower (s : string) : string :=
  match s with
  | "" => ""
  | String a s' =>
      match s' with
      | String b s'' =>
          if bool_decide (N_of_ascii a = 196%N /\ N_of_ascii b = 176%N) then String "i" (to_lower s'')
          else match s'' with
               | String c t =>
                   if bool_decide (N_of_ascii a = 226%N /\ N_of_ascii b = 132%N /\ N_of_ascii c = 170%N)
                   then String "k" (to_lower t) else String (lower_ascii a) (to_lower s')
               | "" => String (lower_ascii a) (to_lower s')
               end
      | "" => String (lower_ascii a) ""
      end
  end.

(** ** Lemmas on strings *)

Lemma app_cons a s t : String a s +:+ t = String a (s +:+ t).
Proof. done. Qed.

Lemma app_nil_str s : s +:+ "" = s.
Proof. induction s as [|a s IH]; [done|]. by rewrite app_cons, IH. Qed.

Lemma app_assoc_str s t u : (s +:+ t) +:+ u = s +:+ (t +:+ u).
Proof. induction s as [|a s IH]; [done|]. by rewrite !app_cons, IH. Qed.

Lemma length_app_str s t :
  String.length (s +:+ t) = (String.length s + String.length t)%nat.
Proof. induction s as [|a s IH]; [done|]. rewrite app_cons. simpl. by rewrite IH. Qed.

Lemma app_inj_r s t u : s +:+ u = t +:+ u -> s = t.
Proof.
  revert t. induction s as [|a s IH]; intros [|b t]; try done.
  - intros H%(f_equal String.length). rewrite !length_app_str in H. simpl in H. lia.
  - intros H%(f_equal String.length). rewrite !length_app_str in H. simpl in H. lia.
  - rewrite !app_cons. intros [= -> H]. by rewrite (IH _ H).
Qed.

Lemma concat_str_app l k : concat_str (l ++ k) = concat_str l +:+ concat_str k.
Proof.
  unfold concat_str. induction l as [|s l IH]; [done|]. simpl.
  by rewrite IH, app_assoc_str.
Qed.

Lemma concat_str_cons s l : concat_str (s :: l) = s +:+ concat_str l.
Proof. done. Qed.

Lemma str_contains_app c s t :
  str_contains c (s +:+ t) = str_contains c s || str_contains c t.
Proof.
  induction s as [|a s IH]; [done|]. rewrite app_cons. simpl. rewrite IH.
  by rewrite orb_assoc.
Qed.

Lemma split_first_Some c s x y :
  split_first c s = Some (x, y) <-> s = x +:+ String c y /\ str_contains c x = false.
Proof.
  revert x y. induction s as [|a s IH]; intros x y; simpl.
  { split; [done|]. intros [H _]. by destruct x. }
  case_decide as Ha; subst.
  - split.
    + intros [= <- <-]. done.
    + intros [H Hx]. destruct x as [|b x]; [by inversion H|].
      rewrite app_cons in H. inversion H; subst. simpl in Hx.
      by rewrite bool_decide_eq_true_2 in Hx.
  - destruct (split_first c s) as [[x' y']|] eqn:E; simpl.
    + destruct (IH x' y') as [[Hs Hc] _]; [done|]. split.
      * intros [= <- <-]. rewrite app_cons, <- Hs. split; [done|]. simpl.
        by rewrite bool_decide_eq_false_2, Hc.
      * intros [H Hx]. destruct x as [|b x]; [by inversion H|].
        rewrite app_cons in H. injection H as <- H. simpl in Hx.
        apply orb_false_iff in Hx as [_ Hx].
        destruct (IH x y) as [_ Hr]. specialize (Hr (conj H Hx)).
        by simplify_eq.
    + split; [done|]. intros [H Hx]. destruct x as [|b x]; [by inversion H|].
      rewrite app_cons in H. injection H as <- H. simpl in Hx.
      apply orb_false_iff in Hx as [_ Hx].
      destruct (IH x y) as [_ Hr]. specialize (Hr (conj H Hx)). by simplify_eq.
Qed.

Lemma split_first_None c s : split_first c s = None <-> str_contains c s = false.
Proof.
  induction s as [|a s IH]; [done|]. simpl. case_decide as Ha; subst.
  - by rewrite bool_decide_eq_true_2.
  - rewrite bool_decide_eq_false_2 by done. simpl. rewrite <- IH.
    by destruct (split_first c s) as [[??]|].
Qed.

Lemma split_last_app c s t :
  str_contains c t = false -> split_last c (s +:+ String c t) = Some (s, t).
Proof.
  intros Ht.
  assert (split_last c t = None) as Hn.
  { induction t as [|a t IH]; [done|]. simpl in *. apply orb_false_iff in Ht as [Ha Ht].
    rewrite IH by done. case_decide; [|done]. by rewrite bool_decide_eq_true_2 in Ha. }
  induction s as [|a s IH].
  - simpl. rewrite Hn. by rewrite decide_True.
  - rewrite app_cons. simpl. by rewrite IH.
Qed.

Lemma string_rev_app_eq s t : String.rev_app s t = String.rev s +:+ t.
Proof.
  unfold String.rev. revert t. induction s as [|a s IH]; intros t; [done|]. simpl.
  rewrite IH, (IH (String a "")). by rewrite app_assoc_str.
Qed.

Lemma string_rev_app_dist s t : String.rev (s +:+ t) = String.rev t +:+ String.rev s.
Proof.
  induction s as [|a s IH]; [change ("" +:+ t) with t; by rewrite app_nil_str|].
  rewrite app_cons. unfold String.rev in *. simpl.
  rewrite !(string_rev_app_eq _ (String a "")). unfold String.rev. rewrite IH.
  by rewrite app_assoc_str.
Qed.

Lemma string_rev_involutive s : String.rev (String.rev s) = s.
Proof.
  induction s as [|a s IH]; [done|]. unfold String.rev at 2. simpl.
  rewrite string_rev_app_eq, string_rev_app_dist, IH. done.
Qed.

Lemma cut_prefix_app p s : cut_prefix p (p +:+ s) = Some s.
Proof. induction p as [|a p IH]; [done|]. rewrite app_cons. simpl. by rewrite decide_True. Qed.

Lemma cut_prefix_Some p s r : cut_prefix p s = Some r <-> s = p +:+ r.
Proof.
  revert s. induction p as [|a p IH]; intros s; [split; [by intros [= ->]|by intros ->]|].
  rewrite app_cons. destruct s as [|b s]; [done|]. simpl. case_decide; [|naive_solver].
  subst. rewrite IH. naive_solver.
Qed.

Lemma cut_suffix_app s suf : cut_suffix (s +:+ suf) suf = Some s.
Proof.
  unfold cut_suffix. rewrite string_rev_app_dist, cut_prefix_app. simpl.
  by rewrite string_rev_involutive.
Qed.

Lemma cut_suffix_Some s suf r : cut_suffix s suf = Some r <-> s = r +:+ suf.
Proof.
  split; [|intros ->; apply cut_suffix_app]. unfold cut_suffix. intros (t & Hc & ->)%fmap_Some.
  apply cut_prefix_Some, (f_equal String.rev) in Hc. by rewrite string_rev_app_dist, !string_rev_involutive in Hc.
Qed.

Lemma head_omap_None {A B} (f : A -> option B) l : head (omap f l) = None -> Forall (fun x => f x = None) l.
Proof. induction l as [|x l IH]; simpl; [by constructor|]. destruct (f x) eqn:Hx; [done|]. intros Hl. constructor; auto. Qed.

Lemma head_omap_Some {A B} (f : A -> option B) l y : head (omap f l) = Some y -> exists x, x ∈ l /\ f x = Some y.
Proof.
  induction l as [|x l IH]; simpl; [done|]. destruct (f x) as [z|] eqn:Hx.
  - intros [= <-]. exists x. by split; [left|].
  - intros (x' & Hin & Hf)%IH. exists x'. by split; [right|].
Qed.

(** Lists that come out empty. *)
Lemma fmap_nil_iff {A B} (f : A -> B) l : f <$> l = [] <-> l = [].
Proof. by destruct l. Qed.

Lemma filter_nil_iff {A} (P : A -> Prop) `{!forall x, Decision (P x)} (l : list A) :
  filter P l = [] <-> forall x, x ∈ l -> ~ P x.
Proof.
  split.
  - intros Hf x Hx HP. by apply (filter_nil_not_elem_of P l x).
  - induction l as [|x l IH]; intros Hn; [done|]. rewrite filter_cons_False by (apply Hn; left).
    apply IH. intros y Hy. apply Hn. by right.
Qed.

Lemma bind_nil_iff {A B} (f : A -> list B) l : l ≫= f = [] <-> forall x, x ∈ l -> f x = [].
Proof.
  induction l as [|x l IH]; [split; [intros _ ? ?%elem_of_nil|]; done|]. simpl.
  rewrite app_nil, IH. setoid_rewrite elem_of_cons. naive_solver.
Qed.

(** Filters that agree on the elements of the list. *)
Lemma list_filter_id {A} (P : A -> Prop) `{!forall x, Decision (P x)} (l : list A) :
  (forall x, x ∈ l -> P x) -> filter P l = l.
Proof.
  induction l as [|x l IH]; intros Hl; [done|]. rewrite filter_cons, decide_True by (apply Hl; left).
  f_equal. apply IH. intros y Hy. apply Hl. by right.
Qed.

Lemma list_filter_ext_in {A} (P Q : A -> Prop) `{!forall x, Decision (P x), !forall x, Decision (Q x)} (l : list A) :
  (forall x, x ∈ l -> P x <-> Q x) -> filter P l = filter Q l.
Proof.
  induction l as [|x l IH]; intros HPQ; [done|]. pose proof (HPQ x ltac:(left)) as Hx.
  assert (filter P l = filter Q l) as IH' by (apply IH; intros y Hy; apply HPQ; by right).
  destruct (decide (P x)).
  - rewrite !filter_cons_True by naive_solver. by rewrite IH'.
  - rewrite !filter_cons_False by naive_solver. done.
Qed.

(** Splitting undoes joining when the separator does not occur in the pieces. *)
Lemma split_on_none c s : str_contains c s = false -> split_on c s = [s].
Proof.
  induction s as [|a s IH]; [done|]. simpl. intros [Ha Hs]%orb_false_iff.
  apply bool_decide_eq_false in Ha. rewrite (IH Hs). by case_decide.
Qed.

Lemma split_on_app c s t :
  str_contains c s = false -> split_on c (s +:+ String c t) = s :: split_on c t.
Proof.
  induction s as [|a s IH]; [intros _; simpl; by rewrite decide_True|].
  intros [Ha Hs]%orb_false_iff. apply bool_decide_eq_false in Ha.
  rewrite app_cons. simpl. rewrite (IH Hs). by case_decide.
Qed.

Lemma split_on_join c l :
  l <> [] -> Forall (fun s => str_contains c s = false) l -> split_on c (join (String c "") l) = l.
Proof.
  intros Hl HF. induction HF as [|x l Hx HF IH]; [done|]. destruct l as [|y l].
  - by apply split_on_none.
  - change (join (String c "") (x :: y :: l)) with (x +:+ String c (join (String c "") (y :: l))).
    rewrite split_on_app by done. by rewrite IH.
Qed.

Lemma join_split_on c s : join (String c "") (split_on c s) = s.
Proof.
  induction s as [|a s IH]; [done|]. simpl. case_decide as Ha.
  - subst. destruct (split_on c s) as [|x l] eqn:Hs; [by destruct s; simpl in Hs; repeat case_match|].
    change (join (String c "") ("" :: x :: l)) with (String c (join (String c "") (x :: l))). by rewrite IH.
  - destruct (split_on c s) as [|x l] eqn:Hs; [by destruct s; simpl in Hs; repeat case_match|].
    rewrite <- IH. by destruct l.
Qed.

(** ** Decimal printing and parsing *)

Lemma digit_val_pretty_char n :
  (n < 10)%N -> digit_val (pretty_N_char n) = Some (Z.of_N n).
Proof.
  intros Hn.
  destruct n as [|p]; [done|].
  do 4 (destruct p as [p|p|]; [| |done]); lia || done.
Qed.

(** Parsing the digits of [n] followed by [s] amounts to parsing [s] with the
    accumulator moved past the digits of [n]. *)
Lemma parse_digits_go n acc s :
  exists k, 0 <= k /\
  parse_digits acc (pretty_N_go n s) = parse_digits (acc * 10 ^ k + Z.of_N n) s.
Proof.
  revert s. induction (N.lt_wf_0 n) as [n _ IH]. intros s.
  destruct (decide (n = 0)%N) as [->|Hn].
  { exists 0. rewrite pretty_N_go_0. split; [done|]. f_equal. simpl. lia. }
  rewrite pretty_N_go_step by lia.
  destruct (IH (n `div` 10)%N ltac:(apply N.div_lt; lia)
              (String (pretty_N_char (n `mod` 10)) s)) as (k & Hk & Hp).
  exists (k + 1). split; [lia|]. rewrite Hp. simpl.
  rewrite digit_val_pretty_char by (apply N.mod_lt; lia). simpl.
  f_equal. rewrite Z.pow_add_r by lia.
  pose proof (N.div_mod n 10 ltac:(done)). lia.
Qed.

Lemma pretty_N_go_cons n s :
  s <> "" -> exists a t, pretty_N_go n s = String a t.
Proof.
  revert s. induction (N.lt_wf_0 n) as [n _ IH]. intros s Hs.
  destruct (decide (n = 0)%N) as [->|Hn].
  { rewrite pretty_N_go_0. destruct s; [done|]. eauto. }
  rewrite pretty_N_go_step by lia. apply IH; [apply N.div_lt; lia|done].
Qed.

Lemma parse_nat_pretty_pos p : parse_nat (pretty (N.pos p)) = Some (Z.pos p).
Proof.
  unfold pretty, pretty_N. rewrite decide_False by done.
  destruct (parse_digits_go (N.pos p) 0 "") as (k & _ & Hp).
  unfold parse_nat. simpl in Hp.
  destruct (pretty_N_go (N.pos p) "") as [|a t] eqn:E; [|by rewrite Hp].
  rewrite pretty_N_go_step in E by lia.
  by destruct (pretty_N_go_cons (N.pos p `div` 10)%N
    (String (pretty_N_char (N.pos p `mod` 10)) "")) as (? & ? & ?); [|congruence].
Qed.

(** A printed number contains only digits: every byte of it satisfies any
    predicate that holds of the digits. *)
Lemma pretty_N_go_forall (P : ascii -> bool) n s :
  (forall d, (d < 10)%N -> P (pretty_N_char d) = true) ->
  forallb P (list_ascii_of_string s) = true ->
  forallb P (list_ascii_of_string (pretty_N_go n s)) = true.
Proof.
  intros HP. revert s. induction (N.lt_wf_0 n) as [n _ IH]. intros s Hs.
  destruct (decide (n = 0)%N) as [->|Hn]; [by rewrite pretty_N_go_0|].
  rewrite pretty_N_go_step by lia. apply IH; [apply N.div_lt; lia|].
  simpl. rewrite HP by (apply N.mod_lt; lia). done.
Qed.

Lemma str_contains_forallb c s :
  str_contains c s = existsb (fun a => bool_decide (a = c)) (list_ascii_of_string s).
Proof. induction s as [|a s IH]; [done|]. simpl. by rewrite IH. Qed.

Definition is_digit (a : ascii) : bool := bool_decide (is_Some (digit_val a)).

Lemma is_digit_pretty_char d : (d < 10)%N -> is_digit (pretty_N_char d) = true.
Proof.
  intros Hd. unfold is_digit. apply bool_decide_eq_true_2.
  rewrite digit_val_pretty_char by done. eauto.
Qed.

Lemma pretty_pos_digits p :
  forallb is_digit (list_ascii_of_string (pretty (N.pos p))) = true.
Proof.
  unfold pretty, pretty_N. rewrite decide_False by done.
  apply pretty_N_go_forall; [apply is_digit_pretty_char|done].
Qed.

Lemma digits_not_contains c s :
  is_digit c = false -> forallb is_digit (list_ascii_of_string s) = true ->
  str_contains c s = false.
Proof.
  intros Hc Hs. induction s as [|a s IH]; [done|]. simpl in *.
  apply andb_true_iff in Hs as [Ha Hs]. rewrite IH by done.
  rewrite bool_decide_eq_false_2; [done|]. congruence.
Qed.

Lemma pretty_nonneg_not_contains c z :
  is_digit c = false -> 0 <= z -> str_contains c (pretty z) = false.
Proof.
  intros Hc Hz. destruct z as [|p|p]; [|by apply digits_not_contains, pretty_pos_digits|lia].
  apply digits_not_contains; done.
Qed.

Lemma trim_space_id s :
  forallb (fun a => negb (is_space a)) (list_ascii_of_string s) = true -> trim_space s = s.
Proof.
  intros Hs. unfold trim_space.
  assert (trim_left s = s) as ->.
  { destruct s as [|a s]; [done|]. simpl in *.
    apply andb_true_iff in Hs as [Ha _]. by destruct (is_space a). }
  induction s as [|a s IH]; [done|]. simpl in *.
  apply andb_true_iff in Hs as [Ha Hs]. rewrite (IH Hs).
  destruct s; [by destruct (is_space a)|done].
Qed.

Lemma digit_not_space a : is_digit a = true -> is_space a = false.
Proof. destruct a as [[] [] [] [] [] [] [] []]; by vm_compute. Qed.

Lemma pretty_nonneg_trim z : 0 <= z -> trim_space (pretty z) = pretty z.
Proof.
  intros Hz. apply trim_space_id. destruct z as [|p|p]; [done| |lia].
  change (pretty (Z.pos p)) with (pretty (N.pos p)).
  generalize (pretty_pos_digits p). induction (list_ascii_of_string _) as [|a l IH]; [done|].
  simpl. intros [Ha Hl]%andb_true_iff. by rewrite (digit_not_space _ Ha), IH.
Qed.

Lemma atoi_digits s :
  forallb is_digit (list_ascii_of_string s) = true ->
  atoi s = (z ← parse_nat s; check_i64 z).
Proof.
  intros Hs. destruct s as [|a s]; [done|]. simpl in Hs.
  apply andb_true_iff in Hs as [Ha _].
  destruct (decide (a = "-"%char)) as [->|]; [done|].
  destruct (decide (a = "+"%char)) as [->|]; [done|].
  destruct a as [[] [] [] [] [] [] [] []]; try done.
Qed.

(** Printing an [int] with [%d] and reading it back with [strconv.Atoi]. *)
Lemma atoi_pretty z : in_i64 z -> atoi (pretty z) = Some z.
Proof.
  intros Hz. destruct z as [|p|p]; [done| |].
  - change (pretty (Z.pos p)) with (pretty (N.pos p)).
    rewrite atoi_digits by apply pretty_pos_digits.
    rewrite parse_nat_pretty_pos. simpl. unfold check_i64. by rewrite decide_True.
  - change (pretty (Z.neg p)) with (String "-" (pretty (N.pos p))). unfold atoi.
    rewrite parse_nat_pretty_pos. simpl. unfold check_i64. by rewrite decide_True.
Qed.

(** ** Membership tests on lists *)

Lemma bool_decide_elem_of_cons `{EqDecision A} (x y : A) l :
  bool_decide (x ∈ y :: l) = bool_decide (x = y) || bool_decide (x ∈ l).
Proof.
  repeat case_bool_decide; try done; set_solver.
Qed.

Lemma bool_decide_elem_of_nil `{EqDecision A} (x : A) : bool_decide (x ∈ []) = false.
Proof. apply bool_decide_eq_false_2, not_elem_of_nil. Qed.

(** ** Loops

    A [for range] loop that updates a state is a [foldl].  [foldl_inv] is the
    loop invariant rule; [foldl_fixed] characterises the loops that leave an
    accumulator unchanged when no iteration can shrink it. *)

Lemma foldl_inv {A B} (I : A -> Prop) (f : A -> B -> A) l a :
  I a -> (forall a b, b ∈ l -> I a -> I (f a b)) -> I (foldl f a l).
Proof.
  revert a. induction l as [|b l IH]; intros a Ha Hf; simpl; [done|].
  apply IH; [apply Hf; [left|done]|]. intros a' b' Hb'. apply Hf. by right.
Qed.

Lemma foldl_fixed {A B} (R : relation A) `{!PartialOrder R} (P : B -> Prop) (f : A -> B -> A) l a :
  (forall a b, b ∈ l -> R a (f a b)) ->
  (forall a b, b ∈ l -> f a b = a <-> P b) ->
  foldl f a l = a <-> Forall P l.
Proof.
  intros HR HP. split.
  - revert a. induction l as [|b l IH]; intros a Hf; [done|]. simpl in Hf.
    assert (R (f a b) a) as Hle.
    { rewrite <- Hf at 2. apply (foldl_inv (R (f a b))); [done|].
      intros a' b' Hb' Ha'. etrans; [done|]. apply HR. by right. }
    assert (f a b = a) as Heq by (apply (anti_symm R); [done|apply HR; left]).
    constructor; [by apply (HP a); [left|]|].
    rewrite Heq in Hf. apply (IH (fun a b Hb => HR a b (list_elem_of_further _ _ _ Hb))
      (fun a b Hb => HP a b (list_elem_of_further _ _ _ Hb)) a Hf).
  - intros HF. induction HF as [|b l Hb _ IH]; [done|]. simpl.
    rewrite (proj2 (HP a b (list_elem_of_here _ _)) Hb).
    apply IH; intros a' b' Hb'; [apply HR|apply HP]; by right.
Qed.

Lemma StronglySorted_filter {A} (R : relation A) (P : A -> Prop) `{forall x, Decision (P x)} l :
  StronglySorted R l -> StronglySorted R (filter P l).
Proof.
  induction 1 as [|x l Hl IH Hx]; [rewrite filter_nil; constructor|].
  rewrite filter_cons. case_decide; [|done]. constructor; [done|].
  apply Forall_forall. intros y Hy. apply list_elem_of_filter in Hy as [_ Hy].
  rewrite Forall_forall in Hx. by apply Hx.
Qed.

Lemma forallb_fmap {A} (f : A -> bool) l :
  forallb id (f <$> l) = true <-> forall x, x ∈ l -> f x = true.
Proof.
  rewrite forallb_forall. setoid_rewrite <- list_elem_of_In. split.
  - intros H x Hx. by apply H, list_elem_of_fmap_2.
  - intros H x (y & -> & Hy)%list_elem_of_fmap. by apply H.
Qed.
