(* ===== verification/Events.v ===== *)
(** * Event reasons

    internal/controller/events.go: the reasons under which the controller records Kubernetes events. *)

From S2P Require Import Prelude.

Definition EventRollingRestartStarted := "RollingRestartStarted".
Definition EventRollingRestartDeferred := "RollingRestartDeferred".
Definition EventRollingRestartCompleted := "RollingRestartCompleted".
Definition EventRestartFailed := "RestartFailed".
Definition EventPodWarmRestarted := "PodWarmRestarted".
Definition EventPodColdRestarted := "PodColdRestarted".
Definition EventLocalPVCDeleteFailed := "LocalPVCDeleteFailed".
Definition EventNodeQuiesceStarted := "NodeQuiesceStarted".
Definition EventNodeQuiesced := "NodeQuiesced".
Definition EventNodeQuiesceFailed := "NodeQuiesceFailed".
Definition EventConfigMapCreated := "ConfigMapCreated".
Definition EventConfigMapUpdated := "ConfigMapUpdated".
Definition EventDynamicConfigApplied := "DynamicConfigApplied".
Definition EventDynamicConfigStatusFailed := "DynamicConfigStatusFailed".
Definition EventDynamicConfigDegraded := "DynamicConfigDegraded".
Definition EventDynamicConfigRollback := "DynamicConfigRollback".
Definition EventConfigDegradedSkip := "ConfigDegradedSkip".
Definition EventStatefulSetCreated := "StatefulSetCreated".
Definition EventStatefulSetUpdated := "StatefulSetUpdated".
Definition EventRackScaled := "RackScaled".
Definition EventScaleDownDeferred := "ScaleDownDeferred".
Definition EventACLSyncStarted := "ACLSyncStarted".
Definition EventACLSyncCompleted := "ACLSyncCompleted".
Definition EventACLSyncError := "ACLSyncError".
Definition EventPDBCreated := "PDBCreated".
Definition EventPDBUpdated := "PDBUpdated".
Definition EventPDBNameConflict := "PDBNameConflict".
Definition EventPDBPerRackBudget := "PDBPerRackBudget".
Definition EventServiceCreated := "ServiceCreated".
Definition EventServiceUpdated := "ServiceUpdated".
Definition EventServiceDeleted := "ServiceDeleted".
Definition EventPaused := "ReconciliationPaused".
Definition EventResumed := "ReconciliationResumed".
Definition EventClusterDeletionStarted := "ClusterDeletionStarted".
Definition EventFinalizerRemoved := "FinalizerRemoved".
Definition EventTemplateApplied := "TemplateApplied".
Definition EventTemplateResolutionError := "TemplateResolutionError".
Definition EventTemplateDrifted := "TemplateDrifted".
Definition EventReadinessGateSatisfied := "ReadinessGateSatisfied".
Definition EventReadinessGateBlocking := "ReadinessGateBlocking".
Definition EventMigrationCheckFailed := "MigrationCheckFailed".
Definition EventMigrationCheckUnavailable := "MigrationCheckUnavailable".
Definition EventPVCCleanedUp := "PVCCleanedUp".
Definition EventPVCCleanupFailed := "PVCCleanupFailed".
Definition EventCircuitBreakerActive := "CircuitBreakerActive".
Definition EventCircuitBreakerReset := "CircuitBreakerReset".
Definition EventPermanentError := "PermanentError".
Definition EventValidationWarning := "ValidationWarning".
Definition EventReconcileError := "ReconcileError".
Definition EventOperation := "Operation".

(** All of them. *)
Definition eventReasons : list string :=
  [EventRollingRestartStarted; EventRollingRestartDeferred; EventRollingRestartCompleted; EventRestartFailed;
   EventPodWarmRestarted; EventPodColdRestarted; EventLocalPVCDeleteFailed; EventNodeQuiesceStarted;
   EventNodeQuiesced; EventNodeQuiesceFailed; EventConfigMapCreated; EventConfigMapUpdated;
   EventDynamicConfigApplied; EventDynamicConfigStatusFailed; EventDynamicConfigDegraded; EventDynamicConfigRollback;
   EventConfigDegradedSkip; EventStatefulSetCreated; EventStatefulSetUpdated; EventRackScaled;
   EventScaleDownDeferred; EventACLSyncStarted; EventACLSyncCompleted; EventACLSyncError;
   EventPDBCreated; EventPDBUpdated; EventPDBNameConflict; EventPDBPerRackBudget;
   EventServiceCreated; EventServiceUpdated; EventServiceDeleted; EventPaused;
   EventResumed; EventClusterDeletionStarted; EventFinalizerRemoved; EventTemplateApplied;
   EventTemplateResolutionError; EventTemplateDrifted; EventReadinessGateSatisfied; EventReadinessGateBlocking;
   EventMigrationCheckFailed; EventMigrationCheckUnavailable; EventPVCCleanedUp; EventPVCCleanupFailed;
   EventCircuitBreakerActive; EventCircuitBreakerReset; EventPermanentError; EventValidationWarning;
   EventReconcileError; EventOperation].

(** No two share their text, so an event tells what happened. *)
Lemma eventReasons_distinct : NoDup eventReasons.
Proof. by apply (bool_decide_unpack _). Qed.
