(* ===== verification/GoValue.v ===== *)
(** * Dynamically typed configuration values

    The operator handles [aerospikeConfig] as [map[string]any].  This file models
    those values: the scalars a decoder or a defaulter can put there, slices
    and string-keyed maps, the map primitives of the language ([m[k]],
    [m[k] = v], [delete], [len], key iteration, [slices.Sort] over keys), and
    [float64] conversion and comparison as IEEE 754 binary64.

    A Go map is an association list with pairwise distinct keys ([map_wf]).
    The order of the list is the order in which a [for range] loop happens to
    visit the entries, so a statement proved for every well-formed list holds
    for every iteration order the runtime may choose. *)

From S2P Require Import Prelude.

From Stdlib Require Import SpecFloat.

(** ** Maps *)

Abbreviation gomap A := (list (string * A)).

Definition map_keys {A} (m : gomap A) : list string := m.*1.

Fixpoint map_get {A} (k : string) (m : gomap A) : option A :=
  match m with
  | [] => None
  | (k', v) :: m => if decide (k = k') then Some v else map_get k m
  end.

Fixpoint map_set {A} (k : string) (v : A) (m : gomap A) : gomap A :=
  match m with
  | [] => [(k, v)]
  | (k', v') :: m => if decide (k = k') then (k, v) :: m else (k', v') :: map_set k v m
  end.

Definition map_del {A} (k : string) (m : gomap A) : gomap A :=
  filter (fun p => p.1 <> k) m.

Definition map_has {A} (k : string) (m : gomap A) : bool :=
  bool_decide (is_Some (map_get k m)).

Definition map_wf {A} (m : gomap A) : Prop := NoDup (map_keys m).

(** Keys collected by a range loop and sorted bytewise ([slices.Sort]). *)
Definition sortedKeys {A} (m : gomap A) : list string :=
  merge_sort String.le (map_keys m).

Section maps.
Context {A : Type}.
Implicit Types (m : gomap A) (k : string) (v : A).

Lemma map_get_set_eq k v m : map_get k (map_set k v m) = Some v.
Proof.
  induction m as [|[k' v'] m IH]; simpl; [by rewrite decide_True|].
  case_decide; simpl; [by rewrite decide_True|by rewrite decide_False].
Qed.

Lemma map_get_set_ne k k' v m : k <> k' -> map_get k (map_set k' v m) = map_get k m.
Proof.
  intros Hk. induction m as [|[k1 v1] m IH]; simpl; [by rewrite decide_False|].
  case_decide; simpl; subst; [by repeat case_decide|by rewrite IH].
Qed.

Lemma map_get_set k k' v m :
  map_get k (map_set k' v m) = if decide (k = k') then Some v else map_get k m.
Proof.
  case_decide; subst; [apply map_get_set_eq|by apply map_get_set_ne].
Qed.

Lemma map_get_Some_in k v m : map_get k m = Some v -> (k, v) ∈ m.
Proof.
  induction m as [|[k' v'] m IH]; simpl; [done|].
  case_decide; intros; simplify_eq; [left|right; auto].
Qed.

Lemma map_get_None k m : map_get k m = None <-> k ∉ map_keys m.
Proof.
  unfold map_keys. induction m as [|[k' v'] m IH]; simpl.
  { split; [intros _; apply not_elem_of_nil|done]. }
  rewrite not_elem_of_cons. case_decide; [by split; [|intros [? _]]|]. rewrite IH. by split; [|intros [_ ?]].
Qed.

Lemma map_get_is_Some k m : is_Some (map_get k m) <-> k ∈ map_keys m.
Proof.
  destruct (map_get k m) as [v|] eqn:E.
  - apply map_get_Some_in in E. split; [intros _|by eauto].
    apply list_elem_of_fmap. by exists (k, v).
  - apply map_get_None in E. split; [by intros [? ?]|done].
Qed.

Lemma map_get_Some k v m : map_wf m -> map_get k m = Some v <-> (k, v) ∈ m.
Proof.
  intros Hm. split; [apply map_get_Some_in|].
  unfold map_wf, map_keys in Hm.
  induction m as [|[k' v'] m IH]; simpl; [by rewrite elem_of_nil|].
  apply NoDup_cons in Hm as [Hk Hm]. rewrite elem_of_cons.
  intros [[= -> ->]|Hin]; [by rewrite decide_True|].
  rewrite decide_False; [by apply IH|]. intros ->. apply Hk.
  apply list_elem_of_fmap. by exists (k', v).
Qed.

Lemma map_wf_permutation m1 m2 : m1 ≡ₚ m2 -> map_wf m1 -> map_wf m2.
Proof. unfold map_wf, map_keys. by intros ->. Qed.

Lemma map_get_permutation k m1 m2 : map_wf m1 -> m1 ≡ₚ m2 -> map_get k m1 = map_get k m2.
Proof.
  intros H1 Hp. pose proof (map_wf_permutation _ _ Hp H1) as H2.
  destruct (map_get k m2) as [v|] eqn:E.
  - apply map_get_Some; [done|]. rewrite Hp. by apply map_get_Some.
  - apply map_get_None in E. apply map_get_None. unfold map_keys in *. by rewrite Hp.
Qed.

Lemma map_keys_set k v m :
  map_keys (map_set k v m) = if decide (k ∈ map_keys m) then map_keys m else map_keys m ++ [k].
Proof.
  unfold map_keys. induction m as [|[k' v'] m IH].
  - case_decide as Hin; [by apply not_elem_of_nil in Hin|done].
  - simpl. destruct (decide (k = k')) as [->|Hk]; csimpl.
    + rewrite decide_True by left. done.
    + rewrite IH. destruct (decide (k ∈ m.*1)) as [Hin|Hin].
      * rewrite decide_True by by right. done.
      * rewrite decide_False; [done|]. by rewrite not_elem_of_cons.
Qed.

Lemma map_wf_set k v m : map_wf m -> map_wf (map_set k v m).
Proof.
  unfold map_wf. intros Hm. rewrite map_keys_set. case_decide; [done|].
  apply NoDup_app. split; [done|]. split; [|apply NoDup_singleton].
  set_solver.
Qed.

Lemma map_wf_nil : map_wf ([] : gomap A).
Proof. apply NoDup_nil_2. Qed.

Lemma map_wf_del k m : map_wf m -> map_wf (map_del k m).
Proof.
  unfold map_wf, map_keys, map_del. induction m as [|[k' v'] m IH]; simpl; [done|].
  intros [Hk Hm]%NoDup_cons. rewrite filter_cons. case_decide; simpl; [|auto].
  apply NoDup_cons. split; [|auto]. intros Hin. apply Hk.
  apply list_elem_of_fmap in Hin as (p & -> & Hp).
  apply list_elem_of_filter in Hp as [_ Hp]. apply list_elem_of_fmap. eauto.
Qed.

Lemma map_get_del k k' m :
  map_get k (map_del k' m) = if decide (k = k') then None else map_get k m.
Proof.
  unfold map_del. induction m as [|[k1 v1] m IH].
  { rewrite filter_nil. by case_decide. }
  destruct (decide (k1 = k')) as [->|Hk].
  - rewrite filter_cons_False by naive_solver. rewrite IH. simpl. by repeat case_decide.
  - rewrite filter_cons_True by done. simpl. rewrite IH. by repeat case_decide; simplify_eq.
Qed.

Lemma sortedKeys_permutation m1 m2 : m1 ≡ₚ m2 -> sortedKeys m1 = sortedKeys m2.
Proof.
  intros Hp. apply (StronglySorted_unique String.le).
  - apply (StronglySorted_merge_sort String.le).
  - apply (StronglySorted_merge_sort String.le).
  - unfold sortedKeys. rewrite !merge_sort_Permutation. unfold map_keys. by rewrite Hp.
Qed.

Lemma elem_of_sortedKeys k m : k ∈ sortedKeys m <-> is_Some (map_get k m).
Proof.
  unfold sortedKeys. rewrite map_get_is_Some.
  by rewrite (merge_sort_Permutation String.le (map_keys m)).
Qed.

Lemma sortedKeys_sorted m : StronglySorted String.le (sortedKeys m).
Proof. apply (StronglySorted_merge_sort String.le). Qed.

End maps.

Create HintDb gomap.
Create Rewrite HintDb gomap.
#[export] Hint Resolve map_wf_set map_wf_nil map_wf_del : gomap.
#[export] Hint Rewrite @map_get_set_eq @map_get_del : gomap.

(** ** Values *)

Inductive int_kind := KInt | KInt32 | KInt64 | KUint | KUint32 | KUint64.

Inductive any :=
| ANil
| ABool (b : bool)
| AInt (k : int_kind) (z : Z)
| AFloat32 (f : spec_float)
| AFloat64 (f : spec_float)
| AString (s : string)
| AList (l : list any)
| AMap (m : gomap any).

#[export] Instance int_kind_eq_dec : EqDecision int_kind.
Proof. solve_decision. Defined.
#[export] Instance spec_float_eq_dec : EqDecision spec_float.
Proof. solve_decision. Defined.

(** Equality of values is decidable. *)
#[export] Instance any_eq_dec : EqDecision any.
Proof.
  unfold EqDecision. fix go 1. intros x y.
  refine (match x, y with
          | ANil, ANil => left _
          | ABool b, ABool b' => cast_if (decide (b = b'))
          | AInt k z, AInt k' z' => cast_if_and (decide (k = k')) (decide (z = z'))
          | AFloat32 f, AFloat32 f' => cast_if (decide (f = f'))
          | AFloat64 f, AFloat64 f' => cast_if (decide (f = f'))
          | AString s, AString s' => cast_if (decide (s = s'))
          | AList l, AList l' => cast_if ((fix gol (l l' : list any) {struct l} : Decision (l = l') :=
              match l, l' with
              | [], [] => left _
              | v :: l, v' :: l' => cast_if_and (go v v') (gol l l')
              | _, _ => right _
              end) l l')
          | AMap m, AMap m' => cast_if ((fix gom (m m' : gomap any) {struct m} : Decision (m = m') :=
              match m, m' with
              | [], [] => left _
              | (k, v) :: m, (k', v') :: m' => cast_if_and3 (decide (k = k')) (go v v') (gom m m')
              | _, _ => right _
              end) m m')
          | _, _ => right _
          end); try congruence.
Defined.

(** Induction over nested lists and maps. *)
Section any_ind.
Variable P : any -> Prop.
Hypothesis Hnil : P ANil.
Hypothesis Hbool : forall b, P (ABool b).
Hypothesis Hint : forall k z, P (AInt k z).
Hypothesis Hf32 : forall f, P (AFloat32 f).
Hypothesis Hf64 : forall f, P (AFloat64 f).
Hypothesis Hstring : forall s, P (AString s).
Hypothesis Hlist : forall l, Forall P l -> P (AList l).
Hypothesis Hmap : forall m : gomap any, Forall (fun e => P e.2) m -> P (AMap m).

Fixpoint any_rec_ind (v : any) : P v :=
  match v with
  | ANil => Hnil
  | ABool b => Hbool b
  | AInt k z => Hint k z
  | AFloat32 f => Hf32 f
  | AFloat64 f => Hf64 f
  | AString s => Hstring s
  | AList l =>
      Hlist l ((fix go l := match l return Forall P l with
                | [] => Forall_nil_2 _
                | x :: l => Forall_cons_2 _ _ _ (any_rec_ind x) (go l)
                end) l)
  | AMap m =>
      Hmap m ((fix go (m : gomap any) := match m return Forall (fun e => P e.2) m with
               | [] => Forall_nil_2 _
               | e :: m => Forall_cons_2 _ _ _ (any_rec_ind e.2) (go m)
               end) m)
  end.
End any_ind.

(** Type assertions [v.(T)] with the comma-ok form. *)
Definition as_map (v : any) : option (gomap any) :=
  match v with AMap m => Some m | _ => None end.
Definition as_list (v : any) : option (list any) :=
  match v with AList l => Some l | _ => None end.
Definition as_string (v : any) : option string :=
  match v with AString s => Some s | _ => None end.

(** [m[k]] on a map whose value type is [any]: the zero value is [nil]. *)
Definition map_index (k : string) (m : gomap any) : any := default ANil (map_get k m).

(** Keys of every map inside a value are pairwise distinct. *)
Fixpoint any_wf (v : any) : Prop :=
  match v with
  | AList l => Forall id (any_wf <$> l)
  | AMap m => map_wf m /\ Forall id ((fun e => any_wf e.2) <$> m)
  | _ => True
  end.

#[global] Arguments any_wf _ : simpl never.

Definition config_wf (m : gomap any) : Prop := any_wf (AMap m).

(** ** binary64 *)

Definition float64_of_Z (z : Z) : spec_float := binary_normalize 53 1024 z 0 false.

Definition float64_widen (f : spec_float) : spec_float :=
  match f with S754_finite s m e => binary_round 53 1024 s m e | _ => f end.

(** [reflect.DeepEqual] on values of this shape: same dynamic type, and equal
    contents; floats compare with [==], so a NaN differs from itself.  (Decoded
    configuration has neither NaNs nor nil slices, the two cases in which
    [DeepEqual] also looks at identity.) *)
Fixpoint deepEqual (a b : any) : bool :=
  match a, b with
  | ANil, ANil => true
  | ABool x, ABool y => Bool.eqb x y
  | AInt k x, AInt k' y => bool_decide (k = k') && (x =? y)
  | AFloat32 x, AFloat32 y | AFloat64 x, AFloat64 y => SFeqb x y
  | AString x, AString y => bool_decide (x = y)
  | AList x, AList y =>
      (fix go x y := match x, y with
       | [], [] => true
       | a :: x, b :: y => deepEqual a b && go x y
       | _, _ => false
       end) x y
  | AMap x, AMap y =>
      bool_decide (length x = length y) &&
      forallb id ((fun e => match map_get e.1 y with
                            | Some b => deepEqual e.2 b
                            | None => false
                            end) <$> x)
  | _, _ => false
  end.

(** What the Go specification leaves to the implementation or the library's
    float formatter: the shortest [%g] rendering of a non-integral float and
    the result of converting an out-of-range float to an integer. *)
Class GoPlatform := {
  fmt_g : spec_float -> string;
  f2i_undef : spec_float -> Z;
  f2i32_undef : spec_float -> Z
}.

(** The integer part of a float, [None] for infinities and NaN. *)
Definition float_trunc (f : spec_float) : option Z :=
  match f with
  | S754_zero _ => Some 0
  | S754_finite s m e =>
      let a := if 0 <=? e then Z.pos m * 2 ^ e else Z.pos m / 2 ^ (- e) in
      Some (if s then - a else a)
  | _ => None
  end.

(** [int64(f)] (and [int(f)], which has the same width). *)
Definition int64_of_float `{GoPlatform} (f : spec_float) : Z :=
  match float_trunc f with
  | Some z => if decide (in_i64 z) then z else f2i_undef f
  | None => f2i_undef f
  end.

(** [int32(f)]. *)
Definition int32_of_float `{GoPlatform} (f : spec_float) : Z :=
  match float_trunc f with
  | Some z => if decide (in_i32 z) then z else f2i32_undef f
  | None => f2i32_undef f
  end.

(** [maps.Equal] on string maps. *)
Definition mapsEqual (a b : gomap string) : bool :=
  bool_decide (length a = length b) && forallb (fun e => bool_decide (map_get e.1 b = Some e.2)) a.

(** [maps.Copy(dst, src)]. *)
Definition mapsCopy {A} (dst src : gomap A) : gomap A :=
  foldl (fun m e => map_set e.1 e.2 m) dst src.

(** An instance to evaluate concrete cases with: out-of-range conversions give
    the minimum integer, as the amd64 instruction does. *)
Definition sample_platform : GoPlatform := {|
  fmt_g := fun f => match float_trunc f with Some z => pretty z +:+ ".x" | None => "NaN" end;
  f2i_undef := fun _ => - 2 ^ 63;
  f2i32_undef := fun _ => - 2 ^ 31
|}.

(** ** Lemmas on string maps *)

Lemma map_get_copy {A} (dst src : gomap A) k :
  map_wf src ->
  map_get k (mapsCopy dst src) = match map_get k src with Some v => Some v | None => map_get k dst end.
Proof.
  unfold mapsCopy. revert dst. induction src as [|[k' v'] src IH]; intros dst Hwf; [done|]. csimpl.
  apply NoDup_cons in Hwf as [Hk Hwf]. rewrite IH by done. case_decide as Hd; subst.
  - apply map_get_None in Hk. simpl in Hk. by rewrite Hk, map_get_set_eq.
  - by rewrite map_get_set_ne.
Qed.

Lemma mapsEqual_refl a : map_wf a -> mapsEqual a a = true.
Proof.
  intros Ha. apply andb_true_intro. split; [by apply bool_decide_eq_true|].
  apply forallb_forall. intros [k v] Hin%list_elem_of_In. apply bool_decide_eq_true. by apply map_get_Some.
Qed.

Lemma map_keys_eq {A} (a b : gomap A) :
  map_wf a -> map_wf b -> length a = length b -> (forall k, k ∈ map_keys a -> k ∈ map_keys b) ->
  forall k, k ∈ map_keys b -> k ∈ map_keys a.
Proof.
  intros Ha Hb Hl Hsub k Hk.
  assert (map_keys a ≡ₚ map_keys b) as Hp; [|by rewrite Hp].
  apply submseteq_length_Permutation; [by apply NoDup_submseteq|].
  unfold map_keys. rewrite !length_fmap. lia.
Qed.

(** On maps, [maps.Equal] is equality of the associations. *)
Lemma mapsEqual_get a b :
  map_wf a -> map_wf b -> mapsEqual a b = true -> forall k, map_get k a = map_get k b.
Proof.
  intros Ha Hb [Hl Hall]%andb_prop k. apply bool_decide_eq_true in Hl.
  assert (forall k v, map_get k a = Some v -> map_get k b = Some v) as Hab.
  { intros k' v Hk. apply map_get_Some in Hk; [|done]. rewrite forallb_forall in Hall.
    specialize (Hall _ (proj1 (list_elem_of_In _ _) Hk)). by apply bool_decide_eq_true in Hall. }
  destruct (map_get k a) as [v|] eqn:Hk; [by rewrite (Hab _ _ Hk)|].
  destruct (map_get k b) as [v|] eqn:Hkb; [|done]. exfalso. apply map_get_None in Hk. apply Hk.
  apply (map_keys_eq a b); [done..| |].
  - intros k' [v' Hv']%map_get_is_Some. apply map_get_is_Some. exists v'. by apply Hab.
  - apply map_get_is_Some. by exists v.
Qed.

(** ** Lemmas on values *)

Lemma map_index_permutation k m1 m2 :
  map_wf m1 -> m1 ≡ₚ m2 -> map_index k m1 = map_index k m2.
Proof. intros ??. unfold map_index. by erewrite map_get_permutation. Qed.

Lemma any_wf_map_wf m : any_wf (AMap m) -> map_wf m.
Proof. by intros [? _]. Qed.

Lemma any_wf_entry m k v : any_wf (AMap m) -> map_get k m = Some v -> any_wf v.
Proof.
  intros [_ Hf] Hk%map_get_Some_in. rewrite Forall_fmap, Forall_forall in Hf.
  exact (Hf _ Hk).
Qed.

Lemma any_wf_list l v : any_wf (AList l) -> v ∈ l -> any_wf v.
Proof.
  change (any_wf (AList l)) with (Forall id (any_wf <$> l)).
  rewrite Forall_fmap, Forall_forall. intros H Hv. exact (H _ Hv).
Qed.

Lemma any_wf_map_set m k v :
  any_wf (AMap m) -> any_wf v -> any_wf (AMap (map_set k v m)).
Proof.
  intros [Hm Hf] Hv. split; [by apply map_wf_set|].
  rewrite Forall_fmap in *. clear Hm.
  induction m as [|[k' v'] m IH]; simpl; [by repeat constructor|].
  apply Forall_cons in Hf as [? Hf]. case_decide; constructor; auto.
Qed.

#[export] Hint Resolve any_wf_map_wf any_wf_map_set : gomap.

(** ** Exactness of [float64(n)] below 2^53 *)

Lemma digits2_pos_shift m k :
  Z.pos (digits2_pos (Pos.iter xO m k)) = Z.pos (digits2_pos m) + Z.pos k.
Proof.
  revert m. induction k as [|k IH] using Pos.peano_ind; intros m; [simpl; lia|].
  rewrite Pos.iter_succ. simpl. rewrite Pos2Z.inj_succ, IH. lia.
Qed.

Lemma digits2_pos_bound m n : Z.pos m < 2 ^ n -> Z.pos (digits2_pos m) <= n.
Proof.
  revert n. induction m as [m IH|m IH|]; intros n Hn; simpl.
  - destruct (decide (1 <= n)) as [H1|H1].
    + specialize (IH (n - 1)). rewrite Pos2Z.inj_succ. enough (Z.pos m < 2 ^ (n - 1)) by lia.
      replace n with (Z.succ (n - 1)) in Hn by lia. rewrite Z.pow_succ_r in Hn by lia. lia.
    + assert (n = 0 \/ n < 0) as [->|H0] by lia; [lia|]. rewrite Z.pow_neg_r in Hn by lia. lia.
  - destruct (decide (1 <= n)) as [H1|H1].
    + specialize (IH (n - 1)). rewrite Pos2Z.inj_succ. enough (Z.pos m < 2 ^ (n - 1)) by lia.
      replace n with (Z.succ (n - 1)) in Hn by lia. rewrite Z.pow_succ_r in Hn by lia. lia.
    + assert (n = 0 \/ n < 0) as [->|H0] by lia; [lia|]. rewrite Z.pow_neg_r in Hn by lia. lia.
  - destruct (decide (1 <= n)) as [H1|H1]; [lia|].
    assert (n = 0 \/ n < 0) as [->|H0] by lia; [lia|]. rewrite Z.pow_neg_r in Hn by lia. lia.
Qed.

(** The mantissa of a small integer, aligned to 53 digits. *)
Definition aligned (m : positive) : positive :=
  match (Z.pos (digits2_pos m) - 53)%Z with Zneg d => Pos.iter xO m d | _ => m end.

Lemma aligned_digits m :
  Z.pos (digits2_pos m) <= 53 -> Z.pos (digits2_pos (aligned m)) = 53.
Proof.
  intros Hm. unfold aligned. destruct (Z.pos (digits2_pos m) - 53) as [|d|d] eqn:E; [lia|lia|].
  rewrite digits2_pos_shift. lia.
Qed.

Lemma iter_xO_inj m m' d : Pos.iter xO m d = Pos.iter xO m' d -> m = m'.
Proof.
  induction d as [|d IH] using Pos.peano_ind; simpl; [by intros [=]|].
  rewrite !Pos.iter_succ. intros [= H]. by apply IH.
Qed.

Lemma aligned_inj m m' :
  digits2_pos m = digits2_pos m' -> aligned m = aligned m' -> m = m'.
Proof.
  unfold aligned. intros <-. destruct (_ - 53); [done|done|]. apply iter_xO_inj.
Qed.

Lemma shr_fexp_id m e :
  Z.pos (digits2_pos m) = 53 -> -1074 <= e ->
  shr_fexp 53 1024 (Z.pos m) e loc_Exact = (Build_shr_record (Z.pos m) false false, e).
Proof.
  intros Hm He. unfold shr_fexp. simpl Zdigits2. rewrite Hm.
  unfold fexp, emin. replace (Z.max _ _ - e) with 0 by lia. done.
Qed.

Lemma binary_round_small s m :
  Z.pos (digits2_pos m) <= 53 ->
  binary_round 53 1024 s m 0 = S754_finite s (aligned m) (Z.pos (digits2_pos m) - 53).
Proof.
  intros Hm. unfold binary_round.
  assert (fexp 53 1024 (Z.pos (digits2_pos m) + 0) = Z.pos (digits2_pos m) - 53) as Hfe
    by (unfold fexp, emin; lia).
  rewrite Hfe.
  assert (shl_align m 0 (Z.pos (digits2_pos m) - 53) = (aligned m, Z.pos (digits2_pos m) - 53)) as ->.
  { unfold shl_align, aligned. rewrite Z.sub_0_r.
    destruct (Z.pos (digits2_pos m) - 53) as [|d|d] eqn:E; [done|lia|done]. }
  unfold binary_round_aux. rewrite shr_fexp_id by (apply aligned_digits || lia; lia). simpl loc_of_shr_record.
  simpl shr_m. cbn [round_nearest_even]. rewrite shr_fexp_id by (apply aligned_digits || lia; lia).
  simpl shr_m. cbv iota beta. rewrite (proj2 (Z.leb_le _ _)) by lia. done.
Qed.

Definition exact_range (z : Z) : Prop := - 2 ^ 53 < z < 2 ^ 53.

Lemma SFeqb_pos s m m' e e' :
  SFeqb (S754_finite s m e) (S754_finite s m' e') = true <-> m = m' /\ e = e'.
Proof.
  unfold SFeqb, SFcompare. split.
  - destruct s; (destruct (Z.compare_spec e e') as [->| |]; [|done..]).
    all: change (Pos.compare_cont Eq m m') with (Pos.compare m m').
    all: destruct (Pos.compare_spec m m'); done.
  - intros [-> ->]. rewrite Z.compare_refl.
    change (Pos.compare_cont Eq m' m') with (Pos.compare m' m'). rewrite Pos.compare_refl.
    by destruct s.
Qed.

Lemma float64_of_Z_eqb a b :
  exact_range a -> exact_range b ->
  SFeqb (float64_of_Z a) (float64_of_Z b) = (a =? b).
Proof.
  intros Ha Hb.
  assert (forall p, exact_range (Z.pos p) -> Z.pos (digits2_pos p) <= 53) as Hd
    by (intros p Hp; apply digits2_pos_bound; unfold exact_range in Hp; lia).
  assert (forall p, exact_range (Z.neg p) -> Z.pos (digits2_pos p) <= 53) as Hd'
    by (intros p Hp; apply digits2_pos_bound; unfold exact_range in Hp; lia).
  assert (forall s p q, Z.pos (digits2_pos p) <= 53 -> Z.pos (digits2_pos q) <= 53 ->
    SFeqb (binary_round 53 1024 s p 0) (binary_round 53 1024 s q 0) = (Z.pos p =? Z.pos q)) as Heq.
  { intros s p q Hp Hq. rewrite !binary_round_small by done.
    apply eq_bool_prop_intro. rewrite !Is_true_true, SFeqb_pos, Z.eqb_eq.
    split; [|by intros [= ->]]. intros [Hm He]. f_equal. apply aligned_inj; [lia|done]. }
  unfold float64_of_Z, binary_normalize.
  destruct a as [|p|p], b as [|q|q]; try done;
    rewrite ?Heq by auto; try done; rewrite !binary_round_small by auto; done.
Qed.

(** ** Equality up to iteration order

    Two values that hold the same data and differ at most in the order in which
    their maps list their entries, at any depth. *)

Definition is_scalar (v : any) : bool :=
  match v with AList _ | AMap _ => false | _ => true end.

Inductive any_equiv : any -> any -> Prop :=
| eqv_scalar v : is_scalar v = true -> any_equiv v v
| eqv_list l l' : Forall2 any_equiv l l' -> any_equiv (AList l) (AList l')
| eqv_map m m1 m' :
    map_wf m -> m ≡ₚ m1 ->
    Forall2 (fun e e' => e.1 = e'.1 /\ any_equiv e.2 e'.2) m1 m' ->
    any_equiv (AMap m) (AMap m').

Definition map_equiv (m m' : gomap any) : Prop := any_equiv (AMap m) (AMap m').

Lemma Forall2_keys (R : any -> any -> Prop) (m m' : gomap any) :
  Forall2 (fun e e' => e.1 = e'.1 /\ R e.2 e'.2) m m' -> map_keys m = map_keys m'.
Proof.
  unfold map_keys. induction 1 as [|[k v] [k' v'] m m' [Hk _] _ IH]; [done|].
  csimpl. simpl in Hk. by rewrite Hk, IH.
Qed.

Lemma map_equiv_wf m m' : map_equiv m m' -> map_wf m /\ map_wf m'.
Proof.
  intros He. inversion He as [?|?|? m1 ? Hm Hp Hf]; simplify_eq.
  split; [done|]. unfold map_wf. rewrite <- (Forall2_keys any_equiv m1 m') by done.
  by apply (map_wf_permutation m).
Qed.

Lemma map_equiv_sortedKeys m m' : map_equiv m m' -> sortedKeys m = sortedKeys m'.
Proof.
  intros He. inversion He as [?|?|? m1 ? Hm Hp Hf]; simplify_eq.
  rewrite (sortedKeys_permutation m m1) by done. unfold sortedKeys.
  by rewrite (Forall2_keys any_equiv m1 m').
Qed.

Lemma map_equiv_get m m' k v :
  map_equiv m m' -> map_get k m = Some v -> exists v', map_get k m' = Some v' /\ any_equiv v v'.
Proof.
  intros He. inversion He as [?|?|? m1 ? Hm Hp Hf]; simplify_eq.
  rewrite (map_get_permutation k m m1) by done. clear He Hm Hp.
  induction Hf as [|[k1 v1] [k' v'] m1 m' [Hk Hv] _ IH]; simpl; [done|]. simpl in Hk. subst.
  case_decide; [|done]. intros [= ->]. eauto.
Qed.

(** A map written out key by key in sorted order, one piece per entry. *)
Lemma sorted_pieces_equiv {B} (f : string -> any -> B) m m' :
  map_equiv m m' ->
  (forall k v v', map_get k m = Some v -> any_equiv v v' -> f k v = f k v') ->
  (fun k => f k (map_index k m)) <$> sortedKeys m = (fun k => f k (map_index k m')) <$> sortedKeys m'.
Proof.
  intros He Hf. rewrite <- (map_equiv_sortedKeys m m') by done.
  assert (forall k, k ∈ sortedKeys m -> f k (map_index k m) = f k (map_index k m')) as Hk.
  { intros k [v Hv]%elem_of_sortedKeys. destruct (map_equiv_get m m' k v) as (v' & Hv' & Hvv); [done..|].
    unfold map_index. rewrite Hv, Hv'. by apply Hf. }
  induction (sortedKeys m) as [|k l IH]; [done|]. csimpl. f_equal.
  - apply Hk. left.
  - apply IH. intros k' ?. apply Hk. by right.
Qed.

Lemma map_equiv_index k m m' : map_equiv m m' -> any_equiv (map_index k m) (map_index k m').
Proof.
  intros He. unfold map_index. destruct (map_get k m) as [v|] eqn:E.
  - destruct (map_equiv_get m m' k v) as (v' & -> & ?); done.
  - assert (map_get k m' = None) as ->; [|by constructor].
    apply map_get_None. apply map_get_None in E. intros Hin. apply E.
    apply map_get_is_Some, elem_of_sortedKeys. rewrite (map_equiv_sortedKeys m m') by done.
    by apply elem_of_sortedKeys, map_get_is_Some.
Qed.

Lemma any_equiv_as_map v v' :
  any_equiv v v' ->
  match as_map v, as_map v' with
  | Some m, Some m' => map_equiv m m'
  | None, None => True
  | _, _ => False
  end.
Proof. intros He. inversion He as [x|?|]; subst; simpl; try done. by destruct v'. Qed.

Lemma any_equiv_as_list v v' :
  any_equiv v v' ->
  match as_list v, as_list v' with
  | Some l, Some l' => Forall2 any_equiv l l'
  | None, None => True
  | _, _ => False
  end.
Proof. intros He. inversion He as [x|?|]; subst; simpl; try done. by destruct v'. Qed.

Lemma any_equiv_as_string v v' : any_equiv v v' -> as_string v = as_string v'.
Proof. by inversion 1. Qed.

Lemma any_equiv_refl v : any_wf v -> any_equiv v v.
Proof.
  induction v as [| | | | | |l IH|m IH] using any_rec_ind; intros Hv; try by constructor.
  - apply eqv_list, Forall_Forall2_diag, Forall_forall. intros x Hx.
    rewrite Forall_forall in IH. apply IH; [done|]. by eapply any_wf_list.
  - apply (eqv_map m m m); [by apply any_wf_map_wf|done|].
    apply Forall_Forall2_diag, Forall_forall. intros [k x] Hx. split; [done|].
    rewrite Forall_forall in IH. apply (IH _ Hx). eapply any_wf_entry; [done|].
    apply map_get_Some; [by apply any_wf_map_wf|done].
Qed.

(** Reordering the entries of a well-formed map. *)
Lemma map_equiv_permutation m m' : config_wf m -> m ≡ₚ m' -> map_equiv m m'.
Proof.
  intros Hm Hp. apply (eqv_map m m' m'); [by apply any_wf_map_wf|done|].
  apply Forall_Forall2_diag, Forall_forall. intros [k x] Hx. split; [done|].
  apply any_equiv_refl. eapply any_wf_entry; [done|].
  apply map_get_Some; [by apply any_wf_map_wf|]. by rewrite Hp.
Qed.
