(* ===== verification/Utils.v ===== *)
(** * Package internal/utils

    Deep merging of configuration maps ([merge.go]), resource names
    ([names.go]), labels ([labels.go]) and the admin-user lookup ([acl.go]). *)

From S2P Require Import Prelude GoValue.

(** ** merge.go *)

(** [IntFromAny]: [int], [int64] and [float64] convert, anything else gives the
    fallback. *)
Definition IntFromAny `{GoPlatform} (v : any) (fallback : Z) : Z :=
  match v with
  | AInt KInt p => p
  | AInt KInt64 p => i64 p
  | AFloat64 p => int64_of_float p
  | _ => fallback
  end.

Fixpoint deepCopyValue (v : any) : any :=
  match v with
  | AMap t => AMap ((fun e => (e.1, deepCopyValue e.2)) <$> t)
  | AList t => AList (deepCopyValue <$> t)
  | _ => v
  end.

(** The value the override loop of [DeepMerge] stores under a key, given what
    [result] holds there ([None] when the key is absent). *)
Fixpoint mergeEntry (baseVal : option any) (overrideVal : any) {struct overrideVal} : any :=
  match baseVal, overrideVal with
  | Some (AMap baseMap), AMap overrideMap =>
      AMap (foldl (fun result e => map_set e.1 (mergeEntry (map_get e.1 result) e.2) result)
                  ((fun e => (e.1, deepCopyValue e.2)) <$> baseMap) overrideMap)
  | _, _ => deepCopyValue overrideVal
  end.

Definition DeepMerge (base override : gomap any) : gomap any :=
  foldl (fun result e => map_set e.1 (mergeEntry (map_get e.1 result) e.2) result)
        ((fun e => (e.1, deepCopyValue e.2)) <$> base) override.

(** ** names.go *)

Definition StatefulSetName (clusterName : string) (rackID : Z) : string :=
  clusterName +:+ "-" +:+ pretty rackID.
Definition HeadlessServiceName (clusterName : string) : string := clusterName.
Definition PodServiceName (clusterName : string) (podIndex : Z) : string :=
  clusterName +:+ "-" +:+ pretty podIndex.
Definition ConfigMapName (clusterName : string) (rackID : Z) : string :=
  clusterName +:+ "-" +:+ pretty rackID +:+ "-config".
Definition PDBName (clusterName : string) : string := clusterName +:+ "-pdb".
Definition RackPDBName (clusterName : string) (rackID : Z) : string :=
  clusterName +:+ "-" +:+ pretty rackID +:+ "-pdb".
Definition PodDNSName (podName serviceName namespace : string) : string :=
  podName +:+ "." +:+ serviceName +:+ "." +:+ namespace +:+ ".svc.cluster.local".
Definition MetricsServiceName (clusterName : string) : string := clusterName +:+ "-metrics".
Definition ServiceMonitorName (clusterName : string) : string := clusterName +:+ "-monitor".
Definition NetworkPolicyName (clusterName : string) : string := clusterName +:+ "-netpol".
Definition PrometheusRuleName (clusterName : string) : string := clusterName +:+ "-alerts".

(** ** labels.go *)

Definition AppLabel := "app.kubernetes.io/name".
Definition InstanceLabel := "app.kubernetes.io/instance".
Definition ComponentLabel := "app.kubernetes.io/component".
Definition ManagedByLabel := "app.kubernetes.io/managed-by".
Definition RackLabel := "acko.io/rack".
Definition ConfigHashAnnotation := "acko.io/config-hash".
Definition PodSpecHashAnnotation := "acko.io/podspec-hash".
Definition StorageHashAnnotation := "acko.io/storage-hash".
Definition StorageFinalizer := "acko.io/storage-finalizer".
Definition appName := "aerospike-cluster".
Definition managerName := "aerospike-ce-kubernetes-operator".

Definition LabelsForCluster (clusterName : string) : gomap string :=
  [(AppLabel, appName); (InstanceLabel, clusterName);
   (ComponentLabel, "database"); (ManagedByLabel, managerName)].

Definition SelectorLabelsForCluster (clusterName : string) : gomap string :=
  [(AppLabel, appName); (InstanceLabel, clusterName)].

Definition LabelsForRack (clusterName : string) (rackID : Z) : gomap string :=
  map_set RackLabel (pretty rackID) (LabelsForCluster clusterName).

(** A label selector matches an object whose labels carry every pair of it. *)
Definition selector_matches (sel labels : gomap string) : bool :=
  forallb (fun e => bool_decide (map_get e.1 labels = Some e.2)) sel.

(** ** acl.go *)

Record AerospikeUserSpec := {
  user_Name : string;
  user_SecretName : string;
  user_Roles : list string
}.

#[export] Instance AerospikeUserSpec_eq_dec : EqDecision AerospikeUserSpec.
Proof. solve_decision. Defined.

Definition hasAdminRoles (user : AerospikeUserSpec) : bool :=
  let '(hasSysAdmin, hasUserAdmin) :=
    foldl (fun '(s, u) role =>
      if decide (role = "sys-admin") then (true, u)
      else if decide (role = "user-admin") then (s, true)
      else (s, u)) (false, false) (user_Roles user) in
  hasSysAdmin && hasUserAdmin.

(** The index of the user is returned: the code returns a pointer into
    [acl.Users]. *)
Fixpoint findAdminFrom (i : nat) (users : list AerospikeUserSpec) : option nat :=
  match users with
  | [] => None
  | u :: users => if hasAdminRoles u then Some i else findAdminFrom (S i) users
  end.

Definition FindAdminUser (acl : option (list AerospikeUserSpec)) : option AerospikeUserSpec :=
  match acl with
  | None => None
  | Some users => i ← findAdminFrom 0 users; users !! i
  end.

Lemma map_wf_LabelsForCluster c : map_wf (LabelsForCluster c).
Proof. repeat constructor; set_solver. Qed.

(** ** Deep merge: lemmas *)

Lemma deepCopyValue_id v : deepCopyValue v = v.
Proof.
  induction v as [| | | | | |l IH|m IH] using any_rec_ind; try done; simpl; f_equal.
  - induction IH as [|x l Hx _ IHl]; [done|]. csimpl. by rewrite Hx, IHl.
  - induction IH as [|[k x] m Hx _ IHm]; [done|]. csimpl. simpl in Hx. by rewrite Hx, IHm.
Qed.

Lemma copyEntries_id (m : gomap any) : (fun e => (e.1, deepCopyValue e.2)) <$> m = m.
Proof.
  induction m as [|[k v] m IH]; [done|]. csimpl. by rewrite deepCopyValue_id, IH.
Qed.

Lemma mergeEntry_maps b o : mergeEntry (Some (AMap b)) (AMap o) = AMap (DeepMerge b o).
Proof. done. Qed.

Lemma mergeEntry_other b o :
  (forall m m', b = Some (AMap m) -> o <> AMap m') -> mergeEntry b o = o.
Proof.
  intros H. assert (mergeEntry b o = deepCopyValue o) as ->; [|apply deepCopyValue_id].
  destruct b as [[]|], o; try done. by edestruct H.
Qed.

Lemma foldl_merge_lookup k o r :
  map_wf o ->
  map_get k (foldl (fun r e => map_set e.1 (mergeEntry (map_get e.1 r) e.2) r) r o) =
  match map_get k o with
  | Some v => Some (mergeEntry (map_get k r) v)
  | None => map_get k r
  end.
Proof.
  unfold map_wf, map_keys. revert r. induction o as [|[k' v'] o IH]; intros r Ho; [done|].
  csimpl in Ho. apply NoDup_cons in Ho as [Hk Ho]. simpl. rewrite IH by done.
  rewrite map_get_set. case_decide as Heq; subst; [|done].
  by apply map_get_None in Hk as ->.
Qed.

Lemma DeepMerge_wf base override : map_wf base -> map_wf (DeepMerge base override).
Proof.
  unfold DeepMerge. rewrite copyEntries_id. revert base.
  induction override as [|[k v] o IH]; intros base Hb; [done|]. simpl.
  apply IH. by apply map_wf_set.
Qed.

Lemma foldl_merge_any_wf o r :
  Forall (fun e => forall b, (forall v, b = Some v -> any_wf v) -> any_wf e.2 ->
                   any_wf (mergeEntry b e.2)) o ->
  any_wf (AMap r) -> Forall id ((fun e => any_wf e.2) <$> o) ->
  any_wf (AMap (foldl (fun r e => map_set e.1 (mergeEntry (map_get e.1 r) e.2) r) r o)).
Proof.
  intros IH. revert r. induction IH as [|[k v] o Hv _ IH]; intros r Hr Ho; [done|].
  csimpl in Ho. apply Forall_cons in Ho as [Hv' Ho]. simpl. apply IH; [|done].
  apply any_wf_map_set; [done|]. apply Hv; [|done].
  intros x Hx. by eapply any_wf_entry.
Qed.

Lemma mergeEntry_any_wf o : forall b,
  (forall v, b = Some v -> any_wf v) -> any_wf o -> any_wf (mergeEntry b o).
Proof.
  induction o as [| | | | | |l IH|m IH] using any_rec_ind; intros bv Hb Ho;
    try (rewrite mergeEntry_other by done; done).
  destruct bv as [[]|]; try (rewrite mergeEntry_other by done; done).
  rewrite mergeEntry_maps. unfold DeepMerge. rewrite copyEntries_id.
  apply foldl_merge_any_wf; [done|by apply Hb|apply Ho].
Qed.

(** ** Properties *)

(** The value of every key of a deep merge. *)
Lemma DeepMerge_get base override k :
  map_wf override ->
  map_get k (DeepMerge base override) =
  match map_get k base, map_get k override with
  | b, None => b
  | Some (AMap b), Some (AMap o) => Some (AMap (DeepMerge b o))
  | _, Some o => Some o
  end.
Proof.
  intros Ho. unfold DeepMerge at 1. rewrite copyEntries_id, foldl_merge_lookup by done.
  destruct (map_get k override) as [o|]; [|by destruct (map_get k base) as [[]|]].
  destruct (map_get k base) as [b|]; [|by rewrite mergeEntry_other].
  destruct b, o; rewrite ?mergeEntry_maps; try (rewrite mergeEntry_other by done); done.
Qed.

(** The value of every key of a deep merge: nested maps merge recursively,
    otherwise the override wins, and keys absent from the override keep the base value. *)
Theorem DeepMerge_lookup base override k :
  map_wf override ->
  map_get k (DeepMerge base override) =
  match map_get k base, map_get k override with
  | b, None => b
  | Some (AMap b), Some (AMap o) => Some (AMap (DeepMerge b o))
  | _, Some o => Some o
  end.
Proof. apply DeepMerge_get. Qed.

(** Merging two configurations in which no map has a key twice, at any depth, gives
    such a configuration. *)
Theorem DeepMerge_config_wf base override :
  config_wf base -> config_wf override -> config_wf (DeepMerge base override).
Proof.
  unfold config_wf. intros Hb Ho. rewrite <- mergeEntry_maps.
  apply mergeEntry_any_wf; [|done]. by intros v [= <-].
Qed.

Lemma DeepMerge_nil_r m : DeepMerge m [] = m.
Proof. unfold DeepMerge. simpl. apply copyEntries_id. Qed.

(** Names: the suffix after the last dash is the rack id. *)
Lemma split_last_StatefulSetName c r :
  0 <= r -> split_last "-" (StatefulSetName c r) = Some (c, pretty r).
Proof.
  intros Hr. unfold StatefulSetName. apply split_last_app.
  by apply pretty_nonneg_not_contains.
Qed.

(** Two racks never share a StatefulSet name. *)
Theorem StatefulSetName_inj c r c' r' :
  0 <= r -> 0 <= r' -> StatefulSetName c r = StatefulSetName c' r' -> c = c' /\ r = r'.
Proof.
  intros Hr Hr' H. apply (f_equal (split_last "-")) in H.
  rewrite !split_last_StatefulSetName in H by done.
  injection H as -> H. by apply pretty_Z_inj in H as ->.
Qed.

Theorem rack_pdb_name_collision c r : RackPDBName c r = PDBName (StatefulSetName c r).
Proof. unfold RackPDBName, PDBName, StatefulSetName. by rewrite !app_assoc_str. Qed.

Lemma selector_cluster c c' r :
  selector_matches (SelectorLabelsForCluster c) (LabelsForRack c' r) = bool_decide (c = c').
Proof.
  unfold selector_matches, SelectorLabelsForCluster, LabelsForRack, LabelsForCluster. simpl.
  rewrite andb_true_r. apply bool_decide_ext. naive_solver.
Qed.

Theorem selector_rack c r c' r' :
  selector_matches (LabelsForRack c r) (LabelsForRack c' r') = true <-> c = c' /\ r = r'.
Proof.
  unfold selector_matches, LabelsForRack, LabelsForCluster. simpl.
  rewrite !andb_true_r, andb_true_iff, !bool_decide_eq_true. split.
  - intros [[= ->] [= H]]. by apply pretty_Z_inj in H as ->.
  - by intros [-> ->].
Qed.

(** Admin user *)
Lemma hasAdminRoles_spec u :
  hasAdminRoles u = true <-> "sys-admin" ∈ user_Roles u /\ "user-admin" ∈ user_Roles u.
Proof.
  unfold hasAdminRoles.
  assert (forall roles s a,
    foldl (fun '(s, u) role =>
      if decide (role = "sys-admin") then (true, u)
      else if decide (role = "user-admin") then (s, true) else (s, u)) (s, a) roles =
    (s || bool_decide ("sys-admin" ∈ roles), a || bool_decide ("user-admin" ∈ roles))) as Hf.
  { induction roles as [|r roles IH]; intros s a.
    { by destruct s, a. }
    cbn [foldl]. rewrite !bool_decide_elem_of_cons.
    destruct (decide (r = "sys-admin")) as [->|]; [|destruct (decide (r = "user-admin")) as [->|]];
      rewrite IH; f_equal; rewrite ?(bool_decide_eq_false_2 (_ = r)) by congruence;
      by rewrite ?orb_true_r. }
  rewrite Hf. simpl. by rewrite andb_true_iff, !bool_decide_eq_true.
Qed.

Lemma findAdminFrom_spec i users j :
  findAdminFrom i users = Some j <->
  exists n u, j = (i + n)%nat /\ users !! n = Some u /\ hasAdminRoles u = true /\
    forall n' u', (n' < n)%nat -> users !! n' = Some u' -> hasAdminRoles u' = false.
Proof.
  revert i. induction users as [|u users IH]; intros i; simpl.
  { split; [done|]. by intros (n & v & _ & ? & _). }
  destruct (hasAdminRoles u) eqn:Hu.
  - split.
    + intros [= <-]. exists 0%nat, u. split_and!; [lia|done|done|lia].
    + intros ([|n] & v & -> & Hn & Hv & Hlt); [f_equal; lia|].
      specialize (Hlt 0%nat u ltac:(lia) eq_refl). congruence.
  - rewrite IH. split.
    + intros (n & v & -> & Hn & Hv & Hlt). exists (S n), v. split_and!; [lia|done|done|].
      intros [|n'] u' Hn' Hl; simplify_eq/=; [done|]. apply (Hlt n'); [lia|done].
    + intros ([|n] & v & -> & Hn & Hv & Hlt); simplify_eq/=; [congruence|].
      exists n, v. split_and!; [lia|done|done|]. intros n' u' Hn' Hl.
      apply (Hlt (S n')); [lia|done].
Qed.

Theorem FindAdminUser_spec users u :
  FindAdminUser (Some users) = Some u <->
  exists n, users !! n = Some u /\ "sys-admin" ∈ user_Roles u /\ "user-admin" ∈ user_Roles u /\
    forall n' u', (n' < n)%nat -> users !! n' = Some u' -> hasAdminRoles u' = false.
Proof.
  simpl. split.
  - intros (j & Hj & Hu)%bind_Some. apply findAdminFrom_spec in Hj as (n & v & -> & Hn & Hv & Hlt).
    simplify_eq/=. apply hasAdminRoles_spec in Hv as [? ?]. eauto 6.
  - intros (n & Hn & Hs & Hu & Hlt). apply bind_Some. exists n. split; [|done].
    apply findAdminFrom_spec. exists n, u. rewrite hasAdminRoles_spec. eauto.
Qed.

Lemma findAdminFrom_None i users :
  findAdminFrom i users = None -> forall n u, users !! n = Some u -> hasAdminRoles u = false.
Proof.
  revert i. induction users as [|v users IH]; intros i; simpl; [done|].
  destruct (hasAdminRoles v) eqn:Hv; [done|]. intros Hf [|n] u; simpl; [by intros [= <-]|]. by eapply IH.
Qed.

(** ** Witnesses *)

Lemma DeepMerge_lookup_witness :
  map_get "service" (DeepMerge [("service", AMap [("a", AString "x"); ("b", AString "y")])]
                               [("service", AMap [("b", AString "z")])]) =
  Some (AMap [("a", AString "x"); ("b", AString "z")]).
Proof.
  rewrite (DeepMerge_lookup _ [("service", AMap [("b", AString "z")])] "service"); [done|].
  apply (bool_decide_unpack _). by vm_compute.
Defined.

Lemma DeepMerge_config_wf_witness :
  config_wf (DeepMerge [("service", AMap [("a", AString "x")])] [("network", AMap [])]).
Proof.
  apply (DeepMerge_config_wf [("service", AMap [("a", AString "x")])] [("network", AMap [])]);
    repeat constructor; set_solver.
Defined.

Lemma StatefulSetName_inj_witness : "a-1" = "a-1" /\ 2 = 2.
Proof. apply (StatefulSetName_inj "a-1" 2 "a-1" 2); [done|done|done]. Defined.
