(* ===== verification/ConfigDiff.v ===== *)
(** * Package internal/configdiff

    The diff between the last applied and the desired [aerospikeConfig], and its
    split into changes that [set-config] can apply at runtime and changes that
    need a pod restart ([diff.go], [dynamic_params.go]). *)

From S2P Require Import Prelude GoValue.
From Stdlib Require Import SpecFloat.

(** ** dynamic_params.go *)

(** The registry of runtime-changeable parameters (the keys mapped to [true]). *)
Definition dynamicParams : list string :=
  [ "service.proto-fd-max";
    "service.transaction-queues";
    "service.transaction-threads-per-queue";
    "service.batch-index-threads";
    "service.batch-max-buffers-per-queue";
    "service.batch-max-unused-buffers";
    "service.info-threads";
    "service.migrate-fill-delay";
    "service.migrate-max-num-incoming";
    "service.migrate-threads";
    "service.proto-fd-idle-ms";
    "service.query-threads-limit";
    "service.scan-threads-limit";
    "service.ticker-interval";
    "network.heartbeat.interval";
    "network.heartbeat.timeout";
    "network.fabric.channel-bulk-recv-threads";
    "network.fabric.channel-ctrl-recv-threads";
    "network.fabric.channel-meta-recv-threads";
    "network.fabric.channel-rw-recv-threads";
    "network.fabric.recv-rearm-threshold";
    "network.fabric.send-threads";
    "namespace.default-ttl";
    "namespace.high-water-disk-pct";
    "namespace.high-water-memory-pct";
    "namespace.stop-writes-pct";
    "namespace.stop-writes-sys-memory-pct";
    "namespace.migrate-order";
    "namespace.migrate-retransmit-ms";
    "namespace.migrate-sleep";
    "namespace.nsup-hist-period";
    "namespace.nsup-period";
    "namespace.nsup-threads";
    "namespace.prefer-uniform-balance";
    "namespace.rack-id";
    "namespace.read-page-cache";
    "namespace.transaction-pending-limit";
    "namespace.write-commit-level-override";
    "logging.any";
    "logging.misc";
    "logging.alloc";
    "logging.arenax";
    "logging.hardware";
    "logging.msg";
    "logging.namespace";
    "logging.network";
    "logging.os";
    "logging.proto";
    "logging.record";
    "logging.socket";
    "logging.xdr";
    "security.log.report-authentication";
    "security.log.report-sys-admin";
    "security.log.report-user-admin";
    "security.log.report-violation" ].

Definition IsDynamic (paramPath : string) : bool := bool_decide (paramPath ∈ dynamicParams).
#[global] Arguments IsDynamic _ : simpl never.

(** ** diff.go *)

Record Change := {
  Path : string;
  Context : string;
  Key : string;
  OldValue : any;
  NewValue : any;
  Namespace : string
}.

Record DiffResult := {
  Dynamic : list Change;
  Static : list Change
}.

Definition addDynamic (c : Change) (r : DiffResult) : DiffResult :=
  {| Dynamic := Dynamic r ++ [c]; Static := Static r |}.
Definition addStatic (c : Change) (r : DiffResult) : DiffResult :=
  {| Dynamic := Dynamic r; Static := Static r ++ [c] |}.

Definition HasChanges (d : DiffResult) : bool :=
  (0 <? Z.of_nat (length (Dynamic d))) || (0 <? Z.of_nat (length (Static d))).
Definition HasStaticChanges (d : DiffResult) : bool :=
  0 <? Z.of_nat (length (Static d)).

Definition joinPath (prefix key : string) : string :=
  if decide (prefix = "") then key else prefix +:+ "." +:+ key.

Definition firstSegment (path : string) : string :=
  match split_first "." path with Some (x, _) => x | None => path end.

Definition keyWithinContext (path : string) : string :=
  match split_first "." path with Some (_, y) => y | None => path end.

Definition numericValue (v : any) : option spec_float :=
  match v with
  | AInt _ n => Some (float64_of_Z n)
  | AFloat32 n => Some (float64_widen n)
  | AFloat64 n => Some n
  | _ => None
  end.

Definition valuesEqual (a b : any) : bool :=
  match numericValue a with
  | Some af => match numericValue b with Some bf => SFeqb af bf | None => false end
  | None =>
      match a with
      | AString x => match b with AString y => bool_decide (x = y) | _ => false end
      | ABool x => match b with ABool y => Bool.eqb x y | _ => false end
      | ANil => match b with ANil => true | _ => false end
      | _ => deepEqual a b
      end
  end.

#[global] Arguments valuesEqual _ _ : simpl never.

Definition asSlice (v : any) : list any :=
  match v with AList s => s | _ => [] end.

Definition namespacesByName (namespaces : list any) : gomap (gomap any) :=
  foldl (fun result ns =>
    match as_map ns with
    | Some nsMap =>
        match as_string (map_index "name" nsMap) with
        | Some name => map_set name nsMap result
        | None => result
        end
    | None => result
    end) [] namespaces.

Definition classifyChange (result : DiffResult) (path : string) (oldVal newVal : any)
    (namespace : string) : DiffResult :=
  let change := {| Path := path; Key := keyWithinContext path; Context := firstSegment path;
                   OldValue := oldVal; NewValue := newVal; Namespace := namespace |} in
  if IsDynamic path then addDynamic change result else addStatic change result.

(** The loop over the parameters a namespace has in the new configuration. *)
Definition diffNamespaceParam (name : string) (oldCfg : gomap any) (result : DiffResult)
    (e : string * any) : DiffResult :=
  let '(key, newVal) := e in
  if decide (key = "name") then result else
  let oldVal := map_get key oldCfg in
  let path := "namespace." +:+ key in
  if match oldVal with None => true | Some o => negb (valuesEqual o newVal) end then
    let change := {| Path := path; Context := "namespace"; Key := key;
                     OldValue := default ANil oldVal; NewValue := newVal; Namespace := name |} in
    if IsDynamic path then addDynamic change result else addStatic change result
  else result.

(** The loop over the parameters a namespace had in the old configuration. *)
Definition diffNamespaceRemoved (name : string) (newCfg : gomap any) (result : DiffResult)
    (e : string * any) : DiffResult :=
  let '(key, oldVal) := e in
  if decide (key = "name") then result else
  match map_get key newCfg with
  | Some _ => result
  | None => addStatic {| Path := "namespace." +:+ key; Context := "namespace"; Key := key;
                         OldValue := oldVal; NewValue := ANil; Namespace := name |} result
  end.

Definition diffNamespace (oldByName : gomap (gomap any)) (result : DiffResult)
    (e : string * gomap any) : DiffResult :=
  let '(name, newCfg) := e in
  match map_get name oldByName with
  | None => addStatic {| Path := "namespaces." +:+ name; Context := "namespace"; Key := name;
                         OldValue := ANil; NewValue := AMap newCfg; Namespace := "" |} result
  | Some oldCfg =>
      let result := foldl (diffNamespaceParam name oldCfg) result newCfg in
      foldl (diffNamespaceRemoved name newCfg) result oldCfg
  end.

Definition diffRemovedNamespace (newByName : gomap (gomap any)) (result : DiffResult)
    (e : string * gomap any) : DiffResult :=
  let '(name, oldCfg) := e in
  match map_get name newByName with
  | Some _ => result
  | None => addStatic {| Path := "namespaces." +:+ name; Context := "namespace"; Key := name;
                         OldValue := AMap oldCfg; NewValue := ANil; Namespace := "" |} result
  end.

Definition diffNamespaces (result : DiffResult) (oldNS newNS : list any) : DiffResult :=
  let oldByName := namespacesByName oldNS in
  let newByName := namespacesByName newNS in
  let result := foldl (diffNamespace oldByName) result newByName in
  foldl (diffRemovedNamespace newByName) result oldByName.

(** The loop of [diffSection] over removed keys. *)
Definition diffRemovedKey (prefix : string) (newSection : gomap any) (result : DiffResult)
    (e : string * any) : DiffResult :=
  let '(key, oldVal) := e in
  if decide (key = "namespaces") then result else
  match map_get key newSection with
  | Some _ => result
  | None =>
      let path := joinPath prefix key in
      addStatic {| Path := path; Key := keyWithinContext path; Context := firstSegment path;
                   OldValue := oldVal; NewValue := ANil; Namespace := "" |} result
  end.

(** One iteration of the loop of [diffSection] over the keys of the new section,
    with the recursive call on nested sections. *)
Fixpoint diffKey (prefix : string) (oldSection : gomap any) (result : DiffResult)
    (key : string) (newVal : any) {struct newVal} : DiffResult :=
  let path := joinPath prefix key in
  let oldVal := map_get key oldSection in
  if decide (key = "namespaces") then
    diffNamespaces result (asSlice (default ANil oldVal)) (asSlice newVal)
  else match oldVal with
  | None => classifyChange result path ANil newVal ""
  | Some oldVal =>
      match newVal, oldVal with
      | AMap newMap, AMap oldMap =>
          let result :=
            foldl (fun result e => diffKey path oldMap result e.1 e.2) result newMap in
          foldl (diffRemovedKey path newMap) result oldMap
      | _, _ =>
          if negb (valuesEqual oldVal newVal) then classifyChange result path oldVal newVal ""
          else result
      end
  end.

Definition diffSection (result : DiffResult) (prefix : string) (oldSection newSection : gomap any)
    : DiffResult :=
  let result :=
    foldl (fun result e => diffKey prefix oldSection result e.1 e.2) result newSection in
  foldl (diffRemovedKey prefix newSection) result oldSection.

Definition emptyResult : DiffResult := {| Dynamic := []; Static := [] |}.

(** A nil map reads as an empty one. *)
Definition Diff (oldConfig newConfig : gomap any) : DiffResult :=
  diffSection emptyResult "" oldConfig newConfig.

(** ** The order on results: a later result extends an earlier one *)

Definition extends (r r' : DiffResult) : Prop :=
  Dynamic r `prefix_of` Dynamic r' /\ Static r `prefix_of` Static r'.

#[export] Instance extends_po : PartialOrder extends.
Proof.
  split; [split|].
  - intros r. by split.
  - intros r1 r2 r3 [??] [??]. split; by etrans.
  - intros [d1 s1] [d2 s2] [Hd Hs] [Hd' Hs']; simpl in *.
    by rewrite (anti_symm prefix d1 d2), (anti_symm prefix s1 s2).
Qed.

Lemma extends_addDynamic c r : extends r (addDynamic c r).
Proof. split; [by apply prefix_app_r|done]. Qed.
Lemma extends_addStatic c r : extends r (addStatic c r).
Proof. split; [done|by apply prefix_app_r]. Qed.

Lemma addDynamic_neq c r : addDynamic c r <> r.
Proof.
  intros H%(f_equal (length ∘ Dynamic)). simpl in H. rewrite length_app in H. simpl in H. lia.
Qed.
Lemma addStatic_neq c r : addStatic c r <> r.
Proof.
  intros H%(f_equal (length ∘ Static)). simpl in H. rewrite length_app in H. simpl in H. lia.
Qed.

Create HintDb configdiff.
#[export] Hint Resolve extends_addDynamic extends_addStatic addDynamic_neq addStatic_neq
  : configdiff.
#[export] Hint Extern 1 (extends ?r ?r) => reflexivity : configdiff.

Lemma extends_classifyChange r p o n ns : extends r (classifyChange r p o n ns).
Proof. unfold classifyChange. case_match; auto with configdiff. Qed.
Lemma classifyChange_neq r p o n ns : classifyChange r p o n ns <> r.
Proof. unfold classifyChange. case_match; auto with configdiff. Qed.

Lemma extends_foldl {B} (f : DiffResult -> B -> DiffResult) l r r' :
  extends r r' -> (forall r b, b ∈ l -> extends r (f r b)) -> extends r (foldl f r' l).
Proof.
  intros Hr Hf. apply (foldl_inv (extends r)); [done|].
  intros a b Hb Ha. etrans; [done|]. by apply Hf.
Qed.

Lemma two_loops_fixed {B C} (P : B -> Prop) (Q : C -> Prop) (f : DiffResult -> B -> DiffResult)
    (g : DiffResult -> C -> DiffResult) l k r :
  (forall r b, b ∈ l -> extends r (f r b)) -> (forall r c, c ∈ k -> extends r (g r c)) ->
  (forall r b, b ∈ l -> f r b = r <-> P b) -> (forall r c, c ∈ k -> g r c = r <-> Q c) ->
  foldl g (foldl f r l) k = r <-> Forall P l /\ Forall Q k.
Proof.
  intros Hf Hg HP HQ.
  rewrite <- (foldl_fixed extends P f l r), <- (foldl_fixed extends Q g k r) by done.
  split; [|by intros [-> ?]]. intros H.
  assert (foldl f r l = r) as Hr; [|by rewrite Hr in *].
  apply (anti_symm extends).
  - rewrite <- H at 2. by apply extends_foldl.
  - by apply extends_foldl.
Qed.

Lemma extends_diffNamespaceParam name old r e : extends r (diffNamespaceParam name old r e).
Proof.
  destruct e as [key v]. unfold diffNamespaceParam. repeat case_match; auto with configdiff.
Qed.
Lemma extends_diffNamespaceRemoved name new r e : extends r (diffNamespaceRemoved name new r e).
Proof.
  destruct e as [key v]. unfold diffNamespaceRemoved. repeat case_match; auto with configdiff.
Qed.
Lemma extends_diffNamespace old r e : extends r (diffNamespace old r e).
Proof.
  destruct e as [name cfg]. unfold diffNamespace. case_match; [|auto with configdiff].
  repeat apply extends_foldl; intros; auto using extends_diffNamespaceParam,
    extends_diffNamespaceRemoved with configdiff.
Qed.
Lemma extends_diffRemovedNamespace new r e : extends r (diffRemovedNamespace new r e).
Proof.
  destruct e as [name cfg]. unfold diffRemovedNamespace. case_match; auto with configdiff.
Qed.
Lemma extends_diffNamespaces r old new : extends r (diffNamespaces r old new).
Proof.
  unfold diffNamespaces. repeat apply extends_foldl; intros;
    auto using extends_diffNamespace, extends_diffRemovedNamespace with configdiff.
Qed.
Lemma extends_diffRemovedKey p new r e : extends r (diffRemovedKey p new r e).
Proof.
  destruct e as [key v]. unfold diffRemovedKey. repeat case_match; auto with configdiff.
Qed.

#[export] Hint Resolve extends_classifyChange classifyChange_neq extends_diffNamespaceParam
  extends_diffNamespaceRemoved extends_diffNamespace extends_diffRemovedNamespace
  extends_diffNamespaces extends_diffRemovedKey : configdiff.

(** The recursive equation of [diffKey] on a nested section. *)
Lemma diffKey_section p old r k new oldMap :
  k <> "namespaces" -> map_get k old = Some (AMap oldMap) ->
  diffKey p old r k (AMap new) = diffSection r (joinPath p k) oldMap new.
Proof. intros Hk Ho. simpl. rewrite decide_False by done. by rewrite Ho. Qed.

Lemma diffKey_leaf p old r k o n :
  k <> "namespaces" -> map_get k old = Some o ->
  (forall m m', o = AMap m -> n <> AMap m') ->
  diffKey p old r k n =
    if negb (valuesEqual o n) then classifyChange r (joinPath p k) o n "" else r.
Proof.
  intros Hk Ho Hm. destruct n; simpl; rewrite decide_False by done; rewrite Ho; try done.
  destruct o; try done. by edestruct Hm.
Qed.

Lemma extends_diffKey n : forall p old r k, extends r (diffKey p old r k n).
Proof.
  induction n as [| | | | | |l IH|m IH] using any_rec_ind; intros p old r key.
  8: {
    simpl. case_decide; [auto with configdiff|].
    destruct (map_get key old) as [[]|]; try (case_match; auto with configdiff);
      auto with configdiff.
    apply extends_foldl; [apply extends_foldl; [done|]|auto with configdiff].
    intros r' e He. rewrite Forall_forall in IH. by apply (IH _ He). }
  all: simpl; case_decide; [auto with configdiff|];
    destruct (map_get key old); [case_match|]; auto with configdiff.
Qed.

(** ** When the diff is empty

    What the loops find no change in, as a relation: the parameters of a namespace
    agree key by key, namespaces are matched by name, every other key agrees
    recursively. *)

Definition opt_agree {A} (R : A -> A -> Prop) (o n : option A) : Prop :=
  match o, n with
  | None, None => True
  | Some x, Some y => R x y
  | _, _ => False
  end.

Definition namespace_undiffed (oldCfg newCfg : gomap any) : Prop :=
  forall key, key <> "name" ->
    opt_agree (fun o n => valuesEqual o n = true) (map_get key oldCfg) (map_get key newCfg).

Definition namespaces_undiffed (oldNS newNS : list any) : Prop :=
  forall name, opt_agree namespace_undiffed (map_get name (namespacesByName oldNS))
                                        (map_get name (namespacesByName newNS)).

Inductive undiffed : any -> any -> Prop :=
| undiffed_section old new :
    (forall k n, map_get k new = Some n -> key_undiffed old k n) ->
    (forall k, k <> "namespaces" -> is_Some (map_get k old) -> is_Some (map_get k new)) ->
    undiffed (AMap old) (AMap new)
| undiffed_leaf o n :
    (forall m m', o = AMap m -> n <> AMap m') ->
    valuesEqual o n = true -> undiffed o n
with key_undiffed : gomap any -> string -> any -> Prop :=
| undiffed_key old k o n :
    k <> "namespaces" -> map_get k old = Some o -> undiffed o n -> key_undiffed old k n
| undiffed_namespaces old n :
    namespaces_undiffed (asSlice (map_index "namespaces" old)) (asSlice n) ->
    key_undiffed old "namespaces" n.

(** Namespaces by name: a map again, of well-formed maps. *)
Lemma namespacesByName_wf l :
  any_wf (AList l) ->
  map_wf (namespacesByName l) /\
  (forall name cfg, map_get name (namespacesByName l) = Some cfg -> any_wf (AMap cfg)).
Proof.
  intros Hl. unfold namespacesByName.
  apply (foldl_inv (fun m : gomap (gomap any) => map_wf m /\
    forall name cfg, map_get name m = Some cfg -> any_wf (AMap cfg))); [by split; [apply map_wf_nil|]|].
  intros m ns Hns [Hm Hc]. destruct (as_map ns) as [nsMap|] eqn:En; [|done].
  destruct (as_string _) as [nm|]; [|done]. split; [by apply map_wf_set|].
  intros name cfg. rewrite map_get_set. case_decide; [|apply Hc].
  intros [= <-]. destruct ns; simplify_eq/=. by eapply any_wf_list.
Qed.

Lemma asSlice_wf v : any_wf v -> any_wf (AList (asSlice v)).
Proof. destruct v; try done; intros _; apply Forall_nil_2. Qed.

Lemma diffNamespaceParam_fixed name old r key v :
  diffNamespaceParam name old r (key, v) = r <->
  (key <> "name" -> exists o, map_get key old = Some o /\ valuesEqual o v = true).
Proof.
  unfold diffNamespaceParam. case_decide as H0; [by split|].
  destruct (map_get key old) as [o|].
  - destruct (valuesEqual o v) eqn:E; cbn [negb].
    + split; [|done]. intros _ _. by exists o.
    + split; [|intros (? & [= <-] & ?)%(fun H => H H0); congruence].
      case_match; intros []%addDynamic_neq || intros []%addStatic_neq.
  - split; [|by intros (? & ? & _)%(fun H => H H0)].
    case_match; intros []%addDynamic_neq || intros []%addStatic_neq.
Qed.

Lemma diffNamespaceRemoved_fixed name new r key v :
  diffNamespaceRemoved name new r (key, v) = r <-> (key <> "name" -> is_Some (map_get key new)).
Proof.
  unfold diffNamespaceRemoved. case_decide; [by split|].
  destruct (map_get key new); [naive_solver|].
  split; [intros []%addStatic_neq|by intros [? ?]].
Qed.

Lemma diffNamespace_fixed old r name new :
  (forall o, map_get name old = Some o -> map_wf o) -> map_wf new ->
  diffNamespace old r (name, new) = r <->
  exists o, map_get name old = Some o /\ namespace_undiffed o new.
Proof.
  intros Ho Hn. unfold diffNamespace.
  destruct (map_get name old) as [o|] eqn:Eo;
    [|split; [intros []%addStatic_neq|by intros (? & ? & _)]].
  specialize (Ho o eq_refl).
  rewrite (two_loops_fixed
    (fun e => e.1 <> "name" -> exists o', map_get e.1 o = Some o' /\ valuesEqual o' e.2 = true)
    (fun e => e.1 <> "name" -> is_Some (map_get e.1 new)));
    [|by auto with configdiff..| |]; try (intros r' [k v] _);
    [|apply diffNamespaceParam_fixed|apply diffNamespaceRemoved_fixed].
  rewrite !Forall_forall. split.
  - intros [Hp Hr]. exists o. split; [done|]. intros key Hkey.
    destruct (map_get key new) as [n|] eqn:En.
    + apply map_get_Some_in in En. destruct (Hp _ En Hkey) as (o' & Hg & Hv).
      simpl in *. by rewrite Hg.
    + destruct (map_get key o) as [o'|] eqn:Eo'; [|done].
      apply map_get_Some_in in Eo'. destruct (Hr _ Eo' Hkey) as [? Hs]. simpl in Hs. congruence.
  - intros (? & [= <-] & Hs). split; intros [key v] Hin Hkey; simpl in *;
      specialize (Hs key Hkey); apply map_get_Some in Hin; [|done| |done]; rewrite Hin in Hs.
    + destruct (map_get key o); [eauto|done].
    + destruct (map_get key new); [eauto|done].
Qed.

Lemma diffRemovedNamespace_fixed new r name cfg :
  diffRemovedNamespace new r (name, cfg) = r <-> is_Some (map_get name new).
Proof.
  unfold diffRemovedNamespace. destruct (map_get name new); [naive_solver|].
  split; [intros []%addStatic_neq|by intros [? ?]].
Qed.

Lemma diffNamespaces_fixed r old new :
  any_wf (AList old) -> any_wf (AList new) ->
  diffNamespaces r old new = r <-> namespaces_undiffed old new.
Proof.
  intros [Ho Hoc]%namespacesByName_wf [Hn Hnc]%namespacesByName_wf.
  unfold diffNamespaces, namespaces_undiffed.
  set (om := namespacesByName old) in *. set (nm := namespacesByName new) in *.
  rewrite (two_loops_fixed
    (fun e => exists o, map_get e.1 om = Some o /\ namespace_undiffed o e.2)
    (fun e => is_Some (map_get e.1 nm))); [|by auto with configdiff..| |].
  2: { intros r' [name cfg] Hin. apply diffNamespace_fixed.
       - intros o Hg. by apply any_wf_map_wf, (Hoc name).
       - apply any_wf_map_wf, (Hnc name). by apply map_get_Some. }
  2: { intros r' [name cfg] _. apply diffRemovedNamespace_fixed. }
  rewrite !Forall_forall. split.
  - intros [Hp Hr] name. destruct (map_get name nm) as [n|] eqn:En.
    + apply map_get_Some_in in En. destruct (Hp _ En) as (o' & Hg & Hs). simpl in *.
      by rewrite Hg.
    + destruct (map_get name om) as [o'|] eqn:Eo'; [|done].
      apply map_get_Some_in in Eo'. destruct (Hr _ Eo') as [? Hs]. simpl in Hs. congruence.
  - intros Hs. split; intros [name cfg] Hin; simpl; specialize (Hs name);
      apply map_get_Some in Hin; [|done| |done]; rewrite Hin in Hs.
    + destruct (map_get name om); [eauto|done].
    + destruct (map_get name nm); [eauto|done].
Qed.

Lemma diffRemovedKey_fixed p new r k v :
  diffRemovedKey p new r (k, v) = r <-> (k <> "namespaces" -> is_Some (map_get k new)).
Proof.
  unfold diffRemovedKey. case_decide; [by split|].
  destruct (map_get k new); [naive_solver|].
  split; [intros []%addStatic_neq|by intros [? ?]].
Qed.

Definition key_fixed (n : any) : Prop :=
  forall p old r k, any_wf (AMap old) -> any_wf n -> diffKey p old r k n = r <-> key_undiffed old k n.

Lemma diffSection_fixed_aux new :
  Forall (fun e => key_fixed e.2) new ->
  forall p old r, any_wf (AMap old) -> any_wf (AMap new) ->
    diffSection r p old new = r <-> undiffed (AMap old) (AMap new).
Proof.
  intros IH p old r Ho Hn. unfold diffSection.
  rewrite (two_loops_fixed (fun e => key_undiffed old e.1 e.2)
    (fun e => e.1 <> "namespaces" -> is_Some (map_get e.1 new)));
    [|by intros; apply extends_diffKey|by auto with configdiff| |].
  2: { intros r' [k n] Hin. rewrite Forall_forall in IH. apply (IH _ Hin); [done|].
       eapply any_wf_entry; [done|]. apply map_get_Some; [by apply Hn|done]. }
  2: { intros r' [k o] _. apply diffRemovedKey_fixed. }
  rewrite !Forall_forall. split.
  - intros [Hk Hr]. constructor.
    + intros k n Hin%map_get_Some_in. apply (Hk _ Hin).
    + intros k Hne [o Hin%map_get_Some_in]. by apply (Hr _ Hin).
  - intros Hs. inversion Hs as [? ? Hk Hr|? ? Hm]; simplify_eq; [|by edestruct Hm].
    split; intros [k x] Hin; simpl.
    + apply Hk. apply map_get_Some; [by apply Hn|done].
    + intros Hne. apply Hr; [done|]. apply map_get_is_Some, list_elem_of_fmap. by exists (k, x).
Qed.

Lemma diffKey_leaf_fixed p old r k o n :
  k <> "namespaces" -> map_get k old = Some o -> (forall m m', o = AMap m -> n <> AMap m') ->
  diffKey p old r k n = r <-> key_undiffed old k n.
Proof.
  intros Hk Ho Hm. rewrite (diffKey_leaf _ _ _ _ o) by done. split.
  - destruct (valuesEqual o n) eqn:E; [|intros []%classifyChange_neq].
    intros _. econstructor; [done|done|by constructor 2].
  - intros Hs. inversion Hs as [? ? o' ? ? Ho' Hv|]; simplify_eq.
    inversion Hv as [old' new'|? ? _ E]; simplify_eq; [by edestruct Hm|]. by rewrite E.
Qed.

Lemma diffKey_namespaces p old r n :
  diffKey p old r "namespaces" n =
  diffNamespaces r (asSlice (map_index "namespaces" old)) (asSlice n).
Proof. by destruct n. Qed.

Lemma diffKey_namespaces_fixed p old r n :
  any_wf (AMap old) -> any_wf n ->
  diffKey p old r "namespaces" n = r <-> key_undiffed old "namespaces" n.
Proof.
  intros Ho Hn. rewrite diffKey_namespaces, diffNamespaces_fixed.
  - split; [by constructor|by inversion 1].
  - apply asSlice_wf. unfold map_index. destruct (map_get _ old) eqn:E; [by eapply any_wf_entry|done].
  - by apply asSlice_wf.
Qed.

Lemma diffKey_fixed n : key_fixed n.
Proof.
  induction n as [| | | | | |l IH|m IH] using any_rec_ind; intros p old r key Ho Hn;
    (destruct (decide (key = "namespaces")) as [->|Hk];
     [by apply diffKey_namespaces_fixed|]);
    (destruct (map_get key old) as [o|] eqn:Eo;
     [|split; [simpl; rewrite decide_False by done; rewrite Eo; intros []%classifyChange_neq
              |inversion 1; congruence]]).
  8: {
    destruct o as [| | | | | | |oldMap]; try (by eapply diffKey_leaf_fixed).
    rewrite (diffKey_section _ _ _ _ _ oldMap) by done.
    rewrite diffSection_fixed_aux by (done || exact (any_wf_entry _ _ _ Ho Eo)).
    split; [by econstructor|]. inversion 1; by simplify_eq. }
  all: by eapply diffKey_leaf_fixed.
Qed.

Lemma HasChanges_false r : HasChanges r = false <-> r = emptyResult.
Proof.
  destruct r as [[|c d] [|c' s]]; unfold HasChanges, emptyResult; simpl; split; done.
Qed.

(** ** When two configurations are the same

    Written without reference to the code.  Go values are identical when their types and
    contents are; numbers of any type are the same when they have the same value as a
    float64, but not inside a list or a map that is compared as a whole. *)

Inductive identical : any -> any -> Prop :=
| id_nil : identical ANil ANil
| id_bool b : identical (ABool b) (ABool b)
| id_int k z : identical (AInt k z) (AInt k z)
| id_float32 x y : SFeqb x y = true -> identical (AFloat32 x) (AFloat32 y)
| id_float64 x y : SFeqb x y = true -> identical (AFloat64 x) (AFloat64 y)
| id_string x : identical (AString x) (AString x)
| id_list l l' : Forall2 identical l l' -> identical (AList l) (AList l')
| id_map m m' : (forall k, option_Forall2 identical (map_get k m) (map_get k m')) -> identical (AMap m) (AMap m').

Inductive number : any -> spec_float -> Prop :=
| number_int k z : number (AInt k z) (float64_of_Z z)
| number_float32 x : number (AFloat32 x) (float64_widen x)
| number_float64 x : number (AFloat64 x) x.

Inductive param_same : any -> any -> Prop :=
| same_number a b x y : number a x -> number b y -> SFeqb x y = true -> param_same a b
| same_other a b : (forall x, ~ number a x) -> identical a b -> param_same a b.

(** The namespace [name] of a list of namespaces: the last one called so. *)
Definition namespaceOf (l : list any) (name : string) (cfg : gomap any) : Prop :=
  exists l1 l2, l = l1 ++ AMap cfg :: l2 /\ map_get "name" cfg = Some (AString name) /\
    forall cfg', AMap cfg' ∈ l2 -> map_get "name" cfg' <> Some (AString name).

Definition namespace_same (o n : gomap any) : Prop :=
  forall key, key <> "name" -> option_Forall2 param_same (map_get key o) (map_get key n).

Definition namespaces_same (o n : list any) : Prop := forall name,
  (forall cfg, namespaceOf o name cfg -> exists cfg', namespaceOf n name cfg' /\ namespace_same cfg cfg') /\
  (forall cfg, namespaceOf n name cfg -> exists cfg', namespaceOf o name cfg').

(** The namespaces a section lists. *)
Definition listed (m : gomap any) : list any :=
  match map_get "namespaces" m with Some (AList l) => l | _ => [] end.

Inductive value_same : any -> any -> Prop :=
| same_section o n :
    (forall k, k <> "namespaces" -> option_Forall2 value_same (map_get k o) (map_get k n)) ->
    namespaces_same (listed o) (listed n) -> value_same (AMap o) (AMap n)
| same_param o n :
    (forall m m', o = AMap m -> n <> AMap m') -> param_same o n -> value_same o n.

(** The section reached by a path of keys. *)
Fixpoint sectionAt (path : list string) (m : gomap any) : option (gomap any) :=
  match path with
  | [] => Some m
  | k :: path => match map_get k m with Some (AMap m') => sectionAt path m' | _ => None end
  end.

(** No section loses its key [namespaces]. *)
Definition keeps_namespaces (old new : gomap any) : Prop := forall path o n,
  sectionAt path old = Some o -> sectionAt path new = Some n ->
  is_Some (map_get "namespaces" o) -> is_Some (map_get "namespaces" n).

Lemma deepEqual_list a x b y : deepEqual (AList (a :: x)) (AList (b :: y)) = deepEqual a b && deepEqual (AList x) (AList y).
Proof. done. Qed.

Lemma deepEqual_entries m m' :
  deepEqual (AMap m) (AMap m') = true <->
  length m = length m' /\ forall k v, (k, v) ∈ m -> exists v', map_get k m' = Some v' /\ deepEqual v v' = true.
Proof.
  simpl. rewrite andb_true_iff, bool_decide_eq_true. apply and_iff_compat_l.
  rewrite forallb_forall. split.
  - intros Hf k v Hin. specialize (Hf _ (proj1 (list_elem_of_In _ _) (list_elem_of_fmap_2 _ _ _ Hin))).
    cbn in Hf. destruct (map_get k m') as [v'|]; [|done]. by exists v'.
  - intros Hf x ([k v] & -> & Hin)%list_elem_of_In%list_elem_of_fmap. cbn.
    by destruct (Hf _ _ Hin) as (v' & -> & ->).
Qed.

(** Maps with distinct keys whose keys are the same have the same length. *)
Lemma same_keys_length {A B} (m : gomap A) (m' : gomap B) :
  map_wf m -> map_wf m' -> (forall k, k ∈ map_keys m <-> k ∈ map_keys m') -> length m = length m'.
Proof.
  intros Hm Hm' Hk. rewrite <- (length_fmap fst m), <- (length_fmap fst m').
  by apply Permutation_length, NoDup_Permutation.
Qed.

Lemma deepEqual_map m m' :
  Forall (fun e => forall b, any_wf e.2 -> any_wf b -> deepEqual e.2 b = true <-> identical e.2 b) m ->
  any_wf (AMap m) -> any_wf (AMap m') ->
  deepEqual (AMap m) (AMap m') = true <-> forall k, option_Forall2 identical (map_get k m) (map_get k m').
Proof.
  intros IH Ha Hb. rewrite Forall_forall in IH.
  pose proof (any_wf_map_wf _ Ha) as Hm. pose proof (any_wf_map_wf _ Hb) as Hm'.
  rewrite deepEqual_entries. split.
  - intros [Hlen Hf] k. destruct (map_get k m) as [v|] eqn:Hv.
    + pose proof (map_get_Some_in _ _ _ Hv) as Hin. destruct (Hf _ _ Hin) as (v' & Hv' & Heq). rewrite Hv'. constructor.
      apply (IH _ Hin); [exact (any_wf_entry _ _ _ Ha Hv)|exact (any_wf_entry _ _ _ Hb Hv')|done].
    + destruct (map_get k m') as [v'|] eqn:Hv'; [|constructor]. exfalso.
      apply map_get_None in Hv. apply Hv. apply (map_keys_eq m m'); [done..| |apply map_get_is_Some; by eexists].
      intros k' [[k2 v2] [-> Hin]]%list_elem_of_fmap. apply map_get_is_Some. simpl. destruct (Hf _ _ Hin) as (? & ? & _). by eexists.
  - intros Hf. split.
    + apply same_keys_length; [done..|]. intros k. rewrite <- !map_get_is_Some. specialize (Hf k). inversion Hf; naive_solver.
    + intros k v Hin. pose proof (proj2 (map_get_Some _ _ _ Hm) Hin) as Hv. specialize (Hf k). rewrite Hv in Hf.
      inversion Hf as [x v' Hid Hx Hv'|]; subst. symmetry in Hv'. exists v'. split; [done|].
      apply (IH _ Hin); [exact (any_wf_entry _ _ _ Ha Hv)|exact (any_wf_entry _ _ _ Hb Hv')|done].
Qed.

Lemma deepEqual_identical a : forall b, any_wf a -> any_wf b -> deepEqual a b = true <-> identical a b.
Proof.
  induction a as [|x|k x|x|x|x|l IH|m IH] using any_rec_ind; intros b Ha Hb.
  1-6: destruct b; simpl; (split; [|inversion 1; subst]); try done; try by constructor.
  - intros ->%Bool.eqb_prop. constructor.
  - apply Bool.eqb_reflx.
  - intros [->%bool_decide_eq_true ->%Z.eqb_eq]%andb_true_iff. constructor.
  - apply andb_true_iff. split; [by apply bool_decide_eq_true|by apply Z.eqb_eq].
  - intros ->%bool_decide_eq_true. constructor.
  - by apply bool_decide_eq_true.
  - destruct b as [| | | | | |l'|]; try (split; [done|by inversion 1]).
    assert (deepEqual (AList l) (AList l') = true <-> Forall2 identical l l') as ->;
      [|split; [by constructor|by inversion 1]].
    revert l' Hb. induction IH as [|x l Hx Hl IHl]; intros [|y l'] Hb; try (split; [done|by inversion 1]).
    rewrite deepEqual_list, andb_true_iff, Forall2_cons, (Hx y), IHl; [done|..].
    + by apply Forall_cons in Ha as [_ ?].
    + by apply Forall_cons in Hb as [_ ?].
    + by apply Forall_cons in Ha as [? _].
    + by apply Forall_cons in Hb as [? _].
  - destruct b as [| | | | | | |m']; try (split; [done|by inversion 1]).
    rewrite deepEqual_map by done. split; [by constructor|by inversion 1].
Qed.

Lemma numericValue_number v x : numericValue v = Some x <-> number v x.
Proof. split; [destruct v; try done; intros [= <-]; constructor|by inversion 1]. Qed.

Lemma valuesEqual_same a b : any_wf a -> any_wf b -> valuesEqual a b = true <-> param_same a b.
Proof.
  intros Ha Hb. unfold valuesEqual. destruct (numericValue a) as [x|] eqn:Hx.
  - apply numericValue_number in Hx. destruct (numericValue b) as [y|] eqn:Hy.
    + apply numericValue_number in Hy. split; [by econstructor|].
      inversion 1 as [? ? x' y' Hx' Hy' He|? ? Hno _]; subst; [|by destruct (Hno x)].
      apply numericValue_number in Hx, Hy, Hx', Hy'. congruence.
    + split; [done|]. inversion 1 as [? ? x' y' Hx' Hy' He|? ? Hno _]; subst; [|by destruct (Hno x)].
      apply numericValue_number in Hy'. congruence.
  - assert (forall y, ~ number a y) as Hno by (intros y Hy%numericValue_number; congruence).
    assert (deepEqual a b = true <-> param_same a b) as <-.
    { rewrite deepEqual_identical by done. split; [by constructor 2|]. inversion 1 as [? ? x ? Hn|]; subst; [by destruct (Hno x)|done]. }
    destruct a; try done; by destruct b.
Qed.

Definition called (ns : any) (name : string) (cfg : gomap any) : Prop :=
  ns = AMap cfg /\ map_get "name" cfg = Some (AString name).

Lemma namespaceOf_snoc l ns name cfg :
  namespaceOf (l ++ [ns]) name cfg <->
  called ns name cfg \/ (namespaceOf l name cfg /\ forall cfg', ~ called ns name cfg').
Proof.
  split.
  - intros (l1 & l2 & Heq & Hname & Hlast). destruct l2 as [|x l2 _] using rev_ind.
    + apply app_inj_tail in Heq as [_ ->]. by left.
    + rewrite app_comm_cons, app_assoc in Heq. apply app_inj_tail in Heq as [-> ->]. right. split.
      * exists l1, l2. split_and!; [done..|]. intros cfg' Hin. apply Hlast. set_solver.
      * intros cfg' [-> Hn]. apply (Hlast cfg'); [set_solver|done].
  - intros [[-> Hname]|[(l1 & l2 & -> & Hname & Hlast) Hno]].
    + exists l, []. split_and!; [done..|]. by intros ? ?%elem_of_nil.
    + exists l1, (l2 ++ [ns]). split_and!; [by rewrite <- app_assoc|done|].
      intros cfg' [Hin|Heq%list_elem_of_singleton]%elem_of_app; [by apply Hlast|]. intros Hn. by apply (Hno cfg').
Qed.

(** The lookup by name finds what [namespaceOf] describes. *)
Lemma namespacesByName_spec l name cfg :
  map_get name (namespacesByName l) = Some cfg <-> namespaceOf l name cfg.
Proof.
  revert cfg. induction l as [|ns l IH] using rev_ind; intros cfg.
  { split; [done|]. intros (l1 & l2 & H & _). by destruct l1. }
  rewrite namespaceOf_snoc, <- IH. unfold namespacesByName. rewrite foldl_snoc.
  fold (namespacesByName l).
  assert ((forall cfg', ~ called ns name cfg') \/ exists c, called ns name c) as [Hno|[c [-> Hc]]].
  { destruct ns as [| | | | | | |c]; try (left; by intros ? [? _]).
    destruct (map_get "name" c) as [[| | | | |nm| |]|] eqn:Hn; try (left; intros ? [[= <-] ?]; congruence).
    destruct (decide (nm = name)) as [->|]; [right; by exists c|left; intros ? [[= <-] ?]; congruence]. }
  - assert (map_get name (match as_map ns with
        | Some nsMap => match as_string (map_index "name" nsMap) with
                        | Some name => map_set name nsMap (namespacesByName l)
                        | None => namespacesByName l
                        end
        | None => namespacesByName l
        end) = map_get name (namespacesByName l)) as ->; [|split; [by right|by intros [?%Hno|[? _]]]].
    destruct ns as [| | | | | | |c]; try done. simpl. unfold map_index.
    destruct (map_get "name" c) as [[| | | | |nm| |]|] eqn:Hn; try done. simpl.
    rewrite map_get_set_ne; [done|]. intros ->. by apply (Hno c).
  - simpl. unfold map_index. rewrite Hc. simpl. rewrite map_get_set_eq. split; [by intros [= <-]; left|].
    intros [[[= <-] _]|[_ Hno]]; [done|]. by destruct (Hno c).
Qed.

Lemma opt_agree_Forall2 {A} (R R' : A -> A -> Prop) o n :
  (forall x y, o = Some x -> n = Some y -> R x y <-> R' x y) -> opt_agree R o n <-> option_Forall2 R' o n.
Proof.
  intros HR. destruct o as [x|], n as [y|]; simpl; (split; [|inversion 1; subst]); try done; try by constructor.
  - intros ?. constructor. by apply HR.
  - by apply HR.
Qed.

Lemma namespace_undiffed_same o n :
  any_wf (AMap o) -> any_wf (AMap n) -> namespace_undiffed o n <-> namespace_same o n.
Proof.
  intros Ho Hn. unfold namespace_undiffed, namespace_same. apply forall_proper. intros key.
  assert (opt_agree (fun o n => valuesEqual o n = true) (map_get key o) (map_get key n) <->
          option_Forall2 param_same (map_get key o) (map_get key n)) as ->; [|done].
  apply opt_agree_Forall2. intros x y Hx Hy. apply valuesEqual_same; eauto using any_wf_entry.
Qed.

Lemma namespaces_undiffed_same o n :
  any_wf (AList o) -> any_wf (AList n) -> namespaces_undiffed o n <-> namespaces_same o n.
Proof.
  intros [_ Ho]%namespacesByName_wf [_ Hn]%namespacesByName_wf.
  unfold namespaces_undiffed, namespaces_same. apply forall_proper. intros name. specialize (Ho name). specialize (Hn name).
  setoid_rewrite <- namespacesByName_spec.
  destruct (map_get name (namespacesByName o)) as [x|], (map_get name (namespacesByName n)) as [y|]; simpl.
  - rewrite namespace_undiffed_same by auto. naive_solver.
  - naive_solver.
  - naive_solver.
  - naive_solver.
Qed.

Lemma keeps_namespaces_section old new k o n :
  keeps_namespaces old new -> map_get k old = Some (AMap o) -> map_get k new = Some (AMap n) -> keeps_namespaces o n.
Proof. intros Hk Ho Hn path. specialize (Hk (k :: path)). simpl in Hk. by rewrite Ho, Hn in Hk. Qed.

Lemma listed_slice m : listed m = asSlice (map_index "namespaces" m).
Proof. unfold listed, map_index. by destruct (map_get "namespaces" m) as [[]|]. Qed.

Lemma listed_wf m : any_wf (AMap m) -> any_wf (AList (listed m)).
Proof.
  intros Hm. rewrite listed_slice. apply asSlice_wf. unfold map_index.
  destruct (map_get _ m) eqn:Hv; [by eapply any_wf_entry|done].
Qed.

(** Which of a section's keys the diff finds no change in. *)
Lemma undiffed_section_iff o n :
  undiffed (AMap o) (AMap n) <->
  (forall k, k <> "namespaces" -> option_Forall2 undiffed (map_get k o) (map_get k n)) /\
  (is_Some (map_get "namespaces" n) -> namespaces_undiffed (listed o) (listed n)).
Proof.
  rewrite !listed_slice. split.
  - intros Hs. inversion Hs as [? ? Hk Hr|? ? Hm]; simplify_eq; [|by edestruct Hm]. split.
    + intros k Hne. destruct (map_get k n) as [v|] eqn:Hv.
      * specialize (Hk _ _ Hv). inversion Hk; simplify_eq. rewrite H0. by constructor.
      * destruct (map_get k o) eqn:Ho; [|constructor]. specialize (Hr k Hne). rewrite Ho, Hv in Hr. by destruct Hr.
    + intros [v Hv]. specialize (Hk _ _ Hv). inversion Hk; simplify_eq. unfold map_index at 2. by rewrite Hv.
  - intros [Hk Hns]. constructor.
    + intros k v Hv. destruct (decide (k = "namespaces")) as [->|Hne].
      * constructor. specialize (Hns (mk_is_Some _ _ Hv)). unfold map_index at 2 in Hns. by rewrite Hv in Hns.
      * specialize (Hk k Hne). rewrite Hv in Hk. inversion Hk as [x y Hxy Hx|]; subst. by econstructor.
    + intros k Hne Ho. specialize (Hk k Hne). inversion Hk as [x y Hxy Hx Hy|Hx Hy]; [done|]. rewrite <- Hx in Ho. by destruct Ho.
Qed.

Lemma value_same_section_iff o n :
  value_same (AMap o) (AMap n) <->
  (forall k, k <> "namespaces" -> option_Forall2 value_same (map_get k o) (map_get k n)) /\
  namespaces_same (listed o) (listed n).
Proof.
  split; [|by intros [? ?]; constructor].
  inversion 1 as [|? ? Hm]; simplify_eq; [done|by edestruct Hm].
Qed.

Lemma same_param_iff o n :
  any_wf o -> any_wf n -> (forall m m', o = AMap m -> n <> AMap m') -> undiffed o n <-> value_same o n.
Proof.
  intros Ho Hn Hm. pose proof (valuesEqual_same o n Ho Hn) as Hv. split.
  - inversion 1; simplify_eq; [by edestruct Hm|]. apply same_param; [done|]. by apply Hv.
  - inversion 1; simplify_eq; [by edestruct Hm|]. apply undiffed_leaf; [done|]. by apply Hv.
Qed.

Lemma undiffed_same n : forall o, any_wf o -> any_wf n ->
  (forall m m', o = AMap m -> n = AMap m' -> keeps_namespaces m m') -> undiffed o n <-> value_same o n.
Proof.
  induction n as [| | | | | |l IH|n IH] using any_rec_ind; intros o Ho Hn Hkeep.
  1-7: by apply same_param_iff.
  destruct o as [| | | | | | |o]; try (by apply same_param_iff).
  specialize (Hkeep _ _ eq_refl eq_refl). rewrite undiffed_section_iff, value_same_section_iff.
  rewrite <- namespaces_undiffed_same by (by apply listed_wf).
  assert ((is_Some (map_get "namespaces" n) -> namespaces_undiffed (listed o) (listed n)) <->
          namespaces_undiffed (listed o) (listed n)) as ->.
  { split; [|done]. intros Hns. destruct (map_get "namespaces" n) as [v|] eqn:Hv; [by apply Hns; eexists|].
    assert (map_get "namespaces" o = None) as Ho'.
    { destruct (map_get "namespaces" o) eqn:E; [|done]. specialize (Hkeep [] o n eq_refl eq_refl).
      rewrite E, Hv in Hkeep. by destruct (Hkeep (mk_is_Some _ _ eq_refl)). }
    unfold listed. rewrite Hv, Ho'. by intros name. }
  apply and_iff_compat_r, forall_proper. intros k.
  assert (option_Forall2 undiffed (map_get k o) (map_get k n) <-> option_Forall2 value_same (map_get k o) (map_get k n))
    as ->; [|done].
  rewrite <- (opt_agree_Forall2 undiffed undiffed) by done. apply opt_agree_Forall2. intros x y Hx Hy.
  pose proof (map_get_Some_in _ _ _ Hy) as Hin. rewrite Forall_forall in IH. apply (IH _ Hin).
  - exact (any_wf_entry _ _ _ Ho Hx).
  - exact (any_wf_entry _ _ _ Hn Hy).
  - intros m m' -> Hm'. simpl in Hm'. subst y. by eapply keeps_namespaces_section.
Qed.

(** C26: for configurations in which no section loses its key namespaces, the diff
    reports no change exactly when they are the same: namespaces correspond by name and
    have the same parameters, sections agree key by key at any depth, numbers are the
    same when they are equal as float64 whatever their type, and other values, lists and
    the maps inside them included, when they are deeply equal *)
Theorem Diff_no_changes old new :
  config_wf old -> config_wf new -> keeps_namespaces old new ->
  HasChanges (Diff old new) = false <-> value_same (AMap old) (AMap new).
Proof.
  intros Ho Hn Hkeep. rewrite HasChanges_false, <- undiffed_same; [|done..|by intros ? ? [= <-] [= <-]].
  unfold Diff. apply diffSection_fixed_aux; [|done..].
  apply Forall_forall. intros [k v] _. apply diffKey_fixed.
Qed.

(** ** What the two classes contain *)

(** [at_path prefix m p v]: following keys from the section [m], whose own path
    is [prefix], reaches the value [v] at the dotted path [p]. *)
Inductive at_path : string -> gomap any -> string -> any -> Prop :=
| at_here prefix m k v :
    map_get k m = Some v -> at_path prefix m (joinPath prefix k) v
| at_sub prefix m k m' p v :
    map_get k m = Some (AMap m') -> at_path (joinPath prefix k) m' p v -> at_path prefix m p v.

(** A value found in some namespace of the configuration, by namespace name and
    parameter. *)
Definition in_namespace (prefix : string) (m : gomap any) (name key : string) (v : any) : Prop :=
  exists p l cfg, at_path prefix m p (AList l) /\
    map_get name (namespacesByName l) = Some cfg /\ map_get key cfg = Some v.

Definition found (prefix : string) (m : gomap any) (c : Change) : Prop :=
  at_path prefix m (Path c) (NewValue c) \/
  (Context c = "namespace" /\ in_namespace prefix m (Namespace c) (Key c) (NewValue c)).

Definition addressed (c : Change) : Prop :=
  IsDynamic (Path c) = true /\ Path c = Context c +:+ "." +:+ Key c.

Definition needs_restart (c : Change) : Prop := IsDynamic (Path c) = false \/ NewValue c = ANil.

Definition classified (new : string * gomap any) (r : DiffResult) : Prop :=
  Forall (fun c => addressed c /\ found new.1 new.2 c) (Dynamic r) /\
  Forall needs_restart (Static r).

Lemma classified_dynamic nw c r :
  addressed c -> found nw.1 nw.2 c -> classified nw r -> classified nw (addDynamic c r).
Proof. intros ? ? [??]. split; [|done]. apply Forall_app. split; [done|]. by apply Forall_singleton. Qed.

Lemma classified_static nw c r :
  needs_restart c -> classified nw r -> classified nw (addStatic c r).
Proof. intros ? [??]. split; [done|]. apply Forall_app. split; [done|]. by apply Forall_singleton. Qed.

#[export] Hint Resolve classified_dynamic classified_static : configdiff.

(** Every registered parameter is qualified by its context. *)
Lemma IsDynamic_qualified p :
  IsDynamic p = true -> p = firstSegment p +:+ "." +:+ keyWithinContext p.
Proof.
  intros Hp%bool_decide_eq_true_1.
  assert (Forall (fun p => p = firstSegment p +:+ "." +:+ keyWithinContext p) dynamicParams) as Hall.
  { apply (bool_decide_unpack _). by vm_compute. }
  rewrite Forall_forall in Hall. by apply Hall.
Qed.

Lemma classified_classifyChange nw p o n r :
  at_path nw.1 nw.2 p n -> classified nw r -> classified nw (classifyChange r p o n "").
Proof.
  intros Hp Hr. unfold classifyChange. destruct (IsDynamic p) eqn:E.
  - apply classified_dynamic; [|by left|done]. split; [done|]. by apply IsDynamic_qualified.
  - apply classified_static; [by left|done].
Qed.

Lemma IsDynamic_namespaces name : IsDynamic ("namespaces." +:+ name) = false.
Proof.
  unfold IsDynamic. apply bool_decide_eq_false. intros Hin.
  assert (Forall (fun p => cut_prefix "namespaces." p = None) dynamicParams) as Hall.
  { apply (bool_decide_unpack _). by vm_compute. }
  rewrite Forall_forall in Hall. by specialize (Hall _ Hin).
Qed.

Lemma classified_diffNamespaces nw p r old l :
  (l <> [] -> at_path nw.1 nw.2 p (AList l)) -> any_wf (AList l) ->
  classified nw r -> classified nw (diffNamespaces r old l).
Proof.
  intros Hp [Hn Hnc]%namespacesByName_wf Hr. unfold diffNamespaces.
  apply foldl_inv; [apply foldl_inv; [done|]|].
  - intros r' [name cfg] Hin Hr'. apply map_get_Some in Hin; [|done].
    unfold diffNamespace. destruct (map_get name (namespacesByName old)) as [o|];
      [|apply classified_static; [left; apply IsDynamic_namespaces|done]].
    apply foldl_inv; [apply foldl_inv; [done|]|].
    + intros r'' [key v] Hk Hr''. unfold diffNamespaceParam. case_decide; [done|].
      destruct (match map_get key o with Some _ => _ | None => _ end); [|done].
      destruct (IsDynamic _) eqn:E; [|by apply classified_static; [left|]].
      apply classified_dynamic; [by split|right|done]. split; [done|].
      exists p, l, cfg. split_and!; [by apply Hp; intros ->|done|]. apply map_get_Some; [|done].
      by apply any_wf_map_wf, (Hnc name).
    + intros r'' [key v] _ Hr''. unfold diffNamespaceRemoved. repeat case_match; try done.
      apply classified_static; [by right|done].
  - intros r' [name cfg] _ Hr'. unfold diffRemovedNamespace. case_match; [done|].
    apply classified_static; [by right|done].
Qed.

Lemma classified_removedKeys nw p new r old :
  classified nw r -> classified nw (foldl (diffRemovedKey p new) r old).
Proof.
  intros Hr. apply foldl_inv; [done|]. intros r' [k v] _ Hr'. unfold diffRemovedKey.
  repeat case_match; try done. apply classified_static; [by right|done].
Qed.

(** The section [m] at path [p] is part of the configuration [nw]. *)
Definition part_of (p : string) (m : gomap any) (nw : string * gomap any) : Prop :=
  forall q v, at_path p m q v -> at_path nw.1 nw.2 q v.

Lemma classified_section nw new :
  Forall (fun e => forall p m old r k, part_of p m nw -> map_get k m = Some e.2 ->
    any_wf e.2 -> classified nw r -> classified nw (diffKey p old r k e.2)) new ->
  forall p old r, part_of p new nw -> any_wf (AMap new) -> classified nw r ->
    classified nw (diffSection r p old new).
Proof.
  intros IH p old r Hp Hn Hr. unfold diffSection. apply classified_removedKeys.
  apply foldl_inv; [done|]. intros r' [k v] Hin Hr'. rewrite Forall_forall in IH. simpl.
  assert (map_get k new = Some v) as Hk by (apply map_get_Some; [apply Hn|done]).
  apply (IH _ Hin) with new; [done..| |done]. by eapply any_wf_entry.
Qed.

Lemma classified_diffKey nw n : forall p m old r k,
  part_of p m nw -> map_get k m = Some n -> any_wf n ->
  classified nw r -> classified nw (diffKey p old r k n).
Proof.
  induction n as [| | | | | |l IH|nm IH] using any_rec_ind; intros p m old r key Hp Hk Hn Hr;
    match type of Hk with _ = Some ?n =>
      assert (forall o, classified nw (classifyChange r (joinPath p key) o n "")) as Hc
        by (intros o; apply classified_classifyChange; [apply Hp; by constructor|done]) end;
    (destruct (decide (key = "namespaces")) as [->|Hne];
     [rewrite diffKey_namespaces;
      apply (classified_diffNamespaces _ (joinPath p "namespaces")); [|by apply asSlice_wf|done];
      intros ?; first [done|apply Hp; by constructor]|]);
    (destruct (map_get key old) as [o|] eqn:Eo;
     [|simpl; rewrite decide_False by done; by rewrite Eo]).
  8: {
    destruct o as [| | | | | | |oldMap];
      try (rewrite (diffKey_leaf _ _ _ _ _ _ Hne Eo) by done; by case_match).
    rewrite (diffKey_section _ _ _ _ _ oldMap) by done.
    apply classified_section; [done| |done|done].
    intros q v Hq. apply Hp. by eapply at_sub. }
  all: rewrite (diffKey_leaf _ _ _ _ _ _ Hne Eo) by done; by case_match.
Qed.

(** Every change reported as dynamic is registered as runtime-changeable, is
    addressed as context.key, and carries a value that the new configuration holds;
    every change reported as static is unregistered or is a removal. *)
Theorem Diff_classified old new :
  config_wf new -> classified ("", new) (Diff old new).
Proof.
  intros Hn. apply classified_section; [|by intros ??|done|by split; apply Forall_nil_2].
  apply Forall_forall. intros [k v] _. apply classified_diffKey.
Qed.

(** Numbers below 2^53 in magnitude compare by value whatever their Go type, so an int
    and the float64 it round-trips to are equal. *)
Theorem valuesEqual_numeric k k' a b :
  exact_range a -> exact_range b ->
  valuesEqual (AInt k a) (AInt k' b) = (a =? b) /\
  valuesEqual (AInt k a) (AFloat64 (float64_of_Z b)) = (a =? b).
Proof.
  intros Ha Hb. unfold valuesEqual. simpl numericValue. cbv iota.
  by rewrite float64_of_Z_eqb.
Qed.

(** The bound is tight. *)
Example valuesEqual_beyond_exact_range :
  valuesEqual (AInt KInt64 (2 ^ 53)) (AInt KInt64 (2 ^ 53 + 1)) = true.
Proof. vm_compute. done. Qed.

(** Dropping the whole namespaces section from the configuration is reported as no
    change. *)
Theorem Diff_namespaces_key_removed v :
  HasChanges (Diff [("namespaces", v)] []) = false.
Proof. done. Qed.

(** Inside lists and maps the comparison distinguishes the types of numbers. *)
Theorem valuesEqual_nested_types :
  valuesEqual (AInt KInt64 15000) (AFloat64 (float64_of_Z 15000)) = true /\
  valuesEqual (AList [AInt KInt64 15000]) (AList [AFloat64 (float64_of_Z 15000)]) = false.
Proof. vm_compute. done. Qed.

Lemma joinPath_split p k :
  p <> "" -> str_contains "." p = false ->
  firstSegment (joinPath p k) = p /\ keyWithinContext (joinPath p k) = k.
Proof.
  intros Hp Hc. unfold joinPath. rewrite decide_False by done.
  assert (split_first "." (p +:+ "." +:+ k) = Some (p, k)) as E by (by apply split_first_Some).
  unfold firstSegment, keyWithinContext. by rewrite E.
Qed.

(** ** Witnesses *)

Definition witness_old : gomap any :=
  [("service", AMap [("proto-fd-max", AInt KInt64 15000); ("cluster-name", AString "c")]);
   ("namespaces", AList [AMap [("name", AString "ns1"); ("replication-factor", AInt KInt64 2)]])].

Definition witness_new : gomap any :=
  [("service", AMap [("proto-fd-max", AInt KInt64 20000); ("cluster-name", AString "c")]);
   ("namespaces", AList [AMap [("name", AString "ns1"); ("replication-factor", AInt KInt64 2)]])].

Lemma config_wf_witness_old : config_wf witness_old.
Proof. repeat constructor; set_solver. Qed.
Lemma config_wf_witness_new : config_wf witness_new.
Proof. repeat constructor; set_solver. Qed.

(** The same configuration after a round trip through JSON. *)
Definition witness_decoded : gomap any :=
  [("namespaces", AList [AMap [("name", AString "ns1"); ("replication-factor", AFloat64 (float64_of_Z 2))]]);
   ("service", AMap [("cluster-name", AString "c"); ("proto-fd-max", AFloat64 (float64_of_Z 15000))])].

Lemma config_wf_witness_decoded : config_wf witness_decoded.
Proof. repeat constructor; set_solver. Qed.

Lemma keeps_namespaces_witness new :
  is_Some (map_get "namespaces" new) -> keeps_namespaces witness_old new.
Proof.
  intros Hn [|k path] o n; simpl; [by intros [= <-] [= <-]|]. intros Ho _. repeat case_decide; try done.
  destruct path as [|k' path]; simpl in Ho; [injection Ho as <-; by intros [? ?]|]. by repeat case_decide.
Qed.

Lemma Diff_no_changes_witness :
  value_same (AMap witness_old) (AMap witness_decoded) /\ ~ value_same (AMap witness_old) (AMap witness_new).
Proof.
  split.
  - apply (Diff_no_changes witness_old witness_decoded config_wf_witness_old config_wf_witness_decoded
      (keeps_namespaces_witness witness_decoded (ex_intro _ _ eq_refl))). by vm_compute.
  - intros Hs. apply (Diff_no_changes witness_old witness_new config_wf_witness_old config_wf_witness_new
      (keeps_namespaces_witness witness_new (ex_intro _ _ eq_refl))) in Hs. by vm_compute in Hs.
Defined.

Lemma Diff_classified_witness :
  Key <$> Dynamic (Diff witness_old witness_new) = ["proto-fd-max"] /\
  classified ("", witness_new) (Diff witness_old witness_new).
Proof.
  split; [by vm_compute|]. exact (Diff_classified witness_old witness_new config_wf_witness_new).
Defined.

Lemma valuesEqual_numeric_witness :
  valuesEqual (AInt KInt 15000) (AFloat64 (float64_of_Z 15000)) = true.
Proof.
  exact (proj2 (valuesEqual_numeric KInt KInt64 15000 15000 (conj eq_refl eq_refl) (conj eq_refl eq_refl))).
Defined.
