(* ===== verification/Api.v ===== *)
(** * The API objects the operator works on

    The custom resource [AerospikeCluster] (api/v1alpha1) and the parts of the
    Kubernetes objects (Pod, StatefulSet, PersistentVolumeClaim) that the
    controller reads or writes.  A Go pointer that may be nil is an [option]; a
    nil map or slice reads like an empty one, so both are the empty list; the
    string-typed enumerations of the API are inductive types, with a constructor
    for the empty string where the code tests for it.  Times and durations are
    nanoseconds, as in [time.Duration].  A field whose content the controller
    only passes on is kept as its JSON value, of type [any]. *)

From S2P Require Import Prelude GoValue Utils.

(** ** Time *)

Definition second : Z := 1000000000.
Definition minute : Z := 60 * second.
Definition hour : Z := 60 * minute.

(** ** Kubernetes objects *)

(** [intstr.IntOrString]. *)
Inductive IntOrString := IntVal (v : Z) | StrVal (s : string).

#[export] Instance IntOrString_eq_dec : EqDecision IntOrString.
Proof. solve_decision. Defined.

(** [corev1.ConditionStatus] and [metav1.ConditionStatus]. *)
Inductive ConditionStatus :=
  | ConditionTrue | ConditionFalse | ConditionUnknown.

#[export] Instance ConditionStatus_eq_dec : EqDecision ConditionStatus.
Proof. solve_decision. Defined.

(** [corev1.PodPhase]. *)
Inductive PodPhase :=
  | PodPending | PodRunning | PodSucceeded | PodFailed | PodUnknown.

#[export] Instance PodPhase_eq_dec : EqDecision PodPhase.
Proof. solve_decision. Defined.

(** [corev1.PodCondition]. *)
Record PodCondition := mkPodCondition {
  pc_Type : string;
  pc_Status : ConditionStatus;
  pc_LastTransitionTime : Z;
  pc_Reason : string;
  pc_Message : string
}.

#[export] Instance PodCondition_fields : Fields PodCondition := fun r => mkPodCondition
   (pc_Type r) (pc_Status r) (pc_LastTransitionTime r) (pc_Reason r) (pc_Message r).

#[export] Instance PodCondition_eq_dec : EqDecision PodCondition.
Proof. solve_decision. Defined.

(** [corev1.Pod]: the metadata, the parts of the spec and the status the controller reads. *)
Record Pod := mkPod {
  pod_Name : string;
  pod_Labels : gomap string;
  pod_Annotations : gomap string;
  pod_DeletionTimestamp : option Z;
  pod_Containers : list (string * string);
  pod_ReadinessGates : list string;
  pod_Phase : PodPhase;
  pod_Conditions : list PodCondition;
  pod_PodIP : string;
  pod_HostIP : string
}.

#[export] Instance Pod_fields : Fields Pod := fun r => mkPod (pod_Name r) (pod_Labels r)
   (pod_Annotations r) (pod_DeletionTimestamp r) (pod_Containers r) (pod_ReadinessGates r)
   (pod_Phase r) (pod_Conditions r) (pod_PodIP r) (pod_HostIP r).

(** [appsv1.PodManagementPolicyType]. *)
Inductive PodManagementPolicy :=
  | OrderedReadyPodManagement | ParallelPodManagement.

#[export] Instance PodManagementPolicy_eq_dec : EqDecision PodManagementPolicy.
Proof. solve_decision. Defined.

(** [corev1.PersistentVolumeClaim]; [pvc_OwnerReferences] lists the UIDs of the owners. *)
Record PersistentVolumeClaim := mkPVC {
  pvc_Name : string;
  pvc_Labels : gomap string;
  pvc_OwnerReferences : list string;
  pvc_StorageClassName : option string
}.

#[export] Instance PersistentVolumeClaim_fields : Fields PersistentVolumeClaim := fun r => mkPVC
   (pvc_Name r) (pvc_Labels r) (pvc_OwnerReferences r) (pvc_StorageClassName r).

#[export] Instance PersistentVolumeClaim_eq_dec : EqDecision PersistentVolumeClaim.
Proof. solve_decision. Defined.

(** [corev1.ServiceType]; the empty string and unknown types are [ServiceTypeOther]. *)
Inductive ServiceType :=
  | ServiceTypeClusterIP | ServiceTypeNodePort | ServiceTypeLoadBalancer
  | ServiceTypeOther (s : string).

#[export] Instance ServiceType_eq_dec : EqDecision ServiceType.
Proof. solve_decision. Defined.

(** [corev1.ServicePort]. *)
Record ServicePortEntry := mkServicePort {
  sp_Name : string;
  sp_Port : Z;
  sp_TargetPort : IntOrString;
  sp_Protocol : string;
  sp_NodePort : Z
}.

#[export] Instance ServicePortEntry_fields : Fields ServicePortEntry := fun r => mkServicePort
   (sp_Name r) (sp_Port r) (sp_TargetPort r) (sp_Protocol r) (sp_NodePort r).

#[export] Instance ServicePortEntry_eq_dec : EqDecision ServicePortEntry.
Proof. solve_decision. Defined.

(** [corev1.Service]; load-balancer ingresses are pairs of IP and hostname. *)
Record Service := mkService {
  svc_Name : string;
  svc_Labels : gomap string;
  svc_Annotations : gomap string;
  svc_Type : ServiceType;
  svc_ClusterIP : string;
  svc_Selector : gomap string;
  svc_PublishNotReadyAddresses : bool;
  svc_Ports : list ServicePortEntry;
  svc_ExternalTrafficPolicy : string;
  svc_LoadBalancerSourceRanges : list string;
  svc_Ingress : list (string * string)
}.

#[export] Instance Service_fields : Fields Service := fun r => mkService (svc_Name r)
   (svc_Labels r) (svc_Annotations r) (svc_Type r) (svc_ClusterIP r) (svc_Selector r)
   (svc_PublishNotReadyAddresses r) (svc_Ports r) (svc_ExternalTrafficPolicy r)
   (svc_LoadBalancerSourceRanges r) (svc_Ingress r).

(** [rbacv1.PolicyRule]; the resource names and non-resource URLs are not set by the controller. *)
Record PolicyRule := mkPolicyRule {
  prl_APIGroups : list string;
  prl_Resources : list string;
  prl_Verbs : list string;
  prl_Other : list string
}.

#[export] Instance PolicyRule_fields : Fields PolicyRule := fun r => mkPolicyRule
   (prl_APIGroups r) (prl_Resources r) (prl_Verbs r) (prl_Other r).

#[export] Instance PolicyRule_eq_dec : EqDecision PolicyRule.
Proof. solve_decision. Defined.

(** [rbacv1.Role]; [ro_Controller] names its controlling owner: group, kind and name. *)
Record Role := mkRole {
  ro_Name : string;
  ro_Rules : list PolicyRule;
  ro_Controller : option string
}.

#[export] Instance Role_fields : Fields Role := fun r => mkRole (ro_Name r) (ro_Rules r)
   (ro_Controller r).

#[export] Instance Role_eq_dec : EqDecision Role.
Proof. solve_decision. Defined.

(** [rbacv1.RoleRef]. *)
Record RoleRef := mkRoleRef {
  ref_APIGroup : string;
  ref_Kind : string;
  ref_Name : string
}.

#[export] Instance RoleRef_fields : Fields RoleRef := fun r => mkRoleRef (ref_APIGroup r)
   (ref_Kind r) (ref_Name r).

#[export] Instance RoleRef_eq_dec : EqDecision RoleRef.
Proof. solve_decision. Defined.

(** [rbacv1.Subject]. *)
Record Subject := mkSubject {
  sub_Kind : string;
  sub_APIGroup : string;
  sub_Name : string;
  sub_Namespace : string
}.

#[export] Instance Subject_fields : Fields Subject := fun r => mkSubject (sub_Kind r)
   (sub_APIGroup r) (sub_Name r) (sub_Namespace r).

#[export] Instance Subject_eq_dec : EqDecision Subject.
Proof. solve_decision. Defined.

(** [rbacv1.RoleBinding]. *)
Record RoleBinding := mkRoleBinding {
  rb_Name : string;
  rb_RoleRef : RoleRef;
  rb_Subjects : list Subject;
  rb_Controller : option string
}.

#[export] Instance RoleBinding_fields : Fields RoleBinding := fun r => mkRoleBinding
   (rb_Name r) (rb_RoleRef r) (rb_Subjects r) (rb_Controller r).

#[export] Instance RoleBinding_eq_dec : EqDecision RoleBinding.
Proof. solve_decision. Defined.

(** [networkingv1.NetworkPolicy]; the spec is its JSON value. *)
Record NetworkPolicy := mkNetworkPolicy {
  np_Name : string;
  np_Labels : gomap string;
  np_Spec : any
}.

#[export] Instance NetworkPolicy_fields : Fields NetworkPolicy := fun r => mkNetworkPolicy
   (np_Name r) (np_Labels r) (np_Spec r).

(** [unstructured.Unstructured] of a kind: the metadata and the content of "spec", if there. *)
Record Unstructured (kind : string) := mkUnstructured {
  un_Name : string;
  un_Labels : gomap string;
  un_Spec : option any
}.
Arguments mkUnstructured {kind}.
Arguments un_Name {kind}.
Arguments un_Labels {kind}.
Arguments un_Spec {kind}.

#[export] Instance Unstructured_fields kind : Fields (Unstructured kind) := fun r => mkUnstructured
   (un_Name r) (un_Labels r) (un_Spec r).

(** [storagev1.StorageClass]. *)
Record StorageClass := mkStorageClass {
  sc_Name : string;
  sc_VolumeBindingMode : option string
}.

#[export] Instance StorageClass_fields : Fields StorageClass := fun r => mkStorageClass
   (sc_Name r) (sc_VolumeBindingMode r).

#[export] Instance StorageClass_eq_dec : EqDecision StorageClass.
Proof. solve_decision. Defined.

(** [corev1.ConfigMap]. *)
Record ConfigMap := mkConfigMap {
  cm_Name : string;
  cm_Labels : gomap string;
  cm_Data : gomap string
}.

#[export] Instance ConfigMap_fields : Fields ConfigMap := fun r => mkConfigMap (cm_Name r)
   (cm_Labels r) (cm_Data r).

(** [metav1.LabelSelector]; its expressions are passed on as values. *)
Record LabelSelector := mkLabelSelector {
  ls_MatchLabels : gomap string;
  ls_MatchExpressions : list any
}.

#[export] Instance LabelSelector_fields : Fields LabelSelector := fun r => mkLabelSelector
   (ls_MatchLabels r) (ls_MatchExpressions r).

#[export] Instance LabelSelector_eq_dec : EqDecision LabelSelector.
Proof. solve_decision. Defined.

(** [policyv1.PodDisruptionBudget]. *)
Record PodDisruptionBudget := mkPDB {
  pdb_Name : string;
  pdb_Labels : gomap string;
  pdb_MinAvailable : option IntOrString;
  pdb_MaxUnavailable : option IntOrString;
  pdb_Selector : option LabelSelector
}.

#[export] Instance PodDisruptionBudget_fields : Fields PodDisruptionBudget := fun r => mkPDB
   (pdb_Name r) (pdb_Labels r) (pdb_MinAvailable r) (pdb_MaxUnavailable r) (pdb_Selector r).

(** [resource.Quantity]: the amount, in units of 10^-9, and its text. *)
Record Quantity := mkQuantity {
  q_Nano : Z;
  q_String : string
}.

#[export] Instance Quantity_fields : Fields Quantity := fun r => mkQuantity (q_Nano r)
   (q_String r).

#[export] Instance Quantity_eq_dec : EqDecision Quantity.
Proof. solve_decision. Defined.

(** [corev1.ResourceRequirements]. *)
Record ResourceRequirements := mkResourceRequirements {
  rr_Limits : gomap Quantity;
  rr_Requests : gomap Quantity;
  rr_Claims : list any
}.

#[export] Instance ResourceRequirements_fields : Fields ResourceRequirements := fun r => mkResourceRequirements
   (rr_Limits r) (rr_Requests r) (rr_Claims r).

#[export] Instance ResourceRequirements_eq_dec : EqDecision ResourceRequirements.
Proof. solve_decision. Defined.

(** [corev1.EnvVar]; the source of a value is its JSON value. *)
Record EnvVar := mkEnvVar {
  env_Name : string;
  env_Value : string;
  env_ValueFrom : option any
}.

#[export] Instance EnvVar_fields : Fields EnvVar := fun r => mkEnvVar (env_Name r)
   (env_Value r) (env_ValueFrom r).

#[export] Instance EnvVar_eq_dec : EqDecision EnvVar.
Proof. solve_decision. Defined.

(** [corev1.VolumeMount]. *)
Record VolumeMount := mkVolumeMount {
  vm_Name : string;
  vm_ReadOnly : bool;
  vm_RecursiveReadOnly : option string;
  vm_MountPath : string;
  vm_SubPath : string;
  vm_MountPropagation : option string;
  vm_SubPathExpr : string
}.

#[export] Instance VolumeMount_fields : Fields VolumeMount := fun r => mkVolumeMount
   (vm_Name r) (vm_ReadOnly r) (vm_RecursiveReadOnly r) (vm_MountPath r) (vm_SubPath r)
   (vm_MountPropagation r) (vm_SubPathExpr r).

#[export] Instance VolumeMount_eq_dec : EqDecision VolumeMount.
Proof. solve_decision. Defined.

(** [corev1.Container]; the ports, probes and lifecycle hooks are JSON values, and [ct_JSON] holds the fields the controller does not set. *)
Record Container := mkContainer {
  ct_Name : string;
  ct_Image : string;
  ct_Command : list string;
  ct_Ports : list any;
  ct_Env : list EnvVar;
  ct_Resources : ResourceRequirements;
  ct_VolumeMounts : list VolumeMount;
  ct_LivenessProbe : option any;
  ct_ReadinessProbe : option any;
  ct_Lifecycle : option any;
  ct_SecurityContext : option any;
  ct_JSON : gomap any
}.

#[export] Instance Container_fields : Fields Container := fun r => mkContainer (ct_Name r)
   (ct_Image r) (ct_Command r) (ct_Ports r) (ct_Env r) (ct_Resources r) (ct_VolumeMounts r)
   (ct_LivenessProbe r) (ct_ReadinessProbe r) (ct_Lifecycle r) (ct_SecurityContext r)
   (ct_JSON r).

#[export] Instance Container_eq_dec : EqDecision Container.
Proof. solve_decision. Defined.

(** [corev1.Volume]: the name, and the kind and the content of the source. *)
Record Volume := mkVolume {
  v_Name : string;
  v_Source : string * any
}.

#[export] Instance Volume_fields : Fields Volume := fun r => mkVolume (v_Name r)
   (v_Source r).

#[export] Instance Volume_eq_dec : EqDecision Volume.
Proof. solve_decision. Defined.

(** [corev1.NodeSelectorRequirement]. *)
Record NodeSelectorRequirement := mkNodeSelectorRequirement {
  nsr_Key : string;
  nsr_Operator : string;
  nsr_Values : list string
}.

#[export] Instance NodeSelectorRequirement_fields : Fields NodeSelectorRequirement := fun r => mkNodeSelectorRequirement
   (nsr_Key r) (nsr_Operator r) (nsr_Values r).

#[export] Instance NodeSelectorRequirement_eq_dec : EqDecision NodeSelectorRequirement.
Proof. solve_decision. Defined.

(** [corev1.NodeSelectorTerm]. *)
Record NodeSelectorTerm := mkNodeSelectorTerm {
  nst_MatchExpressions : list NodeSelectorRequirement;
  nst_MatchFields : list NodeSelectorRequirement
}.

#[export] Instance NodeSelectorTerm_fields : Fields NodeSelectorTerm := fun r => mkNodeSelectorTerm
   (nst_MatchExpressions r) (nst_MatchFields r).

#[export] Instance NodeSelectorTerm_eq_dec : EqDecision NodeSelectorTerm.
Proof. solve_decision. Defined.

(** [corev1.NodeAffinity]: the terms of the required node selector, and the preferences as values. *)
Record NodeAffinity := mkNodeAffinity {
  na_Required : option (list NodeSelectorTerm);
  na_Preferred : list any
}.

#[export] Instance NodeAffinity_fields : Fields NodeAffinity := fun r => mkNodeAffinity
   (na_Required r) (na_Preferred r).

#[export] Instance NodeAffinity_eq_dec : EqDecision NodeAffinity.
Proof. solve_decision. Defined.

(** [corev1.PodAffinityTerm]; [pat_JSON] holds its namespaces and label keys. *)
Record PodAffinityTerm := mkPodAffinityTerm {
  pat_LabelSelector : option LabelSelector;
  pat_TopologyKey : string;
  pat_JSON : gomap any
}.

#[export] Instance PodAffinityTerm_fields : Fields PodAffinityTerm := fun r => mkPodAffinityTerm
   (pat_LabelSelector r) (pat_TopologyKey r) (pat_JSON r).

#[export] Instance PodAffinityTerm_eq_dec : EqDecision PodAffinityTerm.
Proof. solve_decision. Defined.

(** [corev1.WeightedPodAffinityTerm]. *)
Record WeightedPodAffinityTerm := mkWeightedPodAffinityTerm {
  wpt_Weight : Z;
  wpt_PodAffinityTerm : PodAffinityTerm
}.

#[export] Instance WeightedPodAffinityTerm_fields : Fields WeightedPodAffinityTerm := fun r => mkWeightedPodAffinityTerm
   (wpt_Weight r) (wpt_PodAffinityTerm r).

#[export] Instance WeightedPodAffinityTerm_eq_dec : EqDecision WeightedPodAffinityTerm.
Proof. solve_decision. Defined.

(** [corev1.PodAntiAffinity]. *)
Record PodAntiAffinity := mkPodAntiAffinity {
  paa_Required : list PodAffinityTerm;
  paa_Preferred : list WeightedPodAffinityTerm
}.

#[export] Instance PodAntiAffinity_fields : Fields PodAntiAffinity := fun r => mkPodAntiAffinity
   (paa_Required r) (paa_Preferred r).

#[export] Instance PodAntiAffinity_eq_dec : EqDecision PodAntiAffinity.
Proof. solve_decision. Defined.

(** [corev1.Affinity]. *)
Record Affinity := mkAffinity {
  aff_NodeAffinity : option NodeAffinity;
  aff_PodAffinity : option any;
  aff_PodAntiAffinity : option PodAntiAffinity
}.

#[export] Instance Affinity_fields : Fields Affinity := fun r => mkAffinity
   (aff_NodeAffinity r) (aff_PodAffinity r) (aff_PodAntiAffinity r).

#[export] Instance Affinity_eq_dec : EqDecision Affinity.
Proof. solve_decision. Defined.

(** [corev1.PodSpec]. *)
Record PodSpec := mkPodSpec {
  psp_InitContainers : list Container;
  psp_Containers : list Container;
  psp_Volumes : list Volume;
  psp_TerminationGracePeriodSeconds : option Z;
  psp_AutomountServiceAccountToken : option bool;
  psp_Affinity : option Affinity;
  psp_Tolerations : list any;
  psp_NodeSelector : gomap string;
  psp_SecurityContext : option any;
  psp_ServiceAccountName : string;
  psp_DNSPolicy : string;
  psp_HostNetwork : bool;
  psp_ImagePullSecrets : list string;
  psp_ReadinessGates : list string;
  psp_TopologySpreadConstraints : list any;
  psp_PriorityClassName : string
}.

#[export] Instance PodSpec_fields : Fields PodSpec := fun r => mkPodSpec
   (psp_InitContainers r) (psp_Containers r) (psp_Volumes r)
   (psp_TerminationGracePeriodSeconds r) (psp_AutomountServiceAccountToken r)
   (psp_Affinity r) (psp_Tolerations r) (psp_NodeSelector r) (psp_SecurityContext r)
   (psp_ServiceAccountName r) (psp_DNSPolicy r) (psp_HostNetwork r) (psp_ImagePullSecrets r)
   (psp_ReadinessGates r) (psp_TopologySpreadConstraints r) (psp_PriorityClassName r).

(** [corev1.PodTemplateSpec]. *)
Record PodTemplateSpec := mkPodTemplateSpec {
  tpl_Labels : gomap string;
  tpl_Annotations : gomap string;
  tpl_Spec : PodSpec
}.

#[export] Instance PodTemplateSpec_fields : Fields PodTemplateSpec := fun r => mkPodTemplateSpec
   (tpl_Labels r) (tpl_Annotations r) (tpl_Spec r).

(** [corev1.PersistentVolumeClaim] in a StatefulSet; [vct_Storage] is the requested size as it is written. *)
Record VolumeClaimTemplate := mkVolumeClaimTemplate {
  vct_Name : string;
  vct_Labels : gomap string;
  vct_Annotations : gomap string;
  vct_AccessModes : list string;
  vct_VolumeMode : string;
  vct_Storage : string;
  vct_StorageClassName : option string;
  vct_Selector : option LabelSelector
}.

#[export] Instance VolumeClaimTemplate_fields : Fields VolumeClaimTemplate := fun r => mkVolumeClaimTemplate
   (vct_Name r) (vct_Labels r) (vct_Annotations r) (vct_AccessModes r) (vct_VolumeMode r)
   (vct_Storage r) (vct_StorageClassName r) (vct_Selector r).

(** [appsv1.StatefulSet]. *)
Record StatefulSet := mkStatefulSet {
  sts_Name : string;
  sts_UID : string;
  sts_Labels : gomap string;
  sts_Generation : Z;
  sts_DeletionTimestamp : option Z;
  sts_Replicas : option Z;
  sts_PodManagementPolicy : PodManagementPolicy;
  sts_Template : PodTemplateSpec;
  sts_VolumeClaimTemplates : list VolumeClaimTemplate;
  sts_ObservedGeneration : Z;
  sts_StatusReplicas : Z
}.

#[export] Instance StatefulSet_fields : Fields StatefulSet := fun r => mkStatefulSet
   (sts_Name r) (sts_UID r) (sts_Labels r) (sts_Generation r) (sts_DeletionTimestamp r)
   (sts_Replicas r) (sts_PodManagementPolicy r) (sts_Template r)
   (sts_VolumeClaimTemplates r) (sts_ObservedGeneration r) (sts_StatusReplicas r).

(** [Affinity{}] and [NodeAffinity{}]. *)
Definition emptyAffinity : Affinity := mkAffinity None None None.
Definition emptyNodeAffinity : NodeAffinity := mkNodeAffinity None [].
Definition emptyResources : ResourceRequirements := mkResourceRequirements [] [] [].

(** [PodSpec{}]. *)
Definition emptyPod : PodSpec := mkPodSpec [] [] [] None None None [] [] None "" "" false [] [] [] "".

(** The names of the volume claim templates. *)
Definition claimNames (sts : StatefulSet) : list string := vct_Name <$> sts_VolumeClaimTemplates sts.

(** ** Metadata and services (api/v1alpha1/aerospikecluster_types.go) *)

(** [AerospikeObjectMeta]; also [AerospikePodMetadata]. *)
Record AerospikeObjectMeta := mkObjectMeta {
  om_Annotations : gomap string;
  om_Labels : gomap string
}.

#[export] Instance AerospikeObjectMeta_fields : Fields AerospikeObjectMeta := fun r => mkObjectMeta
   (om_Annotations r) (om_Labels r).

#[export] Instance AerospikeObjectMeta_eq_dec : EqDecision AerospikeObjectMeta.
Proof. solve_decision. Defined.

(** [AerospikeServiceSpec]. *)
Record AerospikeServiceSpec := mkServiceSpec {
  ss_Metadata : option AerospikeObjectMeta;
  ss_ServiceType : string
}.

#[export] Instance AerospikeServiceSpec_fields : Fields AerospikeServiceSpec := fun r => mkServiceSpec
   (ss_Metadata r) (ss_ServiceType r).

#[export] Instance AerospikeServiceSpec_eq_dec : EqDecision AerospikeServiceSpec.
Proof. solve_decision. Defined.

(** ** Storage (api/v1alpha1/types_storage.go) *)

(** [VolumeInitMethod]; [InitMethodUnset] is the empty string. *)
Inductive VolumeInitMethod :=
  | InitMethodUnset | VolumeInitMethodNone | VolumeInitMethodDeleteFiles
  | VolumeInitMethodDD | VolumeInitMethodBlkdiscard | VolumeInitMethodHeaderCleanup.

#[export] Instance VolumeInitMethod_eq_dec : EqDecision VolumeInitMethod.
Proof. solve_decision. Defined.

(** [VolumeWipeMethod]; [WipeMethodUnset] is the empty string. *)
Inductive VolumeWipeMethod :=
  | WipeMethodUnset | VolumeWipeMethodNone | VolumeWipeMethodDeleteFiles
  | VolumeWipeMethodDD | VolumeWipeMethodBlkdiscard | VolumeWipeMethodHeaderCleanup
  | VolumeWipeMethodBlkdiscardWithHeaderCleanup.

#[export] Instance VolumeWipeMethod_eq_dec : EqDecision VolumeWipeMethod.
Proof. solve_decision. Defined.

(** [corev1.PersistentVolumeMode]; [VolumeModeUnset] is the empty string. *)
Inductive PersistentVolumeMode :=
  | VolumeModeUnset | PersistentVolumeFilesystem | PersistentVolumeBlock.

#[export] Instance PersistentVolumeMode_eq_dec : EqDecision PersistentVolumeMode.
Proof. solve_decision. Defined.

(** [PersistentVolumeSpec]. *)
Record PersistentVolumeSpec := mkPersistentVolumeSpec {
  pv_StorageClass : string;
  pv_VolumeMode : PersistentVolumeMode;
  pv_Size : string;
  pv_AccessModes : list string;
  pv_Selector : option LabelSelector;
  pv_Metadata : option AerospikeObjectMeta
}.

#[export] Instance PersistentVolumeSpec_fields : Fields PersistentVolumeSpec := fun r => mkPersistentVolumeSpec
   (pv_StorageClass r) (pv_VolumeMode r) (pv_Size r) (pv_AccessModes r) (pv_Selector r)
   (pv_Metadata r).

#[export] Instance PersistentVolumeSpec_eq_dec : EqDecision PersistentVolumeSpec.
Proof. solve_decision. Defined.

(** [VolumeSource]; the sources other than a persistent volume are passed on as values. *)
Record VolumeSource := mkVolumeSource {
  vsrc_PersistentVolume : option PersistentVolumeSpec;
  vsrc_EmptyDir : option any;
  vsrc_Secret : option any;
  vsrc_ConfigMap : option any;
  vsrc_HostPath : option any
}.

#[export] Instance VolumeSource_fields : Fields VolumeSource := fun r => mkVolumeSource
   (vsrc_PersistentVolume r) (vsrc_EmptyDir r) (vsrc_Secret r) (vsrc_ConfigMap r)
   (vsrc_HostPath r).

#[export] Instance VolumeSource_eq_dec : EqDecision VolumeSource.
Proof. solve_decision. Defined.

(** [AerospikeVolumeAttachment]. *)
Record AerospikeVolumeAttachment := mkAerospikeVolumeAttachment {
  ava_Path : string;
  ava_ReadOnly : bool;
  ava_SubPath : string;
  ava_SubPathExpr : string;
  ava_MountPropagation : option string
}.

#[export] Instance AerospikeVolumeAttachment_fields : Fields AerospikeVolumeAttachment := fun r => mkAerospikeVolumeAttachment
   (ava_Path r) (ava_ReadOnly r) (ava_SubPath r) (ava_SubPathExpr r)
   (ava_MountPropagation r).

#[export] Instance AerospikeVolumeAttachment_eq_dec : EqDecision AerospikeVolumeAttachment.
Proof. solve_decision. Defined.

(** [VolumeAttachment]. *)
Record VolumeAttachment := mkVolumeAttachment {
  vat_ContainerName : string;
  vat_Path : string;
  vat_ReadOnly : bool;
  vat_SubPath : string;
  vat_SubPathExpr : string;
  vat_MountPropagation : option string
}.

#[export] Instance VolumeAttachment_fields : Fields VolumeAttachment := fun r => mkVolumeAttachment
   (vat_ContainerName r) (vat_Path r) (vat_ReadOnly r) (vat_SubPath r) (vat_SubPathExpr r)
   (vat_MountPropagation r).

#[export] Instance VolumeAttachment_eq_dec : EqDecision VolumeAttachment.
Proof. solve_decision. Defined.

(** [AerospikeVolumePolicy]. *)
Record AerospikeVolumePolicy := mkVolumePolicy {
  vp_InitMethod : VolumeInitMethod;
  vp_WipeMethod : VolumeWipeMethod;
  vp_CascadeDelete : option bool
}.

#[export] Instance AerospikeVolumePolicy_fields : Fields AerospikeVolumePolicy := fun r => mkVolumePolicy
   (vp_InitMethod r) (vp_WipeMethod r) (vp_CascadeDelete r).

#[export] Instance AerospikeVolumePolicy_eq_dec : EqDecision AerospikeVolumePolicy.
Proof. solve_decision. Defined.

(** [VolumeSpec]. *)
Record VolumeSpec := mkVolumeSpec {
  vol_Name : string;
  vol_Source : VolumeSource;
  vol_Aerospike : option AerospikeVolumeAttachment;
  vol_Sidecars : list VolumeAttachment;
  vol_InitContainers : list VolumeAttachment;
  vol_InitMethod : VolumeInitMethod;
  vol_WipeMethod : VolumeWipeMethod;
  vol_CascadeDelete : option bool
}.

#[export] Instance VolumeSpec_fields : Fields VolumeSpec := fun r => mkVolumeSpec
   (vol_Name r) (vol_Source r) (vol_Aerospike r) (vol_Sidecars r) (vol_InitContainers r)
   (vol_InitMethod r) (vol_WipeMethod r) (vol_CascadeDelete r).

#[export] Instance VolumeSpec_eq_dec : EqDecision VolumeSpec.
Proof. solve_decision. Defined.

(** [vol.Source.PersistentVolume]. *)
Definition vol_PersistentVolume (vol : VolumeSpec) : option PersistentVolumeSpec :=
  vsrc_PersistentVolume (vol_Source vol).

(** [AerospikeStorageSpec]. *)
Record AerospikeStorageSpec := mkStorageSpec {
  st_Volumes : list VolumeSpec;
  st_CleanupThreads : Z;
  st_FilesystemVolumePolicy : option AerospikeVolumePolicy;
  st_BlockVolumePolicy : option AerospikeVolumePolicy;
  st_LocalStorageClasses : list string;
  st_DeleteLocalStorageOnRestart : option bool
}.

#[export] Instance AerospikeStorageSpec_fields : Fields AerospikeStorageSpec := fun r => mkStorageSpec
   (st_Volumes r) (st_CleanupThreads r) (st_FilesystemVolumePolicy r)
   (st_BlockVolumePolicy r) (st_LocalStorageClasses r) (st_DeleteLocalStorageOnRestart r).

#[export] Instance AerospikeStorageSpec_eq_dec : EqDecision AerospikeStorageSpec.
Proof. solve_decision. Defined.

(** ** Networks (api/v1alpha1/types_network.go, types_networkpolicy.go) *)

(** [AerospikeNetworkType]; the empty string is [NetOther ""]. *)
Inductive AerospikeNetworkType := NetPod | NetHostInternal | NetHostExternal | NetConfiguredIP
  | NetOther (s : string).

#[export] Instance AerospikeNetworkType_eq_dec : EqDecision AerospikeNetworkType.
Proof. solve_decision. Defined.

Definition networkTypeString (t : AerospikeNetworkType) : string :=
  match t with
  | NetPod => "pod" | NetHostInternal => "hostInternal" | NetHostExternal => "hostExternal"
  | NetConfiguredIP => "configuredIP" | NetOther s => s
  end.

(** [AerospikeNetworkPolicy]. *)
Record AerospikeNetworkPolicy := mkAerospikeNetworkPolicy {
  AccessType : AerospikeNetworkType;
  AlternateAccessType : AerospikeNetworkType;
  FabricType : AerospikeNetworkType;
  CustomAccessNetworkNames : list string;
  CustomAlternateAccessNetworkNames : list string;
  CustomFabricNetworkNames : list string
}.

#[export] Instance AerospikeNetworkPolicy_fields : Fields AerospikeNetworkPolicy := fun r => mkAerospikeNetworkPolicy
   (AccessType r) (AlternateAccessType r) (FabricType r) (CustomAccessNetworkNames r)
   (CustomAlternateAccessNetworkNames r) (CustomFabricNetworkNames r).

#[export] Instance AerospikeNetworkPolicy_eq_dec : EqDecision AerospikeNetworkPolicy.
Proof. solve_decision. Defined.

(** [LoadBalancerSpec]. *)
Record LoadBalancerSpec := mkLoadBalancerSpec {
  lb_Annotations : gomap string;
  lb_Labels : gomap string;
  lb_ExternalTrafficPolicy : string;
  lb_Port : Z;
  lb_TargetPort : Z;
  lb_LoadBalancerSourceRanges : list string
}.

#[export] Instance LoadBalancerSpec_fields : Fields LoadBalancerSpec := fun r => mkLoadBalancerSpec
   (lb_Annotations r) (lb_Labels r) (lb_ExternalTrafficPolicy r) (lb_Port r)
   (lb_TargetPort r) (lb_LoadBalancerSourceRanges r).

#[export] Instance LoadBalancerSpec_eq_dec : EqDecision LoadBalancerSpec.
Proof. solve_decision. Defined.

(** [SeedsFinderServices]. *)
Record SeedsFinderServices := mkSeedsFinderServices {
  sfs_LoadBalancer : option LoadBalancerSpec
}.

#[export] Instance SeedsFinderServices_fields : Fields SeedsFinderServices := fun r => mkSeedsFinderServices
   (sfs_LoadBalancer r).

#[export] Instance SeedsFinderServices_eq_dec : EqDecision SeedsFinderServices.
Proof. solve_decision. Defined.

(** [NetworkPolicyType]; [NetworkPolicyTypeUnset] is the empty string. *)
Inductive NetworkPolicyType :=
  | NetworkPolicyTypeUnset | NetworkPolicyTypeKubernetes | NetworkPolicyTypeCilium.

#[export] Instance NetworkPolicyType_eq_dec : EqDecision NetworkPolicyType.
Proof. solve_decision. Defined.

(** [NetworkPolicyConfig]. *)
Record NetworkPolicyConfig := mkNetworkPolicyConfig {
  npc_Enabled : bool;
  npc_Type : NetworkPolicyType
}.

#[export] Instance NetworkPolicyConfig_fields : Fields NetworkPolicyConfig := fun r => mkNetworkPolicyConfig
   (npc_Enabled r) (npc_Type r).

#[export] Instance NetworkPolicyConfig_eq_dec : EqDecision NetworkPolicyConfig.
Proof. solve_decision. Defined.

(** [BandwidthConfig]. *)
Record BandwidthConfig := mkBandwidthConfig {
  bw_Ingress : string;
  bw_Egress : string
}.

#[export] Instance BandwidthConfig_fields : Fields BandwidthConfig := fun r => mkBandwidthConfig
   (bw_Ingress r) (bw_Egress r).

#[export] Instance BandwidthConfig_eq_dec : EqDecision BandwidthConfig.
Proof. solve_decision. Defined.

(** ** Monitoring (api/v1alpha1/types_monitoring.go) *)

(** [ServiceMonitorSpec]. *)
Record ServiceMonitorSpec := mkServiceMonitorSpec {
  sm_Enabled : bool;
  sm_Interval : string;
  sm_Labels : gomap string
}.

#[export] Instance ServiceMonitorSpec_fields : Fields ServiceMonitorSpec := fun r => mkServiceMonitorSpec
   (sm_Enabled r) (sm_Interval r) (sm_Labels r).

#[export] Instance ServiceMonitorSpec_eq_dec : EqDecision ServiceMonitorSpec.
Proof. solve_decision. Defined.

(** [PrometheusRuleSpec]; a custom rule is the value its JSON text denotes. *)
Record PrometheusRuleSpec := mkPrometheusRuleSpec {
  pr_Enabled : bool;
  pr_Labels : gomap string;
  pr_CustomRules : list any
}.

#[export] Instance PrometheusRuleSpec_fields : Fields PrometheusRuleSpec := fun r => mkPrometheusRuleSpec
   (pr_Enabled r) (pr_Labels r) (pr_CustomRules r).

#[export] Instance PrometheusRuleSpec_eq_dec : EqDecision PrometheusRuleSpec.
Proof. solve_decision. Defined.

(** [AerospikeMonitoringSpec]. *)
Record AerospikeMonitoringSpec := mkMonitoringSpec {
  mon_Enabled : bool;
  mon_ExporterImage : string;
  mon_Port : Z;
  mon_Resources : option ResourceRequirements;
  mon_Env : list EnvVar;
  mon_MetricLabels : gomap string;
  mon_ServiceMonitor : option ServiceMonitorSpec;
  mon_PrometheusRule : option PrometheusRuleSpec
}.

#[export] Instance AerospikeMonitoringSpec_fields : Fields AerospikeMonitoringSpec := fun r => mkMonitoringSpec
   (mon_Enabled r) (mon_ExporterImage r) (mon_Port r) (mon_Resources r) (mon_Env r)
   (mon_MetricLabels r) (mon_ServiceMonitor r) (mon_PrometheusRule r).

#[export] Instance AerospikeMonitoringSpec_eq_dec : EqDecision AerospikeMonitoringSpec.
Proof. solve_decision. Defined.

(** ** Templates (api/v1alpha1/aerospikeclustertemplate_types.go) *)

(** [PodAntiAffinityLevel]; [PodAntiAffinityUnset] is the empty string. *)
Inductive PodAntiAffinityLevel :=
  | PodAntiAffinityUnset | PodAntiAffinityNone | PodAntiAffinityPreferred
  | PodAntiAffinityRequired.

#[export] Instance PodAntiAffinityLevel_eq_dec : EqDecision PodAntiAffinityLevel.
Proof. solve_decision. Defined.

(** [TemplateHeartbeatConfig]. *)
Record TemplateHeartbeatConfig := mkTemplateHeartbeatConfig {
  thb_Mode : string;
  thb_Interval : Z;
  thb_Timeout : Z
}.

#[export] Instance TemplateHeartbeatConfig_fields : Fields TemplateHeartbeatConfig := fun r => mkTemplateHeartbeatConfig
   (thb_Mode r) (thb_Interval r) (thb_Timeout r).

#[export] Instance TemplateHeartbeatConfig_eq_dec : EqDecision TemplateHeartbeatConfig.
Proof. solve_decision. Defined.

(** [TemplateNetworkConfig]. *)
Record TemplateNetworkConfig := mkTemplateNetworkConfig {
  tnc_Heartbeat : option TemplateHeartbeatConfig
}.

#[export] Instance TemplateNetworkConfig_fields : Fields TemplateNetworkConfig := fun r => mkTemplateNetworkConfig
   (tnc_Heartbeat r).

#[export] Instance TemplateNetworkConfig_eq_dec : EqDecision TemplateNetworkConfig.
Proof. solve_decision. Defined.

(** [TemplateAerospikeConfig]. *)
Record TemplateAerospikeConfig := mkTemplateAerospikeConfig {
  tac_NamespaceDefaults : option (gomap any);
  tac_Service : option (gomap any);
  tac_Network : option TemplateNetworkConfig
}.

#[export] Instance TemplateAerospikeConfig_fields : Fields TemplateAerospikeConfig := fun r => mkTemplateAerospikeConfig
   (tac_NamespaceDefaults r) (tac_Service r) (tac_Network r).

#[export] Instance TemplateAerospikeConfig_eq_dec : EqDecision TemplateAerospikeConfig.
Proof. solve_decision. Defined.

(** [TemplateScheduling]. *)
Record TemplateScheduling := mkTemplateScheduling {
  tsc_PodAntiAffinityLevel : PodAntiAffinityLevel;
  tsc_NodeAffinity : option NodeAffinity;
  tsc_Tolerations : list any;
  tsc_TopologySpreadConstraints : list any;
  tsc_PodManagementPolicy : option PodManagementPolicy
}.

#[export] Instance TemplateScheduling_fields : Fields TemplateScheduling := fun r => mkTemplateScheduling
   (tsc_PodAntiAffinityLevel r) (tsc_NodeAffinity r) (tsc_Tolerations r)
   (tsc_TopologySpreadConstraints r) (tsc_PodManagementPolicy r).

#[export] Instance TemplateScheduling_eq_dec : EqDecision TemplateScheduling.
Proof. solve_decision. Defined.

(** [TemplateStorage]; its resource requirements are the requests. *)
Record TemplateStorage := mkTemplateStorage {
  tst_StorageClassName : string;
  tst_VolumeMode : PersistentVolumeMode;
  tst_AccessModes : list string;
  tst_Requests : gomap Quantity;
  tst_LocalPVRequired : bool
}.

#[export] Instance TemplateStorage_fields : Fields TemplateStorage := fun r => mkTemplateStorage
   (tst_StorageClassName r) (tst_VolumeMode r) (tst_AccessModes r) (tst_Requests r)
   (tst_LocalPVRequired r).

#[export] Instance TemplateStorage_eq_dec : EqDecision TemplateStorage.
Proof. solve_decision. Defined.

(** [TemplateRackConfig]. *)
Record TemplateRackConfig := mkTemplateRackConfig {
  trc_MaxRacksPerNode : Z
}.

#[export] Instance TemplateRackConfig_fields : Fields TemplateRackConfig := fun r => mkTemplateRackConfig
   (trc_MaxRacksPerNode r).

#[export] Instance TemplateRackConfig_eq_dec : EqDecision TemplateRackConfig.
Proof. solve_decision. Defined.

(** [AerospikeClusterTemplateSpec]. *)
Record AerospikeClusterTemplateSpec := mkTemplateSpec {
  tp_Description : string;
  tp_AerospikeConfig : option TemplateAerospikeConfig;
  tp_Scheduling : option TemplateScheduling;
  tp_Storage : option TemplateStorage;
  tp_Resources : option ResourceRequirements;
  tp_RackConfig : option TemplateRackConfig;
  tp_Image : string;
  tp_Size : option Z;
  tp_Monitoring : option AerospikeMonitoringSpec;
  tp_AerospikeNetworkPolicy : option AerospikeNetworkPolicy
}.

#[export] Instance AerospikeClusterTemplateSpec_fields : Fields AerospikeClusterTemplateSpec := fun r => mkTemplateSpec
   (tp_Description r) (tp_AerospikeConfig r) (tp_Scheduling r) (tp_Storage r)
   (tp_Resources r) (tp_RackConfig r) (tp_Image r) (tp_Size r) (tp_Monitoring r)
   (tp_AerospikeNetworkPolicy r).

#[export] Instance AerospikeClusterTemplateSpec_eq_dec : EqDecision AerospikeClusterTemplateSpec.
Proof. solve_decision. Defined.

(** [AerospikeClusterTemplate]: a cluster-scoped object. *)
Record AerospikeClusterTemplate := mkTemplate {
  tmpl_Name : string;
  tmpl_ResourceVersion : string;
  tmpl_Spec : AerospikeClusterTemplateSpec
}.

#[export] Instance AerospikeClusterTemplate_fields : Fields AerospikeClusterTemplate := fun r => mkTemplate
   (tmpl_Name r) (tmpl_ResourceVersion r) (tmpl_Spec r).

(** ** The custom resource (api/v1alpha1/aerospikecluster_types.go, types_rack.go, types_pod.go) *)

(** [RackPodSpec]. *)
Record RackPodSpec := mkRackPodSpec {
  rps_Affinity : option Affinity;
  rps_Tolerations : list any;
  rps_NodeSelector : gomap string
}.

#[export] Instance RackPodSpec_fields : Fields RackPodSpec := fun r => mkRackPodSpec
   (rps_Affinity r) (rps_Tolerations r) (rps_NodeSelector r).

#[export] Instance RackPodSpec_eq_dec : EqDecision RackPodSpec.
Proof. solve_decision. Defined.

(** [Rack]. *)
Record Rack := mkRack {
  rack_ID : Z;
  rack_Zone : string;
  rack_Region : string;
  rack_NodeName : string;
  rack_RackLabel : string;
  rack_Revision : string;
  rack_AerospikeConfig : option (gomap any);
  rack_Storage : option AerospikeStorageSpec;
  rack_MaxUnavailable : option IntOrString;
  rack_PodSpec : option RackPodSpec
}.

#[export] Instance Rack_fields : Fields Rack := fun r => mkRack (rack_ID r) (rack_Zone r)
   (rack_Region r) (rack_NodeName r) (rack_RackLabel r) (rack_Revision r)
   (rack_AerospikeConfig r) (rack_Storage r) (rack_MaxUnavailable r) (rack_PodSpec r).

#[export] Instance Rack_eq_dec : EqDecision Rack.
Proof. solve_decision. Defined.

(** [RackConfig]. *)
Record RackConfig := mkRackConfig {
  rc_Racks : list Rack;
  rc_ScaleDownBatchSize : option IntOrString;
  rc_MaxIgnorablePods : option IntOrString;
  rc_RollingUpdateBatchSize : option IntOrString;
  rc_Namespaces : list string
}.

#[export] Instance RackConfig_fields : Fields RackConfig := fun r => mkRackConfig
   (rc_Racks r) (rc_ScaleDownBatchSize r) (rc_MaxIgnorablePods r)
   (rc_RollingUpdateBatchSize r) (rc_Namespaces r).

#[export] Instance RackConfig_eq_dec : EqDecision RackConfig.
Proof. solve_decision. Defined.

(** [AerospikeContainerSpec]. *)
Record AerospikeContainerSpec := mkAerospikeContainerSpec {
  acs_Resources : option ResourceRequirements;
  acs_SecurityContext : option any
}.

#[export] Instance AerospikeContainerSpec_fields : Fields AerospikeContainerSpec := fun r => mkAerospikeContainerSpec
   (acs_Resources r) (acs_SecurityContext r).

#[export] Instance AerospikeContainerSpec_eq_dec : EqDecision AerospikeContainerSpec.
Proof. solve_decision. Defined.

(** [AerospikePodSpec]. *)
Record AerospikePodSpec := mkAerospikePodSpec {
  ps_AerospikeContainerSpec : option AerospikeContainerSpec;
  ps_Sidecars : list Container;
  ps_InitContainers : list Container;
  ps_ImagePullSecrets : list string;
  ps_NodeSelector : gomap string;
  ps_Tolerations : list any;
  ps_Affinity : option Affinity;
  ps_SecurityContext : option any;
  ps_ServiceAccountName : string;
  ps_DNSPolicy : string;
  ps_HostNetwork : bool;
  ps_MultiPodPerHost : option bool;
  ps_TerminationGracePeriodSeconds : option Z;
  ps_TopologySpreadConstraints : list any;
  ps_PodManagementPolicy : option PodManagementPolicy;
  ps_Metadata : option AerospikeObjectMeta;
  ps_ReadinessGateEnabled : option bool;
  ps_PriorityClassName : string
}.

#[export] Instance AerospikePodSpec_fields : Fields AerospikePodSpec := fun r => mkAerospikePodSpec
   (ps_AerospikeContainerSpec r) (ps_Sidecars r) (ps_InitContainers r)
   (ps_ImagePullSecrets r) (ps_NodeSelector r) (ps_Tolerations r) (ps_Affinity r)
   (ps_SecurityContext r) (ps_ServiceAccountName r) (ps_DNSPolicy r) (ps_HostNetwork r)
   (ps_MultiPodPerHost r) (ps_TerminationGracePeriodSeconds r)
   (ps_TopologySpreadConstraints r) (ps_PodManagementPolicy r) (ps_Metadata r)
   (ps_ReadinessGateEnabled r) (ps_PriorityClassName r).

#[export] Instance AerospikePodSpec_eq_dec : EqDecision AerospikePodSpec.
Proof. solve_decision. Defined.

(** [AerospikePodSpec{}]. *)
Definition emptyPodSpec : AerospikePodSpec :=
  mkAerospikePodSpec None [] [] [] [] [] None None "" "" false None None [] None None None "".

(** [AerospikeRoleSpec]. *)
Record AerospikeRoleSpec := mkRoleSpec {
  role_Name : string;
  role_Privileges : list string;
  role_Whitelist : list string
}.

#[export] Instance AerospikeRoleSpec_fields : Fields AerospikeRoleSpec := fun r => mkRoleSpec
   (role_Name r) (role_Privileges r) (role_Whitelist r).

#[export] Instance AerospikeRoleSpec_eq_dec : EqDecision AerospikeRoleSpec.
Proof. solve_decision. Defined.

(** [AerospikeClientAdminPolicy]. *)
Record AerospikeClientAdminPolicy := mkAdminPolicy {
  ap_Timeout : Z
}.

#[export] Instance AerospikeClientAdminPolicy_fields : Fields AerospikeClientAdminPolicy := fun r => mkAdminPolicy
   (ap_Timeout r).

#[export] Instance AerospikeClientAdminPolicy_eq_dec : EqDecision AerospikeClientAdminPolicy.
Proof. solve_decision. Defined.

(** [AerospikeAccessControlSpec]. *)
Record AerospikeAccessControlSpec := mkAccessControl {
  acl_Roles : list AerospikeRoleSpec;
  acl_Users : list AerospikeUserSpec;
  acl_AdminPolicy : option AerospikeClientAdminPolicy
}.

#[export] Instance AerospikeAccessControlSpec_fields : Fields AerospikeAccessControlSpec := fun r => mkAccessControl
   (acl_Roles r) (acl_Users r) (acl_AdminPolicy r).

#[export] Instance AerospikeAccessControlSpec_eq_dec : EqDecision AerospikeAccessControlSpec.
Proof. solve_decision. Defined.

(** [OperationKind]; the webhook admits the first two. *)
Inductive OperationKind :=
  | OperationWarmRestart | OperationPodRestart | OperationOther (kind : string).

#[export] Instance OperationKind_eq_dec : EqDecision OperationKind.
Proof. solve_decision. Defined.

(** [OperationSpec]. *)
Record OperationSpec := mkOperationSpec {
  op_Kind : OperationKind;
  op_ID : string;
  op_PodList : list string
}.

#[export] Instance OperationSpec_fields : Fields OperationSpec := fun r => mkOperationSpec
   (op_Kind r) (op_ID r) (op_PodList r).

#[export] Instance OperationSpec_eq_dec : EqDecision OperationSpec.
Proof. solve_decision. Defined.

(** [ValidationPolicySpec]. *)
Record ValidationPolicySpec := mkValidationPolicySpec {
  val_SkipWorkDirValidate : bool
}.

#[export] Instance ValidationPolicySpec_fields : Fields ValidationPolicySpec := fun r => mkValidationPolicySpec
   (val_SkipWorkDirValidate r).

#[export] Instance ValidationPolicySpec_eq_dec : EqDecision ValidationPolicySpec.
Proof. solve_decision. Defined.

(** [AerospikeClusterSpec]; a template reference is the name it holds. *)
Record AerospikeClusterSpec := mkSpec {
  spec_Size : Z;
  spec_Image : string;
  spec_AerospikeConfig : option (gomap any);
  spec_Storage : option AerospikeStorageSpec;
  spec_RackConfig : option RackConfig;
  spec_PodSpec : option AerospikePodSpec;
  spec_AerospikeAccessControl : option AerospikeAccessControlSpec;
  spec_EnableDynamicConfigUpdate : option bool;
  spec_RollingUpdateBatchSize : option Z;
  spec_Paused : option bool;
  spec_K8sNodeBlockList : list string;
  spec_Operations : list OperationSpec;
  spec_Monitoring : option AerospikeMonitoringSpec;
  spec_PodService : option AerospikeServiceSpec;
  spec_AerospikeNetworkPolicy : option AerospikeNetworkPolicy;
  spec_TemplateRef : option string;
  spec_Overrides : option AerospikeClusterTemplateSpec;
  spec_NetworkPolicyConfig : option NetworkPolicyConfig;
  spec_BandwidthConfig : option BandwidthConfig;
  spec_DisablePDB : option bool;
  spec_MaxUnavailable : option IntOrString;
  spec_SeedsFinderServices : option SeedsFinderServices;
  spec_ValidationPolicy : option ValidationPolicySpec;
  spec_HeadlessService : option AerospikeServiceSpec
}.

#[export] Instance AerospikeClusterSpec_fields : Fields AerospikeClusterSpec := fun r => mkSpec
   (spec_Size r) (spec_Image r) (spec_AerospikeConfig r) (spec_Storage r)
   (spec_RackConfig r) (spec_PodSpec r) (spec_AerospikeAccessControl r)
   (spec_EnableDynamicConfigUpdate r) (spec_RollingUpdateBatchSize r) (spec_Paused r)
   (spec_K8sNodeBlockList r) (spec_Operations r) (spec_Monitoring r) (spec_PodService r)
   (spec_AerospikeNetworkPolicy r) (spec_TemplateRef r) (spec_Overrides r)
   (spec_NetworkPolicyConfig r) (spec_BandwidthConfig r) (spec_DisablePDB r)
   (spec_MaxUnavailable r) (spec_SeedsFinderServices r) (spec_ValidationPolicy r)
   (spec_HeadlessService r).

#[export] Instance AerospikeClusterSpec_eq_dec : EqDecision AerospikeClusterSpec.
Proof. solve_decision. Defined.

(** [AerospikeClusterSpec{Size: size, Image: image}]. *)
Definition emptySpec (size : Z) (image : string) : AerospikeClusterSpec :=
  mkSpec size image None None None None None None None None [] [] None None None None None None
    None None None None None None.

(** [AerospikePhase]; [PhaseUnset] is the empty string. *)
Inductive AerospikePhase :=
  | PhaseUnset | PhaseInProgress | PhaseCompleted | PhaseError | PhaseScalingUp
  | PhaseScalingDown | PhaseWaitingForMigration | PhaseRollingRestart | PhaseACLSync
  | PhasePaused | PhaseDeleting | PhaseConfigDegraded | PhaseBackoffActive.

#[export] Instance AerospikePhase_eq_dec : EqDecision AerospikePhase.
Proof. solve_decision. Defined.

(** [RestartReason]. *)
Inductive RestartReason :=
  | RestartReasonConfigChanged | RestartReasonImageChanged | RestartReasonPodSpecChanged
  | RestartReasonManualRestart | RestartReasonWarmRestart.

#[export] Instance RestartReason_eq_dec : EqDecision RestartReason.
Proof. solve_decision. Defined.

(** [OperationStatus]. *)
Record OperationStatus := mkOperationStatus {
  os_ID : string;
  os_Kind : OperationKind;
  os_Phase : AerospikePhase;
  os_CompletedPods : list string;
  os_FailedPods : list string
}.

#[export] Instance OperationStatus_fields : Fields OperationStatus := fun r => mkOperationStatus
   (os_ID r) (os_Kind r) (os_Phase r) (os_CompletedPods r) (os_FailedPods r).

#[export] Instance OperationStatus_eq_dec : EqDecision OperationStatus.
Proof. solve_decision. Defined.

(** [MigrationStatus]. *)
Record MigrationStatus := mkMigrationStatus {
  ms_InProgress : bool;
  ms_RemainingPartitions : Z;
  ms_LastChecked : Z
}.

#[export] Instance MigrationStatus_fields : Fields MigrationStatus := fun r => mkMigrationStatus
   (ms_InProgress r) (ms_RemainingPartitions r) (ms_LastChecked r).

#[export] Instance MigrationStatus_eq_dec : EqDecision MigrationStatus.
Proof. solve_decision. Defined.

(** [DynamicConfigChangeStatus]. *)
Record DynamicConfigChangeStatus := mkDynamicChange {
  dcs_Path : string;
  dcs_OldValue : string;
  dcs_NewValue : string;
  dcs_Result : string
}.

#[export] Instance DynamicConfigChangeStatus_fields : Fields DynamicConfigChangeStatus := fun r => mkDynamicChange
   (dcs_Path r) (dcs_OldValue r) (dcs_NewValue r) (dcs_Result r).

#[export] Instance DynamicConfigChangeStatus_eq_dec : EqDecision DynamicConfigChangeStatus.
Proof. solve_decision. Defined.

(** [AerospikePodStatus]. *)
Record AerospikePodStatus := mkPodStatus {
  ps_PodIP : string;
  ps_HostIP : string;
  ps_Image : string;
  ps_PodPort : Z;
  ps_ServicePort : Z;
  ps_Rack : Z;
  ps_InitializedVolumes : list string;
  ps_IsRunningAndReady : bool;
  ps_ConfigHash : string;
  ps_PodSpecHash : string;
  ps_DynamicConfigStatus : string;
  ps_DynamicConfigChanges : list DynamicConfigChangeStatus;
  ps_DirtyVolumes : list string;
  ps_NodeID : string;
  ps_ClusterName : string;
  ps_AccessEndpoints : list string;
  ps_ReadinessGateSatisfied : bool;
  ps_LastRestartReason : option RestartReason;
  ps_LastRestartTime : option Z;
  ps_UnstableSince : option Z;
  ps_MigratingPartitions : option Z
}.

#[export] Instance AerospikePodStatus_fields : Fields AerospikePodStatus := fun r => mkPodStatus
   (ps_PodIP r) (ps_HostIP r) (ps_Image r) (ps_PodPort r) (ps_ServicePort r) (ps_Rack r)
   (ps_InitializedVolumes r) (ps_IsRunningAndReady r) (ps_ConfigHash r) (ps_PodSpecHash r)
   (ps_DynamicConfigStatus r) (ps_DynamicConfigChanges r) (ps_DirtyVolumes r) (ps_NodeID r)
   (ps_ClusterName r) (ps_AccessEndpoints r) (ps_ReadinessGateSatisfied r)
   (ps_LastRestartReason r) (ps_LastRestartTime r) (ps_UnstableSince r)
   (ps_MigratingPartitions r).

#[export] Instance AerospikePodStatus_eq_dec : EqDecision AerospikePodStatus.
Proof. solve_decision. Defined.

(** The zero value Go reads from the pod-status map at an absent key. *)
Definition zeroPodStatus : AerospikePodStatus :=
  mkPodStatus "" "" "" 0 0 0 [] false "" "" "" [] [] "" "" [] false None None None None.

(** [metav1.Condition]. *)
Record Condition := mkCondition {
  c_Type : string;
  c_Status : ConditionStatus;
  c_ObservedGeneration : Z;
  c_Reason : string;
  c_Message : string;
  c_LastTransitionTime : Z
}.

#[export] Instance Condition_fields : Fields Condition := fun r => mkCondition (c_Type r)
   (c_Status r) (c_ObservedGeneration r) (c_Reason r) (c_Message r) (c_LastTransitionTime r).

#[export] Instance Condition_eq_dec : EqDecision Condition.
Proof. solve_decision. Defined.

(** [TemplateSnapshotStatus]. *)
Record TemplateSnapshotStatus := mkTemplateSnapshot {
  ts_Name : string;
  ts_ResourceVersion : string;
  ts_SnapshotTimestamp : Z;
  ts_Synced : bool;
  ts_Spec : option AerospikeClusterTemplateSpec
}.

#[export] Instance TemplateSnapshotStatus_fields : Fields TemplateSnapshotStatus := fun r => mkTemplateSnapshot
   (ts_Name r) (ts_ResourceVersion r) (ts_SnapshotTimestamp r) (ts_Synced r) (ts_Spec r).

(** [AerospikeClusterStatus]. *)
Record AerospikeClusterStatus := mkStatus {
  st_Phase : AerospikePhase;
  st_PhaseReason : string;
  st_Size : Z;
  st_Replicas : Z;
  st_Health : string;
  st_Conditions : list Condition;
  st_Pods : gmap string AerospikePodStatus;
  st_ObservedGeneration : Z;
  st_Selector : string;
  st_AerospikeConfig : option (gomap any);
  st_OperationStatus : option OperationStatus;
  st_AppliedSpec : option AerospikeClusterSpec;
  st_AerospikeClusterSize : Z;
  st_OperatorVersion : string;
  st_PendingRestartPods : list string;
  st_LastReconcileTime : option Z;
  st_TemplateSnapshot : option TemplateSnapshotStatus;
  st_FailedReconcileCount : Z;
  st_LastReconcileError : string;
  st_MigrationStatus : option MigrationStatus;
  st_Endpoints : string;
  st_SeedsEndpoint : string
}.

#[export] Instance AerospikeClusterStatus_fields : Fields AerospikeClusterStatus := fun r => mkStatus
   (st_Phase r) (st_PhaseReason r) (st_Size r) (st_Replicas r) (st_Health r)
   (st_Conditions r) (st_Pods r) (st_ObservedGeneration r) (st_Selector r)
   (st_AerospikeConfig r) (st_OperationStatus r) (st_AppliedSpec r)
   (st_AerospikeClusterSize r) (st_OperatorVersion r) (st_PendingRestartPods r)
   (st_LastReconcileTime r) (st_TemplateSnapshot r) (st_FailedReconcileCount r)
   (st_LastReconcileError r) (st_MigrationStatus r) (st_Endpoints r) (st_SeedsEndpoint r).

(** [AerospikeCluster] with the object metadata the controller uses. *)
Record AerospikeCluster := mkCluster {
  cl_Name : string;
  cl_Namespace : string;
  cl_UID : string;
  cl_Generation : Z;
  cl_ResourceVersion : Z;
  cl_DeletionTimestamp : option Z;
  cl_Finalizers : list string;
  cl_Annotations : gomap string;
  cl_Spec : AerospikeClusterSpec;
  cl_Status : AerospikeClusterStatus
}.

#[export] Instance AerospikeCluster_fields : Fields AerospikeCluster := fun r => mkCluster
   (cl_Name r) (cl_Namespace r) (cl_UID r) (cl_Generation r) (cl_ResourceVersion r)
   (cl_DeletionTimestamp r) (cl_Finalizers r) (cl_Annotations r) (cl_Spec r) (cl_Status r).

(** [cluster.Status.X = v] for a status field. *)
Notation "c <$ f := v $>" := (update (proj := cl_Status) (fun s => s <| f := v |>) c)
  (at level 1, left associativity, format "c  <$ f  :=  v $>") : record_scope.

(** Reading an annotation or a label: a missing key reads as the empty string. *)
Definition lookup_str (k : string) (m : gomap string) : string := default "" (map_get k m).

(** ** Condition types *)

Definition ConditionAvailable := "Available".
Definition ConditionReady := "Ready".
Definition ConditionConfigApplied := "ConfigApplied".
Definition ConditionACLSynced := "ACLSynced".
Definition ConditionMigrationComplete := "MigrationComplete".
Definition ConditionReconciliationPaused := "ReconciliationPaused".
Definition ConditionReconcileHealthy := "ReconcileHealthy".
Definition ConditionDynamicConfigDegraded := "DynamicConfigDegraded".

(** ** Predicates on objects shared by the controller's files *)

(** [isPodReady]: running, with a Ready condition that is True. *)
Definition isPodReady (pod : Pod) : bool :=
  bool_decide (pod_Phase pod = PodRunning) &&
  existsb (fun c => bool_decide (pc_Type c = "Ready") && bool_decide (pc_Status c = ConditionTrue))
    (pod_Conditions pod).

(** [podReadyConditionStatus]: the status of the first Ready condition. *)
Definition podReadyConditionStatus (pod : Pod) : ConditionStatus :=
  match list_find (fun c => pc_Type c = "Ready") (pod_Conditions pod) with
  | Some (_, c) => pc_Status c
  | None => ConditionUnknown
  end.

(** [podOrdinal]: the number after the last dash, 0 when there is none. *)
Definition podOrdinal (podName : string) : Z :=
  match split_last "-" podName with
  | None => 0
  | Some (_, suffix) => default 0 (atoi suffix)
  end.

(** [rackPodOrdinal]: the same, reporting failure instead of 0. *)
Definition rackPodOrdinal (podName : string) : option Z :=
  match split_last "-" podName with
  | None => None
  | Some (_, suffix) =>
      match atoi suffix with
      | None => None
      | Some ordinal => if ordinal <? 0 then None else Some ordinal
      end
  end.

(** A rack with an ID and nothing else, [Rack{ID: id}]. *)
Definition plainRack (id : Z) : Rack := mkRack id "" "" "" "" "" None None None None.

(** [statefulSetReplicas]: an unset replica count is zero. *)
Definition statefulSetReplicas (sts : StatefulSet) : Z := default 0 (sts_Replicas sts).

(** The name Kubernetes gives to the pod at an ordinal of a StatefulSet. *)
Definition podName (stsName : string) (ordinal : Z) : string :=
  stsName +:+ "-" +:+ pretty ordinal.

(** ** Lemmas *)

Lemma split_last_podName stsName n :
  0 <= n -> split_last "-" (podName stsName n) = Some (stsName, pretty n).
Proof. intros Hn. apply split_last_app. by apply pretty_nonneg_not_contains. Qed.

Lemma podOrdinal_podName stsName n :
  0 <= n -> in_i64 n -> podOrdinal (podName stsName n) = n.
Proof.
  intros Hn Hr. unfold podOrdinal. rewrite (split_last_podName _ _ Hn).
  by rewrite (atoi_pretty n Hr).
Qed.

(** The two ordinal parsers agree wherever the strict one succeeds, and on the
    names Kubernetes generates it always does. *)
Lemma rackPodOrdinal_Some name n :
  rackPodOrdinal name = Some n -> podOrdinal name = n /\ 0 <= n.
Proof.
  unfold rackPodOrdinal, podOrdinal. destruct (split_last "-" name) as [[? s]|]; [|done].
  destruct (atoi s) as [z|]; [|done]. destruct (Z.ltb_spec z 0); [done|].
  intros [= <-]. done.
Qed.

Lemma rackPodOrdinal_podName stsName n :
  0 <= n -> in_i64 n -> rackPodOrdinal (podName stsName n) = Some n.
Proof.
  intros Hn Hr. unfold rackPodOrdinal. rewrite (split_last_podName _ _ Hn).
  rewrite (atoi_pretty n Hr). by destruct (Z.ltb_spec n 0); [lia|].
Qed.

(** A pod is ready only if one of its Ready conditions is True. *)
Lemma isPodReady_running pod : isPodReady pod = true -> pod_Phase pod = PodRunning.
Proof. unfold isPodReady. intros [H _]%andb_prop. by apply bool_decide_eq_true in H. Qed.
