(* ===== verification/Metrics.v ===== *)
(** * The operator's Prometheus metrics

    internal/metrics/metrics.go: the metric vectors the operator registers, the numeric code
    of a phase and the removal of a deleted cluster's series.  A vector keeps one series per
    tuple of label values, which [WithLabelValues] creates on first use.  The registry lives in
    the operator's process: it starts empty and knows nothing of earlier runs.

    The values written are integral (codes, counts, Unix times); a histogram keeps the durations
    it observed, in nanoseconds. *)

From S2P Require Import Prelude GoValue Utils Api.

(** The registered vectors. *)
Inductive metricVec :=
| ClusterPhase | ClusterReadyPods | ReconcileDuration | WarmRestartsTotal | ColdRestartsTotal
| DynamicConfigUpdatesTotal | ACLSyncTotal | ReconcileErrorsTotal | LastReconcileTimestamp
| ClusterASSize | ScaleDownDeferralsTotal | ClusterMigratingPartitions | CircuitBreakerActive
| ClusterPausedTimestamp | ClusterPausedDuration.

#[export] Instance metricVec_eq_dec : EqDecision metricVec.
Proof. solve_decision. Defined.

(** [init]: what is registered, in order. *)
Definition registeredMetrics : list metricVec :=
  [ClusterPhase; ClusterReadyPods; ReconcileDuration; WarmRestartsTotal; ColdRestartsTotal;
   DynamicConfigUpdatesTotal; ACLSyncTotal; ReconcileErrorsTotal; LastReconcileTimestamp;
   ClusterASSize; ClusterMigratingPartitions; ScaleDownDeferralsTotal; CircuitBreakerActive;
   ClusterPausedTimestamp; ClusterPausedDuration].

#[export] Program Instance metricVec_finite : finite.Finite metricVec := {| finite.enum := registeredMetrics |}.
Next Obligation. by apply (bool_decide_unpack _). Qed.
Next Obligation. by intros []; apply (bool_decide_unpack _). Qed.

(** The label that distinguishes the series of one cluster in a vector with three labels. *)
Definition extraLabel (m : metricVec) : option string :=
  match m with ACLSyncTotal => Some "result" | ReconcileErrorsTotal => Some "reason" | _ => None end.

(** The label names of a vector. *)
Definition labelNames (m : metricVec) : list string := ["namespace"; "name"] ++ option_list (extraLabel m).

(** The names under which the vectors are exported. *)
Definition metricName (m : metricVec) : string :=
  match m with
  | ClusterPhase => "acko_cluster_phase"
  | ClusterReadyPods => "acko_cluster_ready_pods"
  | ReconcileDuration => "acko_reconcile_duration_seconds"
  | WarmRestartsTotal => "acko_warm_restarts_total"
  | ColdRestartsTotal => "acko_cold_restarts_total"
  | DynamicConfigUpdatesTotal => "acko_dynamic_config_updates_total"
  | ACLSyncTotal => "acko_acl_sync_total"
  | ReconcileErrorsTotal => "acko_reconcile_errors_total"
  | LastReconcileTimestamp => "acko_last_reconcile_timestamp_seconds"
  | ClusterASSize => "acko_cluster_as_size"
  | ScaleDownDeferralsTotal => "acko_scaledown_deferrals_total"
  | ClusterMigratingPartitions => "acko_cluster_migrating_partitions"
  | CircuitBreakerActive => "acko_circuit_breaker_active"
  | ClusterPausedTimestamp => "acko_cluster_paused_timestamp_seconds"
  | ClusterPausedDuration => "acko_cluster_paused_duration_seconds"
  end.

(** A series: its vector and its label values, in the order of [labelNames]. *)
Definition series : Type := metricVec * list string.

Inductive sample := Gauge (v : Z) | Counter (n : Z) | Histogram (durations : list Z).

#[export] Instance sample_eq_dec : EqDecision sample.
Proof. solve_decision. Defined.

Abbreviation registry := (gmap series sample).

(** [m.WithLabelValues(lvs...).Set(v)] *)
Definition gaugeSet (m : metricVec) (lvs : list string) (v : Z) : registry -> registry := <[(m, lvs) := Gauge v]>.

(** [m.WithLabelValues(lvs...).Inc()] *)
Definition counterInc (m : metricVec) (lvs : list string) (r : registry) : registry :=
  <[(m, lvs) := Counter (match r !! (m, lvs) with Some (Counter n) => n + 1 | _ => 1 end)]> r.

(** [m.WithLabelValues(lvs...).Observe(d)] *)
Definition histogramObserve (m : metricVec) (lvs : list string) (d : Z) (r : registry) : registry :=
  <[(m, lvs) := Histogram (d :: match r !! (m, lvs) with Some (Histogram l) => l | _ => [] end)]> r.

(** The reasons of [ReconcileErrorsTotal]. *)
Definition ReasonService := "Service".
Definition ReasonConfigMap := "ConfigMap".
Definition ReasonStatefulSet := "StatefulSet".
Definition ReasonPDB := "PDB".
Definition ReasonRestart := "Restart".
Definition ReasonACL := "ACL".
Definition ReasonMonitoring := "Monitoring".
Definition ReasonNetPolicy := "NetworkPolicy".
Definition ReasonStatus := "Status".
Definition ReasonOperations := "Operations".
Definition ReasonOther := "Other".

(** The reasons whose series are removed with a cluster. *)
Definition cleanedReasons : list string :=
  [ReasonService; ReasonConfigMap; ReasonStatefulSet; ReasonPDB; ReasonRestart; ReasonACL; ReasonMonitoring;
   ReasonNetPolicy; ReasonStatus; ReasonOperations; ReasonOther].

Definition cleanedResults : list string := ["success"; "error"].

(** The values of the third label that are removed with a cluster. *)
Definition labelValues (m : metricVec) : list string :=
  match m with ACLSyncTotal => cleanedResults | ReconcileErrorsTotal => cleanedReasons | _ => [] end.

(** [string(phase)]: the constants of [AerospikePhase]. *)
Definition phaseName (phase : AerospikePhase) : string :=
  match phase with
  | PhaseUnset => ""
  | PhaseInProgress => "InProgress"
  | PhaseCompleted => "Completed"
  | PhaseError => "Error"
  | PhaseScalingUp => "ScalingUp"
  | PhaseScalingDown => "ScalingDown"
  | PhaseWaitingForMigration => "WaitingForMigration"
  | PhaseRollingRestart => "RollingRestart"
  | PhaseACLSync => "ACLSync"
  | PhasePaused => "Paused"
  | PhaseDeleting => "Deleting"
  | PhaseConfigDegraded => "ConfigDegraded"
  | PhaseBackoffActive => "BackoffActive"
  end.

(** [PhaseToFloat]. *)
Definition phaseCodes : list (string * Z) :=
  [("InProgress", 1); ("Completed", 2); ("Error", 3); ("ScalingUp", 4); ("ScalingDown", 5);
   ("WaitingForMigration", 6); ("RollingRestart", 7); ("ACLSync", 8); ("Paused", 9); ("Deleting", 10);
   ("BackoffActive", 11); ("ConfigDegraded", 12)].

Definition PhaseToFloat (phase : string) : Z := default 0 (map_get phase phaseCodes).

(** The series [CleanupClusterMetrics] deletes. *)
Definition cleanedSeries (namespace name : string) : list series :=
  ((fun m => (m, [namespace; name])) <$>
    [ClusterPhase; ClusterReadyPods; ReconcileDuration; WarmRestartsTotal; ColdRestartsTotal; DynamicConfigUpdatesTotal;
     LastReconcileTimestamp; ClusterASSize; ClusterMigratingPartitions; ScaleDownDeferralsTotal; CircuitBreakerActive;
     ClusterPausedTimestamp; ClusterPausedDuration])
  ++ ((fun result => (ACLSyncTotal, [namespace; name; result])) <$> cleanedResults)
  ++ ((fun reason => (ReconcileErrorsTotal, [namespace; name; reason])) <$> cleanedReasons).

(** [CleanupClusterMetrics]. *)
Definition CleanupClusterMetrics (namespace name : string) (r : registry) : registry :=
  foldl (fun r s => delete s r) r (cleanedSeries namespace name).

(** ** Series the operator may create *)

(** A series of a cluster with a label value that is cleaned up. *)
Definition knownSeries (s : series) : Prop :=
  exists namespace name, s ∈ cleanedSeries namespace name.

(** The series of a cluster. *)
Definition seriesOf (namespace name : string) (s : series) : Prop := take 2 s.2 = [namespace; name].

#[export] Instance seriesOf_dec namespace name s : Decision (seriesOf namespace name s).
Proof. unfold seriesOf. apply _. Defined.

(** Only series that a cleanup can remove exist. *)
Definition registry_wf (r : registry) : Prop := forall s, is_Some (r !! s) -> knownSeries s.

Lemma cleanedSeries_spec namespace name s :
  s ∈ cleanedSeries namespace name <->
  match extraLabel s.1 with
  | None => s.2 = [namespace; name]
  | Some _ => exists v, s.2 = [namespace; name; v] /\
                v ∈ labelValues s.1
  end.
Proof.
  destruct s as [m lvs]. unfold cleanedSeries. rewrite !elem_of_app, !list_elem_of_fmap. split.
  - intros [(m' & [= -> ->] & Hm)|[(v & [= -> ->] & Hv)|(v & [= -> ->] & Hv)]]; simpl; eauto.
    by destruct m'; rewrite ?list_elem_of_In in Hm; simpl in Hm; intuition.
  - destruct m; simpl; try (intros ->; left; eexists; split; [reflexivity|]; by apply (bool_decide_unpack _));
      intros (v & -> & Hv); right; [left|right]; eauto.
Qed.

Lemma cleanup_lookup namespace name r s :
  CleanupClusterMetrics namespace name r !! s =
  if decide (s ∈ cleanedSeries namespace name) then None else r !! s.
Proof.
  unfold CleanupClusterMetrics. generalize (cleanedSeries namespace name) as l. intros l. revert r.
  induction l as [|x l IH]; intros r; simpl; [done|]. rewrite IH.
  destruct (decide (s = x)) as [->|Hne]; [rewrite lookup_delete_eq|rewrite lookup_delete_ne by done];
    repeat case_decide; set_solver.
Qed.

Lemma known_seriesOf namespace name s : knownSeries s -> seriesOf namespace name s -> s ∈ cleanedSeries namespace name.
Proof.
  intros (ns & n & Hs) Hof. unfold seriesOf in Hof. rewrite cleanedSeries_spec in *.
  destruct (extraLabel s.1); [destruct Hs as (v & Hl & Hv)|rename Hs into Hl]; rewrite Hl in *;
    simpl in Hof; simplify_eq; eauto.
Qed.

(** No series of the cluster is left. *)
Lemma cleanup_complete namespace name r s :
  registry_wf r -> seriesOf namespace name s -> CleanupClusterMetrics namespace name r !! s = None.
Proof.
  intros Hwf Hs. rewrite cleanup_lookup. case_decide as Hin; [done|].
  destruct (r !! s) eqn:Hr; [|done]. destruct Hin. apply known_seriesOf; [|done]. by apply Hwf.
Qed.

(** Another cluster's series stay. *)
Lemma cleanup_other namespace name r s :
  ~ seriesOf namespace name s -> CleanupClusterMetrics namespace name r !! s = r !! s.
Proof.
  intros Hs. rewrite cleanup_lookup. case_decide as Hin; [|done]. destruct Hs.
  rewrite cleanedSeries_spec in Hin. unfold seriesOf.
  destruct (extraLabel s.1); [destruct Hin as (v & -> & _)|rewrite Hin]; done.
Qed.

Lemma cleanup_wf namespace name r : registry_wf r -> registry_wf (CleanupClusterMetrics namespace name r).
Proof. intros Hwf s. rewrite cleanup_lookup. case_decide; [by intros []|apply Hwf]. Qed.

Lemma insert_wf s v r : knownSeries s -> registry_wf r -> registry_wf (<[s := v]> r).
Proof. intros Hs Hwf s'. destruct (decide (s = s')) as [->|]; [done|]. rewrite lookup_insert_ne by done. apply Hwf. Qed.

(** An update that creates no other series. *)
Definition knownUpdate (f : registry -> registry) : Prop := forall r, registry_wf r -> registry_wf (f r).

Lemma known_plain m namespace name : extraLabel m = None -> knownSeries (m, [namespace; name]).
Proof. intros Hm. exists namespace, name. rewrite cleanedSeries_spec. simpl. by rewrite Hm. Qed.

Lemma known_labelled m namespace name v : v ∈ labelValues m -> knownSeries (m, [namespace; name; v]).
Proof.
  intros Hv. exists namespace, name. rewrite cleanedSeries_spec. simpl. destruct m; simpl in *; (by apply elem_of_nil in Hv) || eauto.
Qed.

Lemma known_gaugeSet m lvs v : knownSeries (m, lvs) -> knownUpdate (gaugeSet m lvs v).
Proof. intros Hs r. by apply insert_wf. Qed.

Lemma known_counterInc m lvs : knownSeries (m, lvs) -> knownUpdate (counterInc m lvs).
Proof. intros Hs r. by apply insert_wf. Qed.

Lemma known_histogramObserve m lvs d : knownSeries (m, lvs) -> knownUpdate (histogramObserve m lvs d).
Proof. intros Hs r. by apply insert_wf. Qed.

Lemma known_cleanup namespace name : knownUpdate (CleanupClusterMetrics namespace name).
Proof. intros r. apply cleanup_wf. Qed.

(** Distinct phases have distinct codes. *)
Lemma PhaseToFloat_inj : Inj (=) (=) (PhaseToFloat ∘ phaseName).
Proof. by intros [] []. Qed.
