(* ===== verification/ConfigGen.v ===== *)
(** * Package internal/configgen

    Rendering of a configuration map as [aerospike.conf] text: stanzas in sorted
    key order ([generator.go], [service.go]), namespaces and their storage
    engine ([namespace.go]), the network stanza with mesh seeds, and the access
    address placeholders ([network.go]). *)

From S2P Require Import Prelude GoValue Utils Api.
From Stdlib Require Import SpecFloat.

Definition TAB : string := String "009" "".
Definition NL : string := String "010" "".
Definition DQ : string := String "034" "".

(** Entries of a map in the order of [sortedKeys]. *)
Definition sortedEntries {A} (m : gomap A) : gomap A :=
  omap (fun k => (fun v => (k, v)) <$> map_get k m) (sortedKeys m).

(** ** generator.go *)

Definition SectionNamespaces := "namespaces".
Definition SectionLogging := "logging".
Definition SectionSecurity := "security".
Definition SectionService := "service".
Definition SectionNetwork := "network".
Definition SectionHeartbeat := "heartbeat".
Definition KeyMeshSeedAddressPort := "mesh-seed-address-port".

Section configgen.
Context `{GoPlatform}.

(** [fmt.Sprintf("%v", v)]: slices in brackets, maps as [map[k:v ...]] with
    sorted keys. *)
Fixpoint fmt_v (v : any) : string :=
  match v with
  | ANil => "<nil>"
  | ABool b => if b then "true" else "false"
  | AInt _ z => pretty z
  | AFloat32 f => fmt_g (float64_widen f)
  | AFloat64 f => fmt_g f
  | AString s => s
  | AList l => "[" +:+ String.concat " " (fmt_v <$> l) +:+ "]"
  | AMap m =>
      "map[" +:+ String.concat " " ((fun e => e.1 +:+ ":" +:+ e.2) <$>
        sortedEntries ((fun e => (e.1, fmt_v e.2)) <$> m)) +:+ "]"
  end.

Definition formatFloat (f : spec_float) : string :=
  if SFeqb f (float64_of_Z (int64_of_float f)) then pretty (int64_of_float f) else fmt_g f.

Definition formatValue (val : any) : string :=
  match val with
  | ANil => ""
  | ABool b => if b then "true" else "false"
  | AInt KInt z | AInt KInt32 z | AInt KInt64 z => pretty z
  | AFloat64 f => formatFloat f
  | AFloat32 f => formatFloat (float64_widen f)
  | AString s => s
  | _ => fmt_v val
  end.

(** A line [key value] at a given prefix. *)
Definition confLine (prefix key : string) (val : any) : string :=
  prefix +:+ key +:+ " " +:+ formatValue val +:+ NL.

(** The body of the loop of [writeMapEntries] for one key, with the recursive
    [writeBlock] calls for nested maps. *)
Fixpoint writeEntry (indent : nat) (key : string) (val : any) : string :=
  let prefix := repeat_str TAB indent in
  match val with
  | ANil => ""
  | AMap inner =>
      prefix +:+ key +:+ " {" +:+ NL +:+
      concat_str (snd <$> sortedEntries ((fun e => (e.1, writeEntry (S indent) e.1 e.2)) <$> inner))
      +:+ prefix +:+ "}" +:+ NL
  | AList v =>
      concat_str ((fun item => match item with
                               | AMap _ => writeEntry indent key item
                               | _ => confLine prefix key item
                               end) <$> v)
  | _ => confLine prefix key val
  end.

Definition writeMapEntries (m : gomap any) (indent : nat) : string :=
  concat_str ((fun key => writeEntry indent key (map_index key m)) <$> sortedKeys m).

Definition writeBlock (prefix key : string) (inner : gomap any) (indent : nat) : string :=
  prefix +:+ key +:+ " {" +:+ NL +:+ writeMapEntries inner (S indent) +:+ prefix +:+ "}" +:+ NL.

Definition generateStanza (name : string) (m : gomap any) : string := writeBlock "" name m 0.

Definition loggingSink (name : string) : string :=
  if decide (name = "console" \/ name = "stderr") then TAB +:+ "console {" +:+ NL
  else if decide (name = "syslog") then TAB +:+ "syslog {" +:+ NL
  else TAB +:+ "file " +:+ name +:+ " {" +:+ NL.

(** [%T] of a configuration value. *)
Definition typeName (v : any) : string :=
  match v with
  | ANil => "<nil>"
  | ABool _ => "bool"
  | AInt KInt _ => "int" | AInt KInt32 _ => "int32" | AInt KInt64 _ => "int64"
  | AInt KUint _ => "uint" | AInt KUint32 _ => "uint32" | AInt KUint64 _ => "uint64"
  | AFloat32 _ => "float32"
  | AFloat64 _ => "float64"
  | AString _ => "string"
  | AList _ => "[]interface {}"
  | AMap _ => "map[string]interface {}"
  end.

Definition loggingEntry (i : nat) (entry : any) : res string :=
  match as_map entry with
  | None => Err ("logging entry " +:+ pretty i +:+ " is not a map (got " +:+ typeName entry +:+ ")")
  | Some logMap =>
      let name := default "" (as_string (map_index "name" logMap)) in
      if decide (name = "") then 
        Err ("logging entry " +:+ pretty i +:+ " is missing the required " +:+ DQ +:+ "name" +:+ DQ +:+ " key") else
      Ok (loggingSink name +:+
          concat_str ((fun k => if decide (k = "name") then ""
                                else confLine (TAB +:+ TAB) k (map_index k logMap))
                      <$> sortedKeys logMap) +:+
          TAB +:+ "}" +:+ NL)
  end.

(** A loop that writes one piece per element, given its index, and stops at the
    first error. *)
Fixpoint writeFrom {A} (i : nat) (f : nat -> A -> res string) (l : list A) : res string :=
  match l with
  | [] => Ok ""
  | x :: l => s ← f i x; t ← writeFrom (S i) f l; mret (s +:+ t)
  end.

Definition writeAll {A} (f : nat -> A -> res string) (l : list A) : res string := writeFrom 0 f l.

Definition generateLoggingSection (logs : list any) : res string :=
  s ← writeAll loggingEntry logs; mret ("logging {" +:+ NL +:+ s +:+ "}" +:+ NL).

(** ** service.go *)

Definition generateServiceSection (serviceConfig : gomap any) : string :=
  "service {" +:+ NL +:+ writeMapEntries serviceConfig 1 +:+ "}" +:+ NL.

(** ** namespace.go *)

Definition inferStorageEngineType (m : gomap any) : string :=
  match as_string (map_index "type" m) with
  | Some t => t
  | None => if existsb (fun k => bool_decide (k = "file" \/ k = "device")) (map_keys m)
            then "device" else "memory"
  end.

(** [writeNamespaceEntry], with [writeStorageEngine] as its first branch. *)
Fixpoint writeNamespaceEntry (indent : nat) (key : string) (val : any) : string :=
  let prefix := repeat_str TAB indent in
  let entries := fun m : gomap any =>
    sortedEntries ((fun e => (e.1, writeNamespaceEntry (S indent) e.1 e.2)) <$> m) in
  let block := fun m : gomap any =>
    prefix +:+ key +:+ " {" +:+ NL +:+ concat_str (snd <$> entries m) +:+ prefix +:+ "}" +:+ NL in
  if decide (key = "storage-engine") then
    match val with
    | AMap m =>
        let remaining := filter (fun e : string * string => e.1 <> "type") (entries m) in
        if decide (remaining = []) then
          prefix +:+ "storage-engine " +:+ inferStorageEngineType m +:+ NL
        else
          prefix +:+ "storage-engine " +:+ inferStorageEngineType m +:+ " {" +:+ NL +:+
          concat_str (snd <$> remaining) +:+ prefix +:+ "}" +:+ NL
    | _ => confLine prefix "storage-engine" val
    end
  else
    match val with
    | AMap v => block v
    | AList v =>
        concat_str ((fun item => match item with
                                 | AMap subMap => block subMap
                                 | _ => confLine prefix key item
                                 end) <$> v)
    | _ => confLine prefix key val
    end.

Definition namespaceSection (i : nat) (ns : any) : res string :=
  match as_map ns with
  | None => Err ("namespace entry " +:+ pretty i +:+ " is not a map")
  | Some nsMap =>
      let name := default "" (as_string (map_index "name" nsMap)) in
      if decide (name = "") then 
        Err ("namespace entry " +:+ pretty i +:+ " missing 'name' key") else
      Ok ("namespace " +:+ name +:+ " {" +:+ NL +:+
          concat_str ((fun key => if decide (key = "name") then ""
                                  else writeNamespaceEntry 1 key (map_index key nsMap))
                      <$> sortedKeys nsMap) +:+
          "}" +:+ NL)
  end.

Definition generateNamespaceSections (namespaces : list any) : res string :=
  writeAll namespaceSection namespaces.

(** ** generateConfigCore *)

Definition configSection (writeNetwork : gomap any -> string) (config : gomap any) (key : string)
    : res string :=
  let val := map_index key config in
  match val with
  | ANil => Ok ""
  | _ =>
      if decide (key = SectionNamespaces) then
        match as_list val with
        | None => Err "namespaces must be a list"
        | Some namespaces => generateNamespaceSections namespaces
        end
      else if decide (key = SectionLogging) then
        match as_list val with
        | None => Err "logging must be a list"
        | Some logs => generateLoggingSection logs
        end
      else if decide (key = SectionSecurity) then Ok ""
      else if decide (key = SectionService) then
        match as_map val with
        | None => Err "service must be a map"
        | Some svcMap => Ok (generateServiceSection svcMap)
        end
      else if decide (key = SectionNetwork) then
        match as_map val with
        | None => Err "network must be a map"
        | Some netMap => Ok (writeNetwork netMap)
        end
      else
        match val with
        | AMap v => Ok (generateStanza key v)
        | _ => Ok (key +:+ " " +:+ formatValue val +:+ NL)
        end
  end.

Definition generateConfigCore (config : option (gomap any)) (writeNetwork : gomap any -> string)
    : res string :=
  match config with
  | None => Err "config map is nil"
  | Some config => writeAll (fun _ => configSection writeNetwork config) (sortedKeys config)
  end.

Definition GenerateConfig (config : option (gomap any)) : res string :=
  generateConfigCore config (generateStanza SectionNetwork).

(** ** network.go *)

(** One heartbeat entry; user-supplied mesh seeds are dropped. *)
Definition heartbeatEntry (key : string) (val : any) : string :=
  if decide (key = KeyMeshSeedAddressPort) then ""
  else match val with
       | AMap subMap => TAB +:+ TAB +:+ key +:+ " {" +:+ NL +:+ writeMapEntries subMap 3 +:+
                        TAB +:+ TAB +:+ "}" +:+ NL
       | _ => confLine (TAB +:+ TAB) key val
       end.

Definition meshSeed (serviceName namespace : string) (heartbeatPort : Z) (pName : string) : string :=
  TAB +:+ TAB +:+ "mesh-seed-address-port " +:+ pName +:+
  ("." +:+ serviceName +:+ "." +:+ namespace +:+ ".svc.cluster.local") +:+ " " +:+
  pretty heartbeatPort +:+ NL.

Definition generateHeartbeatSubsection (hbConfig : gomap any) (serviceName namespace : string)
    (podNames : list string) (heartbeatPort : Z) : string :=
  TAB +:+ "heartbeat {" +:+ NL +:+
  concat_str ((fun key => heartbeatEntry key (map_index key hbConfig)) <$> sortedKeys hbConfig) +:+
  concat_str (meshSeed serviceName namespace heartbeatPort <$> podNames) +:+
  TAB +:+ "}" +:+ NL.

Definition networkEntry (serviceName namespace : string) (podNames : list string)
    (heartbeatPort : Z) (key : string) (val : any) : string :=
  if decide (key = SectionHeartbeat) then
    generateHeartbeatSubsection (default [] (as_map val)) serviceName namespace podNames heartbeatPort
  else match val with
       | AMap subMap => TAB +:+ key +:+ " {" +:+ NL +:+ writeMapEntries subMap 2 +:+ TAB +:+ "}" +:+ NL
       | _ => confLine TAB key val
       end.

Definition generateNetworkSection (serviceName namespace : string) (podNames : list string)
    (heartbeatPort : Z) (networkConfig : gomap any) : string :=
  "network {" +:+ NL +:+
  concat_str ((fun key => networkEntry serviceName namespace podNames heartbeatPort key
                            (map_index key networkConfig)) <$> sortedKeys networkConfig) +:+
  "}" +:+ NL.

Definition GenerateConfForPod (config : option (gomap any)) (serviceName namespace : string)
    (podNames : list string) (heartbeatPort : Z) : res string :=
  generateConfigCore config (generateNetworkSection serviceName namespace podNames heartbeatPort).

(** *** Access address placeholders *)

Definition placeholderPodIP := "MY_POD_IP".
Definition placeholderNodeIP := "MY_NODE_IP".
Definition placeholderExternalAddress := "MY_EXTERNAL_ADDRESS".
Definition placeholderExternalPort := "MY_EXTERNAL_PORT".

Definition placeholderForNetworkType (t : AerospikeNetworkType) : string :=
  match t with
  | NetHostInternal | NetHostExternal => placeholderNodeIP
  | NetPod => placeholderPodIP
  | NetConfiguredIP => ""
  | NetOther _ => ""
  end.

Definition describeAddressOverride (svcSection : gomap any) (userAddress : option any)
    (alternateAccessType : AerospikeNetworkType) (replacement : string) : string :=
  match map_get "alternate-access-address" svcSection with
  | None => ""
  | Some current =>
      if bool_decide (as_string current = Some replacement) then "" else
      match userAddress with
      | Some addr =>
          "overrode network.service.alternate-access-address (" +:+ fmt_v addr +:+ ") with " +:+
          replacement +:+ ": the per-pod service is the externally reachable endpoint, " +:+
          "so the operator resolves the address from it"
      | None =>
          "overrode the alternate-access-address derived from " +:+
          "spec.aerospikeNetworkPolicy.alternateAccessType=" +:+
          networkTypeString alternateAccessType +:+ " (" +:+ fmt_v current +:+ ") with " +:+
          replacement +:+ ": the per-pod service is the externally reachable endpoint, " +:+
          "so it takes precedence over the network policy"
      end
  end.

Definition setIfAbsent (key placeholder : string) (svc : gomap any) : gomap any :=
  if decide (placeholder = "") then svc
  else match map_get key svc with
       | Some _ => svc
       | None => map_set key (AString placeholder) svc
       end.

Definition noteList (note : string) : list string := if decide (note = "") then [] else [note].

(** The [switch] on the per-pod service type: the new service section and the
    override notices. *)
Definition overrideForService (svc : gomap any) (userAddress : option any)
    (policy : AerospikeNetworkPolicy) (podServiceType : string) : gomap any * list string :=
  if decide (podServiceType = "LoadBalancer") then
    let notes := noteList (describeAddressOverride svc userAddress (AlternateAccessType policy)
                             placeholderExternalAddress) in
    let svc := map_set "alternate-access-address" (AString placeholderExternalAddress) svc in
    match map_get "alternate-access-port" svc with
    | Some old =>
        (map_del "alternate-access-port" svc,
         notes ++ ["removed network.service.alternate-access-port (" +:+ fmt_v old +:+
           "): a LoadBalancer per-pod service serves the service port, so an explicit " +:+
           "alternate-access-port would advertise a port nothing listens on"])
    | None => (svc, notes)
    end
  else if decide (podServiceType = "NodePort") then
    let notes := noteList (describeAddressOverride svc userAddress (AlternateAccessType policy)
                             placeholderNodeIP) in
    let svc := map_set "alternate-access-address" (AString placeholderNodeIP) svc in
    let notes :=
      match map_get "alternate-access-port" svc with
      | Some old =>
          if bool_decide (as_string old = Some placeholderExternalPort) then notes
          else notes ++ ["overrode network.service.alternate-access-port (" +:+ fmt_v old +:+
            ") with the allocated nodePort: the operator creates the per-pod NodePort service, " +:+
            "so the live service is the authority on its port"]
      | None => notes
      end in
    (map_set "alternate-access-port" (AString placeholderExternalPort) svc, notes)
  else (svc, []).

Definition InjectAccessAddressPlaceholders (config : gomap any)
    (policy : option AerospikeNetworkPolicy) (podServiceType : string) : gomap any * list string :=
  match policy with
  | None => (config, [])
  | Some policy =>
      match as_map (map_index SectionNetwork config) with
      | None => (config, [])
      | Some networkSection =>
          match as_map (map_index SectionService networkSection) with
          | None => (config, [])
          | Some svc =>
              let svc := setIfAbsent "access-address"
                           (placeholderForNetworkType (AccessType policy)) svc in
              let userAddress := map_get "alternate-access-address" svc in
              let svc := setIfAbsent "alternate-access-address"
                           (placeholderForNetworkType (AlternateAccessType policy)) svc in
              let '(svc, overrides) := overrideForService svc userAddress policy podServiceType in
              (map_set SectionNetwork
                 (AMap (map_set SectionService (AMap svc) networkSection)) config, overrides)
          end
      end
  end.

End configgen.

(** ** Sorted entries *)

Lemma map_get_fmap {A B} (f : string -> A -> B) k (m : gomap A) :
  map_get k ((fun e => (e.1, f e.1 e.2)) <$> m) = f k <$> map_get k m.
Proof.
  induction m as [|[k' v] m IH]; [done|]. csimpl. case_decide; subst; done.
Qed.

Lemma map_keys_fmap {A B} (f : string -> A -> B) (m : gomap A) :
  map_keys ((fun e => (e.1, f e.1 e.2)) <$> m) = map_keys m.
Proof. unfold map_keys. rewrite <- list_fmap_compose. by apply list_fmap_ext. Qed.

Lemma sortedKeys_fmap {A B} (f : string -> A -> B) (m : gomap A) :
  sortedKeys ((fun e => (e.1, f e.1 e.2)) <$> m) = sortedKeys m.
Proof. unfold sortedKeys. by rewrite map_keys_fmap. Qed.

Lemma sortedEntries_fmap {A B} (f : string -> A -> B) (m : gomap A) :
  sortedEntries ((fun e => (e.1, f e.1 e.2)) <$> m) = (fun e => (e.1, f e.1 e.2)) <$> sortedEntries m.
Proof.
  unfold sortedEntries. rewrite sortedKeys_fmap.
  induction (sortedKeys m) as [|k l IH]; [done|]. csimpl. rewrite map_get_fmap.
  destruct (map_get k m); csimpl; by rewrite IH.
Qed.

Lemma sortedEntries_index (m : gomap any) :
  sortedEntries m = (fun k => (k, map_index k m)) <$> sortedKeys m.
Proof.
  unfold sortedEntries.
  assert (forall l : list string, (forall k, k ∈ l -> is_Some (map_get k m)) ->
    omap (fun k => (fun v => (k, v)) <$> map_get k m) l = (fun k => (k, map_index k m)) <$> l) as Hl.
  { induction l as [|k l IH]; intros Hin; [done|]. csimpl.
    destruct (Hin k) as [v Hv]; [left|]. unfold map_index at 1. rewrite Hv. csimpl.
    rewrite IH; [done|]. intros k' ?. apply Hin. by right. }
  apply Hl. intros k. apply elem_of_sortedKeys.
Qed.

Lemma sortedEntries_permutation {A} (m m' : gomap A) :
  map_wf m -> m ≡ₚ m' -> sortedEntries m = sortedEntries m'.
Proof.
  intros Hm Hp. unfold sortedEntries. rewrite (sortedKeys_permutation m m') by done.
  apply list_omap_ext, Forall_Forall2_diag, Forall_forall.
  intros k _. by rewrite (map_get_permutation k m m').
Qed.

Section lemmas.
Context `{GoPlatform}.

(** The recursive equations of the writers, in the form of the source: a block is
    its entries visited in sorted key order. *)
Lemma writeEntry_map indent key inner :
  writeEntry indent key (AMap inner) = writeBlock (repeat_str TAB indent) key inner indent.
Proof.
  unfold writeBlock, writeMapEntries. simpl.
  rewrite (sortedEntries_fmap (writeEntry (S indent))), sortedEntries_index.
  by rewrite <- !list_fmap_compose.
Qed.

Lemma writeNamespaceEntry_map indent key m :
  key <> "storage-engine" ->
  writeNamespaceEntry indent key (AMap m) =
  repeat_str TAB indent +:+ key +:+ " {" +:+ NL +:+
  concat_str ((fun k => writeNamespaceEntry (S indent) k (map_index k m)) <$> sortedKeys m) +:+
  repeat_str TAB indent +:+ "}" +:+ NL.
Proof.
  intros Hk. simpl. rewrite decide_False by done.
  rewrite (sortedEntries_fmap (writeNamespaceEntry (S indent))), sortedEntries_index.
  by rewrite <- !list_fmap_compose.
Qed.

(** *** Iteration order does not matter *)

Lemma fmt_v_map m :
  fmt_v (AMap m) =
  "map[" +:+ String.concat " " ((fun k => k +:+ ":" +:+ fmt_v (map_index k m)) <$> sortedKeys m) +:+ "]".
Proof.
  simpl. rewrite (sortedEntries_fmap (fun _ => fmt_v)), sortedEntries_index.
  by rewrite <- !list_fmap_compose.
Qed.

Lemma Forall2_fmap_eq {A B} (R : A -> A -> Prop) (f : A -> B) l l' :
  Forall (fun x => forall x', R x x' -> f x = f x') l -> Forall2 R l l' -> f <$> l = f <$> l'.
Proof.
  intros Hl HR. induction HR as [|x x' l l' Hx _ IH]; [done|].
  apply Forall_cons in Hl as [Hx' Hl]. csimpl. by rewrite (Hx' x'), IH.
Qed.

Lemma fmt_v_equiv v : forall v', any_equiv v v' -> fmt_v v = fmt_v v'.
Proof.
  induction v as [| | | | | |l IH|m IH] using any_rec_ind; intros v' He;
    inversion He as [?|? l' Hl|? ? m']; subst; try done.
  - simpl. by rewrite (Forall2_fmap_eq any_equiv fmt_v l l').
  - rewrite !fmt_v_map. do 3 f_equal.
    apply (sorted_pieces_equiv (fun k v => k +:+ ":" +:+ fmt_v v)); [done|].
    intros k v v' Hk%map_get_Some_in Hv. rewrite Forall_forall in IH.
    by rewrite (IH _ Hk v' Hv : fmt_v v = _).
Qed.

Lemma formatValue_equiv v v' : any_equiv v v' -> formatValue v = formatValue v'.
Proof.
  intros He. pose proof (fmt_v_equiv v v' He) as Hf.
  inversion He; subst; [done|exact Hf|exact Hf].
Qed.

Lemma confLine_equiv p k v v' : any_equiv v v' -> confLine p k v = confLine p k v'.
Proof. intros He. unfold confLine. by rewrite (formatValue_equiv v v'). Qed.

Lemma writeEntry_equiv v : forall i k v', any_equiv v v' -> writeEntry i k v = writeEntry i k v'.
Proof.
  induction v as [| | | | | |l IH|m IH] using any_rec_ind; intros i key v' He;
    inversion He as [?|? l' Hl|? ? m']; subst; try done.
  - simpl. f_equal. apply (Forall2_fmap_eq any_equiv); [|done].
    eapply Forall_impl; [exact IH|]. intros x Hx x' Hxx.
    inversion Hxx; subst; [done|by apply confLine_equiv|by apply Hx].
  - rewrite !writeEntry_map. unfold writeBlock, writeMapEntries. do 6 f_equal.
    apply (sorted_pieces_equiv (writeEntry (S i))); [done|].
    intros k v v' Hk%map_get_Some_in Hv. rewrite Forall_forall in IH. by apply (IH _ Hk).
Qed.

Lemma writeMapEntries_equiv m m' i : map_equiv m m' -> writeMapEntries m i = writeMapEntries m' i.
Proof.
  intros He. unfold writeMapEntries. f_equal.
  apply (sorted_pieces_equiv (writeEntry i)); [done|]. intros. by apply writeEntry_equiv.
Qed.

Lemma generateStanza_equiv name m m' :
  map_equiv m m' -> generateStanza name m = generateStanza name m'.
Proof. intros He. unfold generateStanza, writeBlock. by rewrite (writeMapEntries_equiv m m'). Qed.

Lemma writeNamespaceEntry_engine indent m :
  writeNamespaceEntry indent "storage-engine" (AMap m) =
  let prefix := repeat_str TAB indent in
  let remainingKeys := filter (fun k => k <> "type") (sortedKeys m) in
  if decide (remainingKeys = []) then
    prefix +:+ "storage-engine " +:+ inferStorageEngineType m +:+ NL
  else
    prefix +:+ "storage-engine " +:+ inferStorageEngineType m +:+ " {" +:+ NL +:+
    concat_str ((fun k => writeNamespaceEntry (S indent) k (map_index k m)) <$> remainingKeys) +:+
    prefix +:+ "}" +:+ NL.
Proof.
  simpl. rewrite (sortedEntries_fmap (writeNamespaceEntry (S indent))), sortedEntries_index.
  rewrite <- list_fmap_compose.
  assert (forall l : list string,
    filter (fun e : string * string => e.1 <> "type")
      (((fun e => (e.1, writeNamespaceEntry (S indent) e.1 e.2)) ∘
        (fun k => (k, map_index k m))) <$> l) =
    (fun k => (k, writeNamespaceEntry (S indent) k (map_index k m))) <$>
      filter (fun k => k <> "type") l) as ->.
  { induction l as [|k l IH]; [done|]. csimpl. rewrite !filter_cons. simpl. rewrite IH.
    by repeat case_decide. }
  destruct (filter _ (sortedKeys m)) as [|k ks]; [done|].
  repeat (rewrite decide_False by done). by rewrite <- list_fmap_compose.
Qed.

Lemma inferStorageEngineType_equiv m m' :
  map_equiv m m' -> inferStorageEngineType m = inferStorageEngineType m'.
Proof.
  intros He. unfold inferStorageEngineType.
  rewrite (any_equiv_as_string _ _ (map_equiv_index "type" m m' He)).
  destruct (as_string _); [done|].
  assert (forall k, k ∈ map_keys m <-> k ∈ map_keys m') as Hk.
  { intros k. rewrite <- !map_get_is_Some, <- !elem_of_sortedKeys.
    by rewrite (map_equiv_sortedKeys m m'). }
  assert (existsb (fun k => bool_decide (k = "file" \/ k = "device")) (map_keys m) =
          existsb (fun k => bool_decide (k = "file" \/ k = "device")) (map_keys m')) as ->; [|done].
  apply eq_bool_prop_intro. rewrite !Is_true_true, !existsb_exists.
  by setoid_rewrite <- list_elem_of_In; setoid_rewrite Hk.
Qed.

Definition namespace_equiv_ok (v : any) : Prop :=
  forall i k v', any_equiv v v' -> writeNamespaceEntry i k v = writeNamespaceEntry i k v'.

Lemma writeNamespaceEntry_map_equiv m :
  Forall (fun e => namespace_equiv_ok e.2) m ->
  forall m' i, map_equiv m m' ->
  (fun k => writeNamespaceEntry i k (map_index k m)) <$> sortedKeys m =
  (fun k => writeNamespaceEntry i k (map_index k m')) <$> sortedKeys m'.
Proof.
  intros IH m' i He. apply (sorted_pieces_equiv (writeNamespaceEntry i)); [done|].
  intros k v v' Hk%map_get_Some_in Hv. rewrite Forall_forall in IH. by apply (IH _ Hk).
Qed.

Lemma writeNamespaceEntry_list i k l :
  k <> "storage-engine" ->
  writeNamespaceEntry i k (AList l) =
  concat_str ((fun item => match item with
                           | AMap _ => writeNamespaceEntry i k item
                           | _ => confLine (repeat_str TAB i) k item
                           end) <$> l).
Proof.
  intros Hk. simpl. rewrite decide_False by done. f_equal. apply list_fmap_ext.
  intros _ x _. destruct x; try done. simpl. by rewrite decide_False.
Qed.

Lemma writeNamespaceEntry_equiv v : namespace_equiv_ok v.
Proof.
  induction v as [| | | | | |l IH|m IH] using any_rec_ind; intros i key v' He;
    inversion He as [?|? l' Hl|? ? m']; subst; try done;
    (destruct (decide (key = "storage-engine")) as [->|Hk]).
  - simpl. by apply confLine_equiv.
  - rewrite !writeNamespaceEntry_list by done. f_equal.
    apply (Forall2_fmap_eq any_equiv); [|done].
    eapply Forall_impl; [exact IH|]. intros x Hx x' Hxx.
    inversion Hxx; subst; [done|by apply confLine_equiv|by apply Hx].
  - rewrite !writeNamespaceEntry_engine. cbv zeta.
    rewrite (inferStorageEngineType_equiv m m'), <- (map_equiv_sortedKeys m m') by done.
    case_decide; [done|]. do 7 f_equal. apply list_fmap_ext. intros j k Hj.
    apply list_elem_of_lookup_2, list_elem_of_filter in Hj as [_ [v Hv]%elem_of_sortedKeys].
    destruct (map_equiv_get m m' k v) as (v' & Hv' & Hvv); [done..|]. unfold map_index.
    rewrite Hv, Hv'. apply map_get_Some_in in Hv. rewrite Forall_forall in IH. by apply (IH _ Hv).
  - rewrite !writeNamespaceEntry_map by done. do 6 f_equal. by apply writeNamespaceEntry_map_equiv.
Qed.

Lemma writeFrom_equiv {A} (R : A -> A -> Prop) (f g : nat -> A -> res string) l l' i :
  (forall i x x', R x x' -> f i x = g i x') -> Forall2 R l l' -> writeFrom i f l = writeFrom i g l'.
Proof.
  intros Hf HR. revert i. induction HR as [|x x' l l' Hx _ IH]; intros i; [done|].
  simpl. by rewrite (Hf i x x'), IH.
Qed.

Lemma namespaceSection_equiv i v v' : any_equiv v v' -> namespaceSection i v = namespaceSection i v'.
Proof.
  intros He. unfold namespaceSection. pose proof (any_equiv_as_map v v' He) as Hm.
  destruct (as_map v) as [m|], (as_map v') as [m'|]; try done.
  rewrite (any_equiv_as_string _ _ (map_equiv_index "name" m m' Hm)).
  destruct (decide (default "" _ = "")) as [?|?]; [done|]. do 7 f_equal.
  apply (sorted_pieces_equiv (fun key v => if decide (key = "name") then ""
    else writeNamespaceEntry 1 key v)); [done|].
  intros. case_decide; [done|]. by apply writeNamespaceEntry_equiv.
Qed.

Lemma loggingEntry_equiv i v v' : any_equiv v v' -> loggingEntry i v = loggingEntry i v'.
Proof.
  intros He. unfold loggingEntry. pose proof (any_equiv_as_map v v' He) as Hm.
  destruct (as_map v) as [m|] eqn:E, (as_map v') as [m'|]; try done;
    [|by inversion He; simplify_eq].
  rewrite (any_equiv_as_string _ _ (map_equiv_index "name" m m' Hm)).
  destruct (decide (default "" _ = "")) as [?|?]; [done|]. do 4 f_equal.
  apply (sorted_pieces_equiv (fun key v => if decide (key = "name") then ""
    else confLine (TAB +:+ TAB) key v)); [done|].
  intros. case_decide; [done|]. by apply confLine_equiv.
Qed.

Lemma configSection_equiv wn k c c' :
  (forall m m', map_equiv m m' -> wn m = wn m') -> map_equiv c c' ->
  configSection wn c k = configSection wn c' k.
Proof.
  intros Hwn Hc. unfold configSection. pose proof (map_equiv_index k c c' Hc) as He.
  inversion He as [v Hv|l l' Hl|m ? m']; subst; try done.
  - repeat (destruct (decide _)); try done.
    + by apply (writeFrom_equiv any_equiv); [apply namespaceSection_equiv|].
    + simpl. unfold generateLoggingSection, writeAll.
      by rewrite (writeFrom_equiv any_equiv _ _ _ _ 0 loggingEntry_equiv Hl).
    + by rewrite (formatValue_equiv _ _ (eqv_list l l' Hl)).
  - assert (map_equiv m m') as Hm by (by econstructor).
    repeat (destruct (decide _)); try done; simpl.
    + unfold generateServiceSection. by rewrite (writeMapEntries_equiv m m').
    + by rewrite (Hwn m m').
    + by rewrite (generateStanza_equiv k m m').
Qed.

Lemma generateHeartbeatSubsection_equiv m m' sn ns pods port :
  map_equiv m m' ->
  generateHeartbeatSubsection m sn ns pods port = generateHeartbeatSubsection m' sn ns pods port.
Proof.
  intros He. unfold generateHeartbeatSubsection. do 5 f_equal.
  apply (sorted_pieces_equiv heartbeatEntry); [done|].
  intros k v v' _ Hv. unfold heartbeatEntry. case_decide; [done|].
  inversion Hv as [| |m0 ? m0']; subst; [done|by apply confLine_equiv|].
  by rewrite (writeMapEntries_equiv m0 m0').
Qed.

Lemma generateNetworkSection_equiv sn ns pods port m m' :
  map_equiv m m' ->
  generateNetworkSection sn ns pods port m = generateNetworkSection sn ns pods port m'.
Proof.
  intros He. unfold generateNetworkSection. do 4 f_equal.
  apply (sorted_pieces_equiv (networkEntry sn ns pods port)); [done|].
  intros k v v' _ Hv. unfold networkEntry.
  inversion Hv as [| |m0 ? m0']; subst; case_decide; try done.
  - by apply confLine_equiv.
  - by apply generateHeartbeatSubsection_equiv.
  - by rewrite (writeMapEntries_equiv m0 m0').
Qed.

Lemma generateConfigCore_equiv wn c c' :
  (forall m m', map_equiv m m' -> wn m = wn m') -> map_equiv c c' ->
  generateConfigCore (Some c) wn = generateConfigCore (Some c') wn.
Proof.
  intros Hwn Hc. simpl. rewrite <- (map_equiv_sortedKeys c c') by done.
  apply (writeFrom_equiv eq).
  - intros i k ? <-. by apply configSection_equiv.
  - by apply Forall_Forall2_diag, Forall_true.
Qed.

(** The same for the configuration without pod-specific parts. *)
Theorem GenerateConfig_deterministic c c' :
  map_equiv c c' -> GenerateConfig (Some c) = GenerateConfig (Some c').
Proof.
  intros Hc. apply generateConfigCore_equiv; [|done]. intros. by apply generateStanza_equiv.
Qed.

(** C27: aerospike.conf for a pod depends on the data of the configuration only, not on
    the order in which Go iterates its maps, at any nesting depth *)
Theorem GenerateConfForPod_deterministic c c' sn ns pods port :
  map_equiv c c' ->
  GenerateConfForPod (Some c) sn ns pods port = GenerateConfForPod (Some c') sn ns pods port.
Proof.
  intros Hc. apply generateConfigCore_equiv; [|done]. intros. by apply generateNetworkSection_equiv.
Qed.

(** *** Mesh seeds come from the operator only *)

Lemma concat_str_skip {A} (f : A -> string) (P : A -> Prop) `{forall x, Decision (P x)} l :
  (forall x, ~ P x -> f x = "") -> concat_str (f <$> l) = concat_str (f <$> filter P l).
Proof.
  intros Hf. induction l as [|x l IH]; [done|]. rewrite filter_cons. csimpl. case_decide; csimpl.
  - by rewrite IH.
  - by rewrite Hf, IH.
Qed.

Lemma filter_sortedKeys_set k v (m : gomap any) :
  filter (fun k' => k' <> k) (sortedKeys (map_set k v m)) = filter (fun k' => k' <> k) (sortedKeys m).
Proof.
  apply (StronglySorted_unique String.le); [by apply StronglySorted_filter, sortedKeys_sorted..|].
  unfold sortedKeys. rewrite !merge_sort_Permutation, map_keys_set. case_decide; [done|].
  rewrite filter_app, filter_cons_False, filter_nil, app_nil_r; naive_solver.
Qed.

(** A user-supplied mesh-seed-address-port never reaches the rendered heartbeat stanza. *)
Theorem heartbeat_seeds_from_operator hb v sn ns pods port :
  generateHeartbeatSubsection (map_set KeyMeshSeedAddressPort v hb) sn ns pods port =
  generateHeartbeatSubsection hb sn ns pods port.
Proof.
  unfold generateHeartbeatSubsection. do 4 f_equal.
  rewrite !(concat_str_skip _ (fun k => k <> KeyMeshSeedAddressPort) (sortedKeys _))
    by (intros k Hk; unfold heartbeatEntry; by rewrite decide_True by (by apply dec_stable)).
  rewrite filter_sortedKeys_set. f_equal. apply list_fmap_ext. intros i k Hk.
  apply list_elem_of_lookup_2, list_elem_of_filter in Hk as [Hk _].
  unfold map_index. by rewrite map_get_set_ne.
Qed.

(** *** When rendering succeeds *)

Definition valid_named (v : any) : Prop :=
  exists m name, v = AMap m /\ map_get "name" m = Some (AString name) /\ name <> "".

Definition section_valid (k : string) (v : any) : Prop :=
  v = ANil \/
  if decide (k = SectionNamespaces \/ k = SectionLogging)
  then exists l, v = AList l /\ Forall valid_named l
  else if decide (k = SectionService \/ k = SectionNetwork) then exists m, v = AMap m else True.

Lemma writeFrom_ok {A} (f : nat -> A -> res string) (P : A -> Prop) l i :
  (forall i x, x ∈ l -> is_ok (f i x) = true <-> P x) ->
  is_ok (writeFrom i f l) = true <-> Forall P l.
Proof.
  revert i. induction l as [|x l IH]; intros i Hf; [by split; constructor|].
  rewrite Forall_cons, <- (Hf i x) by left.
  rewrite <- (IH (S i)) by (intros; apply Hf; by right). simpl.
  destruct (f i x); simpl; [|by split; [|intros [? _]]].
  destruct (writeFrom (S i) f l); simpl; by split; [|intros [_ ?]].
Qed.

Lemma named_spec m :
  default "" (as_string (map_index "name" m)) <> "" <->
  exists name, map_get "name" m = Some (AString name) /\ name <> "".
Proof.
  unfold map_index. split.
  - destruct (map_get "name" m) as [[]|]; simpl; try done. eauto.
  - by intros (name & -> & ?).
Qed.

Lemma namespaceSection_ok i v : is_ok (namespaceSection i v) = true <-> valid_named v.
Proof.
  unfold namespaceSection, valid_named. destruct v as [| | | | | | |m]; simpl;
    try (split; [done|by intros (?&?&?&_)]).
  case_decide as Hn; simpl.
  - split; [done|]. intros (m' & name & [= <-] & Hg & Hne).
    unfold map_index in Hn. by rewrite Hg in Hn.
  - split; [intros _|done]. apply named_spec in Hn as (name & ? & ?). eauto.
Qed.

Lemma loggingEntry_ok i v : is_ok (loggingEntry i v) = true <-> valid_named v.
Proof.
  unfold loggingEntry, valid_named. destruct v as [| | | | | | |m]; simpl;
    try (split; [done|by intros (?&?&?&_)]).
  case_decide as Hn; simpl.
  - split; [done|]. intros (m' & name & [= <-] & Hg & Hne).
    unfold map_index in Hn. by rewrite Hg in Hn.
  - split; [intros _|done]. apply named_spec in Hn as (name & ? & ?). eauto.
Qed.

Lemma list_section_ok (f : nat -> any -> res string) v e :
  (forall i v, is_ok (f i v) = true <-> valid_named v) ->
  is_ok (match as_list v with None => Err e | Some l => writeAll f l end) = true <->
  exists l, v = AList l /\ Forall valid_named l.
Proof.
  intros Hf. destruct v as [| | | | | |l|]; simpl; try (split; [done|by intros (?&?&_)]).
  unfold writeAll. rewrite (writeFrom_ok f valid_named) by auto.
  split; [eauto|]. by intros (l' & [= <-] & ?).
Qed.

Lemma generateLoggingSection_is_ok l :
  is_ok (generateLoggingSection l) = is_ok (writeAll loggingEntry l).
Proof. unfold generateLoggingSection. by destruct (writeAll loggingEntry l). Qed.

Lemma configSection_ok wn c k :
  is_ok (configSection wn c k) = true <-> section_valid k (map_index k c).
Proof.
  unfold configSection, section_valid. set (v := map_index k c).
  assert (v = ANil \/ v <> ANil) as [->|Hv] by (destruct v; auto); [naive_solver|].
  replace (match v with ANil => Ok "" | _ => _ end) with
    (if decide (k = SectionNamespaces) then
        match as_list v with None => Err "namespaces must be a list"
        | Some namespaces => writeAll namespaceSection namespaces end
      else if decide (k = SectionLogging) then
        match as_list v with None => Err "logging must be a list"
        | Some logs => generateLoggingSection logs end
      else if decide (k = SectionSecurity) then Ok ""
      else if decide (k = SectionService) then
        match as_map v with None => Err "service must be a map"
        | Some svcMap => Ok (generateServiceSection svcMap) end
      else if decide (k = SectionNetwork) then
        match as_map v with None => Err "network must be a map"
        | Some netMap => Ok (wn netMap) end
      else match v with AMap m => Ok (generateStanza k m)
           | _ => Ok (k +:+ " " +:+ formatValue v +:+ NL) end) by (by destruct v).
  assert (forall P : Prop, (v = ANil \/ P) <-> P) as -> by naive_solver.
  destruct (decide (k = SectionNamespaces)) as [->|H1].
  { rewrite decide_True by auto. apply list_section_ok, namespaceSection_ok. }
  destruct (decide (k = SectionLogging)) as [->|H2].
  { rewrite decide_True by auto.
    rewrite <- (list_section_ok loggingEntry v "logging must be a list" loggingEntry_ok).
    destruct (as_list v); [by rewrite generateLoggingSection_is_ok|done]. }
  rewrite (decide_False (P := _ \/ _)) by naive_solver.
  destruct (decide (k = SectionSecurity)) as [->|H3]; [by rewrite decide_False by naive_solver|].
  destruct (decide (k = SectionService)) as [->|H4].
  { rewrite decide_True by auto. destruct v; simpl; naive_solver. }
  destruct (decide (k = SectionNetwork)) as [->|H5].
  { rewrite decide_True by auto. destruct v; simpl; naive_solver. }
  rewrite decide_False by naive_solver. by destruct v.
Qed.

(** Rendering succeeds exactly on valid sections, however the network is written. *)
Lemma generateConfigCore_valid wn c :
  is_ok (generateConfigCore (Some c) wn) = true <-> forall k v, map_get k c = Some v -> section_valid k v.
Proof.
  simpl. unfold writeAll.
  rewrite (writeFrom_ok _ (fun k => section_valid k (map_index k c)))
    by (intros; apply configSection_ok).
  rewrite Forall_forall. split.
  - intros Hall k v Hk. specialize (Hall k). unfold map_index in Hall. rewrite Hk in Hall.
    apply Hall, elem_of_sortedKeys. eauto.
  - intros Hall k [v Hv]%elem_of_sortedKeys. unfold map_index. rewrite Hv. by apply Hall.
Qed.

(** Rendering succeeds exactly when every section has the shape it needs: named
    list entries for namespaces and logging, maps for service and network. *)
Theorem GenerateConfig_ok c :
  is_ok (GenerateConfig (Some c)) = true <->
  forall k v, map_get k c = Some v -> section_valid k v.
Proof. apply generateConfigCore_valid. Qed.

(** *** Braces are balanced *)

(** Nesting depth after reading a text from depth [d]; [None] if a brace closes
    nothing. *)
Fixpoint brace_scan (d : nat) (s : string) : option nat :=
  match s with
  | EmptyString => Some d
  | String a s =>
      if decide (a = "{"%char) then brace_scan (S d) s
      else if decide (a = "}"%char) then
        match d with O => None | S d => brace_scan d s end
      else brace_scan d s
  end.

Definition balanced (s : string) : Prop := forall d, brace_scan d s = Some d.

Definition clean_str (s : string) : bool := negb (str_contains "{" s) && negb (str_contains "}" s).

(** No key and no string of the value contains a brace. *)
Fixpoint clean (v : any) : bool :=
  match v with
  | AString s => clean_str s
  | AList l => forallb id (clean <$> l)
  | AMap m => forallb id ((fun e => clean_str e.1 && clean e.2) <$> m)
  | _ => true
  end.

Lemma brace_scan_app d s t :
  brace_scan d (s +:+ t) = d' ← brace_scan d s; brace_scan d' t.
Proof.
  revert d. induction s as [|a s IH]; intros d; [done|]. rewrite app_cons. simpl.
  repeat case_decide; rewrite ?IH; try done. destruct d; [done|]. by rewrite IH.
Qed.

Lemma balanced_app s t : balanced s -> balanced t -> balanced (s +:+ t).
Proof. intros Hs Ht d. rewrite brace_scan_app, Hs. apply Ht. Qed.

Lemma balanced_concat l : Forall balanced l -> balanced (concat_str l).
Proof. induction 1; [done|]. by apply balanced_app. Qed.

Lemma balanced_braces s : balanced s -> balanced ("{" +:+ s +:+ "}").
Proof.
  intros Hs d. change ("{" +:+ s +:+ "}") with (String "{" (s +:+ "}")). simpl.
  by rewrite brace_scan_app, Hs.
Qed.

Lemma clean_str_app s t : clean_str (s +:+ t) = clean_str s && clean_str t.
Proof.
  unfold clean_str. rewrite !str_contains_app, !negb_orb.
  by destruct (str_contains _ s), (str_contains _ s), (str_contains _ t), (str_contains _ t).
Qed.

Lemma balanced_clean s : clean_str s = true -> balanced s.
Proof.
  unfold clean_str. rewrite andb_true_iff, !negb_true_iff.
  induction s as [|a s IH]; [by intros _ d|]. simpl. rewrite !orb_false_iff, !bool_decide_eq_false.
  intros [[? ?] [? ?]] d. simpl. rewrite !decide_False by done. by apply IH.
Qed.

Lemma clean_tabs n : clean_str (repeat_str TAB n) = true.
Proof. induction n as [|n IH]; [done|]. simpl. by rewrite clean_str_app, IH. Qed.

Lemma clean_pretty (z : Z) : clean_str (pretty z) = true.
Proof.
  assert (forall p, clean_str (pretty (N.pos p)) = true) as Hp.
  { intros p. unfold clean_str.
    by rewrite !digits_not_contains by (done || apply pretty_pos_digits). }
  destruct z as [|p|p]; [done|apply Hp|]. change (pretty (Z.neg p)) with ("-" +:+ pretty (N.pos p)).
  rewrite clean_str_app, Hp. done.
Qed.

Create HintDb balanced.
#[local] Hint Resolve balanced_app balanced_concat balanced_clean clean_tabs : balanced.

(** A block: a header, an opening brace at its end, a body, a closing brace. *)
Lemma balanced_block (h b p : string) :
  balanced h -> balanced b -> balanced p ->
  balanced (h +:+ " {" +:+ NL +:+ b +:+ p +:+ "}" +:+ NL).
Proof.
  intros Hh Hb Hp.
  assert (h +:+ " {" +:+ NL +:+ b +:+ p +:+ "}" +:+ NL =
    h +:+ " " +:+ ("{" +:+ (NL +:+ b +:+ p) +:+ "}") +:+ NL) as ->
    by (rewrite !app_assoc_str; done).
  apply balanced_app; [done|]. apply balanced_app; [by apply balanced_clean|].
  apply balanced_app; [|by apply balanced_clean]. apply balanced_braces.
  apply balanced_app; [by apply balanced_clean|]. by apply balanced_app.
Qed.

Hypothesis fmt_g_clean : forall f, clean_str (fmt_g f) = true.

Lemma clean_entry k v m : clean (AMap m) = true -> (k, v) ∈ m -> clean_str k = true /\ clean v = true.
Proof.
  simpl. rewrite forallb_fmap. intros Hm Hin. specialize (Hm _ Hin).
  by apply andb_true_iff in Hm.
Qed.

Lemma clean_item v l : clean (AList l) = true -> v ∈ l -> clean v = true.
Proof.
  simpl. rewrite forallb_fmap. intros Hm Hin. by apply Hm.
Qed.

Lemma clean_index k m : clean (AMap m) = true -> clean (map_index k m) = true.
Proof.
  intros Hm. unfold map_index. destruct (map_get k m) eqn:E; [|done].
  apply map_get_Some_in in E. by eapply clean_entry.
Qed.

Lemma clean_sortedKey k m : clean (AMap m) = true -> k ∈ sortedKeys m -> clean_str k = true.
Proof.
  intros Hm [v Hv%map_get_Some_in]%elem_of_sortedKeys. by eapply clean_entry.
Qed.

Lemma clean_concat_sep sep l :
  clean_str sep = true -> Forall (fun s => clean_str s = true) l ->
  clean_str (String.concat sep l) = true.
Proof.
  intros Hs Hl. induction Hl as [|s l Hc _ IH]; [done|]. destruct l as [|t l]; [done|].
  change (String.concat sep (s :: t :: l)) with (s +:+ sep +:+ String.concat sep (t :: l)).
  by rewrite !clean_str_app, Hc, Hs, IH.
Qed.

Lemma clean_fmt_v v : clean v = true -> clean_str (fmt_v v) = true.
Proof.
  induction v as [|[]|k z|f|f|s|l IH|m IH] using any_rec_ind; intros Hv; try done;
    try apply clean_pretty; try apply fmt_g_clean.
  - simpl. rewrite !clean_str_app. rewrite clean_concat_sep; [done|done|].
    apply Forall_fmap, Forall_forall. intros x Hx. rewrite Forall_forall in IH. simpl.
    by apply IH, (clean_item x l).
  - rewrite fmt_v_map, !clean_str_app. rewrite clean_concat_sep; [done|done|].
    apply Forall_fmap, Forall_forall. intros k Hk. simpl. rewrite !clean_str_app.
    rewrite (clean_sortedKey k m) by done. apply elem_of_sortedKeys in Hk as [v Hk].
    unfold map_index. rewrite Hk. simpl. rewrite Forall_forall in IH.
    apply map_get_Some_in in Hk. destruct (clean_entry k v m) as [_ Hcv]; [done..|].
    by rewrite (IH _ Hk Hcv : clean_str (fmt_v v) = true).
Qed.

Lemma clean_formatValue v : clean v = true -> clean_str (formatValue v) = true.
Proof.
  intros Hv. destruct v as [|[]|[]|f|f|s|l|m]; try done; try apply clean_pretty;
    try (by apply clean_fmt_v); simpl; unfold formatFloat; case_match;
    auto using clean_pretty.
Qed.

Lemma clean_confLine p k v :
  clean_str p = true -> clean_str k = true -> clean v = true -> clean_str (confLine p k v) = true.
Proof.
  intros Hp Hk Hv. unfold confLine. rewrite !clean_str_app, Hp, Hk, clean_formatValue; done.
Qed.

(** Entries written in sorted key order. *)
Lemma balanced_sorted (f : string -> any -> string) m :
  clean (AMap m) = true ->
  (forall k v, map_get k m = Some v -> clean_str k = true -> clean v = true -> balanced (f k v)) ->
  balanced (concat_str ((fun k => f k (map_index k m)) <$> sortedKeys m)).
Proof.
  intros Hm Hf. apply balanced_concat, Forall_fmap, Forall_forall. intros k Hk. simpl.
  pose proof Hk as [v Hv]%elem_of_sortedKeys. unfold map_index. rewrite Hv. simpl.
  destruct (clean_entry k v m) as [??]; [done|by apply map_get_Some_in|]. by apply Hf.
Qed.

Lemma balanced_writeEntry v : forall i k,
  clean_str k = true -> clean v = true -> balanced (writeEntry i k v).
Proof.
  induction v as [| | | | | |l IH|m IH] using any_rec_ind; intros i key Hk Hv; try done;
    try (apply balanced_clean, clean_confLine; [apply clean_tabs|done|done]).
  - simpl. apply balanced_concat, Forall_fmap, Forall_forall. intros x Hx. simpl.
    assert (clean x = true) by (by apply (clean_item x l)). rewrite Forall_forall in IH.
    destruct x; try (apply balanced_clean, clean_confLine; [apply clean_tabs|done|done]).
    by apply (IH _ Hx).
  - rewrite writeEntry_map. unfold writeBlock, writeMapEntries. rewrite <- app_assoc_str.
    apply balanced_block; [auto with balanced| |auto with balanced].
    apply balanced_sorted; [done|]. intros k v Hg Hk' Hv'. apply map_get_Some_in in Hg.
    rewrite Forall_forall in IH. by apply (IH _ Hg).
Qed.

Lemma balanced_writeMapEntries m i : clean (AMap m) = true -> balanced (writeMapEntries m i).
Proof.
  intros Hm. apply balanced_sorted; [done|]. intros. by apply balanced_writeEntry.
Qed.

Lemma clean_inferStorageEngineType m :
  clean (AMap m) = true -> clean_str (inferStorageEngineType m) = true.
Proof.
  intros Hm. unfold inferStorageEngineType. pose proof (clean_index "type" m Hm) as Hc.
  destruct (map_index "type" m); simpl; try case_match; done.
Qed.

Lemma balanced_writeNamespaceEntry v : forall i k,
  clean_str k = true -> clean v = true -> balanced (writeNamespaceEntry i k v).
Proof.
  induction v as [| | | | | |l IH|m IH] using any_rec_ind; intros i key Hk Hv;
    (destruct (decide (key = "storage-engine")) as [->|Hne]);
    try (simpl; rewrite ?decide_False by done;
         apply balanced_clean, clean_confLine; [apply clean_tabs|done|done]).
  - rewrite writeNamespaceEntry_list by done.
    apply balanced_concat, Forall_fmap, Forall_forall. intros x Hx. simpl.
    assert (clean x = true) by (by apply (clean_item x l)). rewrite Forall_forall in IH.
    destruct x; try (apply balanced_clean, clean_confLine; [apply clean_tabs|done|done]).
    by apply (IH _ Hx).
  - rewrite writeNamespaceEntry_engine. cbv zeta. rewrite Forall_forall in IH.
    pose proof (clean_inferStorageEngineType m Hv) as Ht. case_decide as Hr.
    + apply balanced_clean. by rewrite !clean_str_app, clean_tabs, Ht.
    + rewrite <- (app_assoc_str (repeat_str TAB i) "storage-engine "),
        <- (app_assoc_str (repeat_str TAB i +:+ "storage-engine ")).
      apply balanced_block; [|apply balanced_concat|auto with balanced].
      * apply balanced_clean. by rewrite !clean_str_app, clean_tabs, Ht.
      * apply Forall_fmap, Forall_forall. intros k Hin. simpl.
        apply list_elem_of_filter in Hin as [_ Hin].
        pose proof (clean_sortedKey k m Hv Hin) as Hck.
        apply elem_of_sortedKeys in Hin as [v Hg]. unfold map_index. rewrite Hg.
        apply map_get_Some_in in Hg. apply (IH _ Hg); [done|]. by apply (clean_entry k v m).
  - rewrite writeNamespaceEntry_map by done. rewrite <- app_assoc_str.
    apply balanced_block; [auto with balanced| |auto with balanced].
    apply (balanced_sorted (writeNamespaceEntry (S i))); [done|]. intros k v Hg Hk' Hv'.
    apply map_get_Some_in in Hg. rewrite Forall_forall in IH. by apply (IH _ Hg).
Qed.

Lemma balanced_writeFrom {A} (f : nat -> A -> res string) l i s :
  (forall i x s, x ∈ l -> f i x = Ok s -> balanced s) -> writeFrom i f l = Ok s -> balanced s.
Proof.
  revert i s. induction l as [|x l IH]; intros i s Hf; simpl; [by intros [= <-]|].
  destruct (f i x) as [t|] eqn:Et; [|done]. simpl.
  destruct (writeFrom (S i) f l) as [u|] eqn:Eu; [|done]. intros [= <-].
  apply balanced_app; [by eapply Hf; [left|]|].
  eapply IH; [|exact Eu]. intros ????. eapply Hf. by right.
Qed.

Lemma balanced_header (h b : string) :
  balanced h -> balanced b -> balanced (h +:+ " {" +:+ NL +:+ b +:+ "}" +:+ NL).
Proof. intros Hh Hb. by apply (balanced_block h b ""). Qed.

Lemma balanced_namespaceSection i v s :
  clean v = true -> namespaceSection i v = Ok s -> balanced s.
Proof.
  intros Hv. unfold namespaceSection. destruct v as [| | | | | | |m]; simpl; try done.
  pose proof (clean_index "name" m Hv) as Hn.
  assert (clean_str (default "" (as_string (map_index "name" m))) = true) as Hd
    by (destruct (map_index "name" m); done).
  case_decide; [done|]. intros [= <-]. rewrite <- app_assoc_str. apply balanced_header.
  - apply balanced_clean. by rewrite clean_str_app, Hd.
  - apply (balanced_sorted (fun key v => if decide (key = "name") then ""
      else writeNamespaceEntry 1 key v)); [done|]. intros. case_decide; [done|].
    by apply balanced_writeNamespaceEntry.
Qed.

Lemma balanced_loggingEntry i v s : clean v = true -> loggingEntry i v = Ok s -> balanced s.
Proof.
  intros Hv. unfold loggingEntry. destruct v as [| | | | | | |m]; simpl; try done.
  pose proof (clean_index "name" m Hv) as Hn.
  set (name := default "" _). assert (clean_str name = true) as Hd
    by (unfold name; destruct (map_index "name" m); done).
  case_decide; [done|]. intros [= <-].
  set (body := concat_str _). assert (balanced body) as Hb.
  { apply (balanced_sorted (fun key v => if decide (key = "name") then ""
      else confLine (TAB +:+ TAB) key v)); [done|]. intros. case_decide; [done|].
    by apply balanced_clean, clean_confLine. }
  assert (exists h, clean_str h = true /\ loggingSink name = h +:+ " {" +:+ NL) as (h & Hh & ->).
  { unfold loggingSink. repeat case_decide.
    - by exists (TAB +:+ "console").
    - by exists (TAB +:+ "syslog").
    - exists (TAB +:+ "file " +:+ name). rewrite !clean_str_app, Hd. split; [done|].
      by rewrite !app_assoc_str. }
  rewrite !app_assoc_str. apply (balanced_block h body TAB); [|done|]; by apply balanced_clean.
Qed.

Lemma balanced_configSection wn c k s :
  (forall m, clean (AMap m) = true -> balanced (wn m)) ->
  clean (AMap c) = true -> clean_str k = true -> configSection wn c k = Ok s -> balanced s.
Proof.
  intros Hwn Hc Hk. unfold configSection. pose proof (clean_index k c Hc) as Hv.
  assert (balanced (k +:+ " " +:+ formatValue (map_index k c) +:+ NL)) as Hline.
  { apply balanced_clean. by rewrite !clean_str_app, Hk, clean_formatValue. }
  destruct (map_index k c) as [| | | | | |l|m]; [by intros [= <-]|..];
    repeat (case_decide; [try (by intros [= <-])|]); simpl; try done;
    try (by intros [= <-]).
  - intros Hs. eapply balanced_writeFrom; [|exact Hs]. intros i x t Hx.
    apply balanced_namespaceSection. by apply (clean_item x l).
  - unfold generateLoggingSection. destruct (writeAll loggingEntry l) as [t|] eqn:Et; [|done].
    intros [= <-]. apply (balanced_header "logging"); [by apply balanced_clean|].
    eapply balanced_writeFrom; [|exact Et]. intros i x u Hx.
    apply balanced_loggingEntry. by apply (clean_item x l).
  - intros [= <-]. apply (balanced_header "service"); [by apply balanced_clean|].
    by apply balanced_writeMapEntries.
  - intros [= <-]. by apply Hwn.
  - intros [= <-]. unfold generateStanza, writeBlock. change ("" +:+ ?x) with x.
    apply balanced_header; [by apply balanced_clean|by apply balanced_writeMapEntries].
Qed.

Lemma balanced_generateConfigCore wn c s :
  (forall m, clean (AMap m) = true -> balanced (wn m)) ->
  clean (AMap c) = true -> generateConfigCore (Some c) wn = Ok s -> balanced s.
Proof.
  intros Hwn Hc Hs. eapply balanced_writeFrom; [|exact Hs]. intros i k t Hk.
  apply balanced_configSection; [done|done|]. by apply (clean_sortedKey k c).
Qed.

Lemma balanced_generateNetworkSection sn ns pods port m :
  clean_str sn = true -> clean_str ns = true -> Forall (fun p => clean_str p = true) pods ->
  clean (AMap m) = true -> balanced (generateNetworkSection sn ns pods port m).
Proof.
  intros Hsn Hns Hpods Hm. unfold generateNetworkSection.
  apply (balanced_header "network"); [by apply balanced_clean|].
  apply balanced_sorted; [done|]. intros k v _ Hk Hv. unfold networkEntry.
  assert (forall p key v, clean_str p = true -> clean_str key = true -> clean v = true ->
    balanced (match v with
      | AMap subMap => p +:+ key +:+ " {" +:+ NL +:+
          writeMapEntries subMap (S (String.length p)) +:+ p +:+ "}" +:+ NL
      | _ => confLine p key v end)) as Hentry.
  { intros p key v' Hp Hkey Hv'.
    destruct v'; try (by apply balanced_clean, clean_confLine). rewrite <- app_assoc_str.
    apply balanced_block; [|by apply balanced_writeMapEntries|by apply balanced_clean].
    apply balanced_clean. by rewrite clean_str_app, Hp, Hkey. }
  case_decide; [|by apply (Hentry TAB k v)].
  unfold generateHeartbeatSubsection.
  assert (clean (AMap (default [] (as_map v))) = true) as Hh by (destruct v; done).
  set (hb := default [] _) in *.
  rewrite <- (app_assoc_str (concat_str _) (concat_str _)).
  apply (balanced_block (TAB +:+ "heartbeat") _ TAB); [by apply balanced_clean| |by apply balanced_clean].
  apply balanced_app.
  - apply balanced_sorted; [done|]. intros k' v' _ Hk' Hv'. unfold heartbeatEntry.
    case_decide; [done|]. pose proof (Hentry (TAB +:+ TAB) k' v' eq_refl Hk' Hv') as He.
    by destruct v'.
  - apply balanced_concat, Forall_fmap. eapply Forall_impl; [exact Hpods|]. intros p Hp. simpl.
    apply balanced_clean. unfold meshSeed. rewrite !clean_str_app, Hp, Hsn, Hns, clean_pretty. done.
Qed.

End lemmas.

Section properties.
Context `{GoPlatform}.

(** The rendered file is well bracketed when no key or string contains a brace. *)
Theorem GenerateConfForPod_balanced c sn ns pods port s :
  (forall f, clean_str (fmt_g f) = true) ->
  clean_str sn = true -> clean_str ns = true -> Forall (fun p => clean_str p = true) pods ->
  clean (AMap c) = true -> GenerateConfForPod (Some c) sn ns pods port = Ok s -> balanced s.
Proof.
  intros Hg Hsn Hns Hp Hc Hs. eapply balanced_generateConfigCore; [done| |done|exact Hs].
  intros m Hm. by apply balanced_generateNetworkSection.
Qed.

(** ** Access address placeholders *)

Definition service_section (config : gomap any) : option (gomap any) :=
  net ← map_get SectionNetwork config ≫= as_map; map_get SectionService net ≫= as_map.

Lemma as_map_index k (m : gomap any) : as_map (map_index k m) = map_get k m ≫= as_map.
Proof. unfold map_index. by destruct (map_get k m). Qed.

(** The rewritten service section and notices, when there is a section. *)
Definition injectService (policy : AerospikeNetworkPolicy) (podServiceType : string)
    (svc : gomap any) : gomap any * list string :=
  let svc1 := setIfAbsent "access-address" (placeholderForNetworkType (AccessType policy)) svc in
  overrideForService
    (setIfAbsent "alternate-access-address"
       (placeholderForNetworkType (AlternateAccessType policy)) svc1)
    (map_get "alternate-access-address" svc1) policy podServiceType.

Lemma Inject_service config policy t svc :
  service_section config = Some svc ->
  service_section (InjectAccessAddressPlaceholders config (Some policy) t).1 =
    Some (injectService policy t svc).1 /\
  (InjectAccessAddressPlaceholders config (Some policy) t).2 = (injectService policy t svc).2.
Proof.
  unfold service_section at 1, InjectAccessAddressPlaceholders.
  intros (net & Hn & Hs)%bind_Some. rewrite as_map_index, Hn. simpl. rewrite as_map_index, Hs. simpl.
  fold (injectService policy t svc). destruct (injectService policy t svc) as [svc' notes].
  split; [|done]. unfold service_section. simpl. rewrite map_get_set_eq. simpl.
  by rewrite map_get_set_eq.
Qed.

(** The placeholders change the network section only, which stays a map. *)
Lemma Inject_other config policy t k :
  map_get k (InjectAccessAddressPlaceholders config policy t).1 = map_get k config \/
  k = SectionNetwork /\ exists net net', map_get k config = Some (AMap net) /\
    map_get k (InjectAccessAddressPlaceholders config policy t).1 = Some (AMap net').
Proof.
  unfold InjectAccessAddressPlaceholders. destruct policy as [policy|]; [|by left].
  destruct (as_map (map_index SectionNetwork config)) as [net|] eqn:Hnet; [|by left].
  destruct (as_map (map_index SectionService net)) as [svc|]; [|by left]. cbv zeta.
  fold (injectService policy t svc). destruct (injectService policy t svc) as [svc' notes]. cbn [fst].
  rewrite map_get_set. destruct (decide (k = SectionNetwork)) as [->|]; [right|by left].
  split; [done|]. eexists net, _. split; [|done]. unfold map_index in Hnet.
  destruct (map_get SectionNetwork config) as [[]|]; simplify_eq/=; done.
Qed.

Lemma setIfAbsent_get k p svc k' :
  map_get k' (setIfAbsent k p svc) =
  if decide (k' = k /\ p <> "" /\ map_get k svc = None) then Some (AString p) else map_get k' svc.
Proof.
  unfold setIfAbsent. destruct (decide (p = "")) as [->|Hp].
  { rewrite decide_False; naive_solver. }
  destruct (map_get k svc) as [v|] eqn:E; [rewrite decide_False; naive_solver|].
  rewrite map_get_set. repeat case_decide; naive_solver.
Qed.

Lemma overrideForService_get svc ua policy t k :
  k <> "alternate-access-address" -> k <> "alternate-access-port" ->
  map_get k (overrideForService svc ua policy t).1 = map_get k svc.
Proof.
  intros H1 H2. unfold overrideForService. repeat case_decide; [case_match|..]; simpl;
    rewrite ?map_get_del, ?decide_False, ?map_get_set_ne by done; done.
Qed.

(** With LoadBalancer pod services the alternate address is the external placeholder, no
    alternate port survives, and dropping a user port is reported. *)
Theorem Inject_LoadBalancer config policy svc :
  service_section config = Some svc ->
  exists svc', service_section
      (InjectAccessAddressPlaceholders config (Some policy) "LoadBalancer").1 = Some svc' /\
    map_get "alternate-access-address" svc' = Some (AString placeholderExternalAddress) /\
    map_get "alternate-access-port" svc' = None /\
    (map_get "alternate-access-port" svc <> None ->
     (InjectAccessAddressPlaceholders config (Some policy) "LoadBalancer").2 <> []).
Proof.
  intros Hs. destruct (Inject_service config policy "LoadBalancer" svc Hs) as [-> ->].
  eexists. split; [done|]. unfold injectService.
  set (s2 := setIfAbsent "alternate-access-address" _ _).
  assert (map_get "alternate-access-port" s2 = map_get "alternate-access-port" svc) as Hport.
  { unfold s2. rewrite !setIfAbsent_get. rewrite !decide_False by naive_solver. done. }
  unfold overrideForService. rewrite decide_True by done.
  rewrite map_get_set_ne, Hport by done.
  destruct (map_get "alternate-access-port" svc) as [old|] eqn:E; simpl.
  - rewrite !map_get_del, decide_False, decide_True, map_get_set_eq by done.
    split_and!; [done|done|]. intros _. by destruct (noteList _).
  - rewrite map_get_set_eq, map_get_set_ne, Hport by done. done.
Qed.

(** With NodePort pod services the placeholders are those of the node. *)
Theorem Inject_NodePort config policy svc :
  service_section config = Some svc ->
  exists svc', service_section
      (InjectAccessAddressPlaceholders config (Some policy) "NodePort").1 = Some svc' /\
    map_get "alternate-access-address" svc' = Some (AString placeholderNodeIP) /\
    map_get "alternate-access-port" svc' = Some (AString placeholderExternalPort).
Proof.
  intros Hs. destruct (Inject_service config policy "NodePort" svc Hs) as [-> _].
  eexists. split; [done|]. unfold injectService, overrideForService.
  rewrite decide_False, decide_True by done. simpl.
  by rewrite map_get_set_ne, !map_get_set_eq.
Qed.

(** Keys that are already set are left alone by [setIfAbsent]. *)
Lemma setIfAbsent_id k p svc : p = "" \/ is_Some (map_get k svc) -> setIfAbsent k p svc = svc.
Proof. unfold setIfAbsent. intros [->|[v ->]]; [done|by case_decide]. Qed.

Lemma setIfAbsent_idemp k p svc : setIfAbsent k p (setIfAbsent k p svc) = setIfAbsent k p svc.
Proof.
  unfold setIfAbsent at 2 3. case_decide; [subst; by apply setIfAbsent_id; left|].
  destruct (map_get k svc) eqn:E; apply setIfAbsent_id; right; [eauto|].
  rewrite map_get_set_eq. eauto.
Qed.

Lemma map_set_id {A} k (v : A) m : map_get k m = Some v -> map_set k v m = m.
Proof.
  induction m as [|[k' v'] m IH]; simpl; [done|]. case_decide; [naive_solver|].
  intros. by rewrite IH.
Qed.

Lemma present_access_address policy t svc :
  placeholderForNetworkType (AccessType policy) = "" \/
  is_Some (map_get "access-address" (injectService policy t svc).1).
Proof.
  unfold injectService. set (p := placeholderForNetworkType (AccessType policy)).
  destruct (decide (p = "")) as [->|Hp]; [by left|right].
  rewrite overrideForService_get, !setIfAbsent_get by done.
  rewrite decide_False by naive_solver.
  destruct (map_get "access-address" svc) eqn:E; [|rewrite decide_True by done; eauto].
  rewrite decide_False by naive_solver. eauto.
Qed.

Lemma describe_same svc ua at' r :
  map_get "alternate-access-address" svc = Some (AString r) ->
  noteList (describeAddressOverride svc ua at' r) = [].
Proof. intros Hg. unfold describeAddressOverride. by rewrite Hg, bool_decide_eq_true_2. Qed.

Definition service_settled (t : string) (svc : gomap any) : Prop :=
  if decide (t = "LoadBalancer") then
    map_get "alternate-access-address" svc = Some (AString placeholderExternalAddress) /\
    map_get "alternate-access-port" svc = None
  else if decide (t = "NodePort") then
    map_get "alternate-access-address" svc = Some (AString placeholderNodeIP) /\
    map_get "alternate-access-port" svc = Some (AString placeholderExternalPort)
  else True.

Lemma overrideForService_settles svc ua policy t :
  service_settled t (overrideForService svc ua policy t).1.
Proof.
  unfold service_settled, overrideForService. case_decide; [|case_decide; [|done]].
  - case_match eqn:E; simpl; rewrite ?map_get_del, ?decide_True, ?map_get_set_eq by done; [|done].
    by rewrite decide_False.
  - simpl. by rewrite map_get_set_ne, !map_get_set_eq.
Qed.

Lemma overrideForService_fixed svc ua policy t :
  service_settled t svc -> overrideForService svc ua policy t = (svc, []).
Proof.
  unfold service_settled, overrideForService. case_decide; [|case_decide; [|done]]; intros [Ha Hp].
  - rewrite describe_same by done. rewrite map_set_id by done. by rewrite Hp.
  - rewrite describe_same by done. rewrite (map_set_id "alternate-access-address" _ _ Ha), Hp.
    rewrite bool_decide_eq_true_2 by done. by rewrite (map_set_id _ _ _ Hp).
Qed.

Lemma present_alternate policy t svc :
  setIfAbsent "alternate-access-address" (placeholderForNetworkType (AlternateAccessType policy))
    (injectService policy t svc).1 = (injectService policy t svc).1.
Proof.
  pose proof (overrideForService_settles
    (setIfAbsent "alternate-access-address" (placeholderForNetworkType (AlternateAccessType policy))
      (setIfAbsent "access-address" (placeholderForNetworkType (AccessType policy)) svc))
    (map_get "alternate-access-address" (setIfAbsent "access-address"
      (placeholderForNetworkType (AccessType policy)) svc)) policy t) as Hs.
  fold (injectService policy t svc) in Hs. unfold service_settled in Hs.
  repeat case_decide; [apply setIfAbsent_id; right; rewrite (proj1 Hs); eauto..|].
  unfold injectService, overrideForService. rewrite !decide_False by done.
  apply setIfAbsent_idemp.
Qed.

Lemma injectService_idemp policy t svc :
  injectService policy t (injectService policy t svc).1 = ((injectService policy t svc).1, []).
Proof.
  pose proof (present_access_address policy t svc) as Ha.
  pose proof (present_alternate policy t svc) as Hb.
  assert (service_settled t (injectService policy t svc).1) as Hs
    by (apply overrideForService_settles).
  set (svc' := (injectService policy t svc).1) in *. unfold injectService.
  rewrite (setIfAbsent_id "access-address" _ svc' Ha), Hb.
  by apply overrideForService_fixed.
Qed.

(** Injecting the access placeholders twice changes nothing the second time and reports
    no override. *)
Theorem Inject_idempotent config policy t :
  let config' := (InjectAccessAddressPlaceholders config policy t).1 in
  InjectAccessAddressPlaceholders config' policy t = (config', []).
Proof.
  destruct policy as [policy|]; [|done]. cbv zeta.
  unfold InjectAccessAddressPlaceholders at 2 3.
  destruct (as_map (map_index SectionNetwork config)) as [net|] eqn:En;
    [|simpl; by rewrite En].
  destruct (as_map (map_index SectionService net)) as [svc|] eqn:Es;
    [|simpl; by rewrite En, Es].
  fold (injectService policy t svc).
  pose proof (injectService_idemp policy t svc) as Hi.
  destruct (injectService policy t svc) as [svc' notes]. simpl in Hi. simpl.
  unfold map_index at 1. rewrite map_get_set_eq. simpl. unfold map_index at 1.
  rewrite map_get_set_eq. simpl. fold (injectService policy t svc'). rewrite Hi.
  by rewrite (map_set_id SectionService _ _ (map_get_set_eq _ _ _)),
    (map_set_id SectionNetwork _ _ (map_get_set_eq _ _ _)).
Qed.

End properties.

(** ** Witnesses *)

Definition witness_config : gomap any :=
  [("network", AMap [("service", AMap [("port", AInt KInt64 3000);
                                       ("alternate-access-port", AInt KInt64 4000)]);
                     ("heartbeat", AMap [("mode", AString "mesh")])]);
   ("service", AMap [("proto-fd-max", AInt KInt64 15000)])].

Definition witness_config' : gomap any := rev witness_config.

Lemma config_wf_witness_config : config_wf witness_config.
Proof. repeat constructor; set_solver. Qed.

Lemma witness_config_equiv : map_equiv witness_config witness_config'.
Proof. apply map_equiv_permutation; [apply config_wf_witness_config|apply Permutation_rev]. Qed.

Lemma GenerateConfig_deterministic_witness :
  @GenerateConfig sample_platform (Some witness_config) =
  @GenerateConfig sample_platform (Some witness_config').
Proof. exact (@GenerateConfig_deterministic sample_platform _ _ witness_config_equiv). Defined.

Lemma GenerateConfForPod_deterministic_witness :
  @GenerateConfForPod sample_platform (Some witness_config) "c" "ns" ["c-0-0"] 3002 =
  @GenerateConfForPod sample_platform (Some witness_config') "c" "ns" ["c-0-0"] 3002.
Proof.
  exact (@GenerateConfForPod_deterministic sample_platform _ _ "c" "ns" ["c-0-0"] 3002
    witness_config_equiv).
Defined.

Definition witness_text : string :=
  match @GenerateConfForPod sample_platform (Some witness_config) "c" "ns" ["c-0-0"] 3002 with
  | Ok s => s
  | Err _ => ""
  end.

Lemma GenerateConfForPod_balanced_witness : witness_text <> "" /\ balanced witness_text.
Proof.
  split; [by vm_compute|].
  apply (@GenerateConfForPod_balanced sample_platform witness_config "c" "ns" ["c-0-0"] 3002).
  - intros f. simpl. destruct (float_trunc f) as [z|]; [|done]. by rewrite clean_str_app, clean_pretty.
  - done.
  - done.
  - by repeat constructor.
  - done.
  - by vm_compute.
Defined.

Definition witness_policy : AerospikeNetworkPolicy :=
  mkAerospikeNetworkPolicy NetPod NetHostExternal (NetOther "") [] [] [].

Lemma Inject_LoadBalancer_witness :
  exists svc', service_section
      (@InjectAccessAddressPlaceholders sample_platform witness_config (Some witness_policy)
         "LoadBalancer").1 = Some svc' /\
    map_get "alternate-access-port" svc' = None.
Proof.
  destruct (@Inject_LoadBalancer sample_platform witness_config witness_policy
    [("port", AInt KInt64 3000); ("alternate-access-port", AInt KInt64 4000)] eq_refl)
    as (svc' & Hs & _ & Hp & _).
  exists svc'. by split.
Defined.

Lemma Inject_NodePort_witness :
  exists svc', service_section
      (@InjectAccessAddressPlaceholders sample_platform witness_config (Some witness_policy)
         "NodePort").1 = Some svc' /\
    map_get "alternate-access-port" svc' = Some (AString placeholderExternalPort).
Proof.
  destruct (@Inject_NodePort sample_platform witness_config witness_policy
    [("port", AInt KInt64 3000); ("alternate-access-port", AInt KInt64 4000)] eq_refl)
    as (svc' & Hs & _ & Hp).
  exists svc'. by split.
Defined.
