(* ===== verification/ConfigRules.v ===== *)
(** * Admission rules for Aerospike configurations

    The part of api/v1alpha1/aerospikecluster_webhook.go that looks at a
    configuration map and at image references: what the Community Edition does
    not support, and the shapes that the renderer needs.  The theorems say what an
    accepted configuration cannot contain, that merging two accepted
    configurations gives one that is as good, and that it can be rendered.

    A rejection is a value of [notice], with the field and what was found there;
    the wording of the messages is left out.  Where the code ranges over a Go map
    of its own, the order of the notices is that of the table. *)

From S2P Require Import Prelude GoValue Utils Api ConfigGen.
From Stdlib Require Import SpecFloat.

(** ** Notices *)

Inductive notice :=
| NotAllowed (field : string)                       (** Enterprise-only *)
| WrongType (field : string) (got : any)
| Missing (field : string)
| Empty (field : string)
| Duplicate (field name : string)
| OutOfRange (field : string) (got : any)
| TooMany (field : string) (count : nat)
| EnterpriseImage (field image : string)
| OldVersion (image : string) (major : Z)
| Undefined (field name : string)
| Invalid (field value : string)
| ExceedsSize (field : string) (got size : Z)
| NoBudget (field : string) (mu : IntOrString)
| Conflict (field other : string)
| InRack (id : Z) (n : notice)
| Advice (field what : string).                     (** a warning *)

Definition indexed (field : string) (i : nat) : string := field +:+ "[" +:+ pretty (Z.of_nat i) +:+ "]".
Definition dotted (field key : string) : string := field +:+ "." +:+ key.

(** The notices of a list, each entry with its index. *)
Definition eachIndexed {A} (f : nat -> A -> list notice) (l : list A) : list notice :=
  concat (imap f l).

(** Those of the listed keys that a map has. *)
Definition bannedKeys (banned : list string) (m : gomap any) : list string :=
  filter (fun k => map_has k m = true) banned.

(** ** Images *)

Definition minCEMajorVersion : Z := 8.

Definition imageTag (image : string) : string :=
  let image := match split_last "@" image with
               | Some (before, digest) => if str_contains "/" digest then image else before
               | None => image
               end in
  match split_last ":" image with
  | Some (_, tag) => if str_contains "/" tag then "" else tag
  | None => ""
  end.

(** The first prefix found is cut off. *)
Fixpoint cutFirst (prefixes : list string) (tag : string) : string :=
  match prefixes with
  | [] => tag
  | p :: prefixes => match cut_prefix p tag with Some after => after | None => cutFirst prefixes tag end
  end.

Definition parseMajorVersion (image : string) : option Z :=
  let tag := imageTag image in
  if decide (tag = "") then None
  else let tag := cutFirst ["ce-"; "ee-"; "ent-"] tag in
       let before := match split_first "." tag with Some (before, _) => before | None => tag end in
       atoi (trim_prefix "v" before).

Definition isEnterpriseTag (image : string) : bool :=
  let tagLower := to_lower (imageTag image) in
  has_prefix "ee-" tagLower || has_prefix "ent-" tagLower.

(** The check shared by [spec.image], [spec.overrides.image] and a template's image. *)
Definition enterpriseImage (field image : string) : list notice :=
  let imageLower := to_lower image in
  if contains_str "aerospike-server-enterprise" imageLower then [EnterpriseImage field image]
  else if contains_str "enterprise" imageLower || isEnterpriseTag image then [EnterpriseImage field image]
  else [].

(** ** Enterprise-only sections *)

Definition tlsKeyPrefix : string := "tls-".
Definition tlsNetworkSubsections : list string := ["service"; "heartbeat"; "fabric"].

(** The [tls-] keys of a map, sorted. *)
Definition tlsKeys (m : gomap any) : list string :=
  merge_sort String.le (filter (fun k => has_prefix tlsKeyPrefix k = true) (map_keys m)).

Definition validateNetworkTLSCE (fieldPath : string) (config : gomap any) : list notice :=
  match as_map (map_index "network" config) with
  | None => []
  | Some netCfg =>
      (if map_has "tls" netCfg then [NotAllowed (dotted fieldPath "network.tls")] else []) ++
      (subsection ← tlsNetworkSubsections;
       match as_map (map_index subsection netCfg) with
       | None => []
       | Some subMap =>
           (fun key => NotAllowed (dotted (dotted (dotted fieldPath "network") subsection) key)) <$> tlsKeys subMap
       end)
  end.

Definition enterpriseOnlySecurityKeys : list string := ["tls"; "ldap"; "log"; "syslog"].

Definition enterpriseOnlyLoggingContexts : list string :=
  ["audit"; "report-data-op"; "report-data-op-user"; "report-data-op-role"; "report-sys-admin";
   "report-user-admin"; "report-violation"; "report-authentication"].

Definition enterpriseOnlyNamespaceKeys : list string :=
  ["compression"; "compression-level"; "durable-delete"; "fast-restart"; "index-type"; "sindex-type";
   "rack-id"; "strong-consistency"; "tomb-raider-eligible-age"; "tomb-raider-period"].

Definition validateSecuritySection (secSection : any) : list notice :=
  match as_map secSection with
  | None => [WrongType "aerospikeConfig.security" secSection]
  | Some secMap =>
      (fun key => NotAllowed (dotted "aerospikeConfig.security" key)) <$> bannedKeys enterpriseOnlySecurityKeys secMap
  end.

Definition validateLoggingEntry (i : nat) (entry : any) : list notice :=
  let field := indexed "aerospikeConfig.logging" i in
  match as_map entry with
  | None => [WrongType field entry]
  | Some logMap =>
      (match map_get "name" logMap with
       | None => [Missing (dotted field "name")]
       | Some nameVal =>
           match as_string nameVal with
           | None => [WrongType (dotted field "name") nameVal]
           | Some nameStr => if decide (nameStr = "") then [WrongType (dotted field "name") nameVal] else []
           end
       end) ++
      ((fun key => NotAllowed (dotted field key)) <$> bannedKeys enterpriseOnlyLoggingContexts logMap)
  end.

Definition validateLoggingSection (logging : any) : list notice :=
  match as_list logging with
  | None => [WrongType "aerospikeConfig.logging" logging]
  | Some logs => eachIndexed validateLoggingEntry logs
  end.

(** ** Namespaces *)

Definition maxCENamespaces : nat := 2.

(** [v < 1 || v > 4] at the type the decoder gave.  A [json.Number] does not
    arise: [AerospikeConfigSpec.UnmarshalJSON] decodes numbers as float64. *)
Definition validateNamespaceRF (field : string) (rf : any) : list notice :=
  let ok := match rf with
            | AInt KInt v | AInt KInt32 v | AInt KInt64 v => Some (negb ((v <? 1) || (4 <? v)))
            | AFloat64 v => Some (negb (SFltb v (float64_of_Z 1) || SFltb (float64_of_Z 4) v))
            | _ => None
            end in
  match ok with
  | Some true => []
  | Some false => [OutOfRange field rf]
  | None => [WrongType field rf]
  end.

Definition validateNamespaceConfig (nsMap : gomap any) (index : nat) : list notice * list notice :=
  let field := indexed "aerospikeConfig.namespaces" index in
  let nsName := default "<unknown>" (as_string (map_index "name" nsMap)) in
  let banned := (fun key => NotAllowed (dotted field key)) <$> bannedKeys enterpriseOnlyNamespaceKeys nsMap in
  let memory := match as_map (map_index "storage-engine" nsMap) with
                | None => []
                | Some se => match map_get "data-in-memory" se with
                             | Some (ABool true) => [Advice nsName "data-in-memory=true doubles memory usage"]
                             | _ => []
                             end
                end in
  let rfErrors := match map_get "replication-factor" nsMap with
                  | None => []
                  | Some rf => validateNamespaceRF (dotted field "replication-factor") rf
                  end in
  (banned ++ rfErrors, memory).

(** One entry of the list, with the names seen before it. *)
Definition validateNamespaceEntry (seenNsNames : list string) (i : nat) (nsEntry : any)
    : list string * (list notice * list notice) :=
  let field := indexed "aerospikeConfig.namespaces" i in
  match as_map nsEntry with
  | None => (seenNsNames, ([WrongType field nsEntry], []))
  | Some nsMap =>
      let '(seen, nameErrors) :=
        match map_get "name" nsMap with
        | None => (seenNsNames, [Missing (dotted field "name")])
        | Some nameVal =>
            match as_string nameVal with
            | Some name =>
                if decide (name = "") then (seenNsNames, [])
                else (name :: seenNsNames, if decide (name ∈ seenNsNames) then [Duplicate field name] else [])
            | None => (seenNsNames, [])
            end
        end in
      let '(nsErrors, nsWarnings) := validateNamespaceConfig nsMap i in
      (seen, (nameErrors ++ nsErrors, nsWarnings))
  end.

Fixpoint validateNamespaceList (seenNsNames : list string) (i : nat) (ns : list any) : list notice * list notice :=
  match ns with
  | [] => ([], [])
  | nsEntry :: ns =>
      let '(seen, (errors, warnings)) := validateNamespaceEntry seenNsNames i nsEntry in
      let '(errors', warnings') := validateNamespaceList seen (S i) ns in
      (errors ++ errors', warnings ++ warnings')
  end.

Definition validateNamespaces (nsSection : any) : list notice * list notice :=
  match nsSection with
  | AList ns =>
      let '(errors, warnings) := validateNamespaceList [] 0 ns in
      ((if (maxCENamespaces <? length ns)%nat then [TooMany "aerospikeConfig.namespaces" (length ns)] else []) ++ errors,
       warnings)
  | _ => ([WrongType "aerospikeConfig.namespaces" nsSection], [])
  end.

(** ** The whole map *)

Definition defaultHeartbeatMode : string := "mesh".

(** A section that must be a map when it is there. *)
Definition mustBeMap (config : gomap any) (key : string) : list notice :=
  match map_get key config with
  | Some (AMap _) | None => []
  | Some v => [WrongType (dotted "aerospikeConfig" key) v]
  end.

Definition validateHeartbeatMode (config : gomap any) : list notice :=
  match as_map (map_index "network" config) with
  | None => []
  | Some netCfg =>
      match as_map (map_index "heartbeat" netCfg) with
      | None => []
      | Some hbCfg =>
          match as_string (map_index "mode" hbCfg) with
          | Some mode => if decide (mode = "mesh") then []
                         else [Invalid "aerospikeConfig.network.heartbeat.mode" mode]
          | None => []
          end
      end
  end.

Definition validateAerospikeConfig (config : gomap any) : list notice * list notice :=
  let '(nsErrors, nsWarnings) := from_option validateNamespaces ([], []) (map_get "namespaces" config) in
  ((if map_has "xdr" config then [NotAllowed "aerospikeConfig.xdr"] else []) ++
   (if map_has "tls" config then [NotAllowed "aerospikeConfig.tls"] else []) ++
   validateNetworkTLSCE "aerospikeConfig" config ++
   nsErrors ++
   from_option validateSecuritySection [] (map_get "security" config) ++
   mustBeMap config "service" ++ mustBeMap config "network" ++
   from_option validateLoggingSection [] (map_get "logging" config) ++
   validateHeartbeatMode config,
   nsWarnings).

(** The configuration is accepted. *)
Definition configErrors (config : gomap any) : list notice := (validateAerospikeConfig config).1.

(** ** Template fragments (aerospikeclustertemplate_webhook.go) *)

Definition validateTemplateConfigBannedKeys (fieldPath : string) (cfg : gomap any) (isNamespaceDefaults : bool)
    : list notice :=
  (if map_has "xdr" cfg then [NotAllowed (dotted fieldPath "xdr")] else []) ++
  (if map_has "tls" cfg then [NotAllowed (dotted fieldPath "tls")] else []) ++
  ((fun key => NotAllowed (dotted fieldPath key)) <$> tlsKeys cfg) ++
  validateNetworkTLSCE fieldPath cfg ++
  (match map_get "security" cfg with
   | None => []
   | Some (AMap secMap) =>
       (fun key => NotAllowed (dotted (dotted fieldPath "security") key)) <$> bannedKeys enterpriseOnlySecurityKeys secMap
   | Some secSection => [WrongType (dotted fieldPath "security") secSection]
   end) ++
  (if isNamespaceDefaults
   then (fun key => NotAllowed (dotted fieldPath key)) <$> bannedKeys enterpriseOnlyNamespaceKeys cfg else []).

(** ** What an accepted configuration is *)

Definition absent (keys : list string) (m : gomap any) : Prop := forall k, k ∈ keys -> map_get k m = None.

(** What the Community Edition leaves out, as its documentation lists it. *)
Definition ceAbsentFromNamespaces : list string :=
  ["compression"; "compression-level"; "durable-delete"; "fast-restart"; "index-type"; "sindex-type";
   "rack-id"; "strong-consistency"; "tomb-raider-eligible-age"; "tomb-raider-period"].
Definition ceAbsentFromSecurity : list string := ["tls"; "ldap"; "log"; "syslog"].
Definition ceAbsentFromLogging : list string :=
  ["audit"; "report-data-op"; "report-data-op-user"; "report-data-op-role"; "report-sys-admin";
   "report-user-admin"; "report-violation"; "report-authentication"].

(** A network stanza without TLS, in mesh mode. *)
Record ce_network (net : gomap any) : Prop := {
  cen_tls : map_get "tls" net = None;
  cen_sub : forall sub m k, sub ∈ ["service"; "heartbeat"; "fabric"] -> map_get sub net = Some (AMap m) ->
              has_prefix "tls-" k = true -> map_get k m = None;
  cen_mode : forall hb mode, map_get "heartbeat" net = Some (AMap hb) ->
               map_get "mode" hb = Some (AString mode) -> mode = "mesh"
}.

Definition rf_ok (rf : any) : bool :=
  match rf with
  | AInt KInt v | AInt KInt32 v | AInt KInt64 v => (1 <=? v) && (v <=? 4)
  | AFloat64 v => negb (SFltb v (float64_of_Z 1)) && negb (SFltb (float64_of_Z 4) v)
  | _ => false
  end.

Record ce_namespace (nsMap : gomap any) : Prop := {
  cens_name : is_Some (map_get "name" nsMap);
  cens_keys : absent ceAbsentFromNamespaces nsMap;
  cens_rf : forall rf, map_get "replication-factor" nsMap = Some rf -> rf_ok rf = true
}.

(** The non-empty string names of the entries. *)
Definition namespaceNames (l : list any) : list string :=
  omap (fun v => m ← as_map v; name ← as_string (map_index "name" m); guard (name <> "");; Some name) l.

Definition ce_namespaces (v : any) : Prop :=
  exists l, v = AList l /\ (length l <= 2)%nat /\ NoDup (namespaceNames l) /\
    Forall (fun e => exists m, e = AMap m /\ ce_namespace m) l.

Definition ce_security (v : any) : Prop := exists m, v = AMap m /\ absent ceAbsentFromSecurity m.

Definition ce_logging (v : any) : Prop :=
  exists l, v = AList l /\
    Forall (fun e => valid_named e /\ exists m, e = AMap m /\ absent ceAbsentFromLogging m) l.

Record ce_config (c : gomap any) : Prop := {
  cec_xdr : map_get "xdr" c = None;
  cec_tls : map_get "tls" c = None;
  cec_namespaces : forall v, map_get "namespaces" c = Some v -> ce_namespaces v;
  cec_security : forall v, map_get "security" c = Some v -> ce_security v;
  cec_service : forall v, map_get "service" c = Some v -> exists m, v = AMap m;
  cec_network : forall v, map_get "network" c = Some v -> exists m, v = AMap m /\ ce_network m;
  cec_logging : forall v, map_get "logging" c = Some v -> ce_logging v
}.

(** ** Each check, read backwards *)

Lemma map_has_true {A} k (m : gomap A) : map_has k m = true <-> is_Some (map_get k m).
Proof. apply bool_decide_eq_true. Qed.

Lemma present_nil {A} k (m : gomap A) (n : notice) : (if map_has k m then [n] else []) = [] <-> map_get k m = None.
Proof.
  destruct (map_has k m) eqn:Hk.
  - apply map_has_true in Hk as [v ->]. done.
  - apply not_true_iff_false in Hk. rewrite map_has_true in Hk. by rewrite eq_None_not_Some.
Qed.

Lemma banned_nil banned m (f : string -> notice) : f <$> bannedKeys banned m = [] <-> absent banned m.
Proof.
  unfold bannedKeys, absent. rewrite fmap_nil_iff, filter_nil_iff. setoid_rewrite map_has_true.
  by setoid_rewrite eq_None_not_Some.
Qed.

Lemma eachIndexed_nil {A} (f : nat -> A -> list notice) (P : A -> Prop) l :
  (forall i x, f i x = [] <-> P x) -> eachIndexed f l = [] <-> Forall P l.
Proof.
  intros Hf. unfold eachIndexed. revert f Hf. induction l as [|x l IH]; intros f Hf; [by split|].
  rewrite imap_cons. simpl. rewrite app_nil, (Hf 0%nat), Forall_cons, (IH (f ∘ S)); [done|]. intros. apply Hf.
Qed.

Lemma tlsKeys_nil m (f : string -> notice) :
  f <$> tlsKeys m = [] <-> forall k, has_prefix tlsKeyPrefix k = true -> map_get k m = None.
Proof.
  rewrite fmap_nil_iff. unfold tlsKeys. split.
  - intros Hs k Hk. apply map_get_None. intros Hin.
    assert (k ∈ merge_sort String.le (filter (fun k => has_prefix tlsKeyPrefix k = true) (map_keys m))) as Hi.
    { rewrite merge_sort_Permutation. by apply list_elem_of_filter. }
    rewrite Hs in Hi. by apply elem_of_nil in Hi.
  - intros Hn. rewrite (proj2 (filter_nil_iff _ _)); [done|]. intros k Hin Hk. apply Hn in Hk.
    by apply map_get_None in Hk.
Qed.

Lemma as_map_index_iff k (m : gomap any) n : as_map (map_index k m) = Some n <-> map_get k m = Some (AMap n).
Proof. unfold map_index. destruct (map_get k m) as [[]|]; simpl; naive_solver. Qed.

Lemma as_string_index_iff k (m : gomap any) s : as_string (map_index k m) = Some s <-> map_get k m = Some (AString s).
Proof. unfold map_index. destruct (map_get k m) as [[]|]; simpl; naive_solver. Qed.

(** TLS and the heartbeat mode together, on a network section that is a map. *)
Lemma network_nil field c net :
  map_get "network" c = Some (AMap net) ->
  validateNetworkTLSCE field c = [] /\ validateHeartbeatMode c = [] <-> ce_network net.
Proof.
  intros Hnet. unfold validateNetworkTLSCE, validateHeartbeatMode. apply as_map_index_iff in Hnet as ->.
  rewrite app_nil, present_nil, bind_nil_iff. split.
  - intros [[Htls Hsub] Hmode]. split; [done| |].
    + intros sub m k Hin Hm%as_map_index_iff. specialize (Hsub sub Hin). rewrite Hm in Hsub.
      apply (proj1 (tlsKeys_nil _ _) Hsub).
    + intros hb mode Hhb%as_map_index_iff Hm%as_string_index_iff. rewrite Hhb, Hm in Hmode. by case_decide.
  - intros [Htls Hsub Hmode]. split; [split; [done|]|].
    + intros sub Hin. destruct (as_map (map_index sub net)) as [m|] eqn:Hm; [|done].
      apply as_map_index_iff in Hm. apply tlsKeys_nil. intros k Hk. by eapply Hsub.
    + destruct (as_map (map_index "heartbeat" net)) as [hb|] eqn:Hhb; [|done].
      destruct (as_string (map_index "mode" hb)) as [mode|] eqn:Hm; [|done].
      apply as_map_index_iff in Hhb. apply as_string_index_iff in Hm.
      by rewrite decide_True by by eapply Hmode.
Qed.

Lemma loggingEntry_nil i e :
  validateLoggingEntry i e = [] <->
  valid_named e /\ exists m, e = AMap m /\ absent ceAbsentFromLogging m.
Proof.
  unfold validateLoggingEntry, valid_named.
  destruct e as [| | | | | | |m]; simpl; try by (split; [done|intros [(? & ? & [=] & _) _]]).
  rewrite app_nil, banned_nil.
  assert (forall P Q : Prop, (P <-> Q) -> P /\ absent ceAbsentFromLogging m <->
    Q /\ exists m0, AMap m = AMap m0 /\ absent ceAbsentFromLogging m0) as Hw by naive_solver.
  apply Hw. destruct (map_get "name" m) as [[]|] eqn:Hn; simpl; try naive_solver.
  case_decide; naive_solver.
Qed.

Lemma logging_nil v : validateLoggingSection v = [] <-> ce_logging v.
Proof.
  unfold validateLoggingSection, ce_logging. destruct v as [| | | | | |l|]; simpl; try naive_solver.
  rewrite (eachIndexed_nil _ _ _ loggingEntry_nil). naive_solver.
Qed.

Lemma security_nil v : validateSecuritySection v = [] <-> ce_security v.
Proof.
  unfold validateSecuritySection, ce_security. destruct v; simpl; try naive_solver.
  rewrite banned_nil. naive_solver.
Qed.

Lemma rf_nil field rf : validateNamespaceRF field rf = [] <-> rf_ok rf = true.
Proof.
  unfold validateNamespaceRF, rf_ok. destruct rf as [| |k z| |f| | |]; try done.
  - destruct k; try done; destruct (Z.ltb_spec z 1), (Z.ltb_spec 4 z), (Z.leb_spec 1 z), (Z.leb_spec z 4); simpl; (done || lia).
  - destruct (SFltb f _), (SFltb _ f); simpl; done.
Qed.

Lemma namespaceConfig_nil m i : is_Some (map_get "name" m) ->
  (validateNamespaceConfig m i).1 = [] <-> ce_namespace m.
Proof.
  intros Hname. unfold validateNamespaceConfig. simpl. rewrite app_nil, banned_nil. split.
  - intros [Hk Hrf]. split; [done..|]. intros rf Hr. rewrite Hr in Hrf. by apply rf_nil in Hrf.
  - intros [_ Hk Hrf]. split; [done|]. destruct (map_get "replication-factor" m) as [rf|]; [|done].
    by apply rf_nil, Hrf.
Qed.

(** One entry: its name is new, and the names seen grow by it. *)
Lemma namespaceEntry_nil seen i e :
  (validateNamespaceEntry seen i e).2.1 = [] <->
  (exists m, e = AMap m /\ ce_namespace m) /\ Forall (fun n => ~ (n ∈ seen)) (namespaceNames [e]).
Proof.
  unfold validateNamespaceEntry, namespaceNames.
  destruct e as [| | | | | | |m]; try by (split; [done|intros [(? & [=] & _) _]]). cbn [as_map].
  pose proof (namespaceConfig_nil m i) as Hc. destruct (validateNamespaceConfig m i) as [errs warns]. simpl in *.
  assert (forall P : Prop, (exists m0, AMap m = AMap m0 /\ ce_namespace m0) /\ P <-> ce_namespace m /\ P) as -> by naive_solver.
  unfold map_index. destruct (map_get "name" m) as [v|] eqn:Hn; simpl.
  2: { split; [done|]. intros [[[x Hx] _ _] _]. by rewrite Hx in Hn. }
  specialize (Hc ltac:(by eauto)).
  destruct v as [| | | | |name| |]; simpl; try (rewrite Hc; split; [by intros ?; split; [|constructor]|by intros [? _]]).
  destruct (decide (name = "")) as [->|Hne]; simpl.
  - rewrite Hc. split; [intros; split; [done|apply Forall_nil_2]|by intros [? _]].
  - case_guard; [|done]. simpl. rewrite app_nil, Hc, Forall_singleton.
    destruct (decide (name ∈ seen)); naive_solver.
Qed.

Lemma namespaceEntry_seen seen i e :
  (validateNamespaceEntry seen i e).2.1 = [] -> (validateNamespaceEntry seen i e).1 = namespaceNames [e] ++ seen.
Proof.
  unfold validateNamespaceEntry, namespaceNames.
  destruct e as [| | | | | | |m]; try done. cbn [as_map].
  destruct (validateNamespaceConfig m i) as [errs warns]. simpl. unfold map_index.
  destruct (map_get "name" m) as [[| | | | |name| |]|]; simpl; try done.
  case_decide; simpl; [by case_guard|]. by case_guard.
Qed.

Lemma namespaceNames_cons e l : namespaceNames (e :: l) = namespaceNames [e] ++ namespaceNames l.
Proof. unfold namespaceNames. change (e :: l) with ([e] ++ l). apply omap_app. Qed.

Lemma namespaceNames_one e : NoDup (namespaceNames [e]).
Proof.
  unfold namespaceNames. simpl. destruct (_ ≫= _); [|apply NoDup_nil_2].
  apply NoDup_singleton.
Qed.

Lemma namespaceList_nil seen i l :
  (validateNamespaceList seen i l).1 = [] <->
  Forall (fun e => exists m, e = AMap m /\ ce_namespace m) l /\ NoDup (namespaceNames l) /\
  Forall (fun n => ~ (n ∈ seen)) (namespaceNames l).
Proof.
  revert seen i. induction l as [|e l IH]; intros seen i.
  { split; [|done]. intros _. split; [constructor|split; [apply NoDup_nil_2|constructor]]. }
  cbn [validateNamespaceList].
  pose proof (namespaceEntry_nil seen i e) as He. pose proof (namespaceEntry_seen seen i e) as Hseen.
  destruct (validateNamespaceEntry seen i e) as [seen' [errs warns]]. cbn [fst snd] in He, Hseen.
  specialize (IH seen' (S i)). destruct (validateNamespaceList seen' (S i) l) as [errs' warns']. cbn [fst] in IH.
  cbn [fst]. rewrite app_nil, He, IH, (namespaceNames_cons e l), Forall_cons, NoDup_app, Forall_app. clear IH.
  destruct (decide (errs = [])) as [Herr|Hne].
  2: { split; [intros [H _]; by apply He in H|]. intros [[Hm _] [_ [Hnew _]]]. destruct Hne. by apply He. }
  rewrite (Hseen Herr), !Forall_forall. setoid_rewrite elem_of_app.
  pose proof (namespaceNames_one e). naive_solver.
Qed.

Lemma namespaces_nil v : (validateNamespaces v).1 = [] <-> ce_namespaces v.
Proof.
  unfold validateNamespaces, ce_namespaces, maxCENamespaces. destruct v as [| | | | | |l|]; simpl; try naive_solver.
  pose proof (namespaceList_nil [] 0 l) as Hl. destruct (validateNamespaceList [] 0 l) as [errs warns]. simpl in *.
  rewrite app_nil, Hl. assert (Forall (fun n => ~ (n ∈ [])) (namespaceNames l)).
  { apply Forall_forall. intros n _ Hn. by apply elem_of_nil in Hn. }
  destruct (Nat.ltb_spec 2 (length l)) as [Hlt|Hle].
  - split; [by intros [[=] _]|]. intros (l' & [= <-] & Hle & _). lia.
  - naive_solver.
Qed.

Lemma option_nil {A} (f : A -> list notice) (P : A -> Prop) o :
  (forall v, f v = [] <-> P v) -> from_option f [] o = [] <-> forall v, o = Some v -> P v.
Proof. intros Hf. destruct o; simpl; [rewrite Hf|]; naive_solver. Qed.

Lemma mustBeMap_nil c k : mustBeMap c k = [] <-> forall v, map_get k c = Some v -> exists m, v = AMap m.
Proof. unfold mustBeMap. destruct (map_get k c) as [[]|]; naive_solver. Qed.

Lemma configErrors_nil c : configErrors c = [] <-> ce_config c.
Proof.
  unfold configErrors, validateAerospikeConfig.
  pose proof (option_nil (fst ∘ validateNamespaces) _ (map_get "namespaces" c) namespaces_nil) as Hns.
  replace (from_option (fst ∘ validateNamespaces) [] (map_get "namespaces" c)) with
    (from_option validateNamespaces ([], []) (map_get "namespaces" c)).1 in Hns by by destruct (map_get "namespaces" c).
  destruct (from_option validateNamespaces ([], []) _) as [errs warns]. simpl in Hns. cbn [fst].
  rewrite !app_nil, !present_nil, Hns, !mustBeMap_nil, (option_nil _ _ _ security_nil), (option_nil _ _ _ logging_nil).
  split.
  - intros (? & ? & Htls & ? & ? & ? & Hnet & ? & Hmode). split; try done.
    intros v Hv. destruct (Hnet v Hv) as [m ->]. exists m. split; [done|].
    by apply (network_nil "aerospikeConfig" c).
  - intros [? ? ? ? ? Hnet ?].
    assert (validateNetworkTLSCE "aerospikeConfig" c = [] /\ validateHeartbeatMode c = []) as [? ?].
    { destruct (map_get "network" c) as [v|] eqn:Hv.
      - destruct (Hnet v eq_refl) as (m & -> & Hm). by eapply network_nil.
      - unfold validateNetworkTLSCE, validateHeartbeatMode, map_index. by rewrite Hv. }
    repeat split; try done. intros v Hv. destruct (Hnet v Hv) as (m & -> & _). by exists m.
Qed.


(** ** Merging *)

Lemma merge_absent b o k :
  map_wf o -> map_get k b = None -> map_get k o = None -> map_get k (DeepMerge b o) = None.
Proof. intros Hwf Hb Ho. by rewrite DeepMerge_get, Hb, Ho. Qed.

(** A key of a merge: from the base, from the override, or merged from two maps. *)
Lemma merge_cases b o k v :
  map_wf o -> map_get k (DeepMerge b o) = Some v ->
  map_get k b = Some v \/ map_get k o = Some v \/
  exists mb mo, map_get k b = Some (AMap mb) /\ map_get k o = Some (AMap mo) /\ v = AMap (DeepMerge mb mo).
Proof.
  intros Hwf. rewrite DeepMerge_get by done.
  destruct (map_get k b) as [[]|], (map_get k o) as [[]|]; naive_solver.
Qed.

Lemma absent_merge keys b o : map_wf o -> absent keys b -> absent keys o -> absent keys (DeepMerge b o).
Proof. intros Hwf Hb Ho k Hk. apply merge_absent; auto. Qed.

Lemma ce_network_merge b o :
  any_wf (AMap o) -> ce_network b -> ce_network o -> ce_network (DeepMerge b o).
Proof.
  intros Hwf [Hbt Hbs Hbm] [Hot Hos Hom]. pose proof (any_wf_map_wf _ Hwf) as Hwo. split.
  - by apply merge_absent.
  - intros sub m k Hin Hm Hk. apply (merge_cases _ _ _ _ Hwo) in Hm as [Hm|[Hm|(mb & mo & Hb & Ho & [= ->])]]; [by eauto..|].
    apply merge_absent; [|by eauto..]. by eapply any_wf_map_wf, any_wf_entry.
  - intros hb mode Hhb Hmode. apply (merge_cases _ _ _ _ Hwo) in Hhb as [Hm|[Hm|(mb & mo & Hb & Ho & [= ->])]]; [by eauto..|].
    assert (map_wf mo) as Hwm by by eapply any_wf_map_wf, any_wf_entry.
    apply (merge_cases _ _ _ _ Hwm) in Hmode as [Hm|[Hm|(? & ? & _ & _ & [=])]]; by eauto.
Qed.

(** Lists are not merged: a section that must be one comes from one side. *)
Lemma merge_list b o k v (P : any -> Prop) :
  map_wf o -> (forall m, ~ P (AMap m)) ->
  (forall v, map_get k b = Some v -> P v) -> (forall v, map_get k o = Some v -> P v) ->
  map_get k (DeepMerge b o) = Some v -> P v.
Proof.
  intros Hwf Hm Hb Ho Hv. apply (merge_cases _ _ _ _ Hwf) in Hv as [Hv|[Hv|(mb & mo & Hmb & _)]]; [by auto..|].
  by destruct (Hm mb (Hb _ Hmb)).
Qed.

Lemma ce_config_merge b o : config_wf o -> ce_config b -> ce_config o -> ce_config (DeepMerge b o).
Proof.
  intros Hwf Hb Ho. pose proof (any_wf_map_wf _ Hwf) as Hwo.
  split; [apply merge_absent; [done|by destruct Hb|by destruct Ho]..|intros v Hv|intros v Hv|intros v Hv|intros v Hv|intros v Hv].
  - eapply merge_list; [done| |apply (cec_namespaces _ Hb)|apply (cec_namespaces _ Ho)|done].
    by intros m (? & [=] & _).
  - apply (merge_cases _ _ _ _ Hwo) in Hv as [Hv|[Hv|(mb & mo & Hmb & Hmo & ->)]]; [by apply (cec_security _ Hb)|by apply (cec_security _ Ho)|].
    destruct (cec_security _ Hb _ Hmb) as (? & [= <-] & ?), (cec_security _ Ho _ Hmo) as (? & [= <-] & ?).
    eexists. split; [done|]. apply absent_merge; [|done..]. by eapply any_wf_map_wf, any_wf_entry.
  - apply (merge_cases _ _ _ _ Hwo) in Hv as [Hv|[Hv|(mb & mo & _ & _ & ->)]]; [by apply (cec_service _ Hb)|by apply (cec_service _ Ho)|by eexists].
  - apply (merge_cases _ _ _ _ Hwo) in Hv as [Hv|[Hv|(mb & mo & Hmb & Hmo & ->)]]; [by apply (cec_network _ Hb)|by apply (cec_network _ Ho)|].
    destruct (cec_network _ Hb _ Hmb) as (? & [= <-] & ?), (cec_network _ Ho _ Hmo) as (? & [= <-] & ?).
    eexists. split; [done|]. apply ce_network_merge; [|done..]. by eapply any_wf_entry.
  - eapply merge_list; [done| |apply (cec_logging _ Hb)|apply (cec_logging _ Ho)|done].
    by intros m (? & [=] & _).
Qed.

(** ** Rendering *)

(** Every namespace has a non-empty name that is a string. *)
Definition named_namespaces (c : gomap any) : Prop :=
  forall l, map_get "namespaces" c = Some (AList l) -> Forall valid_named l.

Lemma named_namespaces_merge b o :
  map_wf o -> named_namespaces b -> named_namespaces o -> named_namespaces (DeepMerge b o).
Proof.
  intros Hwf Hb Ho l Hl. apply (merge_cases _ _ _ _ Hwf) in Hl as [Hl|[Hl|(? & ? & _ & _ & [=])]]; by auto.
Qed.

Lemma ce_config_sections c k v :
  ce_config c -> named_namespaces c -> map_get k c = Some v -> section_valid k v.
Proof.
  intros Hc Hn Hv. right. case_decide as Hk; [destruct Hk as [->| ->]|case_decide as Hk'; [destruct Hk' as [->| ->]|done]].
  - destruct (cec_namespaces _ Hc _ Hv) as (l & -> & _). exists l. split; [done|]. by apply Hn.
  - destruct (cec_logging _ Hc _ Hv) as (l & -> & Hl). exists l. split; [done|].
    eapply Forall_impl; [exact Hl|]. by intros e [? _].
  - by apply (cec_service _ Hc).
  - destruct (cec_network _ Hc _ Hv) as (m & -> & _). by exists m.
Qed.

(** An accepted configuration, with the placeholders of any network policy, is rendered. *)
Lemma ce_config_renders `{GoPlatform} c policy t serviceName namespace podNames port :
  ce_config c -> named_namespaces c ->
  is_ok (GenerateConfForPod (Some (InjectAccessAddressPlaceholders c policy t).1) serviceName namespace podNames port) = true.
Proof.
  intros Hc Hn. apply generateConfigCore_valid. intros k v Hv.
  destruct (Inject_other c policy t k) as [He|[-> (net & net' & _ & He)]]; rewrite He in Hv.
  - by eapply ce_config_sections.
  - injection Hv as <-. right. rewrite decide_False by (intros [?|?]; done).
    rewrite decide_True by auto. by exists net'.
Qed.
