(* ===== verification/Json.v ===== *)
(** * JSON values of the API types

    [json.Marshal] of the parts of the custom resource that the controller
    hashes, read off the struct tags of api/v1alpha1: a field tagged [omitempty]
    is left out when it is nil, empty, zero or false; the keys of a map are
    sorted. *)

From S2P Require Import Prelude GoValue Utils Api ConfigGen.

(** ** Fields *)

(** A field with [omitempty]; [ANil] stands for an absent pointer. *)
Definition optionalField (key : string) (v : any) : gomap any :=
  match v with ANil => [] | _ => [(key, v)] end.

Definition pointer {A} (marshal : A -> any) (o : option A) : any := from_option marshal ANil o.
Definition jsonString (s : string) : any := if decide (s = "") then ANil else AString s.
Definition jsonBool (b : bool) : any := if b then ABool true else ANil.
Definition jsonInt (z : Z) : any := if decide (z = 0) then ANil else AInt KInt z.
Definition jsonList {A} (marshal : A -> any) (l : list A) : any :=
  match l with [] => ANil | _ => AList (marshal <$> l) end.
Definition stringList (l : list string) : any := jsonList AString l.
Definition jsonMap {A} (marshal : A -> any) (m : gomap A) : any :=
  match m with [] => ANil | _ => AMap ((fun e => (e.1, marshal e.2)) <$> sortedEntries m) end.
Definition stringMap (m : gomap string) : any := jsonMap AString m.

(** ** Metadata, resources and scheduling *)

Definition marshalObjectMeta (m : AerospikeObjectMeta) : any :=
  AMap (optionalField "annotations" (stringMap (om_Annotations m)) ++ optionalField "labels" (stringMap (om_Labels m))).

Definition marshalServiceSpec (s : AerospikeServiceSpec) : any :=
  AMap (optionalField "metadata" (pointer marshalObjectMeta (ss_Metadata s)) ++
        optionalField "serviceType" (jsonString (ss_ServiceType s))).

Definition marshalQuantity (q : Quantity) : any := AString (q_String q).

Definition marshalResources (r : ResourceRequirements) : any :=
  AMap (optionalField "limits" (jsonMap marshalQuantity (rr_Limits r)) ++
        optionalField "requests" (jsonMap marshalQuantity (rr_Requests r)) ++
        optionalField "claims" (jsonList id (rr_Claims r))).

Definition marshalLabelSelector (s : LabelSelector) : any :=
  AMap (optionalField "matchLabels" (stringMap (ls_MatchLabels s)) ++
        optionalField "matchExpressions" (jsonList id (ls_MatchExpressions s))).

Definition marshalRequirement (r : NodeSelectorRequirement) : any :=
  AMap ([("key", AString (nsr_Key r)); ("operator", AString (nsr_Operator r))] ++
        optionalField "values" (stringList (nsr_Values r))).

Definition marshalTerm (t : NodeSelectorTerm) : any :=
  AMap (optionalField "matchExpressions" (jsonList marshalRequirement (nst_MatchExpressions t)) ++
        optionalField "matchFields" (jsonList marshalRequirement (nst_MatchFields t))).

Definition marshalNodeAffinity (a : NodeAffinity) : any :=
  AMap (optionalField "requiredDuringSchedulingIgnoredDuringExecution"
          (pointer (fun terms => AMap [("nodeSelectorTerms", AList (marshalTerm <$> terms))]) (na_Required a)) ++
        optionalField "preferredDuringSchedulingIgnoredDuringExecution" (jsonList id (na_Preferred a))).

Definition marshalPodAffinityTerm (t : PodAffinityTerm) : any :=
  AMap (optionalField "labelSelector" (pointer marshalLabelSelector (pat_LabelSelector t)) ++
        [("topologyKey", AString (pat_TopologyKey t))] ++ pat_JSON t).

Definition marshalWeightedTerm (t : WeightedPodAffinityTerm) : any :=
  AMap [("weight", AInt KInt (wpt_Weight t)); ("podAffinityTerm", marshalPodAffinityTerm (wpt_PodAffinityTerm t))].

Definition marshalPodAntiAffinity (a : PodAntiAffinity) : any :=
  AMap (optionalField "requiredDuringSchedulingIgnoredDuringExecution" (jsonList marshalPodAffinityTerm (paa_Required a)) ++
        optionalField "preferredDuringSchedulingIgnoredDuringExecution" (jsonList marshalWeightedTerm (paa_Preferred a))).

Definition marshalAffinity (a : Affinity) : any :=
  AMap (optionalField "nodeAffinity" (pointer marshalNodeAffinity (aff_NodeAffinity a)) ++
        optionalField "podAffinity" (pointer id (aff_PodAffinity a)) ++
        optionalField "podAntiAffinity" (pointer marshalPodAntiAffinity (aff_PodAntiAffinity a))).

Definition marshalEnvVar (e : EnvVar) : any :=
  AMap ([("name", AString (env_Name e))] ++ optionalField "value" (jsonString (env_Value e)) ++
        optionalField "valueFrom" (pointer id (env_ValueFrom e))).

Definition marshalVolumeMount (m : VolumeMount) : any :=
  AMap ([("name", AString (vm_Name m))] ++ optionalField "readOnly" (jsonBool (vm_ReadOnly m)) ++
        optionalField "recursiveReadOnly" (pointer AString (vm_RecursiveReadOnly m)) ++
        [("mountPath", AString (vm_MountPath m))] ++ optionalField "subPath" (jsonString (vm_SubPath m)) ++
        optionalField "mountPropagation" (pointer AString (vm_MountPropagation m)) ++
        optionalField "subPathExpr" (jsonString (vm_SubPathExpr m))).

(** The fields in the order of the struct; [other] takes those kept as they came. *)
Definition marshalContainer (c : Container) : any :=
  let other keys := keys ≫= (fun k => from_option (fun v => [(k, v)]) [] (map_get k (ct_JSON c))) in
  AMap ([("name", AString (ct_Name c))] ++ optionalField "image" (jsonString (ct_Image c)) ++
        optionalField "command" (stringList (ct_Command c)) ++ other ["args"; "workingDir"] ++
        optionalField "ports" (jsonList id (ct_Ports c)) ++ other ["envFrom"] ++
        optionalField "env" (jsonList marshalEnvVar (ct_Env c)) ++
        [("resources", marshalResources (ct_Resources c))] ++ other ["resizePolicy"; "restartPolicy"; "restartPolicyRules"] ++
        optionalField "volumeMounts" (jsonList marshalVolumeMount (ct_VolumeMounts c)) ++ other ["volumeDevices"] ++
        optionalField "livenessProbe" (pointer id (ct_LivenessProbe c)) ++
        optionalField "readinessProbe" (pointer id (ct_ReadinessProbe c)) ++ other ["startupProbe"] ++
        optionalField "lifecycle" (pointer id (ct_Lifecycle c)) ++
        other ["terminationMessagePath"; "terminationMessagePolicy"; "imagePullPolicy"] ++
        optionalField "securityContext" (pointer id (ct_SecurityContext c)) ++ other ["stdin"; "stdinOnce"; "tty"]).

Definition policyString (p : PodManagementPolicy) : string :=
  match p with OrderedReadyPodManagement => "OrderedReady" | ParallelPodManagement => "Parallel" end.

(** ** [AerospikePodSpec] (types_pod.go) *)

Definition marshalContainerSpec (c : AerospikeContainerSpec) : any :=
  AMap (optionalField "resources" (pointer marshalResources (acs_Resources c)) ++
        optionalField "securityContext" (pointer id (acs_SecurityContext c))).

Definition marshalPodSpec (p : AerospikePodSpec) : any :=
  AMap (optionalField "aerospikeContainer" (pointer marshalContainerSpec (ps_AerospikeContainerSpec p)) ++
        optionalField "sidecars" (jsonList marshalContainer (ps_Sidecars p)) ++
        optionalField "initContainers" (jsonList marshalContainer (ps_InitContainers p)) ++
        optionalField "imagePullSecrets" (jsonList (fun n => AMap [("name", AString n)]) (ps_ImagePullSecrets p)) ++
        optionalField "nodeSelector" (stringMap (ps_NodeSelector p)) ++
        optionalField "tolerations" (jsonList id (ps_Tolerations p)) ++
        optionalField "affinity" (pointer marshalAffinity (ps_Affinity p)) ++
        optionalField "securityContext" (pointer id (ps_SecurityContext p)) ++
        optionalField "serviceAccountName" (jsonString (ps_ServiceAccountName p)) ++
        optionalField "dnsPolicy" (jsonString (ps_DNSPolicy p)) ++
        optionalField "hostNetwork" (jsonBool (ps_HostNetwork p)) ++
        optionalField "multiPodPerHost" (pointer ABool (ps_MultiPodPerHost p)) ++
        optionalField "terminationGracePeriodSeconds" (pointer (AInt KInt64) (ps_TerminationGracePeriodSeconds p)) ++
        optionalField "topologySpreadConstraints" (jsonList id (ps_TopologySpreadConstraints p)) ++
        optionalField "podManagementPolicy" (pointer (AString ∘ policyString) (ps_PodManagementPolicy p)) ++
        optionalField "metadata" (pointer marshalObjectMeta (ps_Metadata p)) ++
        optionalField "readinessGateEnabled" (pointer ABool (ps_ReadinessGateEnabled p)) ++
        optionalField "priorityClassName" (jsonString (ps_PriorityClassName p))).

(** ** Monitoring and networks *)

Definition marshalServiceMonitor (s : ServiceMonitorSpec) : any :=
  AMap (optionalField "enabled" (jsonBool (sm_Enabled s)) ++ optionalField "interval" (jsonString (sm_Interval s)) ++
        optionalField "labels" (stringMap (sm_Labels s))).

Definition marshalPrometheusRule (r : PrometheusRuleSpec) : any :=
  AMap (optionalField "enabled" (jsonBool (pr_Enabled r)) ++ optionalField "labels" (stringMap (pr_Labels r)) ++
        optionalField "customRules" (jsonList id (pr_CustomRules r))).

Definition marshalMonitoring (m : AerospikeMonitoringSpec) : any :=
  AMap (optionalField "enabled" (jsonBool (mon_Enabled m)) ++
        optionalField "exporterImage" (jsonString (mon_ExporterImage m)) ++
        optionalField "port" (jsonInt (mon_Port m)) ++
        optionalField "resources" (pointer marshalResources (mon_Resources m)) ++
        optionalField "env" (jsonList marshalEnvVar (mon_Env m)) ++
        optionalField "metricLabels" (stringMap (mon_MetricLabels m)) ++
        optionalField "serviceMonitor" (pointer marshalServiceMonitor (mon_ServiceMonitor m)) ++
        optionalField "prometheusRule" (pointer marshalPrometheusRule (mon_PrometheusRule m))).

Definition marshalNetworkPolicy (p : AerospikeNetworkPolicy) : any :=
  AMap (optionalField "accessType" (jsonString (networkTypeString (AccessType p))) ++
        optionalField "alternateAccessType" (jsonString (networkTypeString (AlternateAccessType p))) ++
        optionalField "fabricType" (jsonString (networkTypeString (FabricType p))) ++
        optionalField "customAccessNetworkNames" (stringList (CustomAccessNetworkNames p)) ++
        optionalField "customAlternateAccessNetworkNames" (stringList (CustomAlternateAccessNetworkNames p)) ++
        optionalField "customFabricNetworkNames" (stringList (CustomFabricNetworkNames p))).

(** ** Storage (types_storage.go) *)

Definition initMethodString (m : VolumeInitMethod) : string :=
  match m with
  | InitMethodUnset => "" | VolumeInitMethodNone => "none" | VolumeInitMethodDeleteFiles => "deleteFiles"
  | VolumeInitMethodDD => "dd" | VolumeInitMethodBlkdiscard => "blkdiscard"
  | VolumeInitMethodHeaderCleanup => "headerCleanup"
  end.

Definition wipeMethodString (m : VolumeWipeMethod) : string :=
  match m with
  | WipeMethodUnset => "" | VolumeWipeMethodNone => "none" | VolumeWipeMethodDeleteFiles => "deleteFiles"
  | VolumeWipeMethodDD => "dd" | VolumeWipeMethodBlkdiscard => "blkdiscard"
  | VolumeWipeMethodHeaderCleanup => "headerCleanup"
  | VolumeWipeMethodBlkdiscardWithHeaderCleanup => "blkdiscardWithHeaderCleanup"
  end.

Definition volumeModeString (m : PersistentVolumeMode) : string :=
  match m with
  | VolumeModeUnset => "" | PersistentVolumeFilesystem => "Filesystem" | PersistentVolumeBlock => "Block"
  end.

Definition marshalPersistentVolume (p : PersistentVolumeSpec) : any :=
  AMap (optionalField "storageClass" (jsonString (pv_StorageClass p)) ++
        optionalField "volumeMode" (jsonString (volumeModeString (pv_VolumeMode p))) ++
        [("size", AString (pv_Size p))] ++
        optionalField "accessModes" (stringList (pv_AccessModes p)) ++
        optionalField "selector" (pointer marshalLabelSelector (pv_Selector p)) ++
        optionalField "metadata" (pointer marshalObjectMeta (pv_Metadata p))).

Definition marshalVolumeSource (s : VolumeSource) : any :=
  AMap (optionalField "persistentVolume" (pointer marshalPersistentVolume (vsrc_PersistentVolume s)) ++
        optionalField "emptyDir" (pointer id (vsrc_EmptyDir s)) ++
        optionalField "secret" (pointer id (vsrc_Secret s)) ++
        optionalField "configMap" (pointer id (vsrc_ConfigMap s)) ++
        optionalField "hostPath" (pointer id (vsrc_HostPath s))).

Definition marshalAerospikeAttachment (a : AerospikeVolumeAttachment) : any :=
  AMap ([("path", AString (ava_Path a))] ++
        optionalField "readOnly" (jsonBool (ava_ReadOnly a)) ++
        optionalField "subPath" (jsonString (ava_SubPath a)) ++
        optionalField "subPathExpr" (jsonString (ava_SubPathExpr a)) ++
        optionalField "mountPropagation" (pointer AString (ava_MountPropagation a))).

Definition marshalAttachment (a : VolumeAttachment) : any :=
  AMap ([("containerName", AString (vat_ContainerName a)); ("path", AString (vat_Path a))] ++
        optionalField "readOnly" (jsonBool (vat_ReadOnly a)) ++
        optionalField "subPath" (jsonString (vat_SubPath a)) ++
        optionalField "subPathExpr" (jsonString (vat_SubPathExpr a)) ++
        optionalField "mountPropagation" (pointer AString (vat_MountPropagation a))).

Definition marshalVolume (v : VolumeSpec) : any :=
  AMap ([("name", AString (vol_Name v)); ("source", marshalVolumeSource (vol_Source v))] ++
        optionalField "aerospike" (pointer marshalAerospikeAttachment (vol_Aerospike v)) ++
        optionalField "sidecars" (jsonList marshalAttachment (vol_Sidecars v)) ++
        optionalField "initContainers" (jsonList marshalAttachment (vol_InitContainers v)) ++
        optionalField "initMethod" (jsonString (initMethodString (vol_InitMethod v))) ++
        optionalField "wipeMethod" (jsonString (wipeMethodString (vol_WipeMethod v))) ++
        optionalField "cascadeDelete" (pointer ABool (vol_CascadeDelete v))).

Definition marshalVolumePolicy (p : AerospikeVolumePolicy) : any :=
  AMap (optionalField "initMethod" (jsonString (initMethodString (vp_InitMethod p))) ++
        optionalField "wipeMethod" (jsonString (wipeMethodString (vp_WipeMethod p))) ++
        optionalField "cascadeDelete" (pointer ABool (vp_CascadeDelete p))).

Definition marshalStorage (s : AerospikeStorageSpec) : any :=
  AMap (optionalField "volumes" (jsonList marshalVolume (st_Volumes s)) ++
        optionalField "cleanupThreads" (jsonInt (st_CleanupThreads s)) ++
        optionalField "filesystemVolumePolicy" (pointer marshalVolumePolicy (st_FilesystemVolumePolicy s)) ++
        optionalField "blockVolumePolicy" (pointer marshalVolumePolicy (st_BlockVolumePolicy s)) ++
        optionalField "localStorageClasses" (stringList (st_LocalStorageClasses s)) ++
        optionalField "deleteLocalStorageOnRestart" (pointer ABool (st_DeleteLocalStorageOnRestart s))).
