(* ===== verification/Kube.v ===== *)
(** * The cluster, its API server and the effects of the controller

    The controller acts on a [World]: the objects stored in the API server, the
    Aerospike servers, the operator's own in-memory state and the [cluster]
    object that one reconcile passes to its helpers by pointer.  A method of the
    reconciler is a computation of the state-and-error monad [M].

    What is not under src/ is a parameter, collected in the class [Environment]:
    the Aerospike client library, command execution in a pod, the hash function,
    client-go's retry policy and its parser of percentages.

    Every call to the API server may fail.  The outcomes of the calls of a run
    are given by [w_faults], a list consumed from the left; after its end every
    call succeeds.  A write that was applied is recorded in [w_trace], newest
    first, so that a theorem can speak about what a run did to the cluster.
    [w_metrics] is the registry of the operator's process.  Logging, tracing spans and the
    text of events are left out. *)

From S2P Require Import Prelude GoValue Utils Api Metrics.

(** ** Errors

    [errors.IsConflict], [errors.IsNotFound] and [ackoerrors.IsValidation]
    look through wrapped errors, so wrapping keeps the kind. *)

Inductive errkind := KConflict | KNotFound | KValidation | KForbidden | KNoMatch | KAlreadyExists | KOther.

#[export] Instance errkind_eq_dec : EqDecision errkind.
Proof. solve_decision. Defined.

Record goerr := mkErr { err_kind : errkind; err_msg : string }.

#[export] Instance goerr_eq_dec : EqDecision goerr.
Proof. solve_decision. Defined.

Definition IsConflict (e : goerr) : bool := bool_decide (err_kind e = KConflict).
Definition IsNotFound (e : goerr) : bool := bool_decide (err_kind e = KNotFound).
Definition IsForbidden (e : goerr) : bool := bool_decide (err_kind e = KForbidden).
(** [meta.IsNoMatchError]: the kind is not installed. *)
Definition IsNoMatchError (e : goerr) : bool := bool_decide (err_kind e = KNoMatch).
(** internal/errors: [ValidationError] marks a permanent error. *)
Definition IsValidation (e : goerr) : bool := bool_decide (err_kind e = KValidation).
Definition NewValidationf (msg : string) : goerr := mkErr KValidation msg.
Definition Errorf (msg : string) : goerr := mkErr KOther msg.
(** [fmt.Errorf("msg: %w", e)] *)
Definition wrapErr (msg : string) (e : goerr) : goerr :=
  mkErr (err_kind e) (msg +:+ ": " +:+ err_msg e).

(** ** The environment *)

(** [*aero.Node]: its name and the host it was seeded under, if known. *)
Record AeroNode := mkAeroNode { node_Name : string; node_Host : option string }.

Class Environment := {
  env_go :: GoPlatform;
  (** the state of the Aerospike servers, changed by commands only *)
  aero_state : Type;
  (** [aero.NewClientWithPolicy] followed by [GetNodes]: the nodes a client sees *)
  aero_dial : string -> Z -> option (string * string) -> aero_state -> goerr + list AeroNode;
  (** [node.RequestInfo]: the response map of one info command *)
  aero_request : AeroNode -> string -> aero_state -> (goerr + gomap string) * aero_state;
  (** a command executed in the Aerospike container of a pod: its stdout *)
  pod_exec : string -> list string -> aero_state -> (goerr + string) * aero_state;
  (** [utils.ShortSHA256]'s [sha256.Sum256] over [json.Marshal], as a function of the JSON value *)
  sha256_json : any -> string;
  (** how often [retry.RetryOnConflict(retry.DefaultBackoff, ..)] calls its function again *)
  retry_again : nat;
  (** [intstr.GetScaledValueFromIntOrPercent(v, total, true)] on a string value *)
  scaled_value : string -> Z -> goerr + Z;
  (** the text of the embedded file internal/initcontainer/scripts/aerospike-init.sh *)
  initScript : string
}.

(** The in-memory budget of migration-check failures of one rack. *)
Record migrationCheckState := mkMcs { mcs_failures : Z; mcs_firstSeen : Z; mcs_lastSeen : Z }.

#[export] Instance migrationCheckState_eq_dec : EqDecision migrationCheckState.
Proof. solve_decision. Defined.

(** ** Administration commands of the Aerospike client *)

(** [aero.Privilege]; the code is a string such as "read-write". *)
Record Privilege := mkPrivilege { prv_Code : string; prv_Namespace : string; prv_SetName : string }.

#[export] Instance Privilege_eq_dec : EqDecision Privilege.
Proof. solve_decision. Defined.

#[export] Instance Privilege_countable : Countable Privilege.
Proof.
  refine (inj_countable' (fun p => (prv_Code p, prv_Namespace p, prv_SetName p)) (fun '(c, n, s) => mkPrivilege c n s) _).
  by intros [].
Defined.

Inductive adminCommand :=
| CreateRole (name : string) (privileges : list Privilege) (whitelist : list string)
| DropRole (name : string)
| GrantPrivileges (role : string) (privileges : list Privilege)
| RevokePrivileges (role : string) (privileges : list Privilege)
| CreateUser (name password : string) (roles : list string)
| DropUser (name : string)
| GrantRoles (user : string) (roles : list string)
| RevokeRoles (user : string) (roles : list string)
| ChangePassword (user password : string).

#[export] Instance adminCommand_eq_dec : EqDecision adminCommand.
Proof. solve_decision. Defined.

(** ** Applied writes and events *)

Inductive action :=
| ADeletePod (name : string)
| AExec (pod : string) (cmd : list string)
| AStampPod (name key value : string)
| APodCondition (name : string)
| ACreateSts (name : string) (replicas : Z)
| APatchSts (name : string) (replicas : Z)
| ADeleteSts (name : string)
| ADeletePVC (name : string)
| ADeleteConfigMap (name : string)
| ACreateObj (kind name : string)
| AUpdateObj (kind name : string)
| ADeleteObj (kind name : string)
| AUpdateStatus
| AUpdateCluster
| AInfo (node cmd : string)
| AAdmin (cmd : adminCommand).

#[export] Instance action_eq_dec : EqDecision action.
Proof. solve_decision. Defined.

Record event := mkEvent { ev_Warning : bool; ev_Reason : string }.

(** ** The world *)

Record World `{Environment} := mkWorld {
  w_cluster : option AerospikeCluster;
  w_mem : AerospikeCluster;
  w_pods : list Pod;
  w_sts : list StatefulSet;
  w_pvcs : list PersistentVolumeClaim;
  w_configMaps : list ConfigMap;
  w_services : list Service;
  w_pdbs : list PodDisruptionBudget;
  w_roles : list Role;
  w_roleBindings : list RoleBinding;
  w_networkPolicies : list NetworkPolicy;
  w_ciliumPolicies : list (Unstructured "CiliumNetworkPolicy");
  w_serviceMonitors : list (Unstructured "ServiceMonitor");
  w_prometheusRules : list (Unstructured "PrometheusRule");
  w_templates : list AerospikeClusterTemplate;
  w_storageClasses : list StorageClass;
  w_secrets : gomap (gomap string);
  w_aero : aero_state;
  w_failures : gmap string migrationCheckState;
  w_restConfig : bool;
  w_now : Z;
  w_faults : list (option goerr);
  w_deadline : list bool;
  w_events : list event;
  w_metrics : registry;
  w_trace : list action
}.

#[export] Instance World_fields `{Environment} : Fields World := fun r =>
  mkWorld _ (w_cluster r) (w_mem r) (w_pods r) (w_sts r) (w_pvcs r) (w_configMaps r)
    (w_services r) (w_pdbs r) (w_roles r) (w_roleBindings r) (w_networkPolicies r) (w_ciliumPolicies r)
    (w_serviceMonitors r) (w_prometheusRules r) (w_templates r) (w_storageClasses r) (w_secrets r) (w_aero r) (w_failures r) (w_restConfig r) (w_now r) (w_faults r)
    (w_deadline r) (w_events r) (w_metrics r) (w_trace r).

Section Monad.
Context `{Environment}.

Definition M (A : Type) : Type := World -> (goerr + A) * World.

#[export] Instance M_ret : MRet M := fun A a w => (inr a, w).
#[export] Instance M_bind : MBind M := fun A B f m w =>
  match m w with
  | (inl e, w') => (inl e, w')
  | (inr a, w') => f a w'
  end.

Definition raise {A} (e : goerr) : M A := fun w => (inl e, w).
(** [x, err := m()]: the error becomes a value. *)
Definition try {A} (m : M A) : M (goerr + A) := fun w => let '(r, w') := m w in (inr r, w').
Definition lift {A} (r : goerr + A) : M A := fun w => (r, w).
Definition gets {A} (f : World -> A) : M A := fun w => (inr (f w), w).
Definition modify (f : World -> World) : M () := fun w => (inr (), f w).
(** An error is logged and dropped. *)
Definition ignore {A} (m : M A) : M () := fun w => (inr (), snd (m w)).
(** The error is wrapped with a message. *)
Definition wrapping {A} (msg : string) (m : M A) : M A := fun w =>
  match m w with
  | (inl e, w') => (inl (wrapErr msg e), w')
  | ok => ok
  end.

(** [if err := m(); err != nil { h(); return err }] *)
Definition onError {A} (h : M ()) (m : M A) : M A := fun w =>
  match m w with
  | (inl e, w') => (inl e, snd (h w'))
  | ok => ok
  end.

(** [for _, x := range l { f(x) }], stopping at the first error. *)
Fixpoint forM_ {A} (l : list A) (f : A -> M ()) : M () :=
  match l with [] => mret () | x :: l => _ ← f x; forM_ l f end.

(** A loop that carries a local variable. *)
Fixpoint foldM {A B} (f : B -> A -> M B) (b : B) (l : list A) : M B :=
  match l with [] => mret b | x :: l => b' ← f b x; foldM f b' l end.

(** [retry.RetryOnConflict]: run again after a conflict, at most [n] times. *)
Fixpoint retryOnConflict {A} (n : nat) (fn : M A) : M A := fun w =>
  match fn w with
  | (inl e, w') =>
      if IsConflict e then
        match n with O => (inl e, w') | S n => retryOnConflict n fn w' end
      else (inl e, w')
  | ok => ok
  end.

(** ** Primitive effects *)

(** The outcome of one call to the API server. *)
Definition api : M () := fun w =>
  match w_faults w with
  | [] => (inr (), w)
  | f :: fs => (match f with Some e => inl e | None => inr () end, w <| w_faults := fs |>)
  end.

(** [ctx.Err() != nil] at this point of the run. *)
Definition ctxExpired : M bool := fun w =>
  match w_deadline w with
  | [] => (inr false, w)
  | b :: bs => (inr b, w <| w_deadline := bs |>)
  end.

Definition mem : M AerospikeCluster := gets w_mem.
Definition modify_mem (f : AerospikeCluster -> AerospikeCluster) : M () :=
  modify (fun w => w <| w_mem ::= f |>).
Definition now : M Z := gets w_now.
Definition record (warning : bool) (reason : string) : M () :=
  modify (fun w => w <| w_events ::= cons (mkEvent warning reason) |>).
(** An update of the metrics, and those of a cluster's series. *)
Definition metric (f : registry -> registry) : M () := modify (fun w => w <| w_metrics ::= f |>).
Definition setGauge (m : metricVec) (c : AerospikeCluster) (v : Z) : M () :=
  metric (gaugeSet m [cl_Namespace c; cl_Name c] v).
Definition incCounter (m : metricVec) (c : AerospikeCluster) : M () :=
  metric (counterInc m [cl_Namespace c; cl_Name c]).
Definition incCounterWith (m : metricVec) (c : AerospikeCluster) (label : string) : M () :=
  metric (counterInc m [cl_Namespace c; cl_Name c; label]).
Definition observe (m : metricVec) (c : AerospikeCluster) (d : Z) : M () :=
  metric (histogramObserve m [cl_Namespace c; cl_Name c] d).
Definition act (a : action) : M () := modify (fun w => w <| w_trace ::= cons a |>).

(** ** The custom resource on the API server *)

Definition notFound (what : string) : goerr := mkErr KNotFound (what +:+ " not found").

(** [r.Get] of the cluster; also [refetchCluster]. *)
Definition refetchCluster : M AerospikeCluster :=
  _ ← api; c ← gets w_cluster;
  match c with None => raise (notFound "AerospikeCluster") | Some c => mret c end.

(** Optimistic concurrency: a write carrying an outdated resource version is a
    conflict; a successful one bumps it. *)
Definition writeCluster (a : action) (c : AerospikeCluster)
    (merge : AerospikeCluster -> AerospikeCluster) : M AerospikeCluster :=
  _ ← api; cur ← gets w_cluster;
  match cur with
  | None => raise (notFound "AerospikeCluster")
  | Some cur =>
      if decide (cl_ResourceVersion c = cl_ResourceVersion cur) then
        let stored := (merge cur) <| cl_ResourceVersion := cl_ResourceVersion cur + 1 |> in
        _ ← modify (fun w => w <| w_cluster := Some stored |>);
        _ ← act a; mret stored
      else raise (mkErr KConflict "the object has been modified")
  end.

(** [r.Status().Update(ctx, c)]: replaces the status only. *)
Definition updateStatus (c : AerospikeCluster) : M AerospikeCluster :=
  writeCluster AUpdateStatus c (fun cur => cur <| cl_Status := cl_Status c |>).

(** [r.Update(ctx, c)]: replaces metadata and spec, never the status; the API
    server counts the changes of the spec in the generation. *)
Definition updateCluster (c : AerospikeCluster) : M AerospikeCluster :=
  writeCluster AUpdateCluster c (fun cur =>
    cur <| cl_Finalizers := cl_Finalizers c |> <| cl_Annotations := cl_Annotations c |>
        <| cl_Spec := cl_Spec c |>
        <| cl_Generation ::= if decide (cl_Spec c = cl_Spec cur) then id else Z.add 1 |>).

(** [r.Status().Patch(ctx, latest, client.MergeFrom(base))] where [latest] is
    [base] with the status changed by [f]: only the difference is sent, without
    a resource version. *)
Definition patchStatus (f : AerospikeClusterStatus -> AerospikeClusterStatus) : M () :=
  _ ← api; cur ← gets w_cluster;
  match cur with
  | None => raise (notFound "AerospikeCluster")
  | Some cur =>
      _ ← modify (fun w => w <| w_cluster := Some (cur <| cl_Status ::= f |>
                                <| cl_ResourceVersion ::= Z.add 1 |>) |>);
      act AUpdateStatus
  end.

(** ** Pods *)

Definition listPods (sel : gomap string) : M (list Pod) :=
  _ ← api; pods ← gets w_pods;
  mret (filter (fun p => selector_matches sel (pod_Labels p) = true) pods).

Definition update_pod (name : string) (f : Pod -> Pod) (l : list Pod) : list Pod :=
  (fun p => if decide (pod_Name p = name) then f p else p) <$> l.

(** A patch of one pod. *)
Definition patchPod (a : action) (name : string) (f : Pod -> Pod) : M () :=
  _ ← api; pods ← gets w_pods;
  if existsb (fun p => bool_decide (pod_Name p = name)) pods then
    _ ← modify (fun w => w <| w_pods ::= update_pod name f |>); act a
  else raise (notFound name).

(** [r.Delete(ctx, pod)]: the pod is marked as terminating and goes away later. *)
Definition deletePod (name : string) : M () :=
  _ ← api; pods ← gets w_pods; t ← now;
  if existsb (fun p => bool_decide (pod_Name p = name)) pods then
    _ ← modify (fun w => w <| w_pods ::= update_pod name (fun p =>
          p <| pod_DeletionTimestamp ::= fun d => Some (default t d) |>) |>);
    act (ADeletePod name)
  else raise (notFound name).

(** ** StatefulSets *)

Definition findSts (name : string) (l : list StatefulSet) : option StatefulSet :=
  snd <$> list_find (fun s => sts_Name s = name) l.

Definition getSts (name : string) : M StatefulSet :=
  _ ← api; l ← gets w_sts;
  match findSts name l with None => raise (notFound name) | Some s => mret s end.

Definition listSts (sel : gomap string) : M (list StatefulSet) :=
  _ ← api; l ← gets w_sts;
  mret (filter (fun s => selector_matches sel (sts_Labels s) = true) l).

Definition createSts (s : StatefulSet) : M () :=
  _ ← api; _ ← modify (fun w => w <| w_sts ::= fun l => l ++ [s] |>);
  act (ACreateSts (sts_Name s) (statefulSetReplicas s)).

(** A merge patch of the replica count and, if given, the pod template; a spec
    change bumps the generation. *)
Definition patchSts (name : string) (replicas : Z) (template : option PodTemplateSpec) : M () :=
  _ ← api; l ← gets w_sts;
  match findSts name l with
  | None => raise (notFound name)
  | Some _ =>
      _ ← modify (fun w => w <| w_sts ::= fmap (fun s =>
            if decide (sts_Name s = name) then
              s <| sts_Replicas := Some replicas |>
                <| sts_Template ::= fun t => default t template |>
                <| sts_Generation ::= Z.add 1 |>
            else s) |>);
      act (APatchSts name replicas)
  end.

(** Foreground deletion: the object stays, marked, until its pods are gone. *)
Definition deleteSts (name : string) : M () :=
  _ ← api; l ← gets w_sts; t ← now;
  match findSts name l with
  | None => raise (notFound name)
  | Some _ =>
      _ ← modify (fun w => w <| w_sts ::= fmap (fun s =>
            if decide (sts_Name s = name)
            then s <| sts_DeletionTimestamp ::= fun d => Some (default t d) |> else s) |>);
      act (ADeleteSts name)
  end.

(** ** Claims, ConfigMaps and Secrets *)

Definition listPVCs (sel : gomap string) : M (list PersistentVolumeClaim) :=
  _ ← api; l ← gets w_pvcs;
  mret (filter (fun p => selector_matches sel (pvc_Labels p) = true) l).

Definition deletePVC (name : string) : M () :=
  _ ← api; l ← gets w_pvcs;
  if existsb (fun p => bool_decide (pvc_Name p = name)) l then
    _ ← modify (fun w => w <| w_pvcs ::= filter (fun p => pvc_Name p <> name) |>);
    act (ADeletePVC name)
  else raise (notFound name).

Definition getConfigMap (name : string) : M ConfigMap :=
  _ ← api; l ← gets w_configMaps;
  match list_find (fun c => cm_Name c = name) l with None => raise (notFound name) | Some (_, c) => mret c end.

Definition deleteConfigMap (name : string) : M () :=
  _ ← api; l ← gets w_configMaps;
  if existsb (fun c => bool_decide (cm_Name c = name)) l then
    _ ← modify (fun w => w <| w_configMaps ::= filter (fun c => cm_Name c <> name) |>);
    act (ADeleteConfigMap name)
  else raise (notFound name).

Definition listServices (sel : gomap string) (hasLabel : string) : M (list Service) :=
  _ ← api; l ← gets w_services;
  mret (filter (fun s => selector_matches sel (svc_Labels s) = true /\
                         map_has hasLabel (svc_Labels s) = true) l).

Definition getSecret (name : string) : M (gomap string) :=
  _ ← api; l ← gets w_secrets;
  match map_get name l with None => raise (notFound name) | Some d => mret d end.

(** ** Kinds that are created, updated and deleted as a whole

    A kind names its list in the world; the laws say that the list is one field,
    which the bookkeeping of an API call does not touch. *)

Class Stored (T : Type) := {
  obj_kind : string;
  obj_name : T -> string;
  obj_labels : T -> gomap string;
  stored : World -> list T;
  set_stored : (list T -> list T) -> World -> World;
  stored_set f w : stored (set_stored f w) = f (stored w);
  stored_faults w fs : stored (w <| w_faults := fs |>) = stored w;
  stored_trace w t : stored (w <| w_trace := t |>) = stored w;
  stored_deadline w bs : stored (w <| w_deadline := bs |>) = stored w;
  stored_events w es : stored (w <| w_events := es |>) = stored w;
  stored_metrics w f : stored (w <| w_metrics ::= f |>) = stored w;
  faults_stored f w : w_faults (set_stored f w) = w_faults w
}.
Arguments obj_kind T {_}.

Section Objects.
Context {T : Type} `{!Stored T}.

Definition findObj (name : string) (l : list T) : option T :=
  snd <$> list_find (fun o => obj_name o = name) l.

Definition getObj (name : string) : M T :=
  _ ← api; l ← gets stored;
  match findObj name l with None => raise (notFound name) | Some o => mret o end.

Definition listObj (sel : gomap string) : M (list T) :=
  _ ← api; l ← gets stored;
  mret (filter (fun o => selector_matches sel (obj_labels o) = true) l).

Definition createObj (o : T) : M () :=
  _ ← api; l ← gets stored;
  match findObj (obj_name o) l with
  | Some _ => raise (mkErr KAlreadyExists (obj_name o +:+ " already exists"))
  | None => _ ← modify (set_stored (fun l => l ++ [o])); act (ACreateObj (obj_kind T) (obj_name o))
  end.

Definition updateObj (o : T) : M () :=
  _ ← api; l ← gets stored;
  match findObj (obj_name o) l with
  | None => raise (notFound (obj_name o))
  | Some _ =>
      _ ← modify (set_stored (fmap (fun o' => if decide (obj_name o' = obj_name o) then o else o')));
      act (AUpdateObj (obj_kind T) (obj_name o))
  end.

Definition deleteObj (name : string) : M () :=
  _ ← api; l ← gets stored;
  match findObj name l with
  | None => raise (notFound name)
  | Some _ =>
      _ ← modify (set_stored (filter (fun o => obj_name o <> name)));
      act (ADeleteObj (obj_kind T) name)
  end.

End Objects.

#[export] Program Instance PDB_stored : Stored PodDisruptionBudget := {|
  obj_kind := "PodDisruptionBudget";
  obj_name := pdb_Name;
  obj_labels := pdb_Labels;
  stored := w_pdbs;
  set_stored f w := w <| w_pdbs ::= f |>
|}.
Solve All Obligations with done.

#[export] Program Instance ConfigMap_stored : Stored ConfigMap := {|
  obj_kind := "ConfigMap";
  obj_name := cm_Name;
  obj_labels := cm_Labels;
  stored := w_configMaps;
  set_stored f w := w <| w_configMaps ::= f |>
|}.
Solve All Obligations with done.

#[export] Program Instance Service_stored : Stored Service := {|
  obj_kind := "Service";
  obj_name := svc_Name;
  obj_labels := svc_Labels;
  stored := w_services;
  set_stored f w := w <| w_services ::= f |>
|}.
Solve All Obligations with done.

#[export] Program Instance Role_stored : Stored Role := {|
  obj_kind := "Role";
  obj_name := ro_Name;
  obj_labels := fun _ => [];
  stored := w_roles;
  set_stored f w := w <| w_roles ::= f |>
|}.
Solve All Obligations with done.

#[export] Program Instance RoleBinding_stored : Stored RoleBinding := {|
  obj_kind := "RoleBinding";
  obj_name := rb_Name;
  obj_labels := fun _ => [];
  stored := w_roleBindings;
  set_stored f w := w <| w_roleBindings ::= f |>
|}.
Solve All Obligations with done.

#[export] Program Instance NetworkPolicy_stored : Stored NetworkPolicy := {|
  obj_kind := "NetworkPolicy";
  obj_name := np_Name;
  obj_labels := np_Labels;
  stored := w_networkPolicies;
  set_stored f w := w <| w_networkPolicies ::= f |>
|}.
Solve All Obligations with done.

#[export] Program Instance CiliumNetworkPolicy_stored : Stored (Unstructured "CiliumNetworkPolicy") := {|
  obj_kind := "CiliumNetworkPolicy";
  obj_name := un_Name;
  obj_labels := un_Labels;
  stored := w_ciliumPolicies;
  set_stored f w := w <| w_ciliumPolicies ::= f |>
|}.
Solve All Obligations with done.

#[export] Program Instance ServiceMonitor_stored : Stored (Unstructured "ServiceMonitor") := {|
  obj_kind := "ServiceMonitor";
  obj_name := un_Name;
  obj_labels := un_Labels;
  stored := w_serviceMonitors;
  set_stored f w := w <| w_serviceMonitors ::= f |>
|}.
Solve All Obligations with done.

#[export] Program Instance PrometheusRule_stored : Stored (Unstructured "PrometheusRule") := {|
  obj_kind := "PrometheusRule";
  obj_name := un_Name;
  obj_labels := un_Labels;
  stored := w_prometheusRules;
  set_stored f w := w <| w_prometheusRules ::= f |>
|}.
Solve All Obligations with done.

#[export] Program Instance Template_stored : Stored AerospikeClusterTemplate := {|
  obj_kind := "AerospikeClusterTemplate";
  obj_name := tmpl_Name;
  obj_labels := fun _ => [];
  stored := w_templates;
  set_stored f w := w <| w_templates ::= f |>
|}.
Solve All Obligations with done.

#[export] Program Instance StorageClass_stored : Stored StorageClass := {|
  obj_kind := "StorageClass";
  obj_name := sc_Name;
  obj_labels := fun _ => [];
  stored := w_storageClasses;
  set_stored f w := w <| w_storageClasses ::= f |>
|}.
Solve All Obligations with done.

(** ** Aerospike commands *)

(** [node.RequestInfo]: every command reaches the node, whatever it answers. *)
Definition requestInfo (node : AeroNode) (cmd : string) : M (gomap string) := fun w =>
  let '(r, s) := aero_request node cmd (w_aero w) in
  (r, w <| w_aero := s |> <| w_trace ::= cons (AInfo (node_Name node) cmd) |>).

Definition execPod (pod : string) (cmd : list string) : M string := fun w =>
  let '(r, s) := pod_exec pod cmd (w_aero w) in (r, w <| w_aero := s |> <| w_trace ::= cons (AExec pod cmd) |>).

End Monad.

Arguments M {_} A.
Arguments obj_kind {_} T {_}.
#[export] Typeclasses Opaque M.

(** ** Framing

    [keeps R m]: whatever the outcome of [m], the worlds before and after are
    related by [R].  A [Frame] is a preorder that does not look at the list of
    outcomes, at the events, at the values of the metrics or at the deadline oracle. *)

Section Framing.
Context `{Environment}.

Definition keeps {A} (R : relation World) (m : M A) : Prop := forall w, R w (snd (m w)).

Class Frame (R : relation World) := {
  frame_pre :: PreOrder R;
  frame_faults w fs : fs `suffix_of` w_faults w -> R w (w <| w_faults := fs |>);
  frame_deadline w bs : R w (w <| w_deadline := bs |>);
  frame_events w es : R w (w <| w_events := es |>);
  frame_metrics w f : knownUpdate f -> R w (w <| w_metrics ::= f |>)
}.

(** A component of the world is left alone. *)
Definition agree {T} (f : World -> T) : relation World := fun w w' => f w' = f w.

(** All writes applied in between satisfy [P]. *)
Definition does (P : action -> Prop) : relation World := fun w w' =>
  exists l, w_trace w' = l ++ w_trace w /\ Forall P l.

#[export] Instance agree_pre {T} (f : World -> T) : PreOrder (agree f).
Proof. split; unfold agree; [by intros w|by intros w1 w2 w3 -> ->]. Qed.

#[export] Instance does_pre P : PreOrder (does P).
Proof.
  split.
  - intros w. by exists [].
  - intros w1 w2 w3 (l & Hl & HP) (l' & Hl' & HP'). exists (l' ++ l).
    rewrite Hl', Hl. split; [by rewrite app_assoc|]. by apply Forall_app.
Qed.

#[export] Instance does_frame P : Frame (does P).
Proof. split; [apply _|..]; intros; by exists []. Qed.

Lemma does_weaken (P Q : action -> Prop) w w' :
  (forall a, P a -> Q a) -> does P w w' -> does Q w w'.
Proof. intros HPQ (l & Hl & HP). exists l. split; [done|]. by eapply Forall_impl. Qed.

Lemma keeps_does_weaken (P Q : action -> Prop) {A} (m : M A) :
  (forall a, P a -> Q a) -> keeps (does P) m -> keeps (does Q) m.
Proof. intros HPQ Hm w. by eapply does_weaken. Qed.

(** Outcomes of API calls are only consumed. *)
Definition consumes : relation World := fun w w' => w_faults w' `suffix_of` w_faults w.

#[export] Instance consumes_frame : Frame consumes.
Proof.
  split; [split|..]; unfold consumes; [by intros w|intros w1 w2 w3 ? ?; by trans (w_faults w2)|done..].
Qed.

(** A list of actions of a trace that was extended is old or satisfies [P]. *)
Lemma does_elem P w w' a : does P w w' -> a ∈ w_trace w' -> a ∈ w_trace w \/ P a.
Proof.
  intros (l & -> & HP) [Ha|Ha]%elem_of_app; [|by left]. right.
  rewrite Forall_forall in HP. by apply HP.
Qed.

Section Rules.
Context {R : relation World} `{!Frame R}.

Lemma keeps_ret {A} (a : A) : keeps R (mret a).
Proof. intros w. done. Qed.
Lemma keeps_raise {A} (e : goerr) : keeps R (raise (A := A) e).
Proof. intros w. done. Qed.
Lemma keeps_lift {A} (r : goerr + A) : keeps R (lift r).
Proof. intros w. done. Qed.
Lemma keeps_gets {A} (f : World -> A) : keeps R (gets f).
Proof. intros w. done. Qed.

Lemma keeps_bind {A B} (m : M A) (f : A -> M B) :
  keeps R m -> (forall a, keeps R (f a)) -> keeps R (m ≫= f).
Proof.
  intros Hm Hf w. unfold mbind, M_bind. specialize (Hm w).
  destruct (m w) as [[e|a] w']; [done|]. etrans; [exact Hm|apply Hf].
Qed.

Lemma keeps_try {A} (m : M A) : keeps R m -> keeps R (try m).
Proof. intros Hm w. specialize (Hm w). unfold try. by destruct (m w). Qed.

Lemma keeps_ignore {A} (m : M A) : keeps R m -> keeps R (ignore m).
Proof. intros Hm w. apply Hm. Qed.

Lemma keeps_wrapping {A} msg (m : M A) : keeps R m -> keeps R (wrapping msg m).
Proof. intros Hm w. specialize (Hm w). unfold wrapping. by destruct (m w) as [[]]. Qed.

Lemma keeps_onError {A} h (m : M A) : keeps R h -> keeps R m -> keeps R (onError h m).
Proof.
  intros Hh Hm w. specialize (Hm w). unfold onError. destruct (m w) as [[e|a] w']; [|done].
  etrans; [exact Hm|apply Hh].
Qed.

Lemma keeps_forM {A} (l : list A) (f : A -> M ()) :
  (forall x, x ∈ l -> keeps R (f x)) -> keeps R (forM_ l f).
Proof.
  intros Hf. induction l as [|x l IH]; [apply keeps_ret|]. simpl.
  apply keeps_bind; [apply Hf; left|]. intros _. apply IH. intros y Hy. apply Hf. by right.
Qed.

Lemma keeps_foldM {A B} (f : B -> A -> M B) b (l : list A) :
  (forall b x, x ∈ l -> keeps R (f b x)) -> keeps R (foldM f b l).
Proof.
  intros Hf. revert b. induction l as [|x l IH]; intros b; [apply keeps_ret|]. simpl.
  apply keeps_bind; [apply Hf; left|]. intros b'. apply IH. intros b'' y Hy. apply Hf. by right.
Qed.

Lemma keeps_retry {A} n (fn : M A) : keeps R fn -> keeps R (retryOnConflict n fn).
Proof.
  intros Hf. induction n as [|n IH]; intros w; simpl; specialize (Hf w);
    destruct (fn w) as [[e|a] w']; simpl in *; try done; destruct (IsConflict e); try done.
  etrans; [exact Hf|apply IH].
Qed.

Lemma keeps_modify (f : World -> World) : (forall w, R w (f w)) -> keeps R (modify f).
Proof. intros Hf w. apply Hf. Qed.

Lemma keeps_api : keeps R api.
Proof.
  intros w. unfold api. destruct (w_faults w) as [|f fs] eqn:Hf; [done|].
  apply frame_faults. rewrite Hf. by exists [f].
Qed.

Lemma keeps_ctxExpired : keeps R ctxExpired.
Proof.
  intros w. unfold ctxExpired. destruct (w_deadline w) as [|f fs]; [done|]. apply frame_deadline.
Qed.

Lemma keeps_record b reason : keeps R (record b reason).
Proof. intros w. apply frame_events. Qed.

Lemma keeps_metric f : knownUpdate f -> keeps R (metric f).
Proof. intros Hf w. by apply frame_metrics. Qed.

Lemma keeps_setGauge m c v : extraLabel m = None -> keeps R (setGauge m c v).
Proof. intros Hm. by apply keeps_metric, known_gaugeSet, known_plain. Qed.
Lemma keeps_incCounter m c : extraLabel m = None -> keeps R (incCounter m c).
Proof. intros Hm. by apply keeps_metric, known_counterInc, known_plain. Qed.
Lemma keeps_incCounterWith m c l : l ∈ labelValues m -> keeps R (incCounterWith m c l).
Proof. intros Hm. by apply keeps_metric, known_counterInc, known_labelled. Qed.
Lemma keeps_observe m c d : extraLabel m = None -> keeps R (observe m c d).
Proof. intros Hm. by apply keeps_metric, known_histogramObserve, known_plain. Qed.

Lemma keeps_mem : keeps R mem.
Proof. apply keeps_gets. Qed.
Lemma keeps_now : keeps R now.
Proof. apply keeps_gets. Qed.

End Rules.

(** A relation that looks at the stored resource, at the failure counter of the one in memory
    and at the metrics only. *)
Class Loose (R : relation World) : Prop :=
  loose w w' : w_cluster w' = w_cluster w -> w_metrics w' = w_metrics w ->
    st_FailedReconcileCount (cl_Status (w_mem w')) = st_FailedReconcileCount (cl_Status (w_mem w)) -> R w w'.

Lemma keeps_act P a : P a -> keeps (does P) (act a).
Proof. intros HP w. exists [a]. split; [done|]. by repeat constructor. Qed.

Lemma keeps_modify_mem R `{!Frame R} f :
  (forall w, R w (w <| w_mem ::= f |>)) -> keeps R (modify_mem f).
Proof. intros Hf. by apply keeps_modify. Qed.

(** A loop whose steps cannot fail computes a pure fold. *)
Lemma foldM_pure {A B} (R : relation World) `{!PreOrder R} (f : B -> A -> M B) (g : B -> A -> B) l w :
  (forall b x w1, R w w1 -> exists w2, f b x w1 = (inr (g b x), w2) /\ R w1 w2) ->
  forall b, exists w', foldM f b l w = (inr (foldl g b l), w') /\ R w w'.
Proof.
  intros Hf b. cut (forall w1, R w w1 -> exists w', foldM f b l w1 = (inr (foldl g b l), w') /\ R w w').
  { intros Hc. by apply Hc. }
  revert b. induction l as [|x l IH]; intros b w1 Hw1; [by exists w1|].
  destruct (Hf b x w1 Hw1) as (w2 & Hx & Hw2). cbn [foldM foldl]. unfold mbind, M_bind at 1. rewrite Hx.
  apply IH. by trans w1.
Qed.

(** Reading the API server keeps every frame. *)
Section Reads.
Context {R : relation World} `{!Frame R}.

Lemma keeps_refetchCluster : keeps R refetchCluster.
Proof.
  apply keeps_bind; [apply keeps_api|intros _]. apply keeps_bind; [apply keeps_gets|].
  intros [c|]; [apply keeps_ret|apply keeps_raise].
Qed.

Lemma keeps_listPods sel : keeps R (listPods sel).
Proof.
  apply keeps_bind; [apply keeps_api|intros _]. apply keeps_bind; [apply keeps_gets|].
  intros l. apply keeps_ret.
Qed.

Lemma keeps_getSts name : keeps R (getSts name).
Proof.
  apply keeps_bind; [apply keeps_api|intros _]. apply keeps_bind; [apply keeps_gets|].
  intros l. destruct (findSts name l); [apply keeps_ret|apply keeps_raise].
Qed.

Lemma keeps_listSts sel : keeps R (listSts sel).
Proof.
  apply keeps_bind; [apply keeps_api|intros _]. apply keeps_bind; [apply keeps_gets|].
  intros l. apply keeps_ret.
Qed.

Lemma keeps_listPVCs sel : keeps R (listPVCs sel).
Proof.
  apply keeps_bind; [apply keeps_api|intros _]. apply keeps_bind; [apply keeps_gets|].
  intros l. apply keeps_ret.
Qed.

Lemma keeps_getConfigMap name : keeps R (getConfigMap name).
Proof.
  apply keeps_bind; [apply keeps_api|intros _]. apply keeps_bind; [apply keeps_gets|].
  intros l. destruct (list_find _ l) as [[]|]; [apply keeps_ret|apply keeps_raise].
Qed.

Lemma keeps_listServices sel l : keeps R (listServices sel l).
Proof.
  apply keeps_bind; [apply keeps_api|intros _]. apply keeps_bind; [apply keeps_gets|].
  intros ?. apply keeps_ret.
Qed.

Lemma keeps_getObj `{!Stored T} name : keeps R (getObj (T := T) name).
Proof.
  apply keeps_bind; [apply keeps_api|intros _]. apply keeps_bind; [apply keeps_gets|].
  intros l. destruct (findObj name l); [apply keeps_ret|apply keeps_raise].
Qed.

Lemma keeps_listObj `{!Stored T} sel : keeps R (listObj (T := T) sel).
Proof.
  apply keeps_bind; [apply keeps_api|intros _]. apply keeps_bind; [apply keeps_gets|].
  intros l. apply keeps_ret.
Qed.

Lemma keeps_getSecret name : keeps R (getSecret name).
Proof.
  apply keeps_bind; [apply keeps_api|intros _]. apply keeps_bind; [apply keeps_gets|].
  intros l. destruct (map_get name l); [apply keeps_ret|apply keeps_raise].
Qed.

End Reads.

(** Frames that ignore the info commands sent to Aerospike, and those that
    ignore commands executed in a pod as well. *)
Class FrameInfo (R : relation World) := {
  frameinfo_frame :: Frame R;
  frameinfo_info w s n cmd : R w (w <| w_aero := s |> <| w_trace ::= cons (AInfo n cmd) |>)
}.

Class FrameIO (R : relation World) := {
  frameio_frame :: FrameInfo R;
  frameio_exec w s p cmd : R w (w <| w_aero := s |> <| w_trace ::= cons (AExec p cmd) |>)
}.

Lemma keeps_requestInfo R `{!FrameInfo R} node cmd : keeps R (requestInfo node cmd).
Proof. intros w. unfold requestInfo. destruct (aero_request _ _ _). apply frameinfo_info. Qed.

Lemma keeps_execPod R `{!FrameIO R} pod cmd : keeps R (execPod pod cmd).
Proof. intros w. unfold execPod. destruct (pod_exec _ _ _). apply frameio_exec. Qed.

Lemma does_execPod (P : action -> Prop) pod cmd : P (AExec pod cmd) -> keeps (does P) (execPod pod cmd).
Proof.
  intros HP w. unfold execPod. destruct (pod_exec _ _ _). eexists [_]. split; [reflexivity|].
  by repeat constructor.
Qed.

#[export] Instance consumes_frameinfo : FrameInfo consumes.
Proof. split; [apply _|]; unfold consumes; done. Qed.

#[export] Instance consumes_frameio : FrameIO consumes.
Proof. split; [apply _|]; unfold consumes; done. Qed.

Lemma refetchCluster_ok w c w' :
  refetchCluster w = (inr c, w') -> w_cluster w = Some c /\ w_cluster w' = Some c /\ w_mem w' = w_mem w.
Proof.
  unfold refetchCluster, mbind, M_bind, gets, api.
  destruct (w_faults w) as [|[e0|] fs]; simpl; [|by intros [=]|].
  all: destruct (w_cluster w) as [cur|] eqn:Hc; [|by intros [=]]; by intros [= <- <-].
Qed.

End Framing.

Create HintDb frame.
#[export] Hint Resolve keeps_ret keeps_raise keeps_lift keeps_gets keeps_api keeps_ctxExpired
  keeps_record keeps_metric keeps_setGauge keeps_incCounter keeps_incCounterWith keeps_observe keeps_mem keeps_now keeps_refetchCluster keeps_listPods keeps_getSts keeps_listSts
  keeps_listPVCs keeps_getConfigMap keeps_getSecret keeps_getObj keeps_listObj keeps_listServices
  keeps_requestInfo keeps_execPod : frame.

#[export] Hint Resolve known_cleanup : frame.
#[export] Hint Extern 0 (extraLabel _ = None) => reflexivity : frame.
#[export] Hint Extern 0 (_ ∈ labelValues _) => apply (bool_decide_unpack _); reflexivity : frame.
#[export] Hint Extern 0 (Frame _) => apply _ : frame.
#[export] Hint Extern 0 (FrameInfo _) => apply _ : frame.
#[export] Hint Extern 0 (FrameIO _) => apply _ : frame.

(** [agree f] is a frame when [f] does not read the bookkeeping fields. *)
#[export] Hint Extern 1 (Frame (agree _)) =>
  split; [apply agree_pre|..]; intros; reflexivity : typeclass_instances.

(** A world related to itself with a field changed that the relation ignores. *)
Ltac frame_side :=
  first [ reflexivity
        | let Hw := fresh in hnf; intros Hw; exact Hw
        | unfold consumes; reflexivity
        | exists []; split; [reflexivity|constructor]
        | eexists [_]; split; [reflexivity|repeat constructor]
        | apply loose; reflexivity ].

(** The commands sent to Aerospike touch neither the API objects nor the CR. *)
#[export] Hint Extern 1 (FrameInfo (agree _)) =>
  split; [apply _|]; intros; reflexivity : typeclass_instances.
#[export] Hint Extern 1 (FrameIO (agree _)) =>
  split; [apply _|]; intros; reflexivity : typeclass_instances.
#[export] Hint Extern 1 (FrameInfo (does _)) =>
  split; [apply _|]; intros; eexists [_]; (split; [reflexivity|]); repeat constructor; by intros
  : typeclass_instances.
#[export] Hint Extern 1 (FrameIO (does _)) =>
  split; [apply _|]; intros; eexists [_]; (split; [reflexivity|]); repeat constructor; by intros
  : typeclass_instances.

(** One step of a framing proof: the structure of the program decides. *)
Ltac frame_step :=
  lazymatch goal with
  | |- keeps _ (mbind _ _) => apply keeps_bind; [|intro]
  | |- keeps _ (try _) => apply keeps_try
  | |- keeps _ (ignore _) => apply keeps_ignore
  | |- keeps _ (wrapping _ _) => apply keeps_wrapping
  | |- keeps _ (onError _ _) => apply keeps_onError
  | |- keeps _ (forM_ _ _) => apply keeps_forM; intros ? ?
  | |- keeps _ (foldM _ _ _) => apply keeps_foldM; intros ? ? ?
  | |- keeps _ (retryOnConflict _ _) => apply keeps_retry
  | |- keeps _ (match ?x with _ => _ end) => destruct x
  | |- keeps (does _) (act _) => apply keeps_act
  | |- keeps _ (act _) => apply keeps_modify; intros ?; frame_side
  | |- keeps _ (updateStatus _) => unfold updateStatus
  | |- keeps _ (updateCluster _) => unfold updateCluster
  | |- keeps _ (writeCluster _ _ _) => unfold writeCluster
  | |- keeps _ (patchStatus _) => unfold patchStatus
  | |- keeps _ (patchPod _ _ _) => unfold patchPod
  | |- keeps _ (deletePod _) => unfold deletePod
  | |- keeps _ (createSts _) => unfold createSts
  | |- keeps _ (patchSts _ _ _) => unfold patchSts
  | |- keeps _ (deleteSts _) => unfold deleteSts
  | |- keeps _ (deletePVC _) => unfold deletePVC
  | |- keeps _ (deleteConfigMap _) => unfold deleteConfigMap
  | |- keeps _ (createObj _) => unfold createObj
  | |- keeps _ (updateObj _) => unfold updateObj
  | |- keeps _ (deleteObj _) => unfold deleteObj
  | |- keeps _ (modify _) => apply keeps_modify; intros ?; frame_side
  | |- keeps _ (modify_mem _) => apply keeps_modify_mem; [apply _|]; intros ?; frame_side
  | |- keeps _ ((fun _ => _) _) => cbv beta
  | |- keeps _ (let _ := _ in _) => cbv zeta
  end.

Ltac frame := repeat (solve [eauto 3 with frame nocore] || frame_step).

(** ** Invariants with a result

    [inv I m post]: from a world satisfying [I], the computation [m] ends in one
    that does, and a value it returns satisfies [post]. *)

Section Invariants.
Context `{Environment}.

Definition inv {A} (I : World -> Prop) (m : M A) (post : A -> Prop) : Prop := forall w,
  I w -> I (snd (m w)) /\ forall a, fst (m w) = inr a -> post a.

(** The relation that [I] is not lost. *)
Definition pres (I : World -> Prop) : relation World := fun w w' => I w -> I w'.

#[export] Instance pres_pre I : PreOrder (pres I).
Proof. split; unfold pres; [by intros w|naive_solver]. Qed.

Lemma inv_keeps {A} I (m : M A) : keeps (pres I) m -> inv I m (fun _ => True).
Proof. intros Hm w Hw. split; [by apply Hm|done]. Qed.

Lemma keeps_inv {A} I (m : M A) post : inv I m post -> keeps (pres I) m.
Proof. intros Hm w Hw. by apply Hm. Qed.

Lemma inv_weaken {A} I (m : M A) (post post' : A -> Prop) :
  inv I m post -> (forall a, post a -> post' a) -> inv I m post'.
Proof. intros Hm Hp w Hw. destruct (Hm w Hw) as [HI Ha]. eauto. Qed.

Lemma inv_ret {A} I (a : A) (post : A -> Prop) : post a -> inv I (mret a) post.
Proof. intros Ha w Hw. split; [done|]. by intros ? [= <-]. Qed.

Lemma inv_raise {A} I e (post : A -> Prop) : inv I (raise e) post.
Proof. intros w Hw. by split. Qed.

Lemma inv_bind {A B} I (m : M A) (f : A -> M B) post post' :
  inv I m post -> (forall a, post a -> inv I (f a) post') -> inv I (m ≫= f) post'.
Proof.
  intros Hm Hf w Hw. unfold mbind, M_bind. destruct (Hm w Hw) as [HI Ha].
  destruct (m w) as [[e|a] w']; simpl in *; [by split|]. by apply Hf; [apply Ha|].
Qed.

(** A prefix whose result does not matter. *)
Lemma inv_seq {A B} I (m : M A) (f : A -> M B) post :
  keeps (pres I) m -> (forall a, inv I (f a) post) -> inv I (m ≫= f) post.
Proof. intros Hm Hf. eapply inv_bind; [by apply inv_keeps|]. intros a _. apply Hf. Qed.

Lemma inv_try {A} I (m : M A) post :
  inv I m post -> inv I (try m) (fun r => forall a, r = inr a -> post a).
Proof.
  intros Hm w Hw. destruct (Hm w Hw) as [HI Ha]. unfold try.
  destruct (m w) as [r w']. split; [done|]. intros ? [= <-]. done.
Qed.

Lemma inv_onError {A} I h (m : M A) post : keeps (pres I) h -> inv I m post -> inv I (onError h m) post.
Proof.
  intros Hh Hm w Hw. destruct (Hm w Hw) as [HI Ha]. unfold onError.
  destruct (m w) as [[e|a] w']; [|by split]. split; [by apply Hh|done].
Qed.

Lemma inv_wrapping {A} I msg (m : M A) post : inv I m post -> inv I (wrapping msg m) post.
Proof.
  intros Hm w Hw. destruct (Hm w Hw) as [HI Ha]. unfold wrapping.
  destruct (m w) as [[e|a] w']; by split.
Qed.

(** Invariants of the custom resource stored in the API server: [P] holds of
    its status. *)
Definition srv (P : AerospikeClusterStatus -> Prop) (w : World) : Prop :=
  forall c, w_cluster w = Some c -> P (cl_Status c).

#[export] Instance srv_frame P : Frame (pres (srv P)).
Proof. split; [apply _|intros w ? _ Hw; exact Hw|intros w ? Hw; exact Hw..|intros w ? _ Hw; exact Hw]. Qed.

#[export] Instance srv_frameinfo P : FrameInfo (pres (srv P)).
Proof. split; [apply _|]; intros w ? ? ? Hw; exact Hw. Qed.

#[export] Instance srv_frameio P : FrameIO (pres (srv P)).
Proof. split; [apply _|]; intros w ? ? ? Hw; exact Hw. Qed.

Lemma inv_refetchCluster P : inv (srv P) refetchCluster (fun c => P (cl_Status c)).
Proof.
  intros w Hw. split; [by apply (keeps_refetchCluster (R := pres (srv P)))|].
  intros c. unfold refetchCluster, mbind, M_bind, api, gets, raise, mret, M_ret.
  destruct (w_faults w) as [|[e|] fs]; simpl; try done;
    destruct (w_cluster w) as [c'|] eqn:Hc; simpl; intros [= <-]; by apply Hw.
Qed.

Lemma keeps_writeCluster P a c merge :
  (forall cur, P (cl_Status cur) -> P (cl_Status (merge cur))) ->
  keeps (pres (srv P)) (writeCluster a c merge).
Proof.
  intros Hm. unfold writeCluster.
  apply keeps_bind; [apply keeps_api|intros _].
  intros w Hw. unfold mbind, M_bind, gets. simpl.
  destruct (w_cluster w) as [cur|] eqn:Hc; [|done]. case_decide; [|done]. simpl.
  intros c' [= <-]. simpl. by apply Hm, Hw.
Qed.

Lemma keeps_updateStatus P c : P (cl_Status c) -> keeps (pres (srv P)) (updateStatus c).
Proof. intros Hc. apply keeps_writeCluster. by intros cur _. Qed.

Lemma keeps_updateCluster P c : keeps (pres (srv P)) (updateCluster c).
Proof. apply keeps_writeCluster. by intros cur Hcur. Qed.

Lemma keeps_patchStatus P f :
  (forall s, P s -> P (f s)) -> keeps (pres (srv P)) (patchStatus f).
Proof.
  intros Hf. unfold patchStatus. apply keeps_bind; [apply keeps_api|intros _].
  intros w Hw. unfold mbind, M_bind, gets. simpl.
  destruct (w_cluster w) as [cur|] eqn:Hc; [|done]. simpl.
  intros c' [= <-]. simpl. by apply Hf, Hw.
Qed.

End Invariants.

#[export] Hint Resolve keeps_updateCluster : frame.

(** ** Runs *)

Section Runs.
Context `{Environment}.

Lemma api_agree {T} (f : World -> T) `{!Frame (agree f)} w : f (snd (api w)) = f w.
Proof. apply (keeps_api (R := agree f)). Qed.

Lemma wrapping_ok {A} msg (m : M A) w a w' : wrapping msg m w = (inr a, w') -> m w = (inr a, w').
Proof. unfold wrapping. destruct (m w) as [[e|a'] w1]; [by intros [=]|done]. Qed.

Lemma onError_ok {A} h (m : M A) w a w' : onError h m w = (inr a, w') -> m w = (inr a, w').
Proof. unfold onError. destruct (m w) as [[e|a'] w1]; [by intros [=]|done]. Qed.

Lemma onError_error {A} h (m : M A) w e w' :
  onError h m w = (inl e, w') -> exists w1, m w = (inl e, w1) /\ w' = snd (h w1).
Proof. unfold onError. destruct (m w) as [[e'|a] w1]; [intros [= -> <-]; by exists w1|by intros [=]]. Qed.

(** A computation that returned has returned at every step. *)
Lemma bind_ok {A B} (m : M A) (f : A -> M B) w b w' :
  (m ≫= f) w = (inr b, w') -> exists a w1, m w = (inr a, w1) /\ f a w1 = (inr b, w').
Proof. unfold mbind, M_bind. destruct (m w) as [[e|a] w1]; [by intros [=]|by eauto]. Qed.

Lemma bind_try_ok {A B} (m : M A) (f : goerr + A -> M B) w b w' :
  (try m ≫= f) w = (inr b, w') -> exists r w1, m w = (r, w1) /\ f r w1 = (inr b, w').
Proof. unfold mbind, M_bind, try. destruct (m w) as [r w1]. by eauto. Qed.

Lemma bind_cases {A B} (m : M A) (f : A -> M B) w (Q : World -> Prop) :
  (forall e w1, m w = (inl e, w1) -> Q w1) ->
  (forall a w1, m w = (inr a, w1) -> Q (snd (f a w1))) ->
  Q (snd ((m ≫= f) w)).
Proof. intros He Ha. unfold mbind, M_bind. destruct (m w) as [[e|a] w1] eqn:Hm; eauto. Qed.

Lemma keeps_run {A} R (m : M A) w r w' : keeps R m -> m w = (r, w') -> R w w'.
Proof. intros Hm Hrun. specialize (Hm w). by rewrite Hrun in Hm. Qed.

Lemma bind_try_cases {A B} (m : M A) (f : goerr + A -> M B) w (Q : World -> Prop) :
  (forall r w1, m w = (r, w1) -> Q (snd (f r w1))) -> Q (snd ((try m ≫= f) w)).
Proof. intros Hr. unfold mbind, M_bind, try. destruct (m w) as [r w1] eqn:Hm. by apply Hr. Qed.

End Runs.

(** ** What a run achieves for the objects of one kind

    How the API server behaves during a run: it may fail in any way ([Lossy]); it
    may fail, but never reports an object as absent that exists ([Honest]); it
    does not fail ([Calm]).  [achieves lvl m P Q]: started with objects satisfying
    [P], a run of [m] that returns [a] leaves objects satisfying [Q a]; in a calm
    run, [m] does return. *)

Inductive api_level := Lossy | Honest | Calm.

Definition honestFault (f : option goerr) : Prop := forall e, f = Some e -> IsNotFound e = false.

Definition ok_faults (lvl : api_level) (fs : list (option goerr)) : Prop :=
  match lvl with Lossy => True | Honest => Forall honestFault fs | Calm => fs = [] end.

Lemma ok_faults_tail lvl f fs : ok_faults lvl (f :: fs) -> ok_faults lvl fs /\ lvl <> Calm /\ (lvl <> Lossy -> honestFault f).
Proof. destruct lvl; simpl; [done| |done]. by intros [??]%Forall_cons. Qed.

Lemma ok_faults_suffix lvl fs fs' : fs' `suffix_of` fs -> ok_faults lvl fs -> ok_faults lvl fs'.
Proof.
  intros [k ->]. destruct lvl; simpl; [done| |]; [by intros [_ ?]%Forall_app|by intros [_ ?]%app_eq_nil].
Qed.

Section Achieves.
Context `{Environment} {T : Type} `{!Stored T}.

Definition achieves {A} (lvl : api_level) (m : M A) (P : list T -> Prop) (Q : A -> list T -> Prop) : Prop := forall w,
  P (stored w) -> ok_faults lvl (w_faults w) ->
  let '(r, w') := m w in
  ok_faults lvl (w_faults w') /\ (lvl = Calm -> exists a, r = inr a) /\ (forall a, r = inr a -> Q a (stored w')).

Lemma achieves_ret {A} lvl (a : A) P Q : (forall l, P l -> Q a l) -> achieves lvl (mret a) P Q.
Proof. intros HQ w HP Hc. split; [done|]. split; [by eexists|]. intros ? [= <-]. by apply HQ. Qed.

Lemma achieves_raise {A} lvl e P Q : (forall l, P l -> lvl <> Calm) -> achieves (A := A) lvl (raise e) P Q.
Proof. intros HQ w HP Hc. split; [done|]. split; [|done]. intros Hl. by destruct (HQ _ HP). Qed.

Lemma achieves_bind {A B} lvl (m : M A) (f : A -> M B) P Q R :
  achieves lvl m P Q -> (forall a, achieves lvl (f a) (Q a) R) -> achieves lvl (m ≫= f) P R.
Proof.
  intros Hm Hf w HP Hc. unfold mbind, M_bind. specialize (Hm w HP Hc).
  destruct (m w) as [[e|a] w1]; destruct Hm as (Hfs & Hok & HQ).
  - split; [done|]. split; [|done]. intros Hcalm. by destruct (Hok Hcalm).
  - apply Hf; [by apply HQ|done].
Qed.

Lemma achieves_weaken {A} lvl (m : M A) P P' Q Q' :
  achieves lvl m P' Q' -> (forall l, P l -> P' l) -> (forall a l, Q' a l -> Q a l) -> achieves lvl m P Q.
Proof.
  intros Hm HP HQ w Hw Hc. specialize (Hm w (HP _ Hw) Hc). destruct (m w) as [r w1].
  destruct Hm as (? & ? & Hr). split_and!; [done..|]. intros a Ha. by apply HQ, Hr.
Qed.

(** A precondition, one list at a time. *)
Lemma achieves_pre {A} lvl (m : M A) P Q :
  (forall l0, P l0 -> achieves lvl m (fun l => l = l0) Q) -> achieves lvl m P Q.
Proof. intros Hm w HP Hc. by apply (Hm (stored w) HP w). Qed.

Lemma achieves_wrapping {A} lvl msg (m : M A) P Q : achieves lvl m P Q -> achieves lvl (wrapping msg m) P Q.
Proof.
  intros Hm w HP Hc. specialize (Hm w HP Hc). unfold wrapping. destruct (m w) as [[e|a] w1]; [|done].
  destruct Hm as (? & Hok & _). split; [done|]. split; [|done]. intros Hcalm. by destruct (Hok Hcalm).
Qed.

Lemma achieves_onError {A} lvl h (m : M A) P Q :
  keeps consumes h -> achieves lvl m P Q -> achieves lvl (onError h m) P Q.
Proof.
  intros Hh Hm w HP Hc. specialize (Hm w HP Hc). unfold onError. destruct (m w) as [[e|a] w1]; [|done].
  destruct Hm as (Hf & Hok & _). specialize (Hh w1). destruct (h w1) as [x w2]. simpl in *. split_and!; [|intros Hcalm; by destruct (Hok Hcalm)|done].
  by eapply ok_faults_suffix.
Qed.

(** A loop: the objects of the iterations done so far satisfy [I]. *)
Lemma achieves_forM {A} lvl (f : A -> M ()) (I : list A -> list T -> Prop) xs :
  (forall pre x post, xs = pre ++ x :: post -> achieves lvl (f x) (I pre) (fun _ => I (pre ++ [x]))) ->
  achieves lvl (forM_ xs f) (I []) (fun _ => I xs).
Proof.
  intros Hf. assert (forall pre, (exists post, xs = pre ++ post) -> forall post, xs = pre ++ post ->
    achieves lvl (forM_ post f) (I pre) (fun _ => I xs)) as Hgo; [|by apply (Hgo []); [exists xs|]].
  intros pre _ post. revert pre. induction post as [|x post IH]; intros pre Heq.
  - rewrite app_nil_r in Heq. subst pre. by apply achieves_ret.
  - simpl. eapply achieves_bind; [by eapply Hf|]. intros []. apply IH. by rewrite <- app_assoc.
Qed.

(** Events are not objects. *)
Lemma achieves_record lvl b reason (P : list T -> Prop) : achieves lvl (record b reason) P (fun _ => P).
Proof.
  intros w HP Hc. unfold record, modify. split; [done|]. split; [by eexists|]. intros _ _.
  change (P (stored (w <| w_events := mkEvent b reason :: w_events w |>))). by rewrite stored_events.
Qed.

Lemma achieves_metric lvl f (P : list T -> Prop) : achieves lvl (metric f) P (fun _ => P).
Proof.
  intros w HP Hc. unfold metric, modify. split; [done|]. split; [by eexists|]. intros _ _.
  by rewrite stored_metrics.
Qed.

(** An API call: the rest of the operation sees the objects unchanged. *)
Lemma achieves_api {A} lvl (f : list T -> M A) l0 Q :
  achieves lvl (f l0) (fun l => l = l0) Q ->
  achieves lvl (_ ← api; l ← gets stored; f l) (fun l => l = l0) Q.
Proof.
  intros Hf w Hw Hc. unfold mbind, M_bind, api, gets.
  destruct (w_faults w) as [|[e|] fs] eqn:Hfs.
  - subst l0. apply Hf; [done|by rewrite Hfs].
  - apply ok_faults_tail in Hc as (? & ? & _). by split_and!.
  - apply ok_faults_tail in Hc as (? & ? & _). rewrite stored_faults, Hw. apply Hf; [by rewrite stored_faults|done].
Qed.

Lemma achieves_write lvl g a l0 :
  achieves lvl (_ ← modify (set_stored g); act a) (fun l => l = l0) (fun _ l => l = g l0).
Proof.
  intros w <- Hc. pose proof (faults_stored g w) as Hf. pose proof (stored_set g w) as Hs.
  pose proof (stored_trace (set_stored g w) (a :: w_trace (set_stored g w))) as Ht.
  unfold modify, act, mbind, M_bind. split; [by rewrite <- Hf in Hc|]. split; [by eexists|].
  intros _ _. by rewrite <- Hs, <- Ht.
Qed.

Lemma achieves_listObj lvl sel l0 :
  achieves lvl (listObj sel) (fun l => l = l0)
    (fun r l => l = l0 /\ r = filter (fun o => selector_matches sel (obj_labels o) = true) l0).
Proof. apply achieves_api. apply achieves_ret. by intros l ->. Qed.

(** What a failed call says about an object. *)
Definition reported (lvl : api_level) (e : goerr) (absent : Prop) : Prop :=
  (lvl = Calm -> IsNotFound e = true) /\ (lvl <> Lossy -> IsNotFound e = true -> absent).

Lemma achieves_try_getObj lvl name l0 :
  achieves lvl (try (getObj name)) (fun l => l = l0)
    (fun r l => l = l0 /\ match r with
                          | inr o => findObj name l0 = Some o
                          | inl e => reported lvl e (findObj name l0 = None)
                          end).
Proof.
  intros w <- Hc. unfold try, getObj, mbind, M_bind, api, gets.
  destruct (w_faults w) as [|[e|] fs] eqn:Hfs.
  - destruct (findObj name (stored w)) eqn:Ho; (split; [by rewrite ?Hfs|]); (split; [by eexists|]);
      intros ? [= <-]; done.
  - apply ok_faults_tail in Hc as (? & Hcalm & Hh). split; [done|]. split; [by eexists|]. intros ? [= <-].
    rewrite stored_faults. split; [done|]. split; [done|]. intros Hl. by rewrite (Hh Hl e).
  - apply ok_faults_tail in Hc as (? & Hcalm & Hh). rewrite stored_faults.
    destruct (findObj name (stored w)) eqn:Ho; (split; [done|]); (split; [by eexists|]);
      intros ? [= <-]; rewrite stored_faults; by repeat split.
Qed.

Lemma achieves_createObj lvl o l0 :
  (lvl = Calm -> findObj (obj_name o) l0 = None) ->
  achieves lvl (createObj o) (fun l => l = l0)
    (fun _ l => l = l0 ++ [o] /\ findObj (obj_name o) l0 = None).
Proof.
  intros Hnone. apply achieves_api. destruct (findObj (obj_name o) l0).
  - apply achieves_raise. intros _ _ Hl. by specialize (Hnone Hl).
  - eapply achieves_weaken; [apply achieves_write|intros l Hl; exact Hl|]. by intros _ l ->.
Qed.

Lemma achieves_updateObj lvl o o' l0 :
  findObj (obj_name o) l0 = Some o' ->
  achieves lvl (updateObj o) (fun l => l = l0)
    (fun _ l => l = (fun x => if decide (obj_name x = obj_name o) then o else x) <$> l0).
Proof. intros Ho. apply achieves_api. rewrite Ho. apply achieves_write. Qed.

Lemma achieves_try_deleteObj lvl name l0 :
  achieves lvl (try (deleteObj name)) (fun l => l = l0)
    (fun r l => match r with
                | inr _ => l = filter (fun o => obj_name o <> name) l0
                | inl e => l = l0 /\ reported lvl e (findObj name l0 = None)
                end).
Proof.
  intros w <- Hc. unfold try, deleteObj.
  destruct (w_faults w) as [|[e|] fs] eqn:Hfs; unfold mbind at 1, M_bind at 1, api; rewrite Hfs.
  - unfold mbind at 1, M_bind at 1, gets. destruct (findObj name (stored w)) eqn:Ho.
    + pose proof (achieves_write lvl (filter (fun o => obj_name o <> name)) (ADeleteObj (obj_kind T) name)
        (stored w) w eq_refl) as Hw. rewrite Hfs in Hw. specialize (Hw Hc).
      destruct ((_ ← modify _; act _) w) as [r w'] eqn:Hr. destruct Hw as (Hw1 & Hw2 & Hw3).
      split; [done|]. split; [by eexists|]. intros ? [= <-]. injection Hr as <- _. by apply (Hw3 ()).
    + split; [by rewrite Hfs|]. split; [by eexists|]. by intros ? [= <-].
  - apply ok_faults_tail in Hc as (? & Hcalm & Hh). split; [done|]. split; [by eexists|]. intros ? [= <-].
    rewrite stored_faults. split; [done|]. split; [done|]. intros Hl. by rewrite (Hh Hl e).
  - apply ok_faults_tail in Hc as (Hok & Hcalm & Hh). unfold mbind at 1, M_bind at 1, gets. rewrite stored_faults.
    destruct (findObj name (stored w)) eqn:Ho.
    + pose proof (achieves_write lvl (filter (fun o => obj_name o <> name)) (ADeleteObj (obj_kind T) name)
        (stored w) (w <| w_faults := fs |>) (stored_faults w fs) Hok) as Hw.
      destruct ((_ ← modify _; act _) _) as [r w'] eqn:Hr. destruct Hw as (Hw1 & Hw2 & Hw3).
      split; [done|]. split; [by eexists|]. intros ? [= <-]. injection Hr as <- _. by apply (Hw3 ()).
    + split; [done|]. split; [by eexists|]. intros ? [= <-]. rewrite stored_faults. by repeat split.
Qed.

Lemma getObj_ok name w (o : T) w' : getObj name w = (inr o, w') -> findObj name (stored w) = Some o.
Proof.
  unfold getObj, mbind, M_bind, gets, api.
  destruct (w_faults w) as [|[e|] fs]; [|by intros [=]|rewrite stored_faults];
    (destruct (findObj name (stored w)); [by intros [= <- <-]|by intros [=]]).
Qed.

(** Lookup in a list that was written to. *)
Lemma findObj_Some name (l : list T) o : findObj name l = Some o -> o ∈ l /\ obj_name o = name.
Proof.
  unfold findObj. destruct (list_find _ l) as [[i x]|] eqn:Hf; [|done]. intros [= <-].
  apply list_find_Some in Hf as (Hi & Hx & _). split; [by eapply list_elem_of_lookup_2|done].
Qed.

Lemma findObj_None name (l : list T) : findObj name l = None <-> forall o, o ∈ l -> obj_name o <> name.
Proof.
  unfold findObj. destruct (list_find _ l) as [[i x]|] eqn:Hf.
  - split; [done|]. apply list_find_Some in Hf as (Hi & Hx & _). intros Hall. exfalso.
    apply (Hall x); [by eapply list_elem_of_lookup_2|done].
  - split; [|done]. intros _ o Ho. apply list_find_None in Hf. rewrite Forall_forall in Hf. by apply Hf.
Qed.

Lemma findObj_cons name x (l : list T) :
  findObj name (x :: l) = if decide (obj_name x = name) then Some x else findObj name l.
Proof.
  unfold findObj. simpl. case_decide; [done|]. by destruct (list_find _ l) as [[]|].
Qed.

Lemma findObj_app name (l k : list T) :
  findObj name (l ++ k) = match findObj name l with Some o => Some o | None => findObj name k end.
Proof.
  induction l as [|x l IH]; [done|]. rewrite <- app_comm_cons, !findObj_cons. by case_decide.
Qed.

Lemma findObj_filter name name' (l : list T) :
  findObj name (filter (fun o => obj_name o <> name') l) = if decide (name = name') then None else findObj name l.
Proof.
  induction l as [|x l IH]; [by case_decide|]. rewrite filter_cons, findObj_cons.
  repeat case_decide; subst; rewrite ?findObj_cons, ?IH; repeat case_decide; congruence || done.
Qed.

Lemma findObj_replace name (o : T) (l : list T) :
  findObj name ((fun x => if decide (obj_name x = obj_name o) then o else x) <$> l) =
  if decide (name = obj_name o) then ((fun _ => o) <$> findObj name l) else findObj name l.
Proof.
  induction l as [|x l IH]; [by case_decide|]. rewrite fmap_cons, !findObj_cons.
  repeat case_decide; subst; rewrite ?IH; repeat case_decide; try congruence; done.
Qed.

(** ** Runs that write nothing

    [still l]: from a world whose objects are [l], nothing is written. *)

Definition still (l : list T) : relation World := fun w w' =>
  stored w = l -> w_trace w' = w_trace w /\ stored w' = l.

#[export] Instance still_frame l : Frame (still l).
Proof.
  split; [split|..]; unfold still; [done| |intros; by rewrite stored_faults|intros; by rewrite stored_deadline
    |intros; by rewrite stored_events|intros; by rewrite stored_metrics].
  intros w1 w2 w3 H12 H23 Hw. destruct (H12 Hw) as [Ht Hs]. destruct (H23 Hs) as [-> ->]. done.
Qed.

Lemma still_try_getObj {A} l name (f : goerr + T -> M A) :
  (forall e, keeps (still l) (f (inl e))) ->
  (forall o, findObj name l = Some o -> keeps (still l) (f (inr o))) ->
  keeps (still l) (try (getObj name) ≫= f).
Proof.
  intros He Ho w Hw. apply (bind_try_cases _ _ _ (fun w' => w_trace w' = w_trace w /\ stored w' = l)).
  intros r w1 Hr. destruct (keeps_run (still l) _ _ _ _ (keeps_getObj _) Hr Hw) as [Ht Hs]. rewrite <- Ht.
  destruct r as [e|o]; [by apply He|]. apply Ho; [|done]. rewrite <- Hw. by eapply getObj_ok.
Qed.

Lemma still_listObj {A} l sel (f : list T -> M A) msg :
  keeps (still l) (f (filter (fun o => selector_matches sel (obj_labels o) = true) l)) ->
  keeps (still l) (wrapping msg (listObj sel) ≫= f).
Proof.
  intros Hf w Hw. unfold mbind at 1, M_bind at 1, wrapping, listObj, mbind, M_bind, api, gets.
  destruct (w_faults w) as [|[e|] fs]; simpl; [rewrite Hw; by apply Hf|by rewrite stored_faults|].
  rewrite stored_faults, Hw. specialize (Hf (w <| w_faults := fs |>)). unfold still in Hf. rewrite stored_faults in Hf.
  exact (Hf Hw).
Qed.

(** Creating an object whose name is taken fails. *)
Lemma still_create_taken {A} l (o o' : T) (f : () -> M A) msg :
  findObj (obj_name o) l = Some o' -> keeps (still l) (wrapping msg (createObj o) ≫= f).
Proof.
  intros Ho w Hw. unfold mbind at 1, M_bind at 1, wrapping, createObj, mbind, M_bind, api, gets.
  destruct (w_faults w) as [|[e|] fs]; simpl; [by rewrite Hw, Ho|by rewrite stored_faults|].
  rewrite stored_faults, Hw, Ho. simpl. by rewrite stored_faults.
Qed.

End Achieves.

(** ** A concrete environment

    A small Aerospike stand-in on which the definitions can be run: it answers
    "statistics" with the text configured for a node, accepts every other
    command and remembers it; "node/command" entries are refused by that node. *)

Record Stub := mkStub {
  stub_nodes : list AeroNode;
  stub_stats : gomap string;
  stub_refused : list string;
  stub_log : list (string * string)
}.

Definition stub_request (node : AeroNode) (cmd : string) (s : Stub) : (goerr + gomap string) * Stub :=
  if decide (cmd = "statistics") then
    (match map_get (node_Name node) (stub_stats s) with
     | Some stats => inr [("statistics", stats)]
     | None => inl (Errorf "timeout")
     end, s)
  else if decide (cmd ∈ stub_refused s \/ node_Name node +:+ "/" +:+ cmd ∈ stub_refused s) then (inr [(cmd, "ERROR")], s)
  else (inr [(cmd, "ok")],
        mkStub (stub_nodes s) (stub_stats s) (stub_refused s) ((node_Name node, cmd) :: stub_log s)).

Definition sample_env : Environment := {|
  env_go := sample_platform;
  aero_state := Stub;
  aero_dial _ _ _ s :=
    match stub_nodes s with [] => inl (Errorf "connection refused") | ns => inr ns end;
  aero_request := stub_request;
  pod_exec _ _ s := (inr "ok", s);
  sha256_json _ := "0123456789abcdef";
  retry_again := 3;
  scaled_value s total :=
    match cut_suffix s "%" ≫= atoi with
    | Some pct => inr ((total * pct + 99) / 100)
    | None => inl (Errorf "invalid value for IntOrString")
    end;
  initScript := "#!/bin/sh"
|}.

Definition sample_world (c : AerospikeCluster) (pods : list Pod) (sts : list StatefulSet)
    (aero : Stub) : World (H := sample_env) :=
  mkWorld sample_env (Some c) c pods sts [] [] [] [] [] [] [] [] [] [] [] [] [] aero ∅ true 0 [] [] [] ∅ [].
