(* ===== verification/Ensure.v ===== *)
(** * Objects that are made to match

    Most reconcilers of auxiliary objects have one shape: fetch the object by
    name, create it when it is missing, bring it back to what is wanted when it
    has drifted; and, when it is no longer wanted, delete it, tolerating that it
    is gone.  This file has that shape once, for every stored kind, with what a
    run of it leaves behind and when it writes nothing. *)

From S2P Require Import Prelude GoValue Utils Api Events Kube.

Section Ensure.
Context `{Environment} {T : Type} `{!Stored T}.

(** An event, for the reconcilers that record one. *)
Definition announce (reason : option string) : M () :=
  match reason with Some reason => record false reason | None => mret () end.

(** What follows [r.Get]: create when it was not found, otherwise look at what exists. *)
Definition orCreate (getting : string) (make : M ()) (found : T -> M ()) (existing : goerr + T) : M () :=
  match existing with
  | inl e => if IsNotFound e then make else raise (wrapErr getting e)
  | inr existing => found existing
  end.

(** The reconcilers that announce a creation and wrap its error. *)
Definition createOrElse (what name : string) (created : option string) (desired : T) (found : T -> M ()) : M () :=
  try (getObj (T := T) name) ≫= orCreate ("getting " +:+ what +:+ " " +:+ name)
    (_ ← wrapping ("creating " +:+ what +:+ " " +:+ name) (createObj desired); announce created) found.

(** [r.Update] of an object that has drifted. *)
Definition updateDrifted (what name : string) (updated : option string) (stale : T -> bool) (refresh : T -> T)
    (existing : T) : M () :=
  if stale existing then
    _ ← wrapping ("updating " +:+ what +:+ " " +:+ name) (updateObj (refresh existing)); announce updated
  else mret ().

(** [err != nil && !errors.IsNotFound(err)] after [r.Delete]. *)
Definition deleteGone (name : string) : M () :=
  r ← try (deleteObj (T := T) name);
  match r with
  | inl e => if IsNotFound e then mret () else raise e
  | inr _ => mret ()
  end.

Definition deleteTolerant (msg name : string) : M () := wrapping msg (deleteGone name).

(** Deletion of an object that could be fetched; an error of [r.Get] goes to [failed]. *)
Definition deleteFetched (delete : string -> M ()) (failed : goerr -> M ()) (existing : goerr + T) : M () :=
  match existing with
  | inl e => failed e
  | inr o => delete (obj_name o)
  end.

(** ** The objects after a write *)

Definition names (l : list T) : list string := obj_name <$> l.

(** [o] is stored under its name, the other names are as they were. *)
Definition placed (name : string) (o : T) (l0 l : list T) : Prop :=
  findObj name l = Some o /\ (forall n, n <> name -> findObj n l = findObj n l0) /\
  (NoDup (names l0) -> NoDup (names l)).

Lemma placed_same name o l : findObj name l = Some o -> placed name o l l.
Proof. by repeat split. Qed.

Lemma placed_create name o l0 : obj_name o = name -> findObj name l0 = None -> placed name o l0 (l0 ++ [o]).
Proof.
  intros Hn Hnone. split; [by rewrite findObj_app, Hnone, findObj_cons, decide_True|]. split.
  - intros n Hne. rewrite findObj_app, findObj_cons, decide_False by congruence. by destruct (findObj n l0).
  - intros Hnd. unfold names. rewrite fmap_app. apply NoDup_app. split; [done|]. split; [|apply NoDup_singleton].
    intros x (y & -> & Hy)%list_elem_of_fmap Hx%list_elem_of_singleton. rewrite findObj_None in Hnone.
    apply (Hnone y Hy). congruence.
Qed.

Lemma placed_update name o old l0 :
  obj_name o = name -> findObj name l0 = Some old ->
  placed name o l0 ((fun x => if decide (obj_name x = obj_name o) then o else x) <$> l0).
Proof.
  intros Hn Ho. split; [by rewrite findObj_replace, Hn, decide_True, Ho|]. split.
  - intros n Hne. by rewrite findObj_replace, Hn, decide_False.
  - unfold names. rewrite <- list_fmap_compose. intros Hnd.
    rewrite (list_fmap_ext _ obj_name l0); [done|]. intros i x _. simpl. case_decide; congruence.
Qed.

Lemma placed_recreate name o l0 :
  obj_name o = name -> placed name o l0 (filter (fun x => obj_name x <> name) l0 ++ [o]).
Proof.
  intros Hn. assert (findObj name (filter (fun x => obj_name x <> name) l0) = None) as Hnone by (by rewrite findObj_filter, decide_True).
  destruct (placed_create name o _ Hn Hnone) as (H1 & H2 & H3). split; [done|]. split.
  - intros n Hne. by rewrite H2, findObj_filter, decide_False.
  - intros Hnd. apply H3. unfold names. clear -Hnd. induction l0 as [|x l0 IH]; [done|]. unfold names in *.
    rewrite fmap_cons in Hnd. apply NoDup_cons in Hnd as [Hx Hnd]. rewrite filter_cons. case_decide; [|by apply IH].
    rewrite fmap_cons. apply NoDup_cons. split; [|by apply IH].
    intros (y & Hxy & [_ Hy]%list_elem_of_filter)%list_elem_of_fmap. apply Hx. rewrite Hxy. by apply list_elem_of_fmap_2.
Qed.

Lemma placed_trans name o o' l0 l1 l2 : placed name o l0 l1 -> placed name o' l1 l2 -> placed name o' l0 l2.
Proof.
  intros (_ & H1 & N1) (F & H2 & N2). split; [done|]. split; [|tauto]. intros n Hn. by rewrite H2, H1.
Qed.

(** An object of a list without repeated names is the one its name finds. *)
Lemma findObj_elem o (l : list T) : NoDup (names l) -> o ∈ l -> findObj (obj_name o) l = Some o.
Proof.
  induction l as [|x l IH]; [by intros _ ?%elem_of_nil|]. unfold names. rewrite fmap_cons, findObj_cons.
  intros [Hx Hnd]%NoDup_cons [->|Ho]%elem_of_cons; [by rewrite decide_True|].
  rewrite decide_False; [by apply IH|]. intros Heq. apply Hx. rewrite Heq. by apply list_elem_of_fmap_2.
Qed.

(** Objects are removed. *)
Definition without (D : list string) (l : list T) : list T := filter (fun o => obj_name o ∉ D) l.

Lemma findObj_without n D l : findObj n (without D l) = if decide (n ∈ D) then None else findObj n l.
Proof.
  induction l as [|x l IH]; [by case_decide|]. unfold without in *. rewrite filter_cons, findObj_cons.
  repeat case_decide; subst; rewrite ?findObj_cons, ?IH; repeat case_decide; congruence || done.
Qed.

Lemma NoDup_without D l : NoDup (names l) -> NoDup (names (without D l)).
Proof.
  unfold without, names. induction l as [|x l IH]; [done|]. rewrite filter_cons, fmap_cons. intros [Hx Hnd]%NoDup_cons.
  case_decide; [|by apply IH]. rewrite fmap_cons. apply NoDup_cons. split; [|by apply IH].
  intros (y & Hxy & [_ Hy]%list_elem_of_filter)%list_elem_of_fmap. apply Hx. rewrite Hxy. by apply list_elem_of_fmap_2.
Qed.

(** Removing the objects that satisfy [P], by name. *)
Lemma findObj_without_filter (P : T -> bool) l n :
  NoDup (names l) ->
  findObj n (without (names (filter (fun o => P o = true) l)) l) =
    (o ← findObj n l; if P o then None else Some o).
Proof.
  intros Hnd. rewrite findObj_without. destruct (findObj n l) as [o|] eqn:Ho; [|by case_decide]. simpl.
  pose proof (findObj_Some _ _ _ Ho) as [Hin Hname]. case_decide as Hd.
  - apply list_elem_of_fmap in Hd as (o' & Hn & [HP Hin']%list_elem_of_filter). rewrite Hn in Ho.
    rewrite (findObj_elem o' l) in Ho by done. injection Ho as ->. by rewrite HP.
  - destruct (P o) eqn:HP; [|done]. destruct Hd. rewrite <- Hname. apply list_elem_of_fmap_2. by apply list_elem_of_filter.
Qed.

Lemma without_nil l : without [] l = l.
Proof. apply list_filter_id. intros o _. apply not_elem_of_nil. Qed.

Lemma without_snoc D n l : without (D ++ [n]) l = filter (fun o => obj_name o <> n) (without D l).
Proof. unfold without. rewrite list_filter_filter. apply list_filter_iff. intros o. set_solver. Qed.

Lemma without_absent n (l : list T) : findObj n l = None -> filter (fun o => obj_name o <> n) l = l.
Proof. intros Hn. apply list_filter_id. intros o Ho. by apply (proj1 (findObj_None n l) Hn). Qed.

(** ** What a run achieves *)

Lemma achieves_announce lvl reason (P : list T -> Prop) : achieves lvl (announce reason) P (fun _ => P).
Proof. destruct reason; [apply achieves_record|by apply achieves_ret]. Qed.

Lemma achieves_orCreate lvl name getting make found l0 (Q : () -> list T -> Prop) :
  ((lvl = Calm -> findObj name l0 = None) -> achieves lvl make (fun l => l = l0) Q) ->
  (forall old, findObj name l0 = Some old -> achieves lvl (found old) (fun l => l = l0) Q) ->
  achieves lvl (try (getObj name) ≫= orCreate getting make found) (fun l => l = l0) Q.
Proof.
  intros Hmake Hfound. eapply achieves_bind; [apply achieves_try_getObj|].
  intros [e|old]; apply achieves_pre; intros l [-> Hr]; [|by apply Hfound]. unfold orCreate.
  destruct (IsNotFound e) eqn:He; [|apply achieves_raise; intros _ _ Hcalm; destruct Hr as [Hr _]; by rewrite (Hr Hcalm) in He].
  apply Hmake. intros ->. by apply Hr.
Qed.

Lemma achieves_create lvl o name l0 (Q : () -> list T -> Prop) :
  obj_name o = name -> (lvl = Calm -> findObj name l0 = None) ->
  (findObj name l0 = None -> Q () (l0 ++ [o])) -> achieves lvl (createObj o) (fun l => l = l0) Q.
Proof.
  intros <- Hcalm Hmake. eapply achieves_weaken; [by apply achieves_createObj|intros l Hl; exact Hl|].
  intros [] l [-> Hnone]. by apply Hmake.
Qed.

Lemma achieves_createOrElse lvl what name created desired found l0 (Q : () -> list T -> Prop) :
  obj_name desired = name ->
  (findObj name l0 = None -> Q () (l0 ++ [desired])) ->
  (forall old, findObj name l0 = Some old -> achieves lvl (found old) (fun l => l = l0) Q) ->
  achieves lvl (createOrElse what name created desired found) (fun l => l = l0) Q.
Proof.
  intros Hn Hmake Hfound. apply achieves_orCreate; [|done]. intros Hcalm.
  eapply achieves_bind; [by apply achieves_wrapping, (achieves_create _ _ name)|]. intros [].
  eapply achieves_weaken; [apply achieves_announce|intros l Hl; exact Hl|by intros []].
Qed.

Lemma achieves_updateDrifted lvl what name updated stale refresh old l0 (Q : () -> list T -> Prop) :
  findObj name l0 = Some old -> obj_name (refresh old) = name ->
  (stale old = false -> Q () l0) ->
  (stale old = true -> Q () ((fun x => if decide (obj_name x = obj_name (refresh old)) then refresh old else x) <$> l0)) ->
  achieves lvl (updateDrifted what name updated stale refresh old) (fun l => l = l0) Q.
Proof.
  intros Ho Hn Hkeep Hnew. unfold updateDrifted. destruct (stale old); [|apply achieves_ret; by intros l ->; apply Hkeep].
  eapply achieves_bind; [apply achieves_wrapping, (achieves_updateObj _ _ old); by rewrite Hn|]. intros [].
  eapply achieves_weaken; [apply achieves_announce|intros l Hl; exact Hl|]. intros [] l ->. by apply Hnew.
Qed.

(** Fetch, create or refresh: what is stored afterwards is [good]. *)
Lemma achieves_ensure lvl what name created updated desired stale refresh (good : T -> Prop) l0 :
  obj_name desired = name -> (forall old, obj_name old = name -> obj_name (refresh old) = name) ->
  good desired -> (forall old, findObj name l0 = Some old -> stale old = false -> good old) ->
  (forall old, findObj name l0 = Some old -> stale old = true -> good (refresh old)) ->
  achieves lvl (createOrElse what name created desired (updateDrifted what name updated stale refresh))
    (fun l => l = l0) (fun _ l => exists o, good o /\ placed name o l0 l).
Proof.
  intros Hn Hr Hd Hk Hu. apply achieves_createOrElse; [done| |].
  - intros Hnone. exists desired. split; [done|by apply placed_create].
  - intros old Ho. pose proof (findObj_Some _ _ _ Ho) as [_ Hname].
    apply achieves_updateDrifted; [done|by apply Hr| |].
    + intros Hs. exists old. split; [by apply Hk|by apply placed_same].
    + intros Hs. exists (refresh old). split; [by apply Hu|]. apply (placed_update _ _ old); [by apply Hr|done].
Qed.

(** The loop that places one object for each [x]. *)
Lemma achieves_placeAll {A} lvl (f : A -> M ()) (name_of : A -> string) (ok : T -> Prop) (good : A -> T -> Prop) xs l0 :
  (forall x y, name_of x = name_of y -> x = y) ->
  (forall x l1, NoDup (names l1) -> (forall n o, findObj n l1 = Some o -> ok o) ->
     achieves lvl (f x) (fun l => l = l1) (fun _ l => exists o, (ok o /\ good x o) /\ placed (name_of x) o l1 l)) ->
  NoDup (names l0) -> (forall n o, findObj n l0 = Some o -> ok o) ->
  achieves lvl (forM_ xs f) (fun l => l = l0) (fun _ l =>
    (forall x, x ∈ xs -> exists o, findObj (name_of x) l = Some o /\ good x o) /\
    (forall n, n ∉ name_of <$> xs -> findObj n l = findObj n l0) /\
    NoDup (names l) /\ (forall n o, findObj n l = Some o -> ok o)).
Proof.
  intros Hinj Hf Hnd Hok. eapply achieves_weaken; [apply (achieves_forM _ _ (fun pre l =>
    (forall x, x ∈ pre -> exists o, findObj (name_of x) l = Some o /\ good x o) /\
    (forall n, n ∉ name_of <$> pre -> findObj n l = findObj n l0) /\
    NoDup (names l) /\ (forall n o, findObj n l = Some o -> ok o)))| |by intros [] l Hl].
  - intros pre x post _. apply achieves_pre. intros l1 (H1 & H2 & H3 & H4).
    eapply achieves_weaken; [by apply Hf|intros l Hl; exact Hl|]. intros [] l (o & [Ho Hg] & Hfind & Hne & Hnd').
    split_and!; [| |by apply Hnd'|].
    + intros y [Hy|Hy]%elem_of_app; [|apply list_elem_of_singleton in Hy as ->; by exists o].
      destruct (decide (name_of y = name_of x)) as [Hyx|Hyx]; [apply Hinj in Hyx as ->; by exists o|]. rewrite Hne by done. by apply H1.
    + intros n Hn. rewrite fmap_app in Hn. rewrite Hne by set_solver. apply H2. set_solver.
    + intros n o' Ho'. destruct (decide (n = name_of x)) as [->|Hn]; [congruence|].
      rewrite Hne in Ho' by done. by eapply H4.
  - intros l ->. by split_and!; [intros x ?%elem_of_nil|..].
Qed.

(** Deletion, for an API server that does not report what exists as missing. *)
Lemma achieves_deleteGone lvl name l0 :
  lvl <> Lossy ->
  achieves lvl (deleteGone name) (fun l => l = l0) (fun _ l => l = filter (fun o => obj_name o <> name) l0).
Proof.
  intros Hlvl. unfold deleteGone. eapply achieves_bind; [apply achieves_try_deleteObj|].
  intros [e|[]]; [|by apply achieves_ret]. apply achieves_pre. intros l [-> [He Habs]].
  destruct (IsNotFound e) eqn:Hnf; [|apply achieves_raise; intros _ _ Hcalm; by specialize (He Hcalm)].
  apply achieves_ret. intros l ->. by rewrite without_absent; [|apply Habs].
Qed.

Lemma achieves_deleteTolerant lvl msg name l0 :
  lvl <> Lossy ->
  achieves lvl (deleteTolerant msg name) (fun l => l = l0) (fun _ l => l = filter (fun o => obj_name o <> name) l0).
Proof. intros Hlvl. by apply achieves_wrapping, achieves_deleteGone. Qed.

(** Fetch and delete: the object is gone, when a failed [r.Get] that is not "not found" is an error. *)
Lemma achieves_deleteFetched lvl name delete failed l0 :
  lvl <> Lossy ->
  achieves lvl (delete name) (fun l => l = l0) (fun _ l => l = filter (fun o => obj_name o <> name) l0) ->
  (forall e, IsNotFound e = true -> failed e = mret ()) ->
  (forall e, IsNotFound e = false -> lvl = Calm \/ exists e', failed e = raise e') ->
  achieves lvl (try (getObj name) ≫= deleteFetched delete failed) (fun l => l = l0)
    (fun _ l => l = filter (fun o => obj_name o <> name) l0).
Proof.
  intros Hlvl Hdel Hgone Hfail. eapply achieves_bind; [apply achieves_try_getObj|].
  intros [e|old]; apply achieves_pre; intros l [-> Hr]; unfold deleteFetched.
  - destruct Hr as [Hcalm Habs]. destruct (IsNotFound e) eqn:He.
    + rewrite (Hgone e He). apply achieves_ret. intros l ->. by rewrite without_absent; [|apply Habs].
    + destruct (Hfail e He) as [Hl|[e' ->]]; [by specialize (Hcalm Hl)|]. apply achieves_raise.
      intros _ _ Hl. by specialize (Hcalm Hl).
  - pose proof (findObj_Some _ _ _ Hr) as [_ ->]. done.
Qed.

(** The loop that deletes the objects selected by [doomed]. *)
Lemma achieves_deleteAll lvl (doomed : T -> bool) (body : T -> M ()) xs l0 :
  lvl <> Lossy ->
  (forall o, doomed o = false -> body o = mret ()) ->
  (forall o, doomed o = true -> exists msg, body o = deleteTolerant msg (obj_name o)) ->
  achieves lvl (forM_ xs body) (fun l => l = l0)
    (fun _ l => l = without (names (filter (fun o => doomed o = true) xs)) l0).
Proof.
  intros Hlvl Hskip Hdel. eapply achieves_weaken; [apply (achieves_forM _ _ (fun pre l =>
    l = without (names (filter (fun o => doomed o = true) pre)) l0))|intros l ->; symmetry; apply without_nil|by intros [] l ->].
  intros pre x post _. apply achieves_pre. intros l ->. rewrite filter_app, filter_cons.
  destruct (doomed x) eqn:Hx.
  - destruct (Hdel x Hx) as [msg ->]. rewrite decide_True by done. unfold names. rewrite fmap_app. simpl.
    rewrite without_snoc. by apply achieves_deleteTolerant.
  - rewrite (Hskip x Hx). rewrite decide_False by done. apply achieves_ret. intros l ->.
    change (filter _ []) with (@nil T). by rewrite app_nil_r.
Qed.

(** ** Runs that write nothing *)

Lemma still_orCreate l name getting make found o :
  findObj name l = Some o -> keeps (still l) make -> keeps (still l) (found o) ->
  keeps (still l) (try (getObj name) ≫= orCreate getting make found).
Proof.
  intros Ho Hm Hf. apply still_try_getObj; unfold orCreate.
  - intros e. destruct (IsNotFound e); [done|frame].
  - intros o' Ho'. rewrite Ho in Ho'. by injection Ho' as <-.
Qed.

(** Creating an object whose name is taken fails. *)
Lemma still_taken l (o o' : T) : findObj (obj_name o) l = Some o' -> keeps (still l) (createObj o).
Proof.
  intros Ho w Hw. unfold createObj, mbind, M_bind, api, gets.
  destruct (w_faults w) as [|[e|] fs]; simpl; [by rewrite Hw, Ho|by rewrite stored_faults|].
  rewrite stored_faults, Hw, Ho. simpl. by rewrite stored_faults.
Qed.

Lemma still_createOrElse l what name created desired found o :
  findObj name l = Some o -> obj_name desired = name -> keeps (still l) (found o) ->
  keeps (still l) (createOrElse what name created desired found).
Proof.
  intros Ho Hn Hf. eapply still_orCreate; [done| |done].
  apply keeps_bind; [apply keeps_wrapping; eapply still_taken; by rewrite Hn|]. intros []. unfold announce. frame.
Qed.

(** Nothing to delete. *)
Lemma still_deleteFetched l name delete failed :
  findObj name l = None -> (forall e, keeps (still l) (failed e)) ->
  keeps (still l) (try (getObj name) ≫= deleteFetched delete failed).
Proof. intros Ho Hf. apply still_try_getObj; [done|]. intros o Ho'. congruence. Qed.

Lemma still_ensure l what name created updated desired stale refresh o :
  findObj name l = Some o -> obj_name desired = name -> stale o = false ->
  keeps (still l) (createOrElse what name created desired (updateDrifted what name updated stale refresh)).
Proof.
  intros Ho Hn Hs. eapply still_createOrElse; [done..|]. unfold updateDrifted. rewrite Hs. frame.
Qed.

(** A list call with a selection of its own. *)
Lemma still_select {A B} l (g : list T -> B) (f : B -> M A) msg :
  keeps (still l) (f (g l)) ->
  keeps (still l) (wrapping msg (_ ← api; l ← gets stored; mret (g l)) ≫= f).
Proof.
  intros Hf w Hw. unfold mbind at 1, M_bind at 1, wrapping, mbind, M_bind, api, gets.
  destruct (w_faults w) as [|[e|] fs]; simpl; [rewrite Hw; by apply Hf|by rewrite stored_faults|].
  rewrite stored_faults, Hw. specialize (Hf (w <| w_faults := fs |>)). unfold still in Hf. rewrite stored_faults in Hf.
  exact (Hf Hw).
Qed.

End Ensure.

(** ** Runs from one world

    [outcome lvl m w Q]: a run of [m] from [w] that returns leaves a world satisfying
    [Q], and in a calm run it returns.  Where [achieves] follows one kind of object,
    this follows them all. *)

Section Outcome.
Context `{Environment}.

Definition outcome {A} (lvl : api_level) (m : M A) (w : World) (Q : A -> World -> Prop) : Prop :=
  ok_faults lvl (w_faults w) ->
  let '(r, w') := m w in
  ok_faults lvl (w_faults w') /\ (lvl = Calm -> exists a, r = inr a) /\ (forall a, r = inr a -> Q a w').

Lemma outcome_ret {A} lvl (a : A) w (Q : A -> World -> Prop) : Q a w -> outcome lvl (mret a) w Q.
Proof. intros HQ Hf. split; [done|]. split; [by exists a|]. by intros ? [= <-]. Qed.

Lemma outcome_bind {A B} lvl (m : M A) (f : A -> M B) w Q R :
  outcome lvl m w Q -> (forall a w', Q a w' -> outcome lvl (f a) w' R) -> outcome lvl (m ≫= f) w R.
Proof.
  intros Hm Hf Hw. specialize (Hm Hw). unfold mbind, M_bind. destruct (m w) as [[e|a] w1]; destruct Hm as (Hfs & Hc & HQ).
  - split; [done|]. split; [|done]. intros Hl. by destruct (Hc Hl).
  - apply Hf; [by apply HQ|done].
Qed.

Lemma outcome_weaken {A} lvl (m : M A) w (Q Q' : A -> World -> Prop) :
  outcome lvl m w Q' -> (forall a w', Q' a w' -> Q a w') -> outcome lvl m w Q.
Proof.
  intros Hm HQ Hw. specialize (Hm Hw). destruct (m w) as [r w1]. destruct Hm as (? & ? & Hr).
  split_and!; [done..|]. intros a Ha. by apply HQ, Hr.
Qed.

Lemma outcome_wrapping {A} lvl msg (m : M A) w Q : outcome lvl m w Q -> outcome lvl (wrapping msg m) w Q.
Proof.
  intros Hm Hw. specialize (Hm Hw). unfold wrapping. destruct (m w) as [[e|a] w1]; [|done].
  destruct Hm as (? & Hok & _). split; [done|]. split; [|done]. intros Hcalm. by destruct (Hok Hcalm).
Qed.

(** What [achieves] says of the objects of one kind, with a frame for the rest. *)
Lemma outcome_achieves {T} `{!Stored T} {A} lvl (m : M A) (R : relation World) w (Q : A -> list T -> Prop) :
  achieves lvl m (fun l => l = stored w) Q -> keeps R m ->
  outcome lvl m w (fun a w' => Q a (stored w') /\ R w w').
Proof.
  intros Hm HR Hw. specialize (Hm w eq_refl Hw). specialize (HR w). destruct (m w) as [r w1].
  destruct Hm as (? & ? & HQ). split_and!; [done..|]. intros a Ha. split; [by apply HQ|done].
Qed.

(** A run of which only a frame is known; it may fail even in a calm run. *)
Lemma outcome_frame {A} lvl (m : M A) (R : relation World) w :
  lvl <> Calm -> keeps consumes m -> keeps R m -> outcome lvl m w (fun _ w' => R w w').
Proof.
  intros Hlvl Hc HR Hw. specialize (Hc w). specialize (HR w). destruct (m w) as [r w1]. split; [|by split].
  destruct lvl; [done| |done]. destruct Hc as [k Hk]. simpl in Hw, Hk |- *. rewrite Hk in Hw. by apply Forall_app in Hw as [_ Hw].
Qed.

(** An API call that reads: only the faults to come change. *)
Lemma outcome_read {A B} lvl (g : World -> B) (f : B -> M A) w (Q : A -> World -> Prop) :
  (forall fs, outcome lvl (f (g (w <| w_faults := fs |>))) (w <| w_faults := fs |>) Q) ->
  outcome lvl (_ ← api; b ← gets g; f b) w Q.
Proof.
  intros Hf Hw. unfold mbind, M_bind, api, gets. destruct (w_faults w) as [|[e|] fs] eqn:Hfs.
  - assert (w = w <| w_faults := [] |>) as Hw0 by (destruct w; simpl in Hfs; by rewrite Hfs).
    rewrite Hw0. by apply (Hf []).
  - apply ok_faults_tail in Hw as (? & ? & _). by split_and!.
  - apply ok_faults_tail in Hw as (? & ? & _). by apply Hf.
Qed.

End Outcome.

(** ** Which errors come out

    [yields E m P Q]: when the API server fails only with errors in [E], a run of [m] from
    objects satisfying [P] either returns and leaves objects satisfying [Q], or fails with
    an error in [E].  Errors in [E] stay in [E] when they are wrapped, and none of them
    says "not found". *)

Class ErrorSet (E : goerr -> Prop) := {
  errors_wrap msg e : E e -> E (wrapErr msg e);
  errors_honest e : E e -> IsNotFound e = false
}.

Definition fault_in (E : goerr -> Prop) (f : option goerr) : Prop := forall e, f = Some e -> E e.

Section Yields.
Context `{Environment} {T : Type} `{!Stored T} (E : goerr -> Prop) `{!ErrorSet E}.

Definition yields {A} (m : M A) (P : list T -> Prop) (Q : A -> list T -> Prop) : Prop := forall w,
  Forall (fault_in E) (w_faults w) -> P (stored w) ->
  let '(r, w') := m w in
  Forall (fault_in E) (w_faults w') /\ match r with inl e => E e | inr a => Q a (stored w') end.

Lemma yields_ret {A} (a : A) P Q : (forall l, P l -> Q a l) -> yields (mret a) P Q.
Proof. intros HQ w Hf HP. split; [done|]. by apply HQ. Qed.

Lemma yields_raise {A} e (P : list T -> Prop) Q : E e -> yields (A := A) (raise e) P Q.
Proof. intros He w Hf HP. by split. Qed.

Lemma yields_bind {A B} (m : M A) (f : A -> M B) P Q R :
  yields m P Q -> (forall a, yields (f a) (Q a) R) -> yields (m ≫= f) P R.
Proof.
  intros Hm Hf w Hw HP. unfold mbind, M_bind. specialize (Hm w Hw HP). destruct (m w) as [[e|a] w1]; destruct Hm; [done|by apply Hf].
Qed.

Lemma yields_weaken {A} (m : M A) P P' Q Q' :
  yields m P' Q' -> (forall l, P l -> P' l) -> (forall a l, Q' a l -> Q a l) -> yields m P Q.
Proof.
  intros Hm HP HQ w Hw Hl. specialize (Hm w Hw (HP _ Hl)). destruct (m w) as [[e|a] w1]; destruct Hm; [done|]. split; [done|by apply HQ].
Qed.

Lemma yields_pre {A} (m : M A) P Q : (forall l0, P l0 -> yields m (fun l => l = l0) Q) -> yields m P Q.
Proof. intros Hm w Hw HP. by apply (Hm (stored w) HP w). Qed.

Lemma yields_wrapping {A} msg (m : M A) P Q : yields m P Q -> yields (wrapping msg m) P Q.
Proof.
  intros Hm w Hw HP. specialize (Hm w Hw HP). unfold wrapping. destruct (m w) as [[e|a] w1]; [|done].
  destruct Hm. split; [done|by apply errors_wrap].
Qed.

Lemma yields_api {A} (f : list T -> M A) l0 Q :
  yields (f l0) (fun l => l = l0) Q -> yields (_ ← api; l ← gets stored; f l) (fun l => l = l0) Q.
Proof.
  intros Hf w Hw <-. unfold mbind, M_bind, api, gets. destruct (w_faults w) as [|[e|] fs] eqn:Hfs.
  - apply Hf; [by rewrite Hfs|done].
  - apply Forall_cons in Hw as [He Hw]. split; [done|by apply He].
  - apply Forall_cons in Hw as [_ Hw]. rewrite stored_faults. apply Hf; [done|by rewrite stored_faults].
Qed.

Lemma yields_write g a l0 : yields (_ ← modify (set_stored g); act a) (fun l => l = l0) (fun _ l => l = g l0).
Proof.
  intros w Hc <-. pose proof (faults_stored g w) as Hf. pose proof (stored_set g w) as Hs.
  pose proof (stored_trace (set_stored g w) (a :: w_trace (set_stored g w))) as Ht.
  unfold modify, act, mbind, M_bind. split; [by rewrite <- Hf in Hc|]. by rewrite <- Hs, <- Ht.
Qed.

Lemma yields_try_getObj name l0 :
  yields (try (getObj name)) (fun l => l = l0) (fun r l => l = l0 /\
    match r with inr o => findObj name l0 = Some o | inl e => E e \/ (IsNotFound e = true /\ findObj name l0 = None) end).
Proof.
  intros w Hw <-. unfold try, getObj, mbind, M_bind, api, gets. destruct (w_faults w) as [|[e|] fs] eqn:Hfs.
  - destruct (findObj name (stored w)) eqn:Ho; (split; [by rewrite ?Hfs|]); (split; [done|]); [done|by right].
  - apply Forall_cons in Hw as [He Hw]. split; [done|]. rewrite stored_faults. split; [done|]. left. by apply He.
  - apply Forall_cons in Hw as [_ Hw]. rewrite stored_faults.
    destruct (findObj name (stored w)) eqn:Ho; (split; [done|]); rewrite stored_faults; (split; [done|]); [done|by right].
Qed.

Lemma yields_create name o l0 (Q : () -> list T -> Prop) :
  obj_name o = name -> findObj name l0 = None -> Q () (l0 ++ [o]) -> yields (createObj o) (fun l => l = l0) Q.
Proof.
  intros <- Hn HQ. apply yields_api. rewrite Hn. eapply yields_weaken; [apply yields_write|intros l Hl; exact Hl|]. by intros [] l ->.
Qed.

Lemma yields_update name o old l0 (Q : () -> list T -> Prop) :
  obj_name o = name -> findObj name l0 = Some old ->
  Q () ((fun x => if decide (obj_name x = obj_name o) then o else x) <$> l0) -> yields (updateObj o) (fun l => l = l0) Q.
Proof.
  intros <- Hn HQ. apply yields_api. rewrite Hn. eapply yields_weaken; [apply yields_write|intros l Hl; exact Hl|]. by intros [] l ->.
Qed.

(** After [r.Get]. *)
Lemma yields_get {A} name (k : goerr + T -> M A) l0 (Q : A -> list T -> Prop) :
  (forall e, E e -> yields (k (inl e)) (fun l => l = l0) Q) ->
  (forall e, IsNotFound e = true -> findObj name l0 = None -> yields (k (inl e)) (fun l => l = l0) Q) ->
  (forall old, findObj name l0 = Some old -> yields (k (inr old)) (fun l => l = l0) Q) ->
  yields (try (getObj name) ≫= k) (fun l => l = l0) Q.
Proof.
  intros He Hn Ho. eapply yields_bind; [apply yields_try_getObj|]. intros [e|old]; apply yields_pre; intros l [-> Hr]; [|by apply Ho].
  destruct Hr as [Hr|[Hr1 Hr2]]; [by apply He|by apply Hn].
Qed.

Lemma yields_orCreate name getting make found l0 (Q : () -> list T -> Prop) :
  (findObj name l0 = None -> yields make (fun l => l = l0) Q) ->
  (forall old, findObj name l0 = Some old -> yields (found old) (fun l => l = l0) Q) ->
  (forall e, E e -> yields (orCreate getting make found (inl e)) (fun l => l = l0) Q) /\
  (forall e, IsNotFound e = true -> findObj name l0 = None -> yields (orCreate getting make found (inl e)) (fun l => l = l0) Q) /\
  (forall old, findObj name l0 = Some old -> yields (orCreate getting make found (inr old)) (fun l => l = l0) Q).
Proof.
  intros Hm Hf. split; [|split; [|done]]; unfold orCreate.
  - intros e He. rewrite (errors_honest e He). by apply yields_raise, errors_wrap.
  - intros e -> Hn. by apply Hm.
Qed.

Lemma yields_updateDrifted what name updated stale refresh old l0 (Q : () -> list T -> Prop) :
  findObj name l0 = Some old -> obj_name (refresh old) = name ->
  (stale old = false -> Q () l0) ->
  (stale old = true -> Q () ((fun x => if decide (obj_name x = obj_name (refresh old)) then refresh old else x) <$> l0)) ->
  yields (updateDrifted what name updated stale refresh old) (fun l => l = l0) Q.
Proof.
  intros Ho Hn Hkeep Hnew. unfold updateDrifted. destruct (stale old); [|apply yields_ret; by intros l ->; apply Hkeep].
  eapply yields_bind; [apply yields_wrapping; by apply (yields_update name _ old _ (fun _ => Q ())); [| |apply Hnew]|].
  intros []. destruct updated; [|by apply yields_ret]. intros w Hw HQ. split; [done|].
  change (Q () (stored (w <| w_events := mkEvent false s :: w_events w |>))). by rewrite stored_events.
Qed.

Lemma yields_deleteGone name l0 :
  yields (deleteGone name) (fun l => l = l0) (fun _ l => l = filter (fun o => obj_name o <> name) l0).
Proof.
  assert (forall w, Forall (fault_in E) (w_faults w) -> stored w = l0 ->
    let '(r, w') := deleteObj name w in Forall (fault_in E) (w_faults w') /\
    match r with
    | inl e => stored w' = l0 /\ (E e \/ (IsNotFound e = true /\ findObj name l0 = None))
    | inr _ => stored w' = filter (fun o => obj_name o <> name) l0
    end) as Hd.
  { assert (forall w, Forall (fault_in E) (w_faults w) -> stored w = l0 ->
      let '(r, w') := match findObj name l0 with
                      | None => raise (notFound name)
                      | Some _ => _ ← modify (set_stored (filter (fun o => obj_name o <> name))); act (ADeleteObj (obj_kind T) name)
                      end w in Forall (fault_in E) (w_faults w') /\
      match r with
      | inl e => stored w' = l0 /\ (E e \/ (IsNotFound e = true /\ findObj name l0 = None))
      | inr _ => stored w' = filter (fun o => obj_name o <> name) l0
      end) as Hrest.
    { intros w Hw Hs. destruct (findObj name l0) eqn:Ho; [|split; [done|]; split; [done|]; by right].
      pose proof (yields_write (filter (fun o => obj_name o <> name)) (ADeleteObj (obj_kind T) name) l0 w Hw Hs) as Hy.
      destruct ((_ ← modify _; act _) w) as [[e|a] w1] eqn:Hrun; [|done]. by injection Hrun. }
    intros w Hw Hs. unfold deleteObj. unfold mbind at 1, M_bind at 1, api. destruct (w_faults w) as [|[e|] fs] eqn:Hfs.
    - unfold mbind at 1, M_bind at 1, gets. rewrite Hs. apply Hrest; [by rewrite Hfs|done].
    - apply Forall_cons in Hw as [He Hw]. split; [done|]. rewrite stored_faults. split; [done|]. left. by apply He.
    - apply Forall_cons in Hw as [_ Hw]. unfold mbind at 1, M_bind at 1, gets. rewrite stored_faults, Hs.
      apply Hrest; [done|by rewrite stored_faults]. }
  intros w Hw Hs. specialize (Hd w Hw Hs). unfold deleteGone, mbind, M_bind, try. destruct (deleteObj name w) as [[e|[]] w1].
  - destruct Hd as (Hw1 & Hs1 & [He|[Hn Ha]]); [rewrite (errors_honest e He); by split|].
    rewrite Hn. split; [done|]. by rewrite Hs1, without_absent.
  - destruct Hd as [Hw1 Hs1]. by split.
Qed.

Lemma yields_deleteFetched name failed l0 :
  (forall e, IsNotFound e = true -> failed e = mret ()) ->
  (forall e, E e -> exists e', failed e = raise e' /\ E e') ->
  (forall e, E e -> yields (deleteFetched deleteGone failed (inl e)) (fun l => l = l0)
     (fun _ l => l = filter (fun o => obj_name o <> name) l0)) /\
  (forall e, IsNotFound e = true -> findObj name l0 = None -> yields (deleteFetched deleteGone failed (inl e)) (fun l => l = l0)
     (fun _ l => l = filter (fun o => obj_name o <> name) l0)) /\
  (forall old, findObj name l0 = Some old -> yields (deleteFetched deleteGone failed (inr old)) (fun l => l = l0)
     (fun _ l => l = filter (fun o => obj_name o <> name) l0)).
Proof.
  intros Hn Hf. split_and!; unfold deleteFetched.
  - intros e He. destruct (Hf e He) as (e' & -> & He'). by apply yields_raise.
  - intros e He Ha. rewrite (Hn e He). apply yields_ret. intros l ->. by rewrite without_absent.
  - intros old Ho. pose proof (findObj_Some _ _ _ Ho) as [_ ->]. apply yields_deleteGone.
Qed.

End Yields.

(** The same from one world, for runs that write several kinds. *)
Section Delivers.
Context `{Environment} (E : goerr -> Prop) `{!ErrorSet E}.

Definition delivers {A} (m : M A) (w : World) (Q : A -> World -> Prop) : Prop :=
  Forall (fault_in E) (w_faults w) ->
  let '(r, w') := m w in
  Forall (fault_in E) (w_faults w') /\ match r with inl e => E e | inr a => Q a w' end.

Lemma delivers_bind {A B} (m : M A) (f : A -> M B) w Q R :
  delivers m w Q -> (forall a w', Q a w' -> delivers (f a) w' R) -> delivers (m ≫= f) w R.
Proof.
  intros Hm Hf Hw. specialize (Hm Hw). unfold mbind, M_bind. destruct (m w) as [[e|a] w1]; destruct Hm; [done|by apply Hf].
Qed.

Lemma delivers_weaken {A} (m : M A) w (Q Q' : A -> World -> Prop) :
  delivers m w Q' -> (forall a w', Q' a w' -> Q a w') -> delivers m w Q.
Proof.
  intros Hm HQ Hw. specialize (Hm Hw). destruct (m w) as [[e|a] w1]; destruct Hm; [done|]. split; [done|by apply HQ].
Qed.

Lemma delivers_wrapping {A} msg (m : M A) w Q : delivers m w Q -> delivers (wrapping msg m) w Q.
Proof.
  intros Hm Hw. specialize (Hm Hw). unfold wrapping. destruct (m w) as [[e|a] w1]; [|done].
  destruct Hm. split; [done|by apply errors_wrap].
Qed.

Lemma delivers_yields {T} `{!Stored T} {A} (m : M A) (R : relation World) w (Q : A -> list T -> Prop) :
  yields E m (fun l => l = stored w) Q -> keeps R m -> delivers m w (fun a w' => Q a (stored w') /\ R w w').
Proof.
  intros Hm HR Hw. specialize (Hm w Hw eq_refl). specialize (HR w). destruct (m w) as [[e|a] w1]; destruct Hm; done.
Qed.

End Delivers.
