(* ===== verification/Aero.v ===== *)
(** * Talking to Aerospike

    internal/controller/aero_client.go (client creation, credentials, quiesce),
    aero_info.go (info commands, migration statistics) and
    reconciler_scaledown.go (the migration check).  The client library is a
    parameter of the environment: [aero_dial], [aero_request] and [pod_exec].
    The theorems state that the migration check fails closed. *)

From S2P Require Import Prelude GoValue Utils Api Events Kube.

Definition defaultAeroPort : Z := 3000.
Definition AerospikeContainerName := "aerospike-server".

Section Aero.
Context `{Environment}.

(** [getServicePort]: network.service.port of the configuration, or 3000. *)
Definition getServicePort (cluster : AerospikeCluster) : Z :=
  match spec_AerospikeConfig (cl_Spec cluster) with
  | None => defaultAeroPort
  | Some cfg =>
      match as_map (map_index "network" cfg) with
      | None => defaultAeroPort
      | Some netCfg =>
          match as_map (map_index "service" netCfg) with
          | None => defaultAeroPort
          | Some svcCfg =>
              match map_get "port" svcCfg with
              | None => defaultAeroPort
              | Some port => IntFromAny port defaultAeroPort
              end
          end
      end
  end.

(** [getPasswordFromSecret]: a missing secret or key is a permanent error. *)
Definition getPasswordFromSecret (secretName : string) : M string :=
  r ← try (getSecret secretName);
  match r with
  | inl e =>
      if IsNotFound e then raise (NewValidationf ("secret " +:+ secretName +:+ " not found"))
      else raise (wrapErr ("getting secret " +:+ secretName) e)
  | inr data =>
      match map_get "password" data with
      | None => raise (NewValidationf ("secret " +:+ secretName +:+ " does not have 'password' key"))
      | Some password => mret password
      end
  end.

Definition adminUser (cluster : AerospikeCluster) : option AerospikeUserSpec :=
  FindAdminUser (acl_Users <$> spec_AerospikeAccessControl (cl_Spec cluster)).

(** [getAerospikeClient]: the client is represented by the nodes it sees. *)
Definition getAerospikeClient (cluster : AerospikeCluster) : M (list AeroNode) :=
  let host := HeadlessServiceName (cl_Name cluster) +:+ "." +:+ cl_Namespace cluster
              +:+ ".svc.cluster.local" in
  creds ← match adminUser cluster with
          | None => mret None
          | Some u =>
              password ← wrapping "getting admin password" (getPasswordFromSecret (user_SecretName u));
              mret (Some (user_Name u, password))
          end;
  aero ← gets w_aero;
  wrapping "connecting to Aerospike" (lift (aero_dial host (getServicePort cluster) creds aero)).

(** [getAerospikeClientWithRetry]: an initial attempt and three retries, each
    preceded by a backoff during which the context may expire. *)
Definition maxRetries : nat := 3.

Fixpoint clientAttempts (retries : nat) (cluster : AerospikeCluster) : M (list AeroNode) :=
  r ← try (getAerospikeClient cluster);
  match r with
  | inr client => mret client
  | inl e =>
      if IsValidation e then raise e
      else match retries with
           | O => raise (wrapErr "failed after 4 attempts" e)
           | S retries =>
               expired ← ctxExpired;
               if (expired : bool)
               then raise (Errorf "context cancelled while retrying Aerospike connection")
               else clientAttempts retries cluster
           end
  end.

Definition getAerospikeClientWithRetry : AerospikeCluster -> M (list AeroNode) :=
  clientAttempts maxRetries.

(** ** Info commands *)

Definition asinfoCommandOnNode (node : AeroNode) (cmd : string) : M string :=
  result ← wrapping ("asinfo command " +:+ cmd +:+ " on node " +:+ node_Name node +:+ " failed")
             (requestInfo node cmd);
  match map_get cmd result with
  | Some val => mret val
  | None => raise (Errorf ("no result for command " +:+ cmd +:+ " on node " +:+ node_Name node))
  end.

(** [asinfoCommand]: on the first node. *)
Definition asinfoCommand (client : list AeroNode) (cmd : string) : M string :=
  match client with
  | [] => raise (Errorf "no nodes available in Aerospike cluster")
  | node :: _ =>
      result ← wrapping ("asinfo command " +:+ cmd +:+ " failed") (requestInfo node cmd);
      match map_get cmd result with
      | Some val => mret val
      | None => raise (Errorf ("no result for command " +:+ cmd))
      end
  end.

(** [parseMigrateStat]: the first pair with this key decides. *)
Fixpoint findStat (key : string) (pairs : list string) : option Z :=
  match pairs with
  | [] => None
  | kv :: pairs =>
      match split_first "=" kv with
      | None => findStat key pairs
      | Some (k, v) =>
          if decide (trim_space k = key) then atoi (trim_space v) else findStat key pairs
      end
  end.

Definition parseMigrateStat (stats key : string) : option Z := findStat key (split_on ";" stats).

Definition migratePartitionsRemaining := "migrate_partitions_remaining".

(** [isMigratingOnAnyNode]: stops at the first node that migrates or whose
    state cannot be confirmed. *)
Fixpoint migratingNodes (nodes : list AeroNode) : M bool :=
  match nodes with
  | [] => mret false
  | node :: nodes =>
      stats ← wrapping ("statistics command on node " +:+ node_Name node +:+ " failed")
                (asinfoCommandOnNode node "statistics");
      match parseMigrateStat stats migratePartitionsRemaining with
      | None => raise (Errorf ("could not parse migrate_partitions_remaining on node "
                               +:+ node_Name node))
      | Some remaining => if 0 <? remaining then mret true else migratingNodes nodes
      end
  end.

Definition isMigratingOnAnyNode (client : list AeroNode) : M bool :=
  match client with
  | [] => raise (Errorf "no nodes available in Aerospike cluster")
  | _ => migratingNodes client
  end.

(** [isMigrationInProgress], which production uses for [checkMigrationInProgress]. *)
Definition isMigrationInProgress (cluster : AerospikeCluster) : M bool :=
  client ← getAerospikeClient cluster; isMigratingOnAnyNode client.

Definition checkMigrationInProgress : AerospikeCluster -> M bool := isMigrationInProgress.

Definition migrateUncertainSentinel : Z := 1.

(** [migrateRemainingForNode]: an unconfirmed node counts as migrating. *)
Definition migrateRemainingForNode (stats : goerr + string) : Z :=
  match stats with
  | inl _ => migrateUncertainSentinel
  | inr s => default migrateUncertainSentinel (parseMigrateStat s migratePartitionsRemaining)
  end.

(** [migrateStatsPerNode]: keyed by host; a node without a host is dropped. *)
Definition statsOfNode (acc : gmap string Z * bool) (node : AeroNode) : M (gmap string Z * bool) :=
  match node_Host node with
  | None => mret (fst acc, true)
  | Some host =>
      stats ← try (asinfoCommandOnNode node "statistics");
      mret (<[host := migrateRemainingForNode stats]> (fst acc), snd acc)
  end.

Definition migrateStatsPerNode (client : list AeroNode) : M (gmap string Z) :=
  match client with
  | [] => raise (Errorf "no nodes available in Aerospike cluster")
  | _ =>
      '(result, dropped) ← foldM statsOfNode (∅, false) client;
      if (dropped : bool) && bool_decide (result = ∅)
      then raise (Errorf "all node(s) lacked host info or were unreachable for statistics")
      else mret result
  end.

(** [clusterSize]. *)
Definition clusterSize (client : list AeroNode) : M Z :=
  result ← asinfoCommand client "cluster-size";
  match atoi (trim_space result) with
  | None => raise (Errorf "parsing cluster-size response")
  | Some size => mret size
  end.

(** ** Quiesce *)

(** [buildAsinfoCommand]: with an admin user both -U and -P are passed. *)
Definition buildAsinfoCommand (verb : string) (cluster : AerospikeCluster) (port : Z)
    (adminPassword : string) : list string :=
  ["asinfo"; "-v"; verb; "-h"; "localhost"; "-p"; pretty port] ++
  match adminUser cluster with
  | None => []
  | Some u =>
      ["-U"; user_Name u] ++ (if decide (adminPassword = "") then [] else ["-P"; adminPassword])
  end.

Definition buildQuiesceCommand : AerospikeCluster -> Z -> string -> list string :=
  buildAsinfoCommand "quiesce:".

(** [execAsinfoVerb]: anything but "ok" is an error. *)
Definition execAsinfoVerb (pod : Pod) (verb : string) (cmd : list string) : M () :=
  out ← wrapping ("executing " +:+ verb +:+ " command") (execPod (pod_Name pod) cmd);
  if decide (trim_space out = "ok") then mret ()
  else raise (Errorf (verb +:+ " returned unexpected response")).

(** [quiesceNode]: quiesce, then recluster to make it take effect. *)
Definition quiesceNode (pod : Pod) (cluster : AerospikeCluster) : M () :=
  hasConfig ← gets w_restConfig;
  if (hasConfig : bool) then
    let port := getServicePort cluster in
    adminPassword ← match adminUser cluster with
                    | None => mret ""
                    | Some u => wrapping "getting admin password for quiesce"
                                  (getPasswordFromSecret (user_SecretName u))
                    end;
    _ ← execAsinfoVerb pod "quiesce:" (buildQuiesceCommand cluster port adminPassword);
    wrapping "recluster after quiesce failed (quiesce will not take effect)"
      (execAsinfoVerb pod "recluster:" (buildAsinfoCommand "recluster:" cluster port adminPassword))
  else raise (Errorf "RestConfig not available for exec").

(** ** Framing *)

Section AeroFrames.
Context {R : relation World} `{!FrameInfo R}.

Lemma keeps_getPasswordFromSecret name : keeps R (getPasswordFromSecret name).
Proof. unfold getPasswordFromSecret. frame. Qed.

Lemma keeps_getAerospikeClient cluster : keeps R (getAerospikeClient cluster).
Proof. pose proof keeps_getPasswordFromSecret. unfold getAerospikeClient. frame. Qed.

Lemma keeps_asinfoCommandOnNode node cmd : keeps R (asinfoCommandOnNode node cmd).
Proof. unfold asinfoCommandOnNode. frame. Qed.

Lemma keeps_asinfoCommand client cmd : keeps R (asinfoCommand client cmd).
Proof. unfold asinfoCommand. frame. Qed.

Lemma keeps_migratingNodes nodes : keeps R (migratingNodes nodes).
Proof.
  pose proof keeps_asinfoCommandOnNode.
  induction nodes as [|n nodes IH]; cbn [migratingNodes]; frame.
Qed.

Lemma keeps_isMigratingOnAnyNode client : keeps R (isMigratingOnAnyNode client).
Proof. destruct client; [apply keeps_raise|apply keeps_migratingNodes]. Qed.

Lemma keeps_isMigrationInProgress cluster : keeps R (isMigrationInProgress cluster).
Proof.
  apply keeps_bind; [apply keeps_getAerospikeClient|]. intros. apply keeps_isMigratingOnAnyNode.
Qed.

Lemma keeps_migrateStatsPerNode client : keeps R (migrateStatsPerNode client).
Proof.
  pose proof keeps_asinfoCommandOnNode. unfold migrateStatsPerNode, statsOfNode. frame.
Qed.

Lemma keeps_clusterSize client : keeps R (clusterSize client).
Proof. pose proof keeps_asinfoCommand. unfold clusterSize. frame. Qed.

Lemma keeps_quiesceNode pod cluster :
  (forall cmd, keeps R (execPod (pod_Name pod) cmd)) -> keeps R (quiesceNode pod cluster).
Proof.
  intros He. pose proof keeps_getPasswordFromSecret. unfold quiesceNode, execAsinfoVerb. frame.
Qed.

End AeroFrames.

(** ** The migration check fails closed *)

(** Every node answered with a statistic that parses and is not positive. *)
Inductive confirmed_idle : list AeroNode -> aero_state -> Prop :=
| idle_nil s : confirmed_idle [] s
| idle_cons node nodes s s' m stats remaining :
    aero_request node "statistics" s = (inr m, s') ->
    map_get "statistics" m = Some stats ->
    parseMigrateStat stats migratePartitionsRemaining = Some remaining ->
    remaining <= 0 ->
    confirmed_idle nodes s' ->
    confirmed_idle (node :: nodes) s.

Lemma asinfoCommandOnNode_ok node cmd w val w' :
  asinfoCommandOnNode node cmd w = (inr val, w') <->
  exists m s', aero_request node cmd (w_aero w) = (inr m, s') /\ map_get cmd m = Some val /\
    w' = w <| w_aero := s' |> <| w_trace ::= cons (AInfo (node_Name node) cmd) |>.
Proof.
  unfold asinfoCommandOnNode, mbind, M_bind, wrapping, requestInfo.
  destruct (aero_request node cmd (w_aero w)) as [[e|m] s']; simpl.
  - split; [done|]. by intros (?&?&?&_).
  - destruct (map_get cmd m) as [v|] eqn:Hv; simpl; split.
    + intros [= <- <-]. eauto.
    + intros (?&?&?&?&->). by simplify_eq.
    + done.
    + intros (?&?&?&?&_). by simplify_eq.
Qed.

Lemma confirmed_idle_cons node nodes s s' m stats :
  aero_request node "statistics" s = (inr m, s') -> map_get "statistics" m = Some stats ->
  confirmed_idle (node :: nodes) s <->
  (exists r, parseMigrateStat stats migratePartitionsRemaining = Some r /\ r <= 0) /\
  confirmed_idle nodes s'.
Proof.
  intros Hm Hs. split.
  - inversion 1 as [|? ? ? s2 m2 stats2 r Hm2 Hs2 Hp Hr Hn]; subst.
    rewrite Hm in Hm2. injection Hm2 as <- <-. rewrite Hs in Hs2. injection Hs2 as <-. eauto.
  - intros [(r & Hp & Hr) Hn]. by econstructor.
Qed.

Lemma migratingNodes_false nodes w :
  fst (migratingNodes nodes w) = inr false <-> confirmed_idle nodes (w_aero w).
Proof.
  revert w. induction nodes as [|node nodes IH]; intros w; [split; [constructor|done]|].
  cbn [migratingNodes]. unfold mbind at 1, M_bind, wrapping.
  destruct (asinfoCommandOnNode node "statistics" w) as [[e|stats] w'] eqn:Hq.
  - split; [done|]. inversion 1 as [|? ? ? ? m stats r Hm Hs]; subst.
    assert (asinfoCommandOnNode node "statistics" w = (inr stats, _)) as Hq'
      by (apply asinfoCommandOnNode_ok; eauto). congruence.
  - destruct (proj1 (asinfoCommandOnNode_ok _ _ _ _ _) Hq) as (m & s' & Hm & Hs & ->).
    rewrite (confirmed_idle_cons _ _ _ _ _ _ Hm Hs).
    destruct (parseMigrateStat stats migratePartitionsRemaining) as [r|] eqn:Hp.
    + destruct (Z.ltb_spec 0 r) as [Hr|Hr].
      * split; [done|]. intros [(? & [= <-] & ?) _]. lia.
      * rewrite IH. simpl. naive_solver.
    + split; [done|]. by intros [(? & ? & _) _].
Qed.

(** The migration check answers no exactly when a client was obtained, it sees at
    least one node, and every node reports zero remaining partitions; no error, empty
    cluster or unparsable answer counts as idle. *)
Theorem migration_check_fails_closed cluster w :
  fst (isMigrationInProgress cluster w) = inr false <->
  exists client w', getAerospikeClient cluster w = (inr client, w') /\ client <> [] /\
    confirmed_idle client (w_aero w').
Proof.
  unfold isMigrationInProgress, mbind, M_bind.
  destruct (getAerospikeClient cluster w) as [[e|client] w'].
  - split; [done|]. by intros (?&?&?&_).
  - destruct client as [|n ns]; cbn [isMigratingOnAnyNode].
    + split; [done|]. intros (?&?&[= <- <-]&?&_). done.
    + rewrite migratingNodes_false. split; [eauto|]. by intros (?&?&[= <- <-]&_&?).
Qed.

(** An unconfirmed node never reads as idle in the statistics either. *)
Lemma migrateRemainingForNode_idle stats :
  migrateRemainingForNode stats <= 0 ->
  exists s r, stats = inr s /\ parseMigrateStat s migratePartitionsRemaining = Some r /\ r <= 0.
Proof.
  destruct stats as [e|s]; simpl; [unfold migrateUncertainSentinel; lia|].
  destruct (parseMigrateStat s migratePartitionsRemaining) as [r|] eqn:Hr; simpl.
  - eauto.
  - unfold migrateUncertainSentinel; lia.
Qed.

(** ** Parsing what a server prints *)

Definition renderStats (pairs : list (string * Z)) : string :=
  join ";" ((fun '(k, v) => k +:+ "=" +:+ pretty v) <$> pairs).

Definition plain (s : string) : Prop :=
  str_contains ";" s = false /\ str_contains "=" s = false /\ trim_space s = s.

Lemma findStat_render key pairs :
  Forall (fun '(k, v) => plain k /\ 0 <= v /\ in_i64 v) pairs ->
  findStat key ((fun '(k, v) => k +:+ "=" +:+ pretty v) <$> pairs) =
  (p ← list_find (fun p => p.1 = key) pairs; Some p.2.2).
Proof.
  induction 1 as [|[k v] pairs [(_ & Hk & Ht) [Hv Hr]] _ IH]; [done|].
  csimpl. change (k +:+ "=" +:+ pretty v) with (k +:+ String "=" (pretty v)).
  rewrite (proj2 (split_first_Some "=" _ _ _)) by done. rewrite Ht.
  case_decide as Hd; simplify_eq/=.
  - by rewrite pretty_nonneg_trim, atoi_pretty.
  - rewrite IH. by destruct (list_find _ pairs) as [[]|].
Qed.

(** The statistic is recovered from the rendered list. *)
Theorem parseMigrateStat_render pairs key :
  pairs <> [] -> Forall (fun '(k, v) => plain k /\ 0 <= v /\ in_i64 v) pairs ->
  parseMigrateStat (renderStats pairs) key = (p ← list_find (fun p => p.1 = key) pairs; Some p.2.2).
Proof.
  intros Hne HF. unfold parseMigrateStat, renderStats.
  rewrite split_on_join.
  - by apply findStat_render.
  - by destruct pairs.
  - apply Forall_fmap. eapply Forall_impl; [exact HF|]. intros [k v] [(Hk & _) [Hv _]]. simpl.
    rewrite str_contains_app, Hk. by apply (pretty_nonneg_not_contains ";").
Qed.

End Aero.

#[export] Hint Resolve keeps_getPasswordFromSecret keeps_getAerospikeClient keeps_asinfoCommandOnNode
  keeps_asinfoCommand keeps_isMigratingOnAnyNode keeps_isMigrationInProgress keeps_migrateStatsPerNode
  keeps_clusterSize keeps_quiesceNode : frame.

(** A running instance: one node answers a positive count, so the check says
    "migrating"; when all answer zero, it says "not migrating". *)
Lemma parseMigrateStat_render_witness :
  [("cluster_size", 3); ("migrate_partitions_remaining", 0)] <> [] /\
  parseMigrateStat (renderStats [("cluster_size", 3); ("migrate_partitions_remaining", 0)])
    migratePartitionsRemaining = Some 0.
Proof.
  split; [done|]. rewrite parseMigrateStat_render; [done|done|].
  repeat constructor; try done; unfold in_i64; lia.
Defined.
