(* ===== verification/Sizing.v ===== *)
(** * Sizes, batches and back-off

    The pure computations of the controller: rack sizes and the default rack
    (reconciler.go), batch sizes resolved from an integer or a percentage
    (reconciler_restart.go, reconciler_statefulset.go), the circuit-breaker
    back-off and the truncation of error messages (reconciler.go). *)

From S2P Require Import Prelude GoValue Utils Api Events Kube.

(** ** Racks *)

(** [getRacks]: without a rack configuration there is one default rack 0. *)
Definition getRacks (cluster : AerospikeCluster) : list Rack :=
  match spec_RackConfig (cl_Spec cluster) with
  | Some rc => match rc_Racks rc with [] => [plainRack 0] | racks => racks end
  | None => [plainRack 0]
  end.

(** [getRackSize]: [int32] division truncates. *)
Definition getRackSize (cluster : AerospikeCluster) (racks : list Rack) (rackIndex : Z) : Z :=
  let totalSize := spec_Size (cl_Spec cluster) in
  let numRacks := i32 (Z.of_nat (length racks)) in
  let baseSize := Z.quot totalSize numRacks in
  let remainder := Z.rem totalSize numRacks in
  if i32 rackIndex <? remainder then i32 (baseSize + 1) else baseSize.

Definition rackSizes (cluster : AerospikeCluster) (racks : list Rack) : list Z :=
  (fun i => getRackSize cluster racks (Z.of_nat i)) <$> seq 0 (length racks).

(** ** Batch sizes *)

Section Batches.
Context `{Environment}.

(** [resolveIntOrPercent]: at least one, whatever is configured. *)
Definition resolveIntOrPercent (val : option IntOrString) (total : Z) : Z :=
  match val with
  | None => 1
  | Some (IntVal v) => if v <? 1 then 1 else v
  | Some (StrVal s) =>
      match scaled_value s total with
      | inl _ => 1
      | inr pct => if pct <? 1 then 1 else i32 pct
      end
  end.

(** [getRollingUpdateBatchSize]: rack configuration, then spec, then 1. *)
Definition getRollingUpdateBatchSize (cluster : AerospikeCluster) (totalPods : Z) : Z :=
  match spec_RackConfig (cl_Spec cluster) ≫= rc_RollingUpdateBatchSize with
  | Some v => resolveIntOrPercent (Some v) totalPods
  | None =>
      match spec_RollingUpdateBatchSize (cl_Spec cluster) with
      | Some n => if 0 <? n then n else 1
      | None => 1
      end
  end.

(** [isExplicitZeroIntOrPercent]: the integer 0 or a percentage that is 0. *)
Definition isExplicitZeroIntOrPercent (val : option IntOrString) : bool :=
  match val with
  | None => false
  | Some (IntVal v) => v =? 0
  | Some (StrVal s) =>
      match cut_suffix s "%" with
      | None => false
      | Some numStr => bool_decide (atoi numStr = Some 0)
      end
  end.

(** [getMaxIgnorablePods]: an explicit zero stays zero. *)
Definition getMaxIgnorablePods (cluster : AerospikeCluster) (totalPods : Z) : Z :=
  match spec_RackConfig (cl_Spec cluster) ≫= rc_MaxIgnorablePods with
  | Some mip =>
      if isExplicitZeroIntOrPercent (Some mip) then 0
      else resolveIntOrPercent (Some mip) totalPods
  | None => 0
  end.

(** [getScaleDownBatchSize]: the whole difference by default. *)
Definition getScaleDownBatchSize (cluster : AerospikeCluster) (totalToScaleDown : Z) : Z :=
  match spec_RackConfig (cl_Spec cluster) ≫= rc_ScaleDownBatchSize with
  | Some v => resolveIntOrPercent (Some v) totalToScaleDown
  | None => totalToScaleDown
  end.

End Batches.

(** ** The circuit breaker's back-off *)

Definition defaultReconcileRetryInterval : Z := 5 * second.
Definition restartRequeueInterval : Z := 15 * second.
Definition migrationRequeueInterval : Z := 30 * second.
Definition podReadyPollInterval : Z := 60 * second.
Definition aclRetryInterval : Z := 30 * second.
Definition maxFailedReconciles : Z := 10.
Definition maxBackoffSeconds : Z := 300.

(** [calculateBackoff]: the powers of two involved are exact in a [float64]. *)
Definition calculateBackoff (failCount : Z) : Z :=
  if failCount <=? 0 then defaultReconcileRetryInterval
  else Z.min (2 ^ Z.min failCount 9) maxBackoffSeconds * second.

(** ** Error messages *)

(** [utf8.ValidString]: [need] lists the admissible ranges of the continuation
    bytes still missing from the current rune. *)
Definition continuation (lead : N) : option (list (N * N)) :=
  let tail := (128, 191)%N in
  (if bool_decide (lead < 128) then Some []
   else if bool_decide (194 <= lead <= 223) then Some [tail]
   else if bool_decide (lead = 224) then Some [(160, 191); tail]
   else if bool_decide (lead = 237) then Some [(128, 159); tail]
   else if bool_decide (225 <= lead <= 239) then Some [tail; tail]
   else if bool_decide (lead = 240) then Some [(144, 191); tail; tail]
   else if bool_decide (241 <= lead <= 243) then Some [tail; tail; tail]
   else if bool_decide (lead = 244) then Some [(128, 143); tail; tail]
   else None)%N.

Fixpoint validFrom (need : list (N * N)) (s : string) : bool :=
  match s with
  | EmptyString => match need with [] => true | _ => false end
  | String a s =>
      let b := N_of_ascii a in
      match need with
      | [] => match continuation b with None => false | Some need => validFrom need s end
      | (lo, hi) :: need => bool_decide (lo <= b <= hi)%N && validFrom need s
      end
  end.

Definition ValidString : string -> bool := validFrom [].

(** [s[:n]]. *)
Fixpoint take_str (n : nat) (s : string) : string :=
  match n, s with
  | S n, String a s => String a (take_str n s)
  | _, _ => ""
  end.

(** The loop that drops bytes until the rest is valid. *)
Fixpoint shrinkToValid (n : nat) (s : string) : string :=
  match n with
  | O => ""
  | S n' => if ValidString (take_str n s) then take_str n s else shrinkToValid n' s
  end.

Definition truncateUTF8 (s : string) (maxBytes : Z) : string :=
  if Z.of_nat (String.length s) <=? maxBytes then s
  else if maxBytes <=? 3 then shrinkToValid (Z.to_nat (Z.max maxBytes 0)) s
  else shrinkToValid (Z.to_nat (Z.max (maxBytes - 3) 0)) s +:+ "...".

(** ** Rack sizes partition the cluster *)

Lemma i32_small z : 0 <= z < 2 ^ 31 -> i32 z = z.
Proof. intros Hz. unfold i32, wrap. rewrite Z.mod_small; lia. Qed.

Lemma getRacks_nonempty cluster : getRacks cluster <> [].
Proof. unfold getRacks. by destruct (spec_RackConfig _) as [[[]]|]. Qed.

Definition sumZ : list Z -> Z := foldr Z.add 0.

Lemma sumZ_app l k : sumZ (l ++ k) = sumZ l + sumZ k.
Proof. induction l as [|x l IH]; [done|]. simpl. rewrite IH. lia. Qed.

(** The first [r] of [n] racks get one pod more. *)
Lemma sumZ_split (b r : Z) n :
  0 <= r ->
  sumZ ((fun i => if Z.of_nat i <? r then b + 1 else b) <$> seq 0 n) =
  b * Z.of_nat n + Z.min r (Z.of_nat n).
Proof.
  intros Hr. induction n as [|n IH]; [simpl; lia|].
  rewrite seq_S, fmap_app, sumZ_app, IH. simpl. destruct (Z.ltb_spec (Z.of_nat n) r); lia.
Qed.

Lemma rackSizes_eq cluster racks :
  0 <= spec_Size (cl_Spec cluster) < 2 ^ 31 - 1 -> 0 < Z.of_nat (length racks) < 2 ^ 31 ->
  rackSizes cluster racks =
  (fun i => if Z.of_nat i <? spec_Size (cl_Spec cluster) mod Z.of_nat (length racks)
            then spec_Size (cl_Spec cluster) / Z.of_nat (length racks) + 1
            else spec_Size (cl_Spec cluster) / Z.of_nat (length racks)) <$> seq 0 (length racks).
Proof.
  intros Hs Hn. unfold rackSizes. apply list_fmap_ext. intros i x Hi.
  apply lookup_seq in Hi as [-> Hi]. unfold getRackSize.
  rewrite !(i32_small (Z.of_nat _)) by lia.
  rewrite Z.quot_div_nonneg, Z.rem_mod_nonneg by lia.
  pose proof (Z.div_le_upper_bound (spec_Size (cl_Spec cluster)) (Z.of_nat (length racks))
    (spec_Size (cl_Spec cluster)) ltac:(lia) ltac:(nia)).
  pose proof (Z.div_pos (spec_Size (cl_Spec cluster)) (Z.of_nat (length racks))
    ltac:(lia) ltac:(lia)).
  rewrite i32_small by lia. done.
Qed.

Lemma rackSizes_split cluster :
  0 <= spec_Size (cl_Spec cluster) < 2 ^ 31 - 1 ->
  Z.of_nat (length (getRacks cluster)) < 2 ^ 31 ->
  let sizes := rackSizes cluster (getRacks cluster) in
  sumZ sizes = spec_Size (cl_Spec cluster) /\
  (forall x y, x ∈ sizes -> y ∈ sizes -> Z.abs (x - y) <= 1) /\
  Forall (fun x => 0 <= x) sizes.
Proof.
  intros Hs Hn sizes. subst sizes.
  assert (0 < Z.of_nat (length (getRacks cluster))) as Hp.
  { pose proof (getRacks_nonempty cluster). destruct (getRacks cluster); simpl; [done|lia]. }
  rewrite rackSizes_eq by lia. revert Hp Hn.
  generalize (length (getRacks cluster)). generalize (spec_Size (cl_Spec cluster)), Hs.
  intros z Hz n Hp Hn.
  pose proof (Z.mod_pos_bound z (Z.of_nat n) Hp) as Hm.
  pose proof (Z.div_pos z (Z.of_nat n) ltac:(lia) Hp) as Hd.
  split; [|split].
  - rewrite sumZ_split by lia. pose proof (Z.div_mod z (Z.of_nat n)). lia.
  - intros x y (i & -> & _)%list_elem_of_fmap (j & -> & _)%list_elem_of_fmap.
    repeat case_match; lia.
  - apply Forall_fmap, Forall_forall. intros i _. simpl. case_match; lia.
Qed.

(** C39: the racks share out the size of the cluster: their sizes add up to it, differ
    by at most one and are not negative, for any size and number of racks that fit 32
    bits *)
Theorem rackSizes_partition cluster :
  0 <= spec_Size (cl_Spec cluster) < 2 ^ 31 - 1 ->
  Z.of_nat (length (getRacks cluster)) < 2 ^ 31 ->
  let sizes := rackSizes cluster (getRacks cluster) in
  sumZ sizes = spec_Size (cl_Spec cluster) /\
  (forall x y, x ∈ sizes -> y ∈ sizes -> Z.abs (x - y) <= 1) /\
  Forall (fun x => 0 <= x) sizes.
Proof. apply rackSizes_split. Qed.

(** ** Batch sizes are positive *)

Section BatchLemmas.
Context `{Environment}.

(** The library's percentage of an [int32] stays in range; only then does the
    conversion back to [int32] keep its value. *)
Definition scaled_in_range : Prop :=
  forall s total pct, 0 <= total < 2 ^ 31 -> scaled_value s total = inr pct -> pct < 2 ^ 31.

Lemma resolveIntOrPercent_pos val total :
  scaled_in_range -> 0 <= total < 2 ^ 31 -> 1 <= resolveIntOrPercent val total.
Proof.
  intros Hsc Ht. destruct val as [[v|s]|]; simpl; [|..|lia].
  - destruct (Z.ltb_spec v 1); lia.
  - destruct (scaled_value s total) as [e|pct] eqn:Hp; [lia|].
    destruct (Z.ltb_spec pct 1); [lia|]. rewrite i32_small; [lia|].
    split; [lia|]. by eapply Hsc.
Qed.

Lemma getRollingUpdateBatchSize_pos cluster total :
  scaled_in_range -> 0 <= total < 2 ^ 31 -> 1 <= getRollingUpdateBatchSize cluster total.
Proof.
  intros. unfold getRollingUpdateBatchSize. case_match; [by apply resolveIntOrPercent_pos|].
  case_match; [|lia]. destruct (Z.ltb_spec 0 z); lia.
Qed.

Lemma getScaleDownBatchSize_pos cluster total :
  scaled_in_range -> 1 <= total < 2 ^ 31 -> 1 <= getScaleDownBatchSize cluster total.
Proof.
  intros. unfold getScaleDownBatchSize. case_match; [apply resolveIntOrPercent_pos; [done|lia]|lia].
Qed.

End BatchLemmas.

(** ** Back-off *)

(** The back-off is between two seconds and the maximum: a power of two up to the
    eighth failure, the maximum from the ninth on. *)
Theorem calculateBackoff_bounds n :
  2 * second <= calculateBackoff n <= maxBackoffSeconds * second /\
  (1 <= n <= 8 -> calculateBackoff n = 2 ^ n * second) /\
  (9 <= n -> calculateBackoff n = maxBackoffSeconds * second).
Proof.
  unfold calculateBackoff, defaultReconcileRetryInterval, maxBackoffSeconds.
  pose proof (Z.pow_le_mono_r 2 1 (Z.min n 9)). pose proof (Z.pow_le_mono_r 2 (Z.min n 9) 8).
  destruct (Z.leb_spec n 0); unfold second; [lia|]. repeat split.
  - lia.
  - lia.
  - intros Hn. rewrite !Z.min_l; lia.
  - intros Hn. rewrite (Z.min_r n 9) by lia. lia.
Qed.

Lemma calculateBackoff_mono n m : 1 <= n <= m -> calculateBackoff n <= calculateBackoff m.
Proof.
  intros Hnm. unfold calculateBackoff.
  destruct (Z.leb_spec n 0), (Z.leb_spec m 0); try lia.
  pose proof (Z.pow_le_mono_r 2 (Z.min n 9) (Z.min m 9)). unfold second. lia.
Qed.

(** ** Truncation *)

Lemma length_take_str n s : String.length (take_str n s) = Nat.min n (String.length s).
Proof. revert s. induction n as [|n IH]; intros [|a s]; simpl; [done..|]. by rewrite IH. Qed.

Lemma shrinkToValid_spec n s :
  exists k, (k <= n)%nat /\ shrinkToValid n s = take_str k s /\ ValidString (take_str k s) = true.
Proof.
  induction n as [|n (k & Hk & IH)]; [by exists O|]. cbn [shrinkToValid].
  destruct (ValidString (take_str (S n) s)) eqn:Hv; [by exists (S n)|]. exists k. split; [lia|done].
Qed.

Lemma validFrom_app need s t :
  validFrom need s = true -> ValidString t = true -> validFrom need (s +:+ t) = true.
Proof.
  intros Hs Ht. revert need Hs. induction s as [|a s IH]; intros need Hs.
  - by destruct need.
  - rewrite app_cons. simpl in *. destruct need as [|[lo hi] need].
    + destruct (continuation (N_of_ascii a)); [by apply IH|done].
    + apply andb_true_iff in Hs as [-> Hs]. by apply IH.
Qed.

Lemma continuation_length b need : continuation b = Some need -> (length need <= 3)%nat.
Proof. unfold continuation. repeat case_match; intros [= <-]; simpl; lia. Qed.

(** Cutting a valid string anywhere leaves at most three bytes of a split rune. *)
Lemma validFrom_cut need s n :
  validFrom need s = true -> (length need <= n <= String.length s)%nat ->
  exists k, (n - 3 <= k <= n)%nat /\ (length need <= k)%nat /\ validFrom need (take_str k s) = true.
Proof.
  revert need n. induction s as [|a s IH]; intros need n Hv Hn.
  { exists O. simpl in *. destruct need; [|done]. split_and!; simpl; [lia..|done]. }
  simpl in Hv, Hn. destruct need as [|[lo hi] need]; simpl in Hn.
  - destruct n as [|n]; [exists O; split_and!; simpl; [lia..|done]|].
    destruct (continuation (N_of_ascii a)) as [need|] eqn:Hc; [|done].
    pose proof (continuation_length _ _ Hc).
    destruct (decide (length need <= n)%nat).
    + destruct (IH need n Hv) as (k & Hk & _ & Hv'); [lia|].
      exists (S k). simpl. rewrite Hc. split_and!; [lia..|done].
    + exists O. split_and!; simpl; [lia..|done].
  - destruct n as [|n]; [lia|]. apply andb_true_iff in Hv as [Ha Hv].
    destruct (IH need n Hv) as (k & Hk & Hk' & Hv'); [lia|].
    exists (S k). simpl. rewrite Ha. split_and!; [lia..|done].
Qed.

Lemma shrinkToValid_longest n k s :
  (k <= n)%nat -> ValidString (take_str k s) = true ->
  (Nat.min k (String.length s) <= String.length (shrinkToValid n s))%nat.
Proof.
  intros Hk Hv. induction n as [|n IH]; [simpl; lia|]. cbn [shrinkToValid].
  destruct (ValidString (take_str (S n) s)) eqn:Hv'; [rewrite length_take_str; lia|].
  apply IH. destruct (decide (k = S n)) as [->|]; [congruence|lia].
Qed.

Lemma shrinkToValid_length n s :
  ValidString s = true -> (n <= String.length s)%nat ->
  (n - 3 <= String.length (shrinkToValid n s))%nat.
Proof.
  intros Hv Hn. destruct (validFrom_cut [] s n Hv) as (k & Hk & _ & Hv'); [simpl; lia|].
  pose proof (shrinkToValid_longest n k s ltac:(lia) Hv'). lia.
Qed.

(** Truncation respects the limit, keeps short texts, and of a valid text keeps a valid
    prefix of nearly full length. *)
Theorem truncateUTF8_spec s maxBytes :
  0 <= maxBytes ->
  let t := truncateUTF8 s maxBytes in
  Z.of_nat (String.length t) <= maxBytes /\
  (Z.of_nat (String.length s) <= maxBytes -> t = s) /\
  (ValidString s = true ->
   ValidString t = true /\ Z.min maxBytes (Z.of_nat (String.length s)) - 3 <= Z.of_nat (String.length t)).
Proof.
  intros Hm t. subst t. unfold truncateUTF8.
  destruct (Z.leb_spec (Z.of_nat (String.length s)) maxBytes); [split_and!; [lia|done|split; [done|lia]]|].
  destruct (Z.leb_spec maxBytes 3).
  - destruct (shrinkToValid_spec (Z.to_nat (Z.max maxBytes 0)) s) as (k & Hk & He & Hv).
    rewrite He, length_take_str. split_and!; [lia..|]. split; [done|lia].
  - destruct (shrinkToValid_spec (Z.to_nat (Z.max (maxBytes - 3) 0)) s) as (k & Hk & He & Hv).
    split_and!; [rewrite He, length_app_str, length_take_str; simpl; lia|lia|].
    intros Hs. split; [rewrite He; by apply validFrom_app|].
    pose proof (shrinkToValid_length (Z.to_nat (Z.max (maxBytes - 3) 0)) s Hs).
    rewrite length_app_str. simpl. lia.
Qed.

(** The message of a failed reconcile, cut to 256 bytes inside a two-byte rune. *)
Lemma truncateUTF8_spec_witness :
  let s := String "a" (repeat_str (String "195" (String "169" "")) 130) in
  let t := truncateUTF8 s 256 in
  Z.of_nat (String.length t) <= 256 /\
  (Z.of_nat (String.length s) <= 256 -> t = s) /\
  (ValidString s = true ->
   ValidString t = true /\ Z.min 256 (Z.of_nat (String.length s)) - 3 <= Z.of_nat (String.length t)).
Proof. intros s. apply (truncateUTF8_spec s 256). lia. Defined.

Definition example_spec (size : Z) (rc : option RackConfig) : AerospikeClusterSpec :=
  (emptySpec size "aerospike:ce-8.1.1.1") <| spec_RackConfig := rc |>.

Definition example_status : AerospikeClusterStatus :=
  mkStatus PhaseUnset "" 0 0 "" [] ∅ 0 "" None None None 0 "" [] None None 0 "" None "" "".

Definition example_cluster (size : Z) (rc : option RackConfig) : AerospikeCluster :=
  mkCluster "demo" "default" "uid-1" 1 1 None [StorageFinalizer] [] (example_spec size rc) example_status.

(** Seven pods over three racks: 3, 2 and 2. *)
Lemma rackSizes_partition_witness :
  let cluster := example_cluster 7 (Some (mkRackConfig
    [plainRack 1; plainRack 2; plainRack 3] None None None [])) in
  let sizes := rackSizes cluster (getRacks cluster) in
  sizes = [3; 2; 2] /\
  (sumZ sizes = spec_Size (cl_Spec cluster) /\
   (forall x y, x ∈ sizes -> y ∈ sizes -> Z.abs (x - y) <= 1) /\ Forall (fun x => 0 <= x) sizes).
Proof. intros cluster. split; [done|]. apply (rackSizes_partition cluster); simpl; lia. Defined.
