(* ===== verification/Readiness.v ===== *)
(** * Pod readiness gates

    internal/controller/reconciler_readiness_gate.go: the custom pod condition
    acko.io/aerospike-ready, which holds a rolling restart until a restarted
    node has joined the mesh and migrations are over. *)

From S2P Require Import Prelude GoValue Utils Api Events Kube Aero.

Definition AerospikeReadinessGateConditionType := "acko.io/aerospike-ready".

(** [isReadinessGateEnabled]. *)
Definition isReadinessGateEnabled (cluster : AerospikeCluster) : bool :=
  bool_decide (spec_PodSpec (cl_Spec cluster) ≫= ps_ReadinessGateEnabled = Some true).

(** [podHasReadinessGate]. *)
Definition podHasReadinessGate (pod : Pod) : bool :=
  existsb (fun g => bool_decide (g = AerospikeReadinessGateConditionType)) (pod_ReadinessGates pod).

(** [findPodReadinessCondition]: [None] when the condition does not exist. *)
Definition findPodReadinessCondition (pod : Pod) : option bool :=
  '(_, c) ← list_find (fun c => pc_Type c = AerospikeReadinessGateConditionType) (pod_Conditions pod);
  Some (bool_decide (pc_Status c = ConditionTrue)).

(** [upsertPodCondition]: in place, or appended; the transition time only moves
    with the status. *)
Fixpoint upsertCondition (conds : list PodCondition) (newCond : PodCondition) : list PodCondition :=
  match conds with
  | [] => [newCond]
  | cond :: conds =>
      if decide (pc_Type cond = pc_Type newCond) then
        (if decide (pc_Status cond = pc_Status newCond)
         then newCond <| pc_LastTransitionTime := pc_LastTransitionTime cond |>
         else newCond) :: conds
      else cond :: upsertCondition conds newCond
  end.

Definition upsertPodCondition (pod : Pod) (newCond : PodCondition) : Pod :=
  pod <| pod_Conditions ::= fun conds => upsertCondition conds newCond |>.

(** [isPodReadinessGateSatisfied]: pods without the gate count as satisfied. *)
Definition isPodReadinessGateSatisfied (cluster : AerospikeCluster) (pod : Pod) : bool :=
  if negb (isReadinessGateEnabled cluster) then true
  else if negb (podHasReadinessGate pod) then true
  else default false (findPodReadinessCondition pod).

(** [anyPodGateUnsatisfied]: the name of the first running, non-terminating pod
    whose gate is not satisfied. *)
Fixpoint anyPodGateUnsatisfied (cluster : AerospikeCluster) (rackPods : list Pod) : option string :=
  match rackPods with
  | [] => None
  | pod :: rackPods =>
      if decide (pod_Phase pod <> PodRunning) then anyPodGateUnsatisfied cluster rackPods
      else if decide (is_Some (pod_DeletionTimestamp pod)) then anyPodGateUnsatisfied cluster rackPods
      else if negb (isPodReadinessGateSatisfied cluster pod) then Some (pod_Name pod)
      else anyPodGateUnsatisfied cluster rackPods
  end.

(** [findNodeForPod] (reconciler_dynamic_config.go): by pod IP, never a fallback. *)
Definition findNodeForPod (client : list AeroNode) (pod : Pod) : option AeroNode :=
  if decide (pod_PodIP pod = "") then None
  else snd <$> list_find (fun n => node_Host n = Some (pod_PodIP pod)) client.

Section Readiness.
Context `{Environment}.

Definition gateCondition (satisfied : bool) (t : Z) : PodCondition :=
  if satisfied then
    mkPodCondition AerospikeReadinessGateConditionType ConditionTrue t "AerospikeReady"
      "Aerospike has joined the cluster mesh and all data migrations are complete"
  else
    mkPodCondition AerospikeReadinessGateConditionType ConditionFalse t "MigrationsInProgress"
      "Aerospike has not joined the cluster mesh or data migrations are still in progress".

(** [patchPodReadinessCondition]: a merge patch replaces the condition list as a whole. *)
Definition patchPodReadinessCondition (pod : Pod) (satisfied : bool) : M () :=
  t ← now;
  let podCopy := upsertPodCondition pod (gateCondition satisfied t) in
  patchPod (APodCondition (pod_Name pod)) (pod_Name pod)
    (fun p => p <| pod_Conditions := pod_Conditions podCopy |>).

(** [syncPodReadinessGate]: [migrating] is the cluster-wide answer, or its error. *)
Definition gateDesired (client : list AeroNode) (pod : Pod) (migrating : goerr + bool) : bool :=
  match findNodeForPod client pod, migrating with
  | Some _, inr m => negb m
  | _, _ => false
  end.

Definition syncPodReadinessGate (pod : Pod) (client : list AeroNode) (migrating : goerr + bool) : M () :=
  if negb (podHasReadinessGate pod) then mret ()
  else
    let satisfied := gateDesired client pod migrating in
    if decide (findPodReadinessCondition pod = Some satisfied) then mret ()
    else
      _ ← (if satisfied then record false EventReadinessGateSatisfied else mret ());
      patchPodReadinessCondition pod satisfied.

(** [syncAllPodsReadinessGates]: an unreachable cluster leaves every gate as it is. *)
Definition syncAllPodsReadinessGates (cluster : AerospikeCluster) : M () :=
  if negb (isReadinessGateEnabled cluster) then mret ()
  else
    podList ← listPods (SelectorLabelsForCluster (cl_Name cluster));
    r ← try (getAerospikeClient cluster);
    match r with
    | inl _ => mret ()
    | inr client =>
        migrating ← try (isMigratingOnAnyNode client);
        forM_ podList (fun pod =>
          if decide (pod_Phase pod <> PodRunning) then mret ()
          else if decide (is_Some (pod_DeletionTimestamp pod)) then mret ()
          else ignore (syncPodReadinessGate pod client migrating))
    end.

(** ** Properties *)

Lemma anyPodGateUnsatisfied_None cluster pods :
  anyPodGateUnsatisfied cluster pods = None <->
  forall pod, pod ∈ pods -> pod_Phase pod = PodRunning -> pod_DeletionTimestamp pod = None ->
    isPodReadinessGateSatisfied cluster pod = true.
Proof.
  induction pods as [|p pods IH]; [split; [by intros _ ? ?%not_elem_of_nil|done]|].
  cbn [anyPodGateUnsatisfied]. setoid_rewrite elem_of_cons.
  case_decide as Hph; [rewrite IH; naive_solver|].
  case_decide as Hd; [rewrite IH|].
  - split; [|naive_solver]. intros Hp pod [->|Hin] ? Hn; [|by apply Hp]. rewrite Hn in Hd. by destruct Hd.
  - destruct (isPodReadinessGateSatisfied cluster p) eqn:Hg; simpl.
    + rewrite IH. naive_solver.
    + split; [done|]. intros Hp. rewrite Hp in Hg; [done|by left| |].
      * destruct (decide (pod_Phase p = PodRunning)); [done|]. by destruct Hph.
      * destruct (pod_DeletionTimestamp p); [destruct Hd; eauto|done].
Qed.

(** The gate is only ever set to True for a pod whose node is in the mesh while
    the migration check answered "no". *)
Lemma gateDesired_true client pod migrating :
  gateDesired client pod migrating = true <->
  (exists n, findNodeForPod client pod = Some n) /\ migrating = inr false.
Proof.
  unfold gateDesired. destruct (findNodeForPod client pod), migrating as [|[]]; naive_solver.
Qed.

(** After the upsert the new condition is found, up to its transition time. *)
Lemma upsertCondition_find conds c :
  exists t, snd <$> list_find (fun x => pc_Type x = pc_Type c) (upsertCondition conds c) =
    Some (c <| pc_LastTransitionTime := t |>).
Proof.
  induction conds as [|x conds [t IH]]; simpl.
  - exists (pc_LastTransitionTime c). rewrite decide_True by done. by destruct c.
  - case_decide as Ht.
    + case_decide.
      * exists (pc_LastTransitionTime x). simpl. by rewrite decide_True.
      * exists (pc_LastTransitionTime c). simpl. rewrite decide_True by done. by destruct c.
    + exists t. simpl. rewrite decide_False by done.
      destruct (list_find _ (upsertCondition conds c)) as [[]|]; simpl in *; [done|done].
Qed.

(** The gate published on a pod is the one that was decided. *)
Lemma upsertPodCondition_gate pod satisfied t :
  findPodReadinessCondition (upsertPodCondition pod (gateCondition satisfied t)) = Some satisfied.
Proof.
  unfold findPodReadinessCondition, upsertPodCondition.
  destruct (upsertCondition_find (pod_Conditions pod) (gateCondition satisfied t)) as [t' Hf].
  replace (pc_Type (gateCondition satisfied t)) with AerospikeReadinessGateConditionType in Hf
    by by destruct satisfied.
  simpl. destruct (list_find _ _) as [[i c]|]; [|done]. simpl in *. injection Hf as ->.
  by destruct satisfied.
Qed.

End Readiness.
