(* ===== verification/Status.v ===== *)
(** * The status of the custom resource

    internal/controller/reconciler_status.go: conditions, the per-pod status,
    the status published at the end of a reconcile with its retry on conflict,
    the migration statistics and the ConfigDegraded transition.  The queries of
    [collectAerospikeInfo], which the program runs concurrently on different
    nodes, are made in the order of the nodes. *)

From S2P Require Import Prelude GoValue Utils Api Metrics Events Kube Aero Sizing Readiness.

(** ** Conditions *)

Definition conditionStatus (b : bool) : ConditionStatus := if b then ConditionTrue else ConditionFalse.

(** [setCondition] on the list of conditions of a cluster at generation [gen]:
    in place or appended, with the transition time kept while the status stays. *)
Fixpoint setConditionIn (t gen : Z) (condType : string) (status : bool) (reason message : string)
    (conds : list Condition) : list Condition :=
  let condStatus := conditionStatus status in
  match conds with
  | [] => [mkCondition condType condStatus gen reason message t]
  | existing :: conds =>
      if decide (c_Type existing = condType) then
        let lastTransition :=
          if decide (c_Status existing = condStatus) then c_LastTransitionTime existing else t in
        (if decide (c_Status existing <> condStatus \/ c_ObservedGeneration existing <> gen \/
                    c_Reason existing <> reason \/ c_Message existing <> message)
         then mkCondition condType condStatus gen reason message lastTransition
         else existing) :: conds
      else existing :: setConditionIn t gen condType status reason message conds
  end.

Definition setCondition (t : Z) (cluster : AerospikeCluster) (condType : string) (status : bool)
    (reason message : string) : AerospikeCluster :=
  cluster <| cl_Status ::= fun s => s <| st_Conditions ::=
    setConditionIn t (cl_Generation cluster) condType status reason message |> |>.

(** [removeCondition]. *)
Definition removeCondition (cluster : AerospikeCluster) (condType : string) : AerospikeCluster :=
  cluster <| cl_Status ::= fun s => s <| st_Conditions ::= filter (fun c => c_Type c <> condType) |> |>.

Record StatusUpdateOpts := mkOpts {
  opt_ACLErr : option goerr;
  opt_ACLSynced : bool;
  opt_RestartInProgress : bool;
  opt_Paused : bool;
  opt_ValidConfigHashes : option (gset string)
}.

Section Status.
Context `{Environment}.

Definition ShortSHA256 (v : any) : string := sha256_json v.

(** [configHash]: a nil configuration has the empty hash. *)
Definition configHash (config : option (gomap any)) : string :=
  match config with None => "" | Some value => ShortSHA256 (AMap value) end.

(** [setFineGrainedConditions], starting with whether every pod carries an
    accepted configuration hash. *)
Definition configApplied (pods : gmap string AerospikePodStatus) (spec : AerospikeClusterSpec)
    (o : StatusUpdateOpts) : bool :=
  let pods := (map_to_list pods).*2 in
  bool_decide (pods <> []) &&
  match opt_ValidConfigHashes o with
  | Some valid => forallb (fun ps => bool_decide (ps_ConfigHash ps ∈ valid)) pods
  | None =>
      let desiredHash := configHash (spec_AerospikeConfig spec) in
      forallb (fun ps => bool_decide (ps_ConfigHash ps = desiredHash)) pods
  end.

Definition allConfigApplied (cluster : AerospikeCluster) (o : StatusUpdateOpts) : bool :=
  configApplied (st_Pods (cl_Status cluster)) (cl_Spec cluster) o.

Definition setFineGrainedConditions (t : Z) (cluster : AerospikeCluster) (o : StatusUpdateOpts)
    : AerospikeCluster :=
  let cluster :=
    if allConfigApplied cluster o then
      setCondition t cluster ConditionConfigApplied true
        "ConfigApplied" "All pods have the desired Aerospike configuration"
    else
      setCondition t cluster ConditionConfigApplied false
        "ConfigPending" "One or more pods do not yet have the desired configuration" in
  let cluster :=
    if opt_Paused o then
      setCondition t cluster ConditionReconciliationPaused true
        "ReconciliationPaused" "Reconciliation is paused by user (spec.paused=true)"
    else
      setCondition t cluster ConditionReconciliationPaused false
        "ReconciliationActive" "Reconciliation is active" in
  let cluster :=
    match spec_AerospikeAccessControl (cl_Spec cluster) with
    | None => removeCondition cluster ConditionACLSynced
    | Some _ =>
        match opt_ACLErr o with
        | Some e => setCondition t cluster ConditionACLSynced false "ACLSyncFailed" (err_msg e)
        | None =>
            if opt_ACLSynced o then
              setCondition t cluster ConditionACLSynced true
                "ACLSyncSucceeded" "ACL roles and users are synchronized"
            else
              setCondition t cluster ConditionACLSynced false
                "ACLSyncPending" "ACL sync skipped: no ready pods available"
        end
    end in
  let cluster :=
    if decide (st_Phase (cl_Status cluster) = PhaseConfigDegraded) then cluster
    else removeCondition cluster ConditionDynamicConfigDegraded in
  if opt_RestartInProgress o then
    setCondition t cluster ConditionMigrationComplete false "MigrationComplete" "Rolling restart in progress"
  else
    setCondition t cluster ConditionMigrationComplete true "MigrationComplete" "No rolling restart in progress".

(** ** Skipping updates that change nothing *)

(** The stable fields of a condition, as compared by [conditionsChanged]. *)
Definition conditionSnapshot : Type := ConditionStatus * Z * string * string.

Definition snapshotOf (c : Condition) : conditionSnapshot :=
  (c_Status c, c_ObservedGeneration c, c_Reason c, c_Message c).

(** [conditionsSnapshot]: of two conditions of one type the last one is kept. *)
Definition conditionsSnapshot (conds : list Condition) : gmap string conditionSnapshot :=
  foldl (fun m c => <[c_Type c := snapshotOf c]> m) ∅ conds.

(** [conditionsChanged]. *)
Definition conditionsChanged (prev : gmap string conditionSnapshot) (cur : list Condition) : bool :=
  negb (bool_decide (size prev = length cur) &&
        forallb (fun c => bool_decide (prev !! c_Type c = Some (snapshotOf c))) cur).

Record statusSnapshot := mkSnapshot {
  ss_Phase : AerospikePhase; ss_PhaseReason : string; ss_Size : Z; ss_Replicas : Z;
  ss_Health : string; ss_Generation : Z; ss_Selector : string;
  ss_Pods : gmap string AerospikePodStatus; ss_Conditions : gmap string conditionSnapshot
}.

Definition takeSnapshot (latest : AerospikeCluster) : statusSnapshot :=
  let s := cl_Status latest in
  mkSnapshot (st_Phase s) (st_PhaseReason s) (st_Size s) (st_Replicas s) (st_Health s)
    (st_ObservedGeneration s) (st_Selector s) (st_Pods s) (conditionsSnapshot (st_Conditions s)).

(** [statusUnchanged]. *)
Definition statusUnchanged (prev : statusSnapshot) (latest : AerospikeCluster) (readyCount : Z)
    (phase : AerospikePhase) (phaseReason : string) : bool :=
  bool_decide (ss_Phase prev = phase) && bool_decide (ss_PhaseReason prev = phaseReason) &&
  (ss_Size prev =? readyCount) && (ss_Replicas prev =? st_Replicas (cl_Status latest)) &&
  bool_decide (ss_Health prev = st_Health (cl_Status latest)) &&
  (ss_Generation prev =? cl_Generation latest) &&
  bool_decide (ss_Selector prev = st_Selector (cl_Status latest)) &&
  negb (conditionsChanged (ss_Conditions prev) (st_Conditions (cl_Status latest))) &&
  bool_decide (ss_Pods prev = st_Pods (cl_Status latest)).

(** ** Pod status *)

(** [countsAsReplica]. *)
Definition countsAsReplica (pod : Pod) : bool :=
  match pod_DeletionTimestamp pod with
  | Some _ => false
  | None => negb (bool_decide (pod_Phase pod = PodFailed))
  end.

(** The image of the Aerospike container, if the pod has one. *)
Definition containerImage (pod : Pod) : option string :=
  snd <$> (snd <$> list_find (fun c => c.1 = AerospikeContainerName) (pod_Containers pod)).

(** [buildPodStatus]. *)
Definition buildPodStatus (t : Z) (pod : Pod) (prev : AerospikePodStatus) (specImage : string)
    (servicePort rackID : Z) : AerospikePodStatus :=
  let isReady := isPodReady pod in
  {| ps_PodIP := pod_PodIP pod;
     ps_HostIP := pod_HostIP pod;
     ps_Image := default specImage (containerImage pod);
     ps_PodPort := servicePort;
     ps_ServicePort := servicePort;
     ps_Rack := rackID;
     ps_InitializedVolumes := ps_InitializedVolumes prev;
     ps_IsRunningAndReady := isReady;
     ps_ConfigHash := lookup_str ConfigHashAnnotation (pod_Annotations pod);
     ps_PodSpecHash := lookup_str PodSpecHashAnnotation (pod_Annotations pod);
     ps_DynamicConfigStatus := ps_DynamicConfigStatus prev;
     ps_DynamicConfigChanges := ps_DynamicConfigChanges prev;
     ps_DirtyVolumes := if isReady then [] else ps_DirtyVolumes prev;
     ps_NodeID := ps_NodeID prev;
     ps_ClusterName := ps_ClusterName prev;
     ps_AccessEndpoints := ps_AccessEndpoints prev;
     ps_ReadinessGateSatisfied := default false (findPodReadinessCondition pod);
     ps_LastRestartReason := ps_LastRestartReason prev;
     ps_LastRestartTime := ps_LastRestartTime prev;
     ps_UnstableSince := if isReady then None else Some (default t (ps_UnstableSince prev));
     ps_MigratingPartitions := ps_MigratingPartitions prev |}.

(** [buildSelectorString]: sorted key=value pairs. *)
Definition buildSelectorString (labels : gomap string) : string :=
  join "," ((fun k => k +:+ "=" +:+ lookup_str k labels) <$> sortedKeys labels).

(** The rack a pod belongs to: its label, or 0 when absent or not a number. *)
Definition podRackID (pod : Pod) : Z :=
  match map_get RackLabel (pod_Labels pod) with
  | Some rackStr => default 0 (atoi rackStr)
  | None => 0
  end.

(** The part of [populateStatus] after the pods have been listed. *)
Definition populateFrom (t : Z) (cluster : AerospikeCluster) (pods : list Pod) : AerospikeCluster * Z :=
  let servicePort := i32 (getServicePort cluster) in
  let prevPods := st_Pods (cl_Status cluster) in
  let podStatuses := foldl (fun m pod =>
    <[pod_Name pod := buildPodStatus t pod (default zeroPodStatus (prevPods !! pod_Name pod))
        (spec_Image (cl_Spec cluster)) servicePort (podRackID pod)]> m) ∅ pods in
  let readyCount := i32 (Z.of_nat (length (filter (fun p => isPodReady p = true) pods))) in
  let replicaCount := i32 (Z.of_nat (length (filter (fun p => countsAsReplica p = true) pods))) in
  let size := spec_Size (cl_Spec cluster) in
  let health := pretty readyCount +:+ "/" +:+ pretty size in
  let cluster := cluster <| cl_Status ::= fun s =>
    s <| st_Pods := podStatuses |> <| st_Size := readyCount |> <| st_Replicas := replicaCount |>
      <| st_Health := health |>
      <| st_ObservedGeneration := cl_Generation cluster |>
      <| st_AerospikeConfig := spec_AerospikeConfig (cl_Spec cluster) |>
      <| st_Selector := buildSelectorString (SelectorLabelsForCluster (cl_Name cluster)) |> |> in
  let cluster := setCondition t cluster ConditionAvailable (0 <? readyCount)
    "ClusterAvailable" "At least one pod is ready" in
  let cluster := setCondition t cluster ConditionReady (readyCount =? size)
    "AllPodsReady" (health +:+ " pods ready") in
  (cluster, readyCount).

Definition listClusterPods (cluster : AerospikeCluster) : M (list Pod) :=
  listPods (SelectorLabelsForCluster (cl_Name cluster)).

(** [populateStatus]. *)
Definition populateStatus (cluster : AerospikeCluster) : M (AerospikeCluster * Z) :=
  pods ← listClusterPods cluster; t ← now; mret (populateFrom t cluster pods).

(** ** Migration statistics *)

(** Pod names by IP; of two pods with one IP the one visited last is kept. *)
Definition podIPToPodName (cluster : AerospikeCluster) : gmap string string :=
  map_fold (fun name ps m => if decide (ps_PodIP ps = "") then m else <[ps_PodIP ps := name]> m)
    ∅ (st_Pods (cl_Status cluster)).

(** [applyMigrationStats]: an empty map leaves everything as it is. *)
Definition applyMigrationStats (t : Z) (cluster : AerospikeCluster) (perNode : gmap string Z)
    : AerospikeCluster :=
  if decide (perNode = ∅) then cluster
  else
    let names := podIPToPodName cluster in
    let '(totalRemaining, anyMigrating, pods) :=
      map_fold (fun nodeIP remaining '(total, any, pods) =>
        (i64 (total + remaining), any || (0 <? remaining),
         match names !! nodeIP with
         | Some name => alter (fun ps => ps <| ps_MigratingPartitions := Some remaining |>) name pods
         | None => pods
         end)) (0, false, st_Pods (cl_Status cluster)) perNode in
    let pods := (fun ps => match perNode !! ps_PodIP ps with
                           | Some _ => ps
                           | None => ps <| ps_MigratingPartitions := None |>
                           end) <$> pods in
    let cluster := cluster <$ st_Pods := pods $>
      <$ st_MigrationStatus := Some (mkMigrationStatus anyMigrating totalRemaining t) $> in
    setCondition t cluster ConditionMigrationComplete (negb anyMigrating)
      "MigrationComplete" ("Remaining partitions: " +:+ pretty totalRemaining).

(** ** Enrichment from Aerospike and from services *)

Definition aeroPodInfo : Type := string * string * list string.

(** [parseServiceEndpoints]. *)
Definition parseServiceEndpoints (serviceStr : string) : list string :=
  filter (fun p => p <> "") (trim_space <$> split_on ";" (trim_space serviceStr)).

(** The queries made for one node; a failed one leaves its field empty. *)
Definition nodeInfo (node : AeroNode) : M aeroPodInfo :=
  nodeID ← try (asinfoCommandOnNode node "node");
  clusterName ← try (asinfoCommandOnNode node "cluster-name");
  service ← try (asinfoCommandOnNode node "service");
  mret (match nodeID with inr s => trim_space s | inl _ => "" end,
        match clusterName with inr s => trim_space s | inl _ => "" end,
        match service with inr s => parseServiceEndpoints s | inl _ => [] end).

(** [collectAerospikeInfo], keyed by pod name. *)
Definition collectAerospikeInfo (client : list AeroNode) (cluster : AerospikeCluster)
    : M (gmap string aeroPodInfo) :=
  let names := podIPToPodName cluster in
  foldM (fun m node =>
    match node_Host node ≫= fun host => names !! host with
    | None => mret m
    | Some name => info ← nodeInfo node; mret (<[name := info]> m)
    end) ∅ client.

(** [enrichStatusWithAerospikeInfo]: every query is best effort. *)
Definition applyInfo (m : gmap string aeroPodInfo) (cluster : AerospikeCluster) : AerospikeCluster :=
  cluster <| cl_Status ::= fun s => s <| st_Pods ::= fun pods =>
    map_imap (fun name ps => Some (match m !! name with
      | Some (nodeID, clusterName, endpoints) =>
          ps <| ps_NodeID := nodeID |> <| ps_ClusterName := clusterName |>
             <| ps_AccessEndpoints := endpoints |>
      | None => ps
      end)) pods |> |>.

Definition enrichStatusWithAerospikeInfo (cluster : AerospikeCluster) : M AerospikeCluster :=
  r ← try (getAerospikeClient cluster);
  match r with
  | inl _ => mret cluster
  | inr client =>
      info ← collectAerospikeInfo client cluster;
      let cluster := applyInfo info cluster in
      size ← try (clusterSize client);
      let cluster := match size with
                     | inl _ => cluster
                     | inr n => cluster <$ st_AerospikeClusterSize := i32 n $>
                     end in
      perNode ← try (migrateStatsPerNode client);
      t ← now;
      mret (match perNode with inl _ => cluster | inr m => applyMigrationStats t cluster m end)
  end.

(** [externalEndpoint]. *)
Definition ingressHost (ing : string * string) : string := if decide (ing.1 = "") then ing.2 else ing.1.

Definition externalEndpoint (svc : Service) : string :=
  match svc_Ports svc with
  | [] => ""
  | sp :: _ =>
      match svc_Type svc with
      | ServiceTypeLoadBalancer =>
          match list_find (fun ing => ingressHost ing <> "") (svc_Ingress svc) with
          | Some (_, ing) => ingressHost ing +:+ ":" +:+ pretty (sp_Port sp)
          | None => ""
          end
      | ServiceTypeNodePort => if 0 <? sp_NodePort sp then "<node-ip>:" +:+ pretty (sp_NodePort sp) else ""
      | _ => ""
      end
  end.

Definition podServiceLabel := "acko.io/pod-service".
Definition seedsFinderServiceName (clusterName : string) : string := clusterName +:+ "-seeds-lb".

(** [populateExternalEndpoints]. *)
Definition populateExternalEndpoints (cluster : AerospikeCluster) : M AerospikeCluster :=
  svcs ← try (listServices (SelectorLabelsForCluster (cl_Name cluster)) podServiceLabel);
  let endpoints := match svcs with
                   | inl _ => []
                   | inr l => filter (fun e => e <> "") (externalEndpoint <$> l)
                   end in
  seeds ← try (getObj (T := Service) (seedsFinderServiceName (cl_Name cluster)));
  mret (cluster <$ st_Endpoints := join "," (merge_sort String.le endpoints) $>
          <$ st_SeedsEndpoint := match seeds with inl _ => "" | inr svc => externalEndpoint svc end $>).

(** ** Publishing the status *)

Definition operatorVersion := "unknown".

(** The additions of a reconcile that reached Completed. *)
Definition completeStatus (phase : AerospikePhase) (latest : AerospikeCluster) : M AerospikeCluster :=
  if decide (phase = PhaseCompleted) then
    t ← now;
    latest ← enrichStatusWithAerospikeInfo
      (latest <$ st_AppliedSpec := Some (cl_Spec latest) $>
              <$ st_OperatorVersion := operatorVersion $>
              <$ st_LastReconcileTime := Some t $>
              <$ st_PendingRestartPods := [] $>);
    populateExternalEndpoints latest
  else mret latest.

(** The status computed for one fetched object. *)
Definition withPhase (phase : AerospikePhase) (reason : string) (c : AerospikeCluster) : AerospikeCluster :=
  c <$ st_Phase := phase $> <$ st_PhaseReason := reason $>.

(** One attempt of the final write.  On a conflict the status is recomputed on
    the refetched object, but the observed generation stays the one this
    reconcile has processed. *)
Definition statusWriteAttempt (phase : AerospikePhase) (reason : string) (opts : StatusUpdateOpts)
    (computedGeneration : Z) (latest : AerospikeCluster) : M (AerospikeCluster * option goerr) :=
  r ← try (updateStatus latest);
  match r with
  | inr _ => mret (latest, None)
  | inl e =>
      if negb (IsConflict e) then mret (latest, Some e)
      else
        rf ← try (refetched ← refetchCluster; populateStatus refetched);
        match rf with
        | inl fetchErr => mret (latest, Some fetchErr)
        | inr (refetched, _) =>
            t ← now;
            refetched ← completeStatus phase
              (setFineGrainedConditions t (withPhase phase reason refetched) opts);
            mret (refetched <$ st_ObservedGeneration := computedGeneration $>, Some e)
        end
  end.

Fixpoint statusWrite (again : nat) (phase : AerospikePhase) (reason : string) (opts : StatusUpdateOpts)
    (computedGeneration : Z) (latest : AerospikeCluster) : M () :=
  '(latest, r) ← statusWriteAttempt phase reason opts computedGeneration latest;
  match r with
  | None => mret ()
  | Some e =>
      if IsConflict e then
        match again with
        | O => raise e
        | S again => statusWrite again phase reason opts computedGeneration latest
        end
      else raise e
  end.

(** The gauges that show a status about to be written. *)
Definition publishStatus (phase : AerospikePhase) (readyCount : Z) (latest : AerospikeCluster) : M () :=
  _ ← setGauge ClusterPhase latest (PhaseToFloat (phaseName phase));
  _ ← setGauge ClusterReadyPods latest readyCount;
  _ ← (match st_LastReconcileTime (cl_Status latest) with
       | Some t => setGauge LastReconcileTimestamp latest (t / second)
       | None => mret ()
       end);
  _ ← setGauge ClusterASSize latest (st_AerospikeClusterSize (cl_Status latest));
  match st_MigrationStatus (cl_Status latest) with
  | Some m => setGauge ClusterMigratingPartitions latest (ms_RemainingPartitions m)
  | None => mret ()
  end.

(** [updateStatusAndPhase]. *)
Definition updateStatusAndPhase (phase : AerospikePhase) (phaseReason : string)
    (opts : StatusUpdateOpts) : M () :=
  latest ← refetchCluster;
  let prev := takeSnapshot latest in
  '(latest, readyCount) ← populateStatus latest;
  t ← now;
  let latest := setFineGrainedConditions t (withPhase phase phaseReason latest) opts in
  if statusUnchanged prev latest readyCount phase phaseReason then mret ()
  else
    latest ← completeStatus phase latest;
    _ ← publishStatus phase readyCount latest;
    statusWrite retry_again phase phaseReason opts (st_ObservedGeneration (cl_Status latest)) latest.

(** [setConfigDegraded]. *)
Definition degradedReason (failedPods : list string) : string :=
  "Dynamic config rollback failed on pods: " +:+ join ", " failedPods.

Definition degradedMessage (failedPods : list string) : string :=
  "Dynamic config rollback failed on " +:+ pretty (Z.of_nat (length failedPods)) +:+ " pod(s): "
  +:+ join ", " failedPods +:+ ". Cold restart required.".

Definition setConfigDegraded (failedPods : list string) : M () :=
  ignore (
    latest ← refetchCluster; t ← now;
    let new := setCondition t (withPhase PhaseConfigDegraded (degradedReason failedPods) latest)
                 ConditionDynamicConfigDegraded true "RollbackFailed" (degradedMessage failedPods) in
    _ ← patchStatus (fun s => s <| st_Phase := PhaseConfigDegraded |>
                                <| st_PhaseReason := degradedReason failedPods |>
                                <| st_Conditions := st_Conditions (cl_Status new) |>);
    _ ← setGauge ClusterPhase latest (PhaseToFloat (phaseName PhaseConfigDegraded));
    record true EventDynamicConfigDegraded).

End Status.

(** ** Properties of conditions *)

Definition getCondition (condType : string) (conds : list Condition) : option Condition :=
  snd <$> list_find (fun c => c_Type c = condType) conds.

Definition condition_types (conds : list Condition) : list string := c_Type <$> conds.

Lemma getCondition_cons ty c conds :
  getCondition ty (c :: conds) = if decide (c_Type c = ty) then Some c else getCondition ty conds.
Proof.
  unfold getCondition. simpl. case_decide; [done|].
  by destruct (list_find _ conds) as [[]|].
Qed.

Lemma setConditionIn_same t gen ty b reason message conds :
  getCondition ty (setConditionIn t gen ty b reason message conds) =
  Some (mkCondition ty (conditionStatus b) gen reason message
    (match getCondition ty conds with
     | Some old => if decide (c_Status old = conditionStatus b) then c_LastTransitionTime old else t
     | None => t
     end)).
Proof.
  induction conds as [|c conds IH]; simpl.
  - rewrite getCondition_cons. simpl. by rewrite decide_True.
  - rewrite getCondition_cons. destruct (decide (c_Type c = ty)) as [Ht|Ht].
    + rewrite getCondition_cons. destruct (decide (_ \/ _)) as [Hc|Hc].
      * simpl. by rewrite decide_True.
      * rewrite decide_True by done. f_equal. destruct c as [ty' st g r m lt]; simpl in *.
        destruct (decide (st = conditionStatus b)), (decide (g = gen)), (decide (r = reason)),
          (decide (m = message)); subst; tauto.
    + rewrite getCondition_cons. rewrite decide_False by done. done.
Qed.

Lemma setConditionIn_other t gen ty ty' b reason message conds :
  ty' <> ty ->
  getCondition ty' (setConditionIn t gen ty b reason message conds) = getCondition ty' conds.
Proof.
  intros Hne. induction conds as [|c conds IH]; simpl.
  - rewrite getCondition_cons. simpl. by rewrite decide_False.
  - destruct (decide (c_Type c = ty)) as [Ht|Ht]; rewrite !getCondition_cons; [|by rewrite IH].
    rewrite (decide_False (P := c_Type c = ty')) by congruence.
    destruct (decide (_ \/ _)); simpl; by rewrite decide_False by congruence.
Qed.

Lemma setConditionIn_types t gen ty b reason message conds :
  condition_types (setConditionIn t gen ty b reason message conds) =
  if decide (ty ∈ condition_types conds) then condition_types conds
  else condition_types conds ++ [ty].
Proof.
  induction conds as [|c conds IH]; [done|]. cbn [setConditionIn].
  unfold condition_types in *. destruct (decide (c_Type c = ty)) as [Ht|Ht].
  - rewrite (decide_True (P := ty ∈ c_Type <$> c :: conds)) by (csimpl; subst; left).
    destruct (decide (_ \/ _)); csimpl; by subst.
  - csimpl. rewrite IH. destruct (decide (ty ∈ c_Type <$> conds)).
    + by rewrite (decide_True (P := ty ∈ c_Type c :: (c_Type <$> conds))) by (by right).
    + rewrite (decide_False (P := ty ∈ c_Type c :: (c_Type <$> conds))); [done|].
      by intros [?|?]%elem_of_cons.
Qed.

Lemma setConditionIn_nodup t gen ty b reason message conds :
  NoDup (condition_types conds) ->
  NoDup (condition_types (setConditionIn t gen ty b reason message conds)).
Proof.
  rewrite setConditionIn_types. case_decide; [done|]. intros Hnd. apply NoDup_app.
  split_and!; [done| |apply NoDup_singleton]. intros x Hx Hin%list_elem_of_singleton. by subst.
Qed.

Lemma getCondition_filter ty ty' conds :
  getCondition ty (filter (fun c => c_Type c <> ty') conds) =
  if decide (ty = ty') then None else getCondition ty conds.
Proof.
  induction conds as [|c conds IH].
  - rewrite filter_nil. by case_decide.
  - rewrite filter_cons. destruct (decide (c_Type c = ty')) as [He|He].
    + rewrite decide_False by tauto. rewrite IH, getCondition_cons. case_decide; [done|].
      by rewrite decide_False by congruence.
    + rewrite decide_True by done. rewrite !getCondition_cons, IH.
      repeat case_decide; congruence.
Qed.

(** Setting a condition gives it the status, reason, message and generation, keeps
    the transition time while the status stays, leaves the other conditions alone and
    never duplicates a type. *)
Theorem setCondition_spec t cluster ty b reason message :
  let conds := st_Conditions (cl_Status cluster) in
  let conds' := st_Conditions (cl_Status (setCondition t cluster ty b reason message)) in
  (exists c, getCondition ty conds' = Some c /\ c_Status c = conditionStatus b /\
     c_ObservedGeneration c = cl_Generation cluster /\ c_Reason c = reason /\ c_Message c = message /\
     (c_LastTransitionTime c = t \/
      exists old, getCondition ty conds = Some old /\ c_Status old = c_Status c /\
        c_LastTransitionTime c = c_LastTransitionTime old)) /\
  (forall ty', ty' <> ty -> getCondition ty' conds' = getCondition ty' conds) /\
  (NoDup (condition_types conds) -> NoDup (condition_types conds')).
Proof.
  simpl. split_and!.
  - rewrite setConditionIn_same. eexists. split; [done|]. split_and!; try done. simpl.
    destruct (getCondition ty _) as [old|] eqn:Hold; [|by left]. case_decide; [right|by left].
    exists old. done.
  - intros ty' Hne. by apply setConditionIn_other.
  - apply setConditionIn_nodup.
Qed.

(** ** The published status settles

    The status computed from one list of pods: [populateStatus], the phase and
    the fine-grained conditions, in the order of [updateStatusAndPhase]. *)

Section Settling.
Context `{Environment}.

Definition computedStatus (t : Z) (c : AerospikeCluster) (pods : list Pod) (phase : AerospikePhase)
    (reason : string) (opts : StatusUpdateOpts) : AerospikeCluster :=
  setFineGrainedConditions t (withPhase phase reason (fst (populateFrom t c pods))) opts.

Lemma getCondition_Some ty conds c :
  getCondition ty conds = Some c -> c ∈ conds /\ c_Type c = ty.
Proof.
  unfold getCondition. destruct (list_find _ conds) as [[i x]|] eqn:Hf; [|done].
  intros [= <-]. apply list_find_Some in Hf as (Hl & Ht & _).
  split; [by eapply list_elem_of_lookup_2|done].
Qed.

Lemma getCondition_None ty conds : getCondition ty conds = None <-> ty ∉ condition_types conds.
Proof.
  induction conds as [|c conds IH]; [split; [by intros _ ?%not_elem_of_nil|done]|].
  rewrite getCondition_cons. unfold condition_types in *. csimpl. rewrite not_elem_of_cons.
  case_decide; naive_solver.
Qed.

Lemma setConditionIn_id t gen ty b reason message conds lt :
  getCondition ty conds = Some (mkCondition ty (conditionStatus b) gen reason message lt) ->
  setConditionIn t gen ty b reason message conds = conds.
Proof.
  induction conds as [|c conds IH]; [done|]. rewrite getCondition_cons. simpl.
  case_decide as Ht; [|intros Hc; by rewrite IH].
  intros [= ->]. simpl. rewrite decide_False by naive_solver. done.
Qed.

Lemma filter_absent ty conds :
  getCondition ty conds = None -> filter (fun c => c_Type c <> ty) conds = conds.
Proof.
  induction conds as [|c conds IH]; [done|]. rewrite getCondition_cons, filter_cons.
  case_decide; [done|]. intros Hc. rewrite decide_True by done. by rewrite IH.
Qed.

(** A pod status built again from itself does not move. *)
Lemma buildPodStatus_idem t t' pod prev image port rack :
  buildPodStatus t' pod (buildPodStatus t pod prev image port rack) image port rack =
  buildPodStatus t pod prev image port rack.
Proof. unfold buildPodStatus. simpl. by destruct (isPodReady pod). Qed.

Lemma foldl_insert_notin {B} (f : Pod -> B) pods (m : gmap string B) k :
  k ∉ pod_Name <$> pods -> foldl (fun m p => <[pod_Name p := f p]> m) m pods !! k = m !! k.
Proof.
  revert m. induction pods as [|p pods IH]; intros m Hk; [done|]. csimpl in *.
  apply not_elem_of_cons in Hk as [Hp Hk]. rewrite IH by done. by rewrite lookup_insert_ne.
Qed.

Lemma foldl_insert_lookup {B} (f : Pod -> B) pods (m : gmap string B) pod :
  NoDup (pod_Name <$> pods) -> pod ∈ pods ->
  foldl (fun m p => <[pod_Name p := f p]> m) m pods !! pod_Name pod = Some (f pod).
Proof.
  revert m. induction pods as [|p pods IH]; intros m Hnd Hin; [by apply not_elem_of_nil in Hin|].
  csimpl in *. apply NoDup_cons in Hnd as [Hp Hnd].
  apply elem_of_cons in Hin as [->|Hin]; [|by apply IH].
  rewrite foldl_insert_notin by done. apply lookup_insert_eq.
Qed.

Lemma foldl_insert_ext {B} (f g : Pod -> B) pods (m : gmap string B) :
  (forall p, p ∈ pods -> f p = g p) ->
  foldl (fun m p => <[pod_Name p := f p]> m) m pods = foldl (fun m p => <[pod_Name p := g p]> m) m pods.
Proof.
  revert m. induction pods as [|p pods IH]; intros m Hfg; [done|]. simpl.
  rewrite (Hfg p (list_elem_of_here _ _)). apply IH. intros q Hq. apply Hfg. by right.
Qed.

(** A round over the conditions is a sequence of operations on distinct types. *)
Inductive condOp :=
| CSet (ty : string) (b : bool) (reason message : string)
| CRemove (ty : string).

Definition opType (op : condOp) : string := match op with CSet ty _ _ _ => ty | CRemove ty => ty end.

Definition applyOp (t gen : Z) (conds : list Condition) (op : condOp) : list Condition :=
  match op with
  | CSet ty b reason message => setConditionIn t gen ty b reason message conds
  | CRemove ty => filter (fun c => c_Type c <> ty) conds
  end.

(** What an operation leaves behind; applying it again then does nothing. *)
Definition opDone (gen : Z) (conds : list Condition) (op : condOp) : Prop :=
  match op with
  | CSet ty b reason message =>
      exists lt, getCondition ty conds = Some (mkCondition ty (conditionStatus b) gen reason message lt)
  | CRemove ty => getCondition ty conds = None
  end.

Lemma applyOp_done t gen conds op : opDone gen (applyOp t gen conds op) op.
Proof.
  destruct op; simpl.
  - rewrite setConditionIn_same. eauto.
  - rewrite getCondition_filter. by rewrite decide_True.
Qed.

Lemma applyOp_id t gen conds op : opDone gen conds op -> applyOp t gen conds op = conds.
Proof. destruct op; simpl; [intros [lt Hlt]; by eapply setConditionIn_id|apply filter_absent]. Qed.

Lemma applyOp_other t gen conds op op' :
  opType op' <> opType op -> opDone gen conds op' -> opDone gen (applyOp t gen conds op) op'.
Proof.
  intros Hne. destruct op as [ty b r m|ty], op' as [ty' b' r' m'|ty']; simpl in *.
  - by rewrite setConditionIn_other.
  - by rewrite setConditionIn_other.
  - by rewrite getCondition_filter, decide_False.
  - by rewrite getCondition_filter, decide_False.
Qed.

Lemma applyOps_keep t gen conds ops op :
  opType op ∉ opType <$> ops -> opDone gen conds op -> opDone gen (foldl (applyOp t gen) conds ops) op.
Proof.
  revert conds. induction ops as [|op' ops IH]; intros conds Hn Hd; [done|]. csimpl in *.
  apply not_elem_of_cons in Hn as [Hne Hn]. apply IH; [done|]. by apply applyOp_other.
Qed.

Lemma applyOps_done t gen conds ops :
  NoDup (opType <$> ops) -> Forall (opDone gen (foldl (applyOp t gen) conds ops)) ops.
Proof.
  revert conds. induction ops as [|op ops IH]; intros conds Hnd; [constructor|]. csimpl in *.
  apply NoDup_cons in Hnd as [Hn Hnd]. constructor; [|by apply IH].
  apply applyOps_keep; [done|]. apply applyOp_done.
Qed.

Lemma applyOps_id t gen conds ops :
  Forall (opDone gen conds) ops -> foldl (applyOp t gen) conds ops = conds.
Proof. induction 1 as [|op ops Hop _ IH]; [done|]. simpl. by rewrite applyOp_id. Qed.

(** The same operations on a cluster object touch nothing but its conditions. *)
Definition applyOpC (t : Z) (c : AerospikeCluster) (op : condOp) : AerospikeCluster :=
  match op with
  | CSet ty b reason message => setCondition t c ty b reason message
  | CRemove ty => removeCondition c ty
  end.

Lemma applyOpC_eq t c op :
  applyOpC t c op = c <| cl_Status ::= fun s => s <| st_Conditions ::=
    fun conds => applyOp t (cl_Generation c) conds op |> |>.
Proof. by destruct op. Qed.

Lemma applyOpsC_eq t c ops :
  foldl (applyOpC t) c ops = c <| cl_Status ::= fun s => s <| st_Conditions ::=
    fun conds => foldl (applyOp t (cl_Generation c)) conds ops |> |>.
Proof.
  revert c. induction ops as [|op ops IH]; intros c; [by destruct c as [????????? []]|].
  simpl. rewrite IH, applyOpC_eq. by destruct c as [????????? []].
Qed.

(** The operations of [setFineGrainedConditions]. *)
Definition fineOps (applied acl degraded : bool) (o : StatusUpdateOpts) : list condOp :=
  [ (if applied
     then CSet ConditionConfigApplied true "ConfigApplied" "All pods have the desired Aerospike configuration"
     else CSet ConditionConfigApplied false "ConfigPending"
            "One or more pods do not yet have the desired configuration");
    (if opt_Paused o
     then CSet ConditionReconciliationPaused true "ReconciliationPaused"
            "Reconciliation is paused by user (spec.paused=true)"
     else CSet ConditionReconciliationPaused false "ReconciliationActive" "Reconciliation is active");
    (if acl then
       match opt_ACLErr o with
       | Some e => CSet ConditionACLSynced false "ACLSyncFailed" (err_msg e)
       | None =>
           if opt_ACLSynced o
           then CSet ConditionACLSynced true "ACLSyncSucceeded" "ACL roles and users are synchronized"
           else CSet ConditionACLSynced false "ACLSyncPending" "ACL sync skipped: no ready pods available"
       end
     else CRemove ConditionACLSynced) ] ++
  (if degraded then [] else [CRemove ConditionDynamicConfigDegraded]) ++
  [ if opt_RestartInProgress o
    then CSet ConditionMigrationComplete false "MigrationComplete" "Rolling restart in progress"
    else CSet ConditionMigrationComplete true "MigrationComplete" "No rolling restart in progress" ].

Definition hasACL (c : AerospikeCluster) : bool :=
  match spec_AerospikeAccessControl (cl_Spec c) with Some _ => true | None => false end.

Definition isDegraded (c : AerospikeCluster) : bool :=
  bool_decide (st_Phase (cl_Status c) = PhaseConfigDegraded).

Lemma spec_applyOpC t c op : cl_Spec (applyOpC t c op) = cl_Spec c.
Proof. by destruct op. Qed.
Lemma phase_applyOpC t c op : st_Phase (cl_Status (applyOpC t c op)) = st_Phase (cl_Status c).
Proof. by destruct op. Qed.

Lemma setFineGrainedConditions_ops t c o :
  setFineGrainedConditions t c o =
  foldl (applyOpC t) c (fineOps (allConfigApplied c o) (hasACL c) (isDegraded c) o).
Proof.
  unfold setFineGrainedConditions, fineOps, hasACL, isDegraded.
  generalize (allConfigApplied c o). intros ap.
  set (op1 := if ap then CSet _ _ _ _ else CSet _ _ _ _).
  replace (if ap then setCondition _ _ _ _ _ _ else setCondition _ _ _ _ _ _) with (applyOpC t c op1)
    by by destruct ap.
  set (op2 := if opt_Paused o then CSet _ _ _ _ else CSet _ _ _ _).
  replace (if opt_Paused o then setCondition _ _ _ _ _ _ else setCondition _ _ _ _ _ _)
    with (applyOpC t (applyOpC t c op1) op2) by by destruct (opt_Paused o).
  cbv zeta. rewrite !spec_applyOpC. clearbody op1 op2.
  assert (forall x ty b r m, st_Phase (cl_Status (setCondition t x ty b r m)) = st_Phase (cl_Status x)) as Hs
    by done.
  assert (forall x ty, st_Phase (cl_Status (removeCondition x ty)) = st_Phase (cl_Status x)) as Hr by done.
  destruct (spec_AerospikeAccessControl (cl_Spec c));
    [destruct (opt_ACLErr o); [|destruct (opt_ACLSynced o)]|];
    rewrite ?Hs, ?Hr, !phase_applyOpC;
    (case_decide; [rewrite bool_decide_true by done|rewrite bool_decide_false by done];
     by destruct (opt_RestartInProgress o)).
Qed.

(** The operations of a whole round, with the two base conditions first. *)
Definition roundOps (available ready : bool) (readyMsg : string) (applied acl degraded : bool)
    (o : StatusUpdateOpts) : list condOp :=
  [ CSet ConditionAvailable available "ClusterAvailable" "At least one pod is ready";
    CSet ConditionReady ready "AllPodsReady" readyMsg ] ++ fineOps applied acl degraded o.

Definition roundTypes (degraded : bool) : list string :=
  [ConditionAvailable; ConditionReady; ConditionConfigApplied; ConditionReconciliationPaused;
   ConditionACLSynced] ++ (if degraded then [] else [ConditionDynamicConfigDegraded])
  ++ [ConditionMigrationComplete].

Lemma roundOps_types av rd msg ap acl deg o : opType <$> roundOps av rd msg ap acl deg o = roundTypes deg.
Proof.
  unfold roundOps, fineOps. destruct ap, (opt_Paused o), acl, deg, (opt_RestartInProgress o); try done.
  all: destruct (opt_ACLErr o); [done|]; by destruct (opt_ACLSynced o).
Qed.

Lemma roundOps_nodup av rd msg ap acl deg o : NoDup (opType <$> roundOps av rd msg ap acl deg o).
Proof. rewrite roundOps_types. destruct deg; apply (bool_decide_unpack _); by vm_compute. Qed.

(** ** One round *)

Definition readyCount (pods : list Pod) : Z :=
  i32 (Z.of_nat (length (filter (fun p => isPodReady p = true) pods))).
Definition replicaCount (pods : list Pod) : Z :=
  i32 (Z.of_nat (length (filter (fun p => countsAsReplica p = true) pods))).
Definition healthText (ready size : Z) : string := pretty ready +:+ "/" +:+ pretty size.

Definition podStatuses (t : Z) (c : AerospikeCluster) (pods : list Pod) : gmap string AerospikePodStatus :=
  foldl (fun m pod =>
    <[pod_Name pod := buildPodStatus t pod (default zeroPodStatus (st_Pods (cl_Status c) !! pod_Name pod))
        (spec_Image (cl_Spec c)) (i32 (getServicePort c)) (podRackID pod)]> m) ∅ pods.

(** The status without its conditions, as one round computes it. *)
Definition basicStatus (t : Z) (c : AerospikeCluster) (pods : list Pod) (phase : AerospikePhase)
    (reason : string) : AerospikeClusterStatus :=
  let s := cl_Status c in
  mkStatus phase reason (readyCount pods) (replicaCount pods)
    (healthText (readyCount pods) (spec_Size (cl_Spec c))) (st_Conditions s) (podStatuses t c pods)
    (cl_Generation c) (buildSelectorString (SelectorLabelsForCluster (cl_Name c)))
    (spec_AerospikeConfig (cl_Spec c)) (st_OperationStatus s) (st_AppliedSpec s)
    (st_AerospikeClusterSize s) (st_OperatorVersion s) (st_PendingRestartPods s)
    (st_LastReconcileTime s) (st_TemplateSnapshot s) (st_FailedReconcileCount s)
    (st_LastReconcileError s) (st_MigrationStatus s) (st_Endpoints s) (st_SeedsEndpoint s).

Definition clusterOps (t : Z) (c : AerospikeCluster) (pods : list Pod) (phase : AerospikePhase)
    (o : StatusUpdateOpts) : list condOp :=
  let ready := readyCount pods in
  let size := spec_Size (cl_Spec c) in
  roundOps (0 <? ready) (ready =? size) (healthText ready size +:+ " pods ready")
    (configApplied (podStatuses t c pods) (cl_Spec c) o) (hasACL c)
    (bool_decide (phase = PhaseConfigDegraded)) o.

Lemma populateFrom_eq t c pods :
  fst (populateFrom t c pods) =
  foldl (applyOpC t) (c <| cl_Status := basicStatus t c pods (st_Phase (cl_Status c)) (st_PhaseReason (cl_Status c)) |>)
    [ CSet ConditionAvailable (0 <? readyCount pods) "ClusterAvailable" "At least one pod is ready";
      CSet ConditionReady (readyCount pods =? spec_Size (cl_Spec c)) "AllPodsReady"
        (healthText (readyCount pods) (spec_Size (cl_Spec c)) +:+ " pods ready") ].
Proof. by destruct c as [????????? []]. Qed.

Lemma computedStatus_eq t c pods phase reason o :
  computedStatus t c pods phase reason o =
  c <| cl_Status := (basicStatus t c pods phase reason)
         <| st_Conditions := foldl (applyOp t (cl_Generation c)) (st_Conditions (cl_Status c))
                               (clusterOps t c pods phase o) |> |>.
Proof.
  unfold computedStatus. rewrite setFineGrainedConditions_ops, populateFrom_eq, !applyOpsC_eq.
  unfold clusterOps, roundOps. rewrite foldl_app.
  set (ops := [CSet _ _ _ _; _]). clearbody ops.
  unfold allConfigApplied, hasACL, isDegraded, withPhase, basicStatus.
  generalize (podStatuses t c pods) (readyCount pods) (replicaCount pods). intros m r k.
  destruct c as [????????? []]. cbn -[foldl fineOps configApplied buildSelectorString healthText]. reflexivity.
Qed.


Lemma podStatuses_idem t t' c c' pods :
  NoDup (pod_Name <$> pods) -> cl_Spec c' = cl_Spec c ->
  st_Pods (cl_Status c') = podStatuses t c pods -> podStatuses t' c' pods = podStatuses t c pods.
Proof.
  intros Hnd Hsp Hpods. unfold podStatuses. rewrite Hpods, Hsp.
  apply foldl_insert_ext. intros p Hp. unfold podStatuses.
  rewrite (foldl_insert_lookup _ pods ∅ p Hnd Hp). simpl.
  unfold getServicePort. rewrite Hsp. apply buildPodStatus_idem.
Qed.

Lemma clusterOps_idem t t' c c' pods phase o :
  NoDup (pod_Name <$> pods) -> cl_Spec c' = cl_Spec c ->
  st_Pods (cl_Status c') = podStatuses t c pods ->
  clusterOps t' c' pods phase o = clusterOps t c pods phase o.
Proof.
  intros Hnd Hsp Hpods. unfold clusterOps, hasACL.
  by rewrite (podStatuses_idem t t' c c' pods Hnd Hsp Hpods), Hsp.
Qed.

Lemma conditionsSnapshot_lookup conds ty :
  NoDup (condition_types conds) ->
  conditionsSnapshot conds !! ty = snapshotOf <$> getCondition ty conds.
Proof.
  intros Hnd. unfold conditionsSnapshot.
  assert (forall m : gmap string conditionSnapshot,
    foldl (fun m c => <[c_Type c := snapshotOf c]> m) m conds !! ty =
    match getCondition ty conds with Some c => Some (snapshotOf c) | None => m !! ty end) as Hg.
  { induction conds as [|c conds IH]; intros m; [done|]. simpl. rewrite getCondition_cons.
    unfold condition_types in *. csimpl in Hnd. apply NoDup_cons in Hnd as [Hc Hnd].
    rewrite (IH Hnd). case_decide as Ht; [|by destruct (getCondition ty conds); rewrite ?lookup_insert_ne].
    subst. rewrite (proj2 (getCondition_None _ _)) by done. apply lookup_insert_eq. }
  rewrite Hg. by destruct (getCondition ty conds).
Qed.

Lemma conditionsSnapshot_size conds :
  NoDup (condition_types conds) -> size (conditionsSnapshot conds) = length conds.
Proof.
  intros Hnd. rewrite <- size_dom.
  replace (dom (conditionsSnapshot conds)) with (list_to_set (C := gset string) (condition_types conds)).
  - rewrite size_list_to_set by done. unfold condition_types. by rewrite length_fmap.
  - apply set_eq. intros ty. rewrite elem_of_list_to_set, elem_of_dom, conditionsSnapshot_lookup by done.
    destruct (getCondition ty conds) as [c|] eqn:Hc.
    + apply getCondition_Some in Hc as [Hc <-]. split; [by eauto|]. intros _.
      unfold condition_types. by apply list_elem_of_fmap_2.
    + apply getCondition_None in Hc. split; [done|]. by intros [? ?].
Qed.

Lemma getCondition_elem c conds :
  NoDup (condition_types conds) -> c ∈ conds -> getCondition (c_Type c) conds = Some c.
Proof.
  induction conds as [|x conds IH]; intros Hnd Hc; [by apply not_elem_of_nil in Hc|].
  unfold condition_types in *. csimpl in Hnd. apply NoDup_cons in Hnd as [Hx Hnd].
  rewrite getCondition_cons. apply elem_of_cons in Hc as [->|Hc]; [by rewrite decide_True|].
  rewrite decide_False; [by apply IH|]. intros He. apply Hx. rewrite He. by apply list_elem_of_fmap_2.
Qed.

Lemma conditionsChanged_same conds :
  NoDup (condition_types conds) -> conditionsChanged (conditionsSnapshot conds) conds = false.
Proof.
  intros Hnd. unfold conditionsChanged. rewrite conditionsSnapshot_size by done.
  rewrite bool_decide_true by done. apply negb_false_iff. simpl. apply forallb_forall.
  intros c Hc%list_elem_of_In. apply bool_decide_true.
  by rewrite conditionsSnapshot_lookup, getCondition_elem.
Qed.

Lemma conditionsChanged_differ conds conds' ty c c' :
  NoDup (condition_types conds) -> getCondition ty conds = Some c -> getCondition ty conds' = Some c' ->
  snapshotOf c <> snapshotOf c' -> conditionsChanged (conditionsSnapshot conds) conds' = true.
Proof.
  intros Hnd Hc Hc' Hne. unfold conditionsChanged. apply negb_true_iff, andb_false_iff. right.
  apply not_true_is_false. rewrite forallb_forall. intros Hall.
  destruct (getCondition_Some _ _ _ Hc') as [Hin Hty].
  specialize (Hall c' (proj1 (list_elem_of_In _ _) Hin)). apply bool_decide_eq_true in Hall.
  rewrite Hty, conditionsSnapshot_lookup, Hc in Hall by done. naive_solver.
Qed.

Lemma applyOp_nodup t gen conds op :
  NoDup (condition_types conds) -> NoDup (condition_types (applyOp t gen conds op)).
Proof.
  destruct op; simpl; [apply setConditionIn_nodup|]. intros Hnd. unfold condition_types in *.
  eapply sublist_NoDup; [exact Hnd|]. apply fmap_sublist, sublist_filter.
Qed.

Lemma applyOps_nodup t gen conds ops :
  NoDup (condition_types conds) -> NoDup (condition_types (foldl (applyOp t gen) conds ops)).
Proof.
  intros Hnd. apply (foldl_inv (fun l => NoDup (condition_types l))); [done|].
  intros l op _. apply applyOp_nodup.
Qed.

(** A second round over the same pods computes the very same object. *)
Lemma computedStatus_idem t t' c pods phase reason o :
  NoDup (pod_Name <$> pods) ->
  computedStatus t' (computedStatus t c pods phase reason o) pods phase reason o =
  computedStatus t c pods phase reason o.
Proof.
  intros Hnd. rewrite !computedStatus_eq. set (c1 := c <| cl_Status := _ |>).
  rewrite (clusterOps_idem t t' c c1 pods phase o Hnd) by done.
  change (cl_Generation c1) with (cl_Generation c).
  change (st_Conditions (cl_Status c1)) with
    (foldl (applyOp t (cl_Generation c)) (st_Conditions (cl_Status c)) (clusterOps t c pods phase o)).
  rewrite (applyOps_id t' _ _ (clusterOps t c pods phase o)) by (apply applyOps_done, roundOps_nodup).
  unfold basicStatus. rewrite (podStatuses_idem t t' c c1 pods Hnd) by done. reflexivity.
Qed.

Lemma computedStatus_nodup t c pods phase reason o :
  NoDup (condition_types (st_Conditions (cl_Status c))) ->
  NoDup (condition_types (st_Conditions (cl_Status (computedStatus t c pods phase reason o)))).
Proof. intros Hc. rewrite computedStatus_eq. by apply applyOps_nodup. Qed.

(** A round without a rolling restart always publishes MigrationComplete=True. *)
Lemma computedStatus_migration t c pods phase reason o :
  opt_RestartInProgress o = false ->
  exists lt, getCondition ConditionMigrationComplete
      (st_Conditions (cl_Status (computedStatus t c pods phase reason o))) =
    Some (mkCondition ConditionMigrationComplete ConditionTrue (cl_Generation c)
            "MigrationComplete" "No rolling restart in progress" lt).
Proof.
  intros Ho. rewrite computedStatus_eq. cbn [cl_Status st_Conditions update].
  pose proof (applyOps_done t (cl_Generation c) (st_Conditions (cl_Status c))
    (clusterOps t c pods phase o) (roundOps_nodup _ _ _ _ _ _ _)) as HF.
  rewrite Forall_forall in HF. apply (HF (CSet ConditionMigrationComplete true _ _)).
  unfold clusterOps, roundOps, fineOps. rewrite Ho.
  rewrite !elem_of_app. right; right; right. by apply list_elem_of_singleton.
Qed.

(** Once statistics have been published, the next status computation differs from them:
    its message for MigrationComplete is the other one, so the write is not skipped. *)
Theorem migration_stats_defeat_skip t0 t c perNode pods phase reason o :
  perNode <> ∅ -> NoDup (condition_types (st_Conditions (cl_Status c))) ->
  opt_RestartInProgress o = false ->
  let published := applyMigrationStats t0 c perNode in
  statusUnchanged (takeSnapshot published) (computedStatus t published pods phase reason o)
    (readyCount pods) phase reason = false.
Proof.
  intros Hne Hnd Ho. cbv zeta.
  assert (exists c' b msg, applyMigrationStats t0 c perNode =
    setCondition t0 c' ConditionMigrationComplete b "MigrationComplete" ("Remaining partitions: " +:+ msg) /\
    st_Conditions (cl_Status c') = st_Conditions (cl_Status c)) as (c' & b & msg & -> & Hc').
  { unfold applyMigrationStats. rewrite decide_False by done.
    destruct (map_fold _ _ perNode) as [[total any] ps]. eauto. }
  set (pub := setCondition _ _ _ _ _ _).
  assert (NoDup (condition_types (st_Conditions (cl_Status pub)))) as Hpn
    by (apply setConditionIn_nodup; by rewrite Hc').
  destruct (computedStatus_migration t pub pods phase reason o Ho) as [lt Hlt].
  unfold statusUnchanged. replace (conditionsChanged _ _) with true.
  { simpl. by rewrite !andb_false_r. }
  symmetry. eapply (conditionsChanged_differ _ _ ConditionMigrationComplete).
  - done.
  - apply setConditionIn_same.
  - exact Hlt.
  - intros Hs%(f_equal snd). discriminate Hs.
Qed.

(** Connecting reads the name, the namespace and the spec only. *)
Lemma getAerospikeClient_ext c c' :
  cl_Name c' = cl_Name c -> cl_Namespace c' = cl_Namespace c -> cl_Spec c' = cl_Spec c ->
  getAerospikeClient c' = getAerospikeClient c.
Proof.
  intros Hn Hns Hs. unfold getAerospikeClient, adminUser, getServicePort. by rewrite Hn, Hns, Hs.
Qed.

Lemma enrich_unreachable c w e w' :
  getAerospikeClient c w = (inl e, w') -> enrichStatusWithAerospikeInfo c w = (inr c, w').
Proof. intros Hget. unfold enrichStatusWithAerospikeInfo, mbind, M_bind, try. by rewrite Hget. Qed.

Lemma populateExternalEndpoints_ok c w :
  exists ep seeds w', populateExternalEndpoints c w =
    (inr (c <$ st_Endpoints := ep $> <$ st_SeedsEndpoint := seeds $>), w').
Proof.
  unfold populateExternalEndpoints, mbind, M_bind, try.
  destruct (listServices _ _ w) as [svcs w1]. destruct (getObj _ w1) as [seeds w2]. by eexists _, _, _.
Qed.

(** Without an Aerospike client a completed status still claims that migration is
    complete, with the old statistics. *)
Theorem migration_complete_without_answer t c pods reason o w e w' :
  opt_RestartInProgress o = false -> getAerospikeClient c w = (inl e, w') ->
  exists published w'',
    completeStatus PhaseCompleted (computedStatus t c pods PhaseCompleted reason o) w = (inr published, w'') /\
    c_Status <$> getCondition ConditionMigrationComplete (st_Conditions (cl_Status published)) = Some ConditionTrue /\
    st_MigrationStatus (cl_Status published) = st_MigrationStatus (cl_Status c).
Proof.
  intros Ho Hget. destruct (computedStatus_migration t c pods PhaseCompleted reason o Ho) as [lt Hlt].
  assert (st_MigrationStatus (cl_Status (computedStatus t c pods PhaseCompleted reason o)) =
    st_MigrationStatus (cl_Status c)) as Hms by (by rewrite computedStatus_eq).
  assert (getAerospikeClient (computedStatus t c pods PhaseCompleted reason o) = getAerospikeClient c) as Hext
    by (apply getAerospikeClient_ext; by rewrite computedStatus_eq).
  revert Hlt Hms Hext. generalize (computedStatus t c pods PhaseCompleted reason o). intros c1 Hlt Hms Hext.
  unfold completeStatus. rewrite decide_True by done. unfold mbind at 1, M_bind, now, gets. simpl.
  set (c2 := c1 <| cl_Status ::= _ |> <| cl_Status ::= _ |> <| cl_Status ::= _ |> <| cl_Status ::= _ |>).
  assert (getAerospikeClient c2 w = (inl e, w')) as Hget2
    by (rewrite (getAerospikeClient_ext c1) by done; by rewrite Hext).
  unfold mbind, M_bind. rewrite (enrich_unreachable c2 w e w' Hget2).
  destruct (populateExternalEndpoints_ok c2 w') as (ep & seeds & w2 & ->). eexists _, _. split; [done|].
  change (c_Status <$> getCondition ConditionMigrationComplete (st_Conditions (cl_Status c1)) = Some ConditionTrue /\
    st_MigrationStatus (cl_Status c1) = st_MigrationStatus (cl_Status c)).
  rewrite Hlt, Hms. done.
Qed.

End Settling.

(** ** Framing

    Publishing the status leaves the failure counter of the circuit breaker and
    everything but the custom resource alone. *)

Section StatusFrames.
Context `{Environment}.

Definition failCount (c : AerospikeCluster) : Z := st_FailedReconcileCount (cl_Status c).
Definition count_is (n : Z) (s : AerospikeClusterStatus) : Prop := st_FailedReconcileCount s = n.

Lemma keeps_publishStatus R `{!Frame R} phase n c : keeps R (publishStatus phase n c).
Proof. unfold publishStatus. frame. Qed.

Lemma keeps_listClusterPods R `{!Frame R} c : keeps R (listClusterPods c).
Proof. apply keeps_listPods. Qed.

Lemma keeps_populateStatus R `{!Frame R} c : keeps R (populateStatus c).
Proof. pose proof (keeps_listClusterPods R). unfold populateStatus. frame. Qed.

Lemma keeps_enrich R `{!FrameInfo R} c : keeps R (enrichStatusWithAerospikeInfo c).
Proof. unfold enrichStatusWithAerospikeInfo, collectAerospikeInfo, nodeInfo. frame. Qed.

Lemma keeps_populateExternalEndpoints R `{!Frame R} c : keeps R (populateExternalEndpoints c).
Proof. unfold populateExternalEndpoints. frame. Qed.

Lemma keeps_completeStatus R `{!FrameInfo R} phase c : keeps R (completeStatus phase c).
Proof.
  pose proof (keeps_enrich R). pose proof (keeps_populateExternalEndpoints R).
  unfold completeStatus. frame.
Qed.

(** A value computed by [m] from [c] has the failure counter of [c]. *)
Definition same_count (c c' : AerospikeCluster) : Prop := failCount c' = failCount c.

Lemma populateStatus_count I c :
  keeps (pres I) (populateStatus c) -> inv I (populateStatus c) (fun r => same_count c (fst r)).
Proof.
  intros Hk w Hw. split; [by apply Hk|]. intros a. unfold populateStatus, mbind, M_bind, now, gets.
  destruct (listClusterPods c w) as [[e|pods] w']; [done|]. intros [= <-].
  rewrite populateFrom_eq, applyOpsC_eq. done.
Qed.

Lemma applyMigrationStats_count t c m : same_count c (applyMigrationStats t c m).
Proof.
  unfold applyMigrationStats. case_decide; [done|]. by destruct (map_fold _ _ m) as [[??]?].
Qed.

Lemma enrich_count c w c' w' : enrichStatusWithAerospikeInfo c w = (inr c', w') -> same_count c c'.
Proof.
  unfold enrichStatusWithAerospikeInfo, mbind, M_bind, try.
  destruct (getAerospikeClient c w) as [[e|client] w1]; [by intros [= <- _]|].
  destruct (collectAerospikeInfo client c w1) as [[e|info] w2]; [done|].
  destruct (clusterSize client w2) as [size w3].
  destruct (migrateStatsPerNode client w3) as [perNode w4]. unfold now, gets, mret, M_ret.
  intros [= <- _]. destruct size, perNode; try done.
  all: unfold same_count; rewrite applyMigrationStats_count; done.
Qed.

Lemma completeStatus_count phase c w c' w' : completeStatus phase c w = (inr c', w') -> same_count c c'.
Proof.
  unfold completeStatus. case_decide; [|by intros [= <- _]].
  unfold mbind, M_bind, now, gets.
  destruct (enrichStatusWithAerospikeInfo _ w) as [[e|c1] w1] eqn:He; [done|].
  apply enrich_count in He. destruct (populateExternalEndpoints_ok c1 w1) as (ep & seeds & w2 & ->).
  intros [= <- _]. change (failCount c1 = failCount c). by rewrite He.
Qed.

Lemma setFineGrainedConditions_count t c o : same_count c (setFineGrainedConditions t c o).
Proof. by rewrite setFineGrainedConditions_ops, applyOpsC_eq. Qed.

Lemma statusWriteAttempt_count n phase reason o gen c :
  failCount c = n ->
  inv (srv (count_is n)) (statusWriteAttempt phase reason o gen c) (fun r => failCount (fst r) = n).
Proof.
  intros Hc. unfold statusWriteAttempt.
  apply inv_seq; [apply keeps_try, keeps_updateStatus, Hc|]. intros [e|_]; [|by apply inv_ret].
  destruct (negb (IsConflict e)); [by apply inv_ret|].
  eapply inv_bind.
  { apply inv_try. eapply inv_bind; [apply inv_refetchCluster|]. intros c1 Hc1.
    eapply inv_weaken; [apply populateStatus_count, keeps_populateStatus, _|].
    intros a Ha. unfold same_count in Ha. change (failCount c1 = n) in Hc1. rewrite Hc1 in Ha. exact Ha. }
  intros [fe|[c1 r]] Hr; [by apply inv_ret|]. specialize (Hr _ eq_refl). simpl in Hr.
  apply inv_seq; [apply keeps_now|]. intros t.
  eapply (inv_bind _ _ _ (fun c' => failCount c' = n)); [|intros c' Hc'; by apply inv_ret].
  intros w Hw. split; [by apply (keeps_completeStatus (pres (srv (count_is n))))|]. intros c' Hc'.
  destruct (completeStatus _ _ w) as [? w'] eqn:Hcs. simpl in Hc'. subst.
  apply completeStatus_count in Hcs. unfold same_count in Hcs. rewrite Hcs.
  by rewrite setFineGrainedConditions_count.
Qed.

Lemma statusWrite_count n again phase reason o gen c :
  failCount c = n -> keeps (pres (srv (count_is n))) (statusWrite again phase reason o gen c).
Proof.
  revert c. induction again as [|again IH]; intros c Hc.
  - eapply keeps_inv, inv_bind; [by apply statusWriteAttempt_count|].
    intros [c' [e|]] Hr; [|by apply (inv_ret _ _ (fun _ => True))]. destruct (IsConflict e); apply inv_raise.
  - eapply keeps_inv, inv_bind; [by apply statusWriteAttempt_count|].
    intros [c' [e|]] Hr; [|by apply (inv_ret _ _ (fun _ => True))].
    destruct (IsConflict e); [|apply inv_raise]. apply inv_keeps, IH. done.
Qed.

Lemma keeps_count_updateStatusAndPhase n phase reason o :
  keeps (pres (srv (count_is n))) (updateStatusAndPhase phase reason o).
Proof.
  unfold updateStatusAndPhase. eapply keeps_inv, inv_bind; [apply inv_refetchCluster|]. intros c Hc.
  eapply inv_bind; [apply populateStatus_count, keeps_populateStatus, _|]. intros [c1 r] Hc1.
  unfold same_count in Hc1. change (failCount c = n) in Hc. simpl in Hc1. rewrite Hc in Hc1.
  apply inv_seq; [apply keeps_now|]. intros t.
  destruct (statusUnchanged _ _ _ _ _); [by apply (inv_ret _ _ (fun _ => True))|].
  eapply (inv_bind _ _ _ (fun c' => failCount c' = n)).
  - intros w Hw. split; [by apply (keeps_completeStatus (pres (srv (count_is n))))|]. intros c' Hc'.
    destruct (completeStatus _ _ w) as [? w'] eqn:Hcs. simpl in Hc'. subst.
    apply completeStatus_count in Hcs. unfold same_count in Hcs. rewrite Hcs.
    by rewrite setFineGrainedConditions_count.
  - intros c' Hc'. apply inv_seq; [apply keeps_publishStatus, _|]. intros _. by apply inv_keeps, statusWrite_count.
Qed.

(** The writes made when publishing are status updates and info commands. *)
Definition statusAction (a : action) : Prop :=
  match a with AUpdateStatus | AInfo _ _ | AExec _ _ => True | _ => False end.

Lemma does_statusWriteAttempt phase reason o gen c :
  keeps (does statusAction) (statusWriteAttempt phase reason o gen c).
Proof.
  pose proof (keeps_populateStatus (does statusAction)).
  pose proof (keeps_completeStatus (does statusAction)).
  unfold statusWriteAttempt. frame. all: done.
Qed.

Lemma does_updateStatusAndPhase phase reason o :
  keeps (does statusAction) (updateStatusAndPhase phase reason o).
Proof.
  pose proof (keeps_populateStatus (does statusAction)).
  pose proof (keeps_completeStatus (does statusAction)).
  pose proof does_statusWriteAttempt.
  pose proof (keeps_publishStatus (does statusAction)).
  assert (forall again gen c, keeps (does statusAction) (statusWrite again phase reason o gen c)).
  { induction again as [|again IH]; intros gen c; cbn [statusWrite]; frame. }
  unfold updateStatusAndPhase. frame.
Qed.

End StatusFrames.

(** ** A status that is published again

    The status a pass leaves behind, and why the next pass skips its write. *)

Section SettlingPasses.
Context `{Environment}.

(** Everything [statusUnchanged] compares is what a round over [pods] computes. *)
Record settled (c : AerospikeCluster) (pods : list Pod) (phase : AerospikePhase) (reason : string)
    (o : StatusUpdateOpts) : Prop := {
  se_phase : st_Phase (cl_Status c) = phase;
  se_reason : st_PhaseReason (cl_Status c) = reason;
  se_size : st_Size (cl_Status c) = readyCount pods;
  se_replicas : st_Replicas (cl_Status c) = replicaCount pods;
  se_health : st_Health (cl_Status c) = healthText (readyCount pods) (spec_Size (cl_Spec c));
  se_generation : st_ObservedGeneration (cl_Status c) = cl_Generation c;
  se_selector : st_Selector (cl_Status c) = buildSelectorString (SelectorLabelsForCluster (cl_Name c));
  se_nodup : NoDup (condition_types (st_Conditions (cl_Status c)));
  se_pods t : podStatuses t c pods = st_Pods (cl_Status c);
  se_ops t : Forall (opDone (cl_Generation c) (st_Conditions (cl_Status c))) (clusterOps t c pods phase o)
}.

Lemma settled_unchanged t c pods phase reason o :
  settled c pods phase reason o ->
  statusUnchanged (takeSnapshot c) (computedStatus t c pods phase reason o) (readyCount pods) phase reason = true.
Proof.
  intros [Hp Hr Hs Hrep Hh Hg Hsel Hnd Hpods Hops]. unfold statusUnchanged, takeSnapshot.
  cbn [ss_Phase ss_PhaseReason ss_Size ss_Replicas ss_Health ss_Generation ss_Selector ss_Pods ss_Conditions].
  rewrite computedStatus_eq. cbn [cl_Status st_Conditions st_Replicas st_Health st_Selector st_Pods basicStatus update cl_Generation].
  rewrite (applyOps_id t _ _ _ (Hops t)), conditionsChanged_same by done. cbn.
  rewrite Hp, Hr, Hs, Hrep, Hh, Hg, Hsel, Hpods, !bool_decide_true by done. by rewrite !Z.eqb_refl.
Qed.

Lemma computed_settled t c pods phase reason o :
  NoDup (pod_Name <$> pods) -> NoDup (condition_types (st_Conditions (cl_Status c))) ->
  settled (computedStatus t c pods phase reason o) pods phase reason o.
Proof.
  intros Hnd Hc. pose proof (computedStatus_nodup t c pods phase reason o Hc) as Hcn.
  split; try (by rewrite computedStatus_eq); [done| |]; intros t'.
  - rewrite (podStatuses_idem t t' c) by (done || by rewrite computedStatus_eq). by rewrite computedStatus_eq.
  - rewrite (clusterOps_idem t t' c) by (done || by rewrite computedStatus_eq).
    rewrite computedStatus_eq. apply applyOps_done, roundOps_nodup.
Qed.

(** Two lists of conditions without a difference in what is compared. *)
Lemma unchanged_types conds conds' :
  NoDup (condition_types conds) -> NoDup (condition_types conds') ->
  conditionsChanged (conditionsSnapshot conds) conds' = false ->
  (forall c', c' ∈ conds' -> exists c, getCondition (c_Type c') conds = Some c /\ snapshotOf c = snapshotOf c') /\
  condition_types conds ⊆ condition_types conds'.
Proof.
  intros Hnd Hnd'. unfold conditionsChanged. rewrite conditionsSnapshot_size by done.
  intros [Hlen%bool_decide_eq_true Hall]%negb_false_iff%andb_prop.
  assert (forall c', c' ∈ conds' -> exists c, getCondition (c_Type c') conds = Some c /\ snapshotOf c = snapshotOf c') as Hin.
  { intros c' Hc'. rewrite forallb_forall in Hall. specialize (Hall c' (proj1 (list_elem_of_In _ _) Hc')).
    apply bool_decide_eq_true in Hall. rewrite conditionsSnapshot_lookup in Hall by done.
    apply fmap_Some in Hall as (c & Hc & He). by exists c. }
  split; [done|]. assert (condition_types conds' ⊆+ condition_types conds) as Hsub.
  { apply NoDup_submseteq; [done|]. intros ty (c' & -> & Hc')%list_elem_of_fmap.
    destruct (Hin c' Hc') as (c & [Hcin Hty]%getCondition_Some & _). rewrite <- Hty. by apply list_elem_of_fmap_2. }
  apply submseteq_length_Permutation in Hsub; [|unfold condition_types; rewrite !length_fmap; lia].
  intros ty Hty. by rewrite Hsub.
Qed.

Lemma unchanged_ops t gen conds ops :
  NoDup (condition_types conds) -> NoDup (opType <$> ops) ->
  conditionsChanged (conditionsSnapshot conds) (foldl (applyOp t gen) conds ops) = false ->
  Forall (opDone gen conds) ops.
Proof.
  intros Hnd Hops Hun. pose proof (applyOps_done t gen conds ops Hops) as Hdone.
  destruct (unchanged_types _ _ Hnd (applyOps_nodup t gen conds ops Hnd) Hun) as [Hin Hty].
  eapply Forall_impl; [exact Hdone|]. intros [ty b r m|ty]; simpl.
  - intros [lt [Hc' _]%getCondition_Some]. destruct (Hin _ Hc') as (c & Hc & Hs). simpl in Hc.
    pose proof (getCondition_Some _ _ _ Hc) as [_ Ht]. destruct c as [ty' st g r' m' lt']. simpl in *.
    injection Hs as -> -> -> ->. subst. by exists lt'.
  - intros Hn%getCondition_None. apply getCondition_None. intros Hin'. by apply Hn, Hty.
Qed.

Lemma unchanged_settled t c pods phase reason o :
  NoDup (pod_Name <$> pods) -> NoDup (condition_types (st_Conditions (cl_Status c))) ->
  statusUnchanged (takeSnapshot c) (computedStatus t c pods phase reason o) (readyCount pods) phase reason = true ->
  settled c pods phase reason o.
Proof.
  intros Hnd Hc. unfold statusUnchanged, takeSnapshot.
  cbn [ss_Phase ss_PhaseReason ss_Size ss_Replicas ss_Health ss_Generation ss_Selector ss_Pods ss_Conditions].
  rewrite computedStatus_eq. cbn [cl_Status st_Conditions st_Replicas st_Health st_Selector st_Pods basicStatus update cl_Generation].
  rewrite !andb_true_iff, !bool_decide_eq_true, !Z.eqb_eq.
  intros [[[[[[[[Hp Hr] Hs] Hrep] Hh] Hg] Hsel] Hun%negb_true_iff] Hpods].
  assert (forall t', podStatuses t' c pods = podStatuses t c pods) as Hidem by (intros t'; by apply podStatuses_idem).
  split; try done; intros t'.
  - by rewrite Hidem.
  - rewrite (clusterOps_idem t t' c c) by done. eapply unchanged_ops; [done|apply roundOps_nodup|exact Hun].
Qed.

(** The migration statistics of the nodes were published. *)
Definition statsPublished (c : AerospikeCluster) : Prop :=
  exists m n, getCondition "MigrationComplete" (st_Conditions (cl_Status c)) = Some m /\
    c_Message m = "Remaining partitions: " +:+ pretty (n : Z).

Lemma configApplied_true pods spec o :
  configApplied pods spec o = true <->
  pods <> ∅ /\ forall k ps, pods !! k = Some ps ->
    match opt_ValidConfigHashes o with
    | Some valid => ps_ConfigHash ps ∈ valid
    | None => ps_ConfigHash ps = configHash (spec_AerospikeConfig spec)
    end.
Proof.
  assert (forall P : AerospikePodStatus -> Prop, (forall ps, ps ∈ (map_to_list pods).*2 -> P ps) <->
    (forall k ps, pods !! k = Some ps -> P ps)) as Hall.
  { intros P. split.
    - intros Hp k ps Hk. apply Hp, list_elem_of_fmap. exists (k, ps). split; [done|]. by apply elem_of_map_to_list.
    - intros Hp ps ([k ps'] & -> & Hin%elem_of_map_to_list)%list_elem_of_fmap. by eapply Hp. }
  unfold configApplied. rewrite andb_true_iff, bool_decide_eq_true.
  assert ((map_to_list pods).*2 <> [] <-> pods <> ∅) as ->.
  { rewrite <- map_to_list_empty_iff. by destruct (map_to_list pods). }
  destruct (opt_ValidConfigHashes o); rewrite forallb_forall; setoid_rewrite bool_decide_eq_true;
    setoid_rewrite <- list_elem_of_In; by rewrite Hall.
Qed.

(** A round over pods that keep their hashes sees the same conditions. *)
Lemma configApplied_ext pods pods' spec o :
  (forall k, ps_ConfigHash <$> pods' !! k = ps_ConfigHash <$> pods !! k) ->
  configApplied pods' spec o = configApplied pods spec o.
Proof.
  assert (forall m m' : gmap string AerospikePodStatus, (forall k, ps_ConfigHash <$> m' !! k = ps_ConfigHash <$> m !! k) ->
    configApplied m spec o = true -> configApplied m' spec o = true) as Himp.
  { intros m m' He. rewrite !configApplied_true. intros [Hne Hall]. split.
    - intros ->. apply Hne, map_eq. intros k. specialize (He k). rewrite lookup_empty in *. by destruct (m !! k).
    - intros k ps' Hk. specialize (He k). rewrite Hk in He. symmetry in He. apply fmap_Some in He as (ps & Hps & ->).
      by apply (Hall k). }
  intros He. apply eq_true_iff_eq. split; [apply Himp; intros k; by rewrite He|by apply Himp].
Qed.

Lemma podStatuses_at t c pods p :
  NoDup (pod_Name <$> pods) -> p ∈ pods ->
  podStatuses t c pods !! pod_Name p =
    Some (buildPodStatus t p (default zeroPodStatus (st_Pods (cl_Status c) !! pod_Name p)) (spec_Image (cl_Spec c))
            (i32 (getServicePort c)) (podRackID p)).
Proof. intros Hnd Hin. unfold podStatuses. by rewrite (foldl_insert_lookup _ pods ∅ p). Qed.

Lemma podStatuses_lookup t c pods k :
  NoDup (pod_Name <$> pods) ->
  (exists p, p ∈ pods /\ pod_Name p = k /\ podStatuses t c pods !! k =
    Some (buildPodStatus t p (default zeroPodStatus (st_Pods (cl_Status c) !! k)) (spec_Image (cl_Spec c))
            (i32 (getServicePort c)) (podRackID p))) \/
  podStatuses t c pods !! k = None.
Proof.
  intros Hnd. unfold podStatuses. destruct (decide (k ∈ pod_Name <$> pods)) as [(p & -> & Hp)%list_elem_of_fmap|Hk].
  - left. exists p. split_and!; [done..|]. by rewrite (foldl_insert_lookup _ pods ∅ p).
  - right. by rewrite foldl_insert_notin by done.
Qed.

(** What the nodes report about themselves. *)
Lemma settled_applyInfo m c pods phase reason o :
  NoDup (pod_Name <$> pods) -> settled c pods phase reason o -> settled (applyInfo m c) pods phase reason o.
Proof.
  intros Hnd [Hp Hr Hs Hrep Hh Hg Hsel Hcn Hpods Hops].
  assert (forall t, podStatuses t (applyInfo m c) pods = st_Pods (cl_Status (applyInfo m c))) as Hpods'.
  { intros t. apply map_eq. intros k. unfold applyInfo at 2. cbn [cl_Status st_Pods update]. rewrite map_lookup_imap, <- (Hpods t).
    destruct (podStatuses_lookup t (applyInfo m c) pods k Hnd) as [(p & Hin & <- & ->)|Hn].
    - rewrite (podStatuses_at t c pods p Hnd Hin). simpl. f_equal.
      unfold applyInfo. cbn [cl_Status st_Pods update cl_Spec]. rewrite map_lookup_imap.
      assert (exists ps, st_Pods (cl_Status c) !! pod_Name p = Some ps /\
        ps = buildPodStatus t p ps (spec_Image (cl_Spec c)) (i32 (getServicePort c)) (podRackID p)) as (ps & Hps & He).
      { rewrite <- (Hpods t), (podStatuses_at t c pods p Hnd Hin). eexists. split; [done|].
        by rewrite <- (Hpods t), (podStatuses_at t c pods p Hnd Hin), buildPodStatus_idem. }
      rewrite Hps. cbn [default from_option mbind option_bind id]. destruct (m !! pod_Name p) as [[[nid cn] eps]|]; [|reflexivity].
      unfold buildPodStatus. reflexivity.
    - rewrite Hn. destruct (podStatuses_lookup t c pods k Hnd) as [(p & Hin & <- & _)| ->]; [|done]. exfalso.
      by rewrite (podStatuses_at t (applyInfo m c) pods p Hnd Hin) in Hn. }
  split; try done. intros t. unfold clusterOps. rewrite Hpods'.
  rewrite (configApplied_ext (podStatuses t c pods)); [apply Hops|]. intros k. rewrite Hpods. unfold applyInfo.
  cbn [cl_Status st_Pods update]. rewrite map_lookup_imap. destruct (st_Pods (cl_Status c) !! k) as [ps|]; [|done]. simpl.
  by destruct (m !! k) as [[[??]?]|].
Qed.

(** The spec, the generation and the name: what a write of the status leaves alone. *)
Definition sameObject (c c' : AerospikeCluster) : Prop :=
  cl_Spec c' = cl_Spec c /\ cl_Generation c' = cl_Generation c /\ cl_Name c' = cl_Name c.

(** The fields of the status that [statusUnchanged] compares. *)
Definition compared (s : AerospikeClusterStatus) :=
  (st_Phase s, st_PhaseReason s, st_Size s, st_Replicas s, st_Health s, st_ObservedGeneration s, st_Selector s,
   st_Conditions s, st_Pods s).

Lemma settled_ext c c' pods phase reason o :
  sameObject c c' -> compared (cl_Status c') = compared (cl_Status c) ->
  settled c pods phase reason o -> settled c' pods phase reason o.
Proof.
  intros (Hsp & Hgn & Hnm) He [Hp Hr Hs Hrep Hh Hg Hsel Hcn Hpods Hops]. injection He as E1 E2 E3 E4 E5 E6 E7 E8 E9.
  assert (forall t, podStatuses t c' pods = podStatuses t c pods) as Hps
    by (intros t; unfold podStatuses, getServicePort; by rewrite E9, Hsp).
  split; [congruence|congruence|congruence|congruence|congruence|congruence|congruence|by rewrite E8| |]; intros t; [by rewrite Hps, Hpods|]. rewrite Hgn, E8. unfold clusterOps, hasACL.
  rewrite Hps, Hsp. apply Hops.
Qed.

(** What is to be written: a settled status, or one with the statistics of the nodes. *)
Definition settling (c : AerospikeCluster) (pods : list Pod) (phase : AerospikePhase) (reason : string)
    (o : StatusUpdateOpts) : Prop :=
  st_ObservedGeneration (cl_Status c) = cl_Generation c /\ (settled c pods phase reason o \/ statsPublished c).

Lemma settled_settling c pods phase reason o : settled c pods phase reason o -> settling c pods phase reason o.
Proof. intros Hs. split; [apply Hs|by left]. Qed.

Lemma settling_ext c c' pods phase reason o :
  sameObject c c' -> compared (cl_Status c') = compared (cl_Status c) ->
  settling c pods phase reason o -> settling c' pods phase reason o.
Proof.
  intros Hs He [Hg H1]. pose proof He as He'. injection He' as _ _ _ _ _ E6 _ E8 _.
  split; [rewrite E6, Hg; symmetry; apply Hs|]. destruct H1 as [H1|H1]; [left; by eapply settled_ext|right].
  unfold statsPublished. by rewrite E8.
Qed.

Lemma migrationStats_settling t c perNode pods phase reason o :
  settled c pods phase reason o ->
  settling (applyMigrationStats t c perNode) pods phase reason o /\ sameObject c (applyMigrationStats t c perNode).
Proof.
  intros Hs. unfold applyMigrationStats. case_decide; [by split; [apply settled_settling|]|].
  destruct (map_fold _ _ perNode) as [[total any] ps]. split; [split; [apply Hs|right]|done]. eexists _, total.
  split; [apply setConditionIn_same|]. reflexivity.
Qed.

Lemma enrich_settling c w c' w' pods phase reason o :
  NoDup (pod_Name <$> pods) -> settled c pods phase reason o ->
  enrichStatusWithAerospikeInfo c w = (inr c', w') -> settling c' pods phase reason o /\ sameObject c c'.
Proof.
  intros Hnd Hs. unfold enrichStatusWithAerospikeInfo, mbind, M_bind, try.
  destruct (getAerospikeClient c w) as [[e|client] w1]; [intros [= <- _]; by split; [apply settled_settling|]|].
  destruct (collectAerospikeInfo client c w1) as [[e|info] w2]; [done|].
  destruct (clusterSize client w2) as [n w3]. destruct (migrateStatsPerNode client w3) as [perNode w4].
  unfold now, gets, mret, M_ret. intros [= <- _].
  set (c1 := match n with inl _ => _ | inr _ => _ end).
  assert (settled c1 pods phase reason o /\ sameObject c c1) as [Hs1 Ho1].
  { pose proof (settled_applyInfo info c pods phase reason o Hnd Hs) as Hi.
    destruct n; (split; [|done]); [exact Hi|by eapply settled_ext; [..|exact Hi]]. }
  destruct perNode as [e|m]; [by split; [apply settled_settling|]|].
  destruct (migrationStats_settling (w_now w4) c1 m pods phase reason o Hs1) as [H1 (H2 & H3 & H4)]. split; [exact H1|].
  destruct Ho1 as (H5 & H6 & H7). split_and!; congruence.
Qed.

Lemma complete_settling c w c' w' phase' pods phase reason o :
  NoDup (pod_Name <$> pods) -> settled c pods phase reason o ->
  completeStatus phase' c w = (inr c', w') -> settling c' pods phase reason o /\ sameObject c c'.
Proof.
  intros Hnd Hs. unfold completeStatus. case_decide; [|intros [= <- _]; by split; [apply settled_settling|]].
  unfold mbind, M_bind, now, gets. set (c1 := c <| cl_Status ::= _ |> <| cl_Status ::= _ |> <| cl_Status ::= _ |> <| cl_Status ::= _ |>).
  destruct (enrichStatusWithAerospikeInfo c1 w) as [[e|c2] w1] eqn:He; [done|].
  apply (enrich_settling _ _ _ _ pods phase reason o Hnd) in He as [H2 Ho2]; [|by eapply settled_ext; [..|exact Hs]].
  destruct (populateExternalEndpoints_ok c2 w1) as (ep & seeds & w2 & ->). intros [= <- _].
  split; [by eapply settling_ext; [..|exact H2]|exact Ho2].
Qed.

(** ** Two passes in a row *)

(** The pods of the cluster. *)
Definition clusterPods (c : AerospikeCluster) (w : World) : list Pod :=
  filter (fun p => selector_matches (SelectorLabelsForCluster (cl_Name c)) (pod_Labels p) = true) (w_pods w).

Lemma populateStatus_ok c w r w' :
  populateStatus c w = (inr r, w') -> r = populateFrom (w_now w') c (clusterPods c w).
Proof.
  unfold populateStatus, listClusterPods, listPods, mbind, M_bind, gets, now.
  pose proof (api_agree w_pods w) as Ha. destruct (api w) as [[e|[]] w1]; [done|]. simpl in Ha.
  intros [= <- <-]. unfold clusterPods. by rewrite Ha.
Qed.

(** The cluster [c] is stored and its pods are [pods]. *)
Definition stands (c : AerospikeCluster) (pods : list Pod) (w : World) : Prop :=
  w_cluster w = Some c /\ clusterPods c w = pods.

Lemma stands_keeps c pods {A} (m : M A) w :
  keeps (agree (fun w => (w_cluster w, w_pods w))) m -> stands c pods w -> stands c pods (snd (m w)).
Proof. intros Hk [Hc Hp]. pose proof (Hk w) as He. injection He as H1 H2. unfold stands, clusterPods in *. by rewrite H1, H2. Qed.

Lemma stands_run c pods {A} (m : M A) w r w' :
  keeps (agree (fun w => (w_cluster w, w_pods w))) m -> m w = (r, w') -> stands c pods w -> stands c pods w'.
Proof. intros Hk Hr Hw. rewrite <- (f_equal snd Hr : _ = w'). by apply stands_keeps. Qed.

(** A pass leaves the cluster with a status that settles. *)
Definition settlesAt (c : AerospikeCluster) (pods : list Pod) (phase : AerospikePhase) (reason : string)
    (o : StatusUpdateOpts) (w : World) : Prop :=
  exists c1, w_cluster w = Some c1 /\ settling c1 pods phase reason o /\ sameObject c c1.

Lemma updateStatus_settling c latest pods phase reason o w r w' :
  stands c pods w -> settling latest pods phase reason o -> sameObject c latest ->
  updateStatus latest w = (r, w') ->
  match r with inr _ => settlesAt c pods phase reason o w' | inl _ => stands c pods w' end.
Proof.
  intros Hw Hs (H1 & H2 & H3). unfold updateStatus, writeCluster, mbind, M_bind.
  destruct (api w) as [[e|[]] w1] eqn:Ha.
  all: assert (stands c pods w1) as Hw1 by (eapply stands_run; [|exact Ha|exact Hw]; frame).
  { intros [= <- <-]. exact Hw1. }
  unfold gets, raise. rewrite (proj1 Hw1). case_decide; [|by intros [= <- <-]]. intros [= <- <-].
  eexists. split; [reflexivity|]. split; [|done]. eapply settling_ext; [..|exact Hs]; [|done]. by split_and!.
Qed.

Lemma statusWriteAttempt_settling c pods phase reason o latest w latest' r w' :
  NoDup (pod_Name <$> pods) -> NoDup (condition_types (st_Conditions (cl_Status c))) ->
  stands c pods w -> settling latest pods phase reason o -> sameObject c latest ->
  statusWriteAttempt phase reason o (cl_Generation c) latest w = (inr (latest', r), w') ->
  match r with
  | None => settlesAt c pods phase reason o w'
  | Some _ => stands c pods w' /\ settling latest' pods phase reason o /\ sameObject c latest'
  end.
Proof.
  intros Hnd Hcn Hw Hs Ho. unfold statusWriteAttempt, mbind at 1, M_bind, try at 1.
  destruct (updateStatus latest w) as [[e|?] w1] eqn:Hu; pose proof (updateStatus_settling _ _ _ _ _ _ _ _ _ Hw Hs Ho Hu) as H1.
  2: { by intros [= <- <- <-]. }
  simpl in H1. destruct (negb (IsConflict e)); [by intros [= <- <- <-]|]. unfold mbind at 1, M_bind, try, mbind at 1, M_bind.
  destruct (refetchCluster w1) as [[fe|c'] w2] eqn:Hf.
  all: assert (stands c pods w2) as H2 by (eapply stands_run; [|exact Hf|exact H1]; frame).
  { by intros [= <- <- <-]. }
  apply refetchCluster_ok in Hf as (Hc' & _). rewrite (proj1 H1) in Hc'. injection Hc' as <-.
  destruct (populateStatus c w2) as [[fe|[p n]] w3] eqn:Hp.
  all: assert (stands c pods w3) as H3 by (eapply stands_run; [|exact Hp|exact H2]; apply keeps_populateStatus; apply _).
  { by intros [= <- <- <-]. }
  apply populateStatus_ok in Hp. rewrite (proj2 H2) in Hp. unfold mbind at 1, M_bind, now, gets, mbind, M_bind.
  assert (setFineGrainedConditions (w_now w3) (withPhase phase reason p) o = computedStatus (w_now w3) c pods phase reason o) as ->
    by (unfold computedStatus; by rewrite <- Hp).
  destruct (completeStatus phase _ w3) as [[ce|c1] w4] eqn:Hc; [done|].
  assert (stands c pods w4) as H4 by (eapply stands_run; [|exact Hc|exact H3]; apply keeps_completeStatus; apply _).
  apply (complete_settling _ _ _ _ _ pods phase reason o Hnd) in Hc as [H5 H6]; [|by apply computed_settled].
  rewrite computedStatus_eq in H6. intros [= <- <- <-]. split; [done|]. split; [|exact H6].
  apply (settling_ext c1); [done| |exact H5]. pose proof (proj1 H5) as Hse. pose proof (proj1 (proj2 H6)) as Hg. simpl in Hg.
  unfold compared. simpl. by rewrite <- Hg, <- Hse.
Qed.

Lemma statusWrite_settling c pods phase reason o again : forall latest w w',
  NoDup (pod_Name <$> pods) -> NoDup (condition_types (st_Conditions (cl_Status c))) ->
  stands c pods w -> settling latest pods phase reason o -> sameObject c latest ->
  statusWrite again phase reason o (cl_Generation c) latest w = (inr (), w') -> settlesAt c pods phase reason o w'.
Proof.
  induction again as [|again IH]; intros latest w w' Hnd Hcn Hw Hs Ho; cbn [statusWrite]; unfold mbind, M_bind.
  all: destruct (statusWriteAttempt phase reason o (cl_Generation c) latest w) as [[e|[l r]] w1] eqn:Ha; [done|].
  all: apply (statusWriteAttempt_settling c pods) in Ha; [|done..].
  all: destruct r as [e|]; [|by intros [= <-]]; destruct (IsConflict e); [|done].
  - done.
  - destruct Ha as (H1 & H2 & H3). by apply IH.
Qed.

Lemma updateStatusAndPhase_settles c pods phase reason o w w' :
  NoDup (pod_Name <$> pods) -> NoDup (condition_types (st_Conditions (cl_Status c))) -> stands c pods w ->
  updateStatusAndPhase phase reason o w = (inr (), w') -> settlesAt c pods phase reason o w'.
Proof.
  intros Hnd Hcn Hw. unfold updateStatusAndPhase, mbind at 1, M_bind at 1.
  destruct (refetchCluster w) as [[e|c'] w1] eqn:Hf; [done|].
  assert (stands c pods w1) as H1 by (eapply stands_run; [|exact Hf|exact Hw]; frame).
  apply refetchCluster_ok in Hf as (Hc' & _). rewrite (proj1 Hw) in Hc'. injection Hc' as <-.
  unfold mbind at 1, M_bind at 1. destruct (populateStatus c w1) as [[e|[p n]] w2] eqn:Hp; [done|].
  assert (stands c pods w2) as H2 by (eapply stands_run; [|exact Hp|exact H1]; apply keeps_populateStatus; apply _).
  apply populateStatus_ok in Hp. rewrite (proj2 H1) in Hp. unfold mbind at 1, M_bind at 1, now, gets. cbv zeta.
  assert (setFineGrainedConditions (w_now w2) (withPhase phase reason p) o = computedStatus (w_now w2) c pods phase reason o) as ->
    by (unfold computedStatus; by rewrite <- Hp).
  assert (n = readyCount pods) as -> by (by injection Hp).
  destruct (statusUnchanged _ _ _ _ _) eqn:Hun.
  { intros [= <-]. exists c. split; [exact (proj1 H2)|]. split; [|done]. by eapply settled_settling, unchanged_settled. }
  unfold mbind, M_bind. destruct (completeStatus phase _ w2) as [[e|c1] w3] eqn:Hc; [done|].
  assert (stands c pods w3) as H3 by (eapply stands_run; [|exact Hc|exact H2]; apply keeps_completeStatus; apply _).
  apply (complete_settling _ _ _ _ _ pods phase reason o Hnd) in Hc as [H5 H6]; [|by apply computed_settled].
  rewrite computedStatus_eq in H6.
  destruct (publishStatus phase (readyCount pods) c1 w3) as [[e|[]] w4] eqn:Hpub; [done|].
  assert (stands c pods w4) as H4 by (eapply stands_run; [|exact Hpub|exact H3]; apply keeps_publishStatus; apply _).
  pose proof (proj1 H5) as Hg. rewrite (proj1 (proj2 H6) : cl_Generation c1 = cl_Generation c) in Hg. rewrite Hg.
  intros Hr. by eapply statusWrite_settling.
Qed.

(** C14: a status update that succeeds stores the phase, the reason, the number of ready
    pods and the generation it was computed for, and settles: unless migration
    statistics were stored with it, updating the status again over the same pods, at any
    later time and whatever the nodes answer, writes nothing *)
Theorem status_settles c c1 phase reason o w w1 w2 :
  w_cluster w = Some c -> NoDup (pod_Name <$> clusterPods c w) ->
  NoDup (condition_types (st_Conditions (cl_Status c))) ->
  updateStatusAndPhase phase reason o w = (inr (), w1) ->
  w_cluster w1 = Some c1 -> ~ statsPublished c1 ->
  w_cluster w2 = Some c1 -> w_pods w2 = w_pods w ->
  (st_Phase (cl_Status c1) = phase /\ st_PhaseReason (cl_Status c1) = reason /\
   st_Size (cl_Status c1) = readyCount (clusterPods c w) /\ st_ObservedGeneration (cl_Status c1) = cl_Generation c) /\
  w_cluster (snd (updateStatusAndPhase phase reason o w2)) = Some c1 /\
  w_trace (snd (updateStatusAndPhase phase reason o w2)) = w_trace w2.
Proof.
  intros Hc Hnd Hcn Hrun Hc1 Hns Hw2 Hpods.
  destruct (updateStatusAndPhase_settles c _ phase reason o w w1 Hnd Hcn (conj Hc eq_refl) Hrun) as (c1' & Hc1' & [_ Hset] & Ho).
  rewrite Hc1 in Hc1'. injection Hc1' as <-. destruct Hset as [Hset|]; [|done]. clear Hrun Hns.
  split; [destruct Hset, Ho as (_ & Hg & _); split_and!; congruence|].
  assert (clusterPods c1 w2 = clusterPods c w) as Hp by (unfold clusterPods; by rewrite Hpods, (proj2 (proj2 Ho))).
  set (R := agree (fun w => (w_cluster w, w_trace w, w_pods w))).
  assert (forall w', R w2 w' -> w_cluster w' = Some c1 /\ w_trace w' = w_trace w2) as Hdone
    by (intros w' Hr; injection Hr as H1 H2 _; by rewrite H1).
  apply Hdone. clear Hdone. unfold updateStatusAndPhase. apply bind_cases; intros r w3 Hf.
  all: assert (R w2 w3) as H3 by (apply (keeps_run R _ _ _ _) with (2 := Hf); unfold R; frame).
  { exact H3. }
  apply refetchCluster_ok in Hf as (Hc' & _). rewrite Hw2 in Hc'. injection Hc' as <-. cbv zeta.
  apply bind_cases; intros q w4 Hq.
  all: assert (R w2 w4) as H4 by (trans w3; [exact H3|]; apply (keeps_run R _ _ _ _) with (2 := Hq); unfold R; apply keeps_populateStatus; apply _).
  { exact H4. }
  apply populateStatus_ok in Hq. injection H3 as _ _ Hp3. unfold clusterPods in Hq. rewrite Hp3 in Hq.
  change (filter _ (w_pods w2)) with (clusterPods c1 w2) in Hq. rewrite Hp in Hq. destruct q as [p n].
  unfold now, gets, mbind, M_bind.
  assert (setFineGrainedConditions (w_now w4) (withPhase phase reason p) o = computedStatus (w_now w4) c1 (clusterPods c w) phase reason o) as ->
    by (unfold computedStatus; by rewrite <- Hq).
  assert (n = readyCount (clusterPods c w)) as -> by (by injection Hq).
  by rewrite (settled_unchanged _ _ _ _ _ _ Hset).
Qed.

End SettlingPasses.

(** ** Instances *)

Definition sample_pod (name : string) (phase : PodPhase) (ready : bool) (hash : string) : Pod :=
  mkPod name (LabelsForRack "demo" 1) [(ConfigHashAnnotation, hash)] None
    [(AerospikeContainerName, "aerospike:ce-8.1.1.1")] [] phase
    [mkPodCondition "Ready" (conditionStatus ready) 0 "" ""] "10.0.0.1" "192.168.0.1".

Definition sample_opts : StatusUpdateOpts := mkOpts None false false false None.

(** One ready and one starting pod: the second update is skipped. *)
Definition settling_world : World (H := sample_env) :=
  sample_world (example_cluster 2 None)
    [sample_pod "demo-1-0" PodRunning true "h1"; sample_pod "demo-1-1" PodPending false "h1"] [] (mkStub [] [] [] []).

Lemma status_settles_witness :
  let w := settling_world in
  let w1 := snd (updateStatusAndPhase (H := sample_env) PhaseACLSync "retry" sample_opts w) in
  exists c1, w_cluster w1 = Some c1 /\ st_Size (cl_Status c1) = 1 /\
    (st_Phase (cl_Status c1) = PhaseACLSync /\ st_PhaseReason (cl_Status c1) = "retry" /\
     st_Size (cl_Status c1) = readyCount (clusterPods (H := sample_env) (example_cluster 2 None) w) /\
     st_ObservedGeneration (cl_Status c1) = cl_Generation (example_cluster 2 None)) /\
    w_cluster (snd (updateStatusAndPhase (H := sample_env) PhaseACLSync "retry" sample_opts w1)) = Some c1 /\
    w_trace (snd (updateStatusAndPhase (H := sample_env) PhaseACLSync "retry" sample_opts w1)) = w_trace w1.
Proof.
  intros w w1.
  assert ((fun c => (st_Size (cl_Status c), c_Message <$> getCondition "MigrationComplete" (st_Conditions (cl_Status c)))) <$>
    w_cluster w1 = Some (1, Some "No rolling restart in progress")) as Hw1 by (by vm_compute).
  destruct (w_cluster w1) as [c1|] eqn:Hc1; [|discriminate Hw1]. injection Hw1 as Hsize Hmsg.
  exists c1. split; [done|]. split; [exact Hsize|].
  apply (status_settles (H := sample_env) (example_cluster 2 None) c1 PhaseACLSync "retry" sample_opts w w1 w1).
  - done.
  - apply (bool_decide_unpack _). by vm_compute.
  - constructor.
  - assert (fst (updateStatusAndPhase (H := sample_env) PhaseACLSync "retry" sample_opts w) = inr ()) as Hf by (by vm_compute).
    unfold w1. by destruct (updateStatusAndPhase _ _ _ w) as [r w']; simpl in Hf; subst r.
  - exact Hc1.
  - intros (m & n & Hm & Hn). rewrite Hm in Hmsg. injection Hmsg as Hmsg. by rewrite Hmsg in Hn.
  - exact Hc1.
  - by vm_compute.
Defined.

Lemma migration_stats_defeat_skip_witness :
  let published := applyMigrationStats 10 (example_cluster 2 None) {["10.0.0.1" := 0]} in
  statusUnchanged (takeSnapshot published)
    (computedStatus (H := sample_env) 20 published [] PhaseCompleted "ok" sample_opts)
    (readyCount []) PhaseCompleted "ok" = false.
Proof.
  apply (migration_stats_defeat_skip (H := sample_env)).
  - by intros ?%(f_equal (lookup "10.0.0.1")).
  - constructor.
  - done.
Defined.

(** A migrating cluster that becomes unreachable is published as migrated. *)
Lemma migration_complete_without_answer_witness :
  let c := (example_cluster 2 None) <$ st_MigrationStatus := Some (mkMigrationStatus true 7 0) $> in
  let w := sample_world c [] [] (mkStub [] [] [] []) in
  exists published w'',
    completeStatus (H := sample_env) PhaseCompleted
      (computedStatus (H := sample_env) 10 c [] PhaseCompleted "ok" sample_opts) w = (inr published, w'') /\
    c_Status <$> getCondition ConditionMigrationComplete (st_Conditions (cl_Status published)) = Some ConditionTrue /\
    st_MigrationStatus (cl_Status published) = st_MigrationStatus (cl_Status c).
Proof.
  intros c w. eapply (migration_complete_without_answer (H := sample_env) 10 c [] "ok" sample_opts w
    (wrapErr "connecting to Aerospike" (Errorf "connection refused")) w); reflexivity.
Defined.
