(* ===== verification/Breaker.v ===== *)
(** * Phases, failure accounting and pausing

    internal/controller/reconciler.go ([setPhase], [handleReconcileError],
    [resetFailedReconcileCount], [handleCircuitBreakerBackoff]) and
    pause_handler.go.  [w_mem] is the [cluster] object of the running reconcile;
    [w_cluster] is the one stored in the API server. *)

From S2P Require Import Prelude GoValue Utils Api Metrics Events Kube Sizing Status.

(** [ctrl.Result]. *)
Record Result := mkResult { Requeue : bool; RequeueAfter : Z }.

#[export] Instance Result_eq_dec : EqDecision Result.
Proof. solve_decision. Defined.

Definition finished : Result := mkResult false 0.
Definition requeue : Result := mkResult true 0.
Definition requeueAfter (d : Z) : Result := mkResult false d.

Definition pausePhaseReason := "Reconciliation paused by user".

(** [time.Duration]'s [String] on whole seconds below an hour. *)
Definition durationString (d : Z) : string :=
  let s := d / second in
  if s <? 60 then pretty s +:+ "s" else pretty (s / 60) +:+ "m" +:+ pretty (s mod 60) +:+ "s".

(** When the pause began: the transition time of the first condition that says so. *)
Definition pauseStartTime (cluster : AerospikeCluster) : option Z :=
  (fun '(_, c) => c_LastTransitionTime c) <$>
    list_find (fun c => c_Type c = ConditionReconciliationPaused /\ c_Status c = ConditionTrue)
      (st_Conditions (cl_Status cluster)).

Section Breaker.
Context `{Environment}.

(** [setPhase]: nothing is written when phase, reason and pending pods are
    already those of the stored object. *)
Definition setPhase (phase : AerospikePhase) (reason : string) : M () :=
  cluster ← mem;
  let pending := st_PendingRestartPods (cl_Status cluster) in
  '(rv, statusUpdated) ← retryOnConflict retry_again (
    latest ← refetchCluster;
    if decide (st_Phase (cl_Status latest) = phase /\ st_PhaseReason (cl_Status latest) = reason /\
               st_PendingRestartPods (cl_Status latest) = pending)
    then mret (cl_ResourceVersion latest, false)
    else
      stored ← updateStatus ((withPhase phase reason latest) <$ st_PendingRestartPods := pending $>);
      mret (cl_ResourceVersion stored, true));
  _ ← (if (statusUpdated : bool) then setGauge ClusterPhase cluster (PhaseToFloat (phaseName phase)) else mret ());
  modify_mem (fun c => (withPhase phase reason c) <| cl_ResourceVersion := rv |>).

(** A phase update whose conflicts are tolerated. *)
Definition setPhaseTolerant (phase : AerospikePhase) (reason : string) : M () :=
  r ← try (setPhase phase reason);
  match r with
  | inl e => if IsConflict e then mret () else raise e
  | inr _ => mret ()
  end.

(** The failure counter and message copied back to the caller's object. *)
Definition copyFailure (latest : AerospikeCluster) : M () :=
  modify_mem (fun c => c <$ st_FailedReconcileCount := st_FailedReconcileCount (cl_Status latest) $>
                         <$ st_LastReconcileError := st_LastReconcileError (cl_Status latest) $>).

Definition withFailure (count : Z) (msg : string) (c : AerospikeCluster) : AerospikeCluster :=
  c <$ st_FailedReconcileCount := count $> <$ st_LastReconcileError := msg $>.

(** [handleReconcileError]: an error of this function is the original error,
    which makes controller-runtime retry. *)
Definition handleReconcileError (reconcileErr : goerr) : M Result :=
  fetched ← try refetchCluster;
  match fetched with
  | inl _ => raise reconcileErr
  | inr latest =>
      let errMsg := truncateUTF8 (err_msg reconcileErr) 256 in
      if IsValidation reconcileErr then
        t ← now;
        let latest := setCondition t (withFailure maxFailedReconciles errMsg latest)
                        ConditionReconcileHealthy false "PermanentError" errMsg in
        written ← try (updateStatus latest);
        match written with
        | inl _ => raise reconcileErr
        | inr _ =>
            _ ← copyFailure latest;
            _ ← record true EventPermanentError;
            mret (requeueAfter (calculateBackoff maxFailedReconciles))
        end
      else
        let latest := withFailure (i32 (st_FailedReconcileCount (cl_Status latest) + 1)) errMsg latest in
        written ← try (updateStatus latest);
        match written with
        | inl _ => raise reconcileErr
        | inr _ =>
            _ ← copyFailure latest;
            mret (requeueAfter (calculateBackoff (st_FailedReconcileCount (cl_Status latest))))
        end
  end.

Definition recoveringReason := "Recovering from circuit breaker backoff".

(** [resetFailedReconcileCount]. *)
Definition resetFailedReconcileCount : M () :=
  latest ← refetchCluster;
  let wasInBackoff := bool_decide (st_Phase (cl_Status latest) = PhaseBackoffActive) in
  if decide (st_FailedReconcileCount (cl_Status latest) = 0 /\ st_LastReconcileError (cl_Status latest) = "" /\
             wasInBackoff = false)
  then mret ()
  else
    let prevCount := st_FailedReconcileCount (cl_Status latest) in
    t ← now;
    let cleared := withFailure 0 "" latest in
    let cleared := if wasInBackoff then withPhase PhaseInProgress recoveringReason cleared else cleared in
    _ ← updateStatus (setCondition t cleared ConditionReconcileHealthy true "ReconcileSucceeded"
                        "Reconciliation succeeded");
    _ ← modify_mem (fun c => let c := withFailure 0 "" c in
                             if wasInBackoff then withPhase PhaseInProgress recoveringReason c else c);
    if maxFailedReconciles <=? prevCount then record false EventCircuitBreakerReset else mret ().

(** [handleCircuitBreakerBackoff]: a failed phase update is only logged. *)
Definition backoffReason (count : Z) : string :=
  "Circuit breaker active after " +:+ pretty count +:+ " consecutive failures; backing off "
  +:+ durationString (calculateBackoff count).

Definition handleCircuitBreakerBackoff : M Result :=
  cluster ← mem;
  let count := st_FailedReconcileCount (cl_Status cluster) in
  _ ← setGauge CircuitBreakerActive cluster 1;
  _ ← record true EventCircuitBreakerActive;
  _ ← (if decide (st_Phase (cl_Status cluster) = PhaseBackoffActive) then mret ()
       else ignore (setPhase PhaseBackoffActive (backoffReason count)));
  mret (requeueAfter (calculateBackoff count)).

(** [HandlePause]. *)
Definition HandlePause : M () :=
  cluster ← mem;
  _ ← retryOnConflict retry_again (
        latest ← refetchCluster; t ← now;
        updateStatus (setCondition t (withPhase PhasePaused pausePhaseReason latest)
          ConditionReconciliationPaused true "ReconciliationPaused"
          "Reconciliation is paused by user (spec.paused=true)"));
  _ ← record false EventPaused;
  t ← now;
  _ ← setGauge ClusterPausedTimestamp cluster (t / second);
  _ ← setGauge ClusterPhase cluster (PhaseToFloat (phaseName PhasePaused));
  modify_mem (withPhase PhasePaused pausePhaseReason).

(** [HandleResume]: the failure state is forgotten if the stored phase is Paused
    or Error; the phase itself is left for later steps. *)
Definition HandleResume : M () :=
  cluster ← mem;
  _ ← retryOnConflict retry_again (
        latest ← refetchCluster; t ← now;
        let latest := setCondition t latest ConditionReconciliationPaused false "ReconciliationResumed"
                        "Reconciliation resumed" in
        updateStatus (if decide (st_Phase (cl_Status latest) = PhasePaused \/ st_Phase (cl_Status latest) = PhaseError)
                      then withFailure 0 "" latest else latest));
  _ ← record false EventResumed;
  t ← now;
  _ ← (match pauseStartTime cluster with
       | Some start => observe ClusterPausedDuration cluster (t - start)
       | None => mret ()
       end);
  _ ← setGauge ClusterPausedTimestamp cluster 0;
  modify_mem (withFailure 0 "").

(** ** The failure counter *)

(** The stored counter is kept by everything that only changes the phase. *)
Lemma keeps_retryStatus {A} P n (fn : M A) :
  inv (srv P) fn (fun _ => True) -> keeps (pres (srv P)) (retryOnConflict n fn).
Proof. intros Hf. apply keeps_retry. by eapply keeps_inv. Qed.

Lemma keeps_count_setPhase n phase reason : keeps (pres (srv (count_is n))) (setPhase phase reason).
Proof.
  unfold setPhase. apply keeps_bind; [frame|]. intros cluster. cbv zeta.
  apply keeps_bind; [|intros [rv []]; frame; by intros w Hw].
  apply keeps_retryStatus. eapply inv_bind; [apply inv_refetchCluster|]. intros latest Hl.
  case_decide; [by apply inv_ret|]. apply inv_seq; [by apply keeps_updateStatus|]. intros s. by apply inv_ret.
Qed.

Lemma keeps_count_HandlePause n : keeps (pres (srv (count_is n))) HandlePause.
Proof.
  unfold HandlePause. apply keeps_bind; [frame|]. intros cluster. apply keeps_bind; [|intros _; frame; by intros w Hw].
  apply keeps_retryStatus. eapply inv_bind; [apply inv_refetchCluster|]. intros latest Hl.
  apply inv_seq; [frame|]. intros t. by apply inv_keeps, keeps_updateStatus.
Qed.

Lemma keeps_count_backoff n : keeps (pres (srv (count_is n))) handleCircuitBreakerBackoff.
Proof. pose proof (keeps_count_setPhase n). unfold handleCircuitBreakerBackoff. frame. Qed.

(** ** What a failed reconcile leaves behind *)

(** The stored object after a write, when the call was accepted. *)
Lemma updateStatus_ok c w stored w' :
  updateStatus c w = (inr stored, w') -> exists cur, w_cluster w = Some cur /\
    w_cluster w' = Some stored /\ w_mem w' = w_mem w /\
    stored = cur <| cl_Status := cl_Status c |> <| cl_ResourceVersion := cl_ResourceVersion cur + 1 |>.
Proof.
  unfold updateStatus, writeCluster, mbind, M_bind, gets, api.
  destruct (w_faults w) as [|[e|] fs]; simpl; [|by intros [=]|].
  all: destruct (w_cluster w) as [cur|]; [|by intros [=]]; case_decide; [|by intros [=]].
  all: intros [= <- <-]; by exists cur.
Qed.

Lemma updateStatus_error c w e w' : updateStatus c w = (inl e, w') -> w_cluster w' = w_cluster w.
Proof.
  unfold updateStatus, writeCluster, mbind, M_bind, gets, api.
  destruct (w_faults w) as [|[e0|] fs]; simpl; [|by intros [= _ <-]|].
  all: destruct (w_cluster w) as [cur|] eqn:Hc; [|by intros [= _ <-]]; case_decide; [by intros [=]|].
  all: by intros [= _ <-].
Qed.

Definition newFailCount (e : goerr) (c : AerospikeCluster) : Z :=
  if IsValidation e then maxFailedReconciles else i32 (failCount c + 1).

(** The outcome of a recorded failure. *)
Definition failure_recorded (e : goerr) (c : AerospikeCluster) (r : Result) (w' : World) : Prop :=
  exists stored, w_cluster w' = Some stored /\
    failCount stored = newFailCount e c /\ failCount (w_mem w') = newFailCount e c /\
    st_LastReconcileError (cl_Status stored) = truncateUTF8 (err_msg e) 256 /\
    cl_Spec stored = cl_Spec c /\ st_Phase (cl_Status stored) = st_Phase (cl_Status c) /\
    (IsValidation e = true ->
       c_Status <$> getCondition ConditionReconcileHealthy (st_Conditions (cl_Status stored)) = Some ConditionFalse) /\
    r = requeueAfter (calculateBackoff (newFailCount e c)).

Lemma setCondition_health t c msg reason :
  c_Status <$> getCondition ConditionReconcileHealthy
    (st_Conditions (cl_Status (setCondition t c ConditionReconcileHealthy false reason msg))) = Some ConditionFalse.
Proof.
  change (st_Conditions _) with (setConditionIn t (cl_Generation c) ConditionReconcileHealthy false reason msg
    (st_Conditions (cl_Status c))).
  by rewrite setConditionIn_same.
Qed.

Lemma handleReconcileError_cases e w :
  let '(r, w') := handleReconcileError e w in
  (r = inl e /\ w_cluster w' = w_cluster w) \/
  (exists c res, w_cluster w = Some c /\ r = inr res /\ failure_recorded e c res w').
Proof.
  destruct (handleReconcileError e w) as [r w'] eqn:Hrun. revert Hrun.
  unfold handleReconcileError, mbind, M_bind, try.
  pose proof (keeps_refetchCluster (R := agree w_cluster) w) as Hk.
  destruct (refetchCluster w) as [[e0|c] w1] eqn:Hf; simpl in Hk.
  { intros [= <- <-]. left. by split. }
  apply refetchCluster_ok in Hf as (Hc & Hc1 & Hm).
  destruct (IsValidation e) eqn:Hv; simpl.
  all: match goal with |- context [updateStatus ?x ?w0] => destruct (updateStatus x w0) as [[e1|stored] w2] eqn:Hu end.
  all: [> apply updateStatus_error in Hu; intros [= <- <-]; left; by rewrite Hu, Hc1, Hc
        | apply updateStatus_ok in Hu as (cur & Hcur & Hst & Hmem & ->)
        | apply updateStatus_error in Hu; intros [= <- <-]; left; by rewrite Hu, Hc1, Hc
        | apply updateStatus_ok in Hu as (cur & Hcur & Hst & Hmem & ->)].
  all: rewrite Hc1 in Hcur; injection Hcur as <-; intros [= <- <-]; right; exists c; eexists; split_and!; [done|done|].
  all: eexists; split_and!; [exact Hst| | |done|done|done| |].
  all: unfold newFailCount; rewrite ?Hv; try done.
  intros _. exact (setCondition_health (w_now w1) (withFailure maxFailedReconciles (truncateUTF8 (err_msg e) 256) c) _ _).
Qed.

(** A failed reconcile either leaves the object alone and returns the error, or
    records it: the counter goes up by one (to the threshold for a permanent error), the
    message is stored, and the requeue delay is the back-off of the stored count. *)
Theorem handleReconcileError_spec e w :
  let '(r, w') := handleReconcileError e w in
  (r = inl e /\ w_cluster w' = w_cluster w) \/
  (exists c res, w_cluster w = Some c /\ r = inr res /\ failure_recorded e c res w').
Proof. apply handleReconcileError_cases. Qed.

(** A retried function that changes the stored object only when it succeeds. *)
Definition atomic {A} (fn : M A) : Prop := forall w e w', fn w = (inl e, w') -> w_cluster w' = w_cluster w.

Lemma retry_ok {A} n (fn : M A) w a w' :
  atomic fn -> retryOnConflict n fn w = (inr a, w') ->
  exists w1, w_cluster w1 = w_cluster w /\ fn w1 = (inr a, w').
Proof.
  intros Hat. revert w. induction n as [|n IH]; intros w; simpl; destruct (fn w) as [[e|b] w1] eqn:Hf.
  - by destruct (IsConflict e).
  - intros [= <- <-]. by exists w.
  - destruct (IsConflict e); [|done]. intros (w2 & Hw2 & Hrun)%IH. exists w2. split; [|done].
    rewrite Hw2. by eapply Hat.
  - intros [= <- <-]. by exists w.
Qed.

Lemma retry_error {A} n (fn : M A) w e w' :
  atomic fn -> retryOnConflict n fn w = (inl e, w') -> w_cluster w' = w_cluster w.
Proof.
  intros Hat. revert w. induction n as [|n IH]; intros w; simpl; destruct (fn w) as [[e0|b] w1] eqn:Hf; try done.
  - destruct (IsConflict e0); intros [= <- <-]; by eapply Hat.
  - destruct (IsConflict e0).
    + intros Hr%IH. rewrite Hr. by eapply Hat.
    + intros [= <- <-]. by eapply Hat.
Qed.

(** Fetch, modify, write. *)
Lemma atomic_write (f : Z -> AerospikeCluster -> AerospikeCluster) :
  atomic (latest ← refetchCluster; t ← now; updateStatus (f t latest)).
Proof.
  intros w e w'. unfold mbind, M_bind, now, gets.
  pose proof (keeps_refetchCluster (R := agree w_cluster) w) as Hk.
  destruct (refetchCluster w) as [[e0|c] w1]; simpl in Hk; [by intros [= _ <-]|].
  intros Hu%updateStatus_error. by rewrite Hu.
Qed.

Lemma retry_write n f w stored w' :
  retryOnConflict n (latest ← refetchCluster; t ← now; updateStatus (f t latest)) w = (inr stored, w') ->
  exists c t, w_cluster w = Some c /\ w_cluster w' = Some stored /\ cl_Status stored = cl_Status (f t c).
Proof.
  intros (w1 & Hw1 & Hrun)%retry_ok; [|apply atomic_write]. revert Hrun. unfold mbind, M_bind, now, gets.
  destruct (refetchCluster w1) as [[e0|c] w2] eqn:Hf; [by intros [=]|].
  apply refetchCluster_ok in Hf as (Hc & Hc2 & _).
  intros (cur & _ & Hst & _ & ->)%updateStatus_ok. exists c, (w_now w2).
  split_and!; [congruence|exact Hst|done].
Qed.

Lemma setCondition_status t c ty b reason msg :
  c_Status <$> getCondition ty (st_Conditions (cl_Status (setCondition t c ty b reason msg))) = Some (conditionStatus b).
Proof.
  change (st_Conditions _) with (setConditionIn t (cl_Generation c) ty b reason msg (st_Conditions (cl_Status c))).
  by rewrite setConditionIn_same.
Qed.

(** The object [HandleResume] writes. *)
Definition resumed (t : Z) (latest : AerospikeCluster) : AerospikeCluster :=
  let latest := setCondition t latest ConditionReconciliationPaused false "ReconciliationResumed"
                  "Reconciliation resumed" in
  if decide (st_Phase (cl_Status latest) = PhasePaused \/ st_Phase (cl_Status latest) = PhaseError)
  then withFailure 0 "" latest else latest.

Lemma resumed_paused t c : st_Phase (cl_Status c) = PhasePaused ->
  resumed t c = withFailure 0 "" (setCondition t c ConditionReconciliationPaused false "ReconciliationResumed"
                  "Reconciliation resumed").
Proof. intros Hp. unfold resumed. cbv zeta. rewrite decide_True; [done|]. left. exact Hp. Qed.

Lemma HandleResume_run w r w' :
  HandleResume w = (r, w') ->
  match r with
  | inl _ => w_cluster w' = w_cluster w
  | inr _ => exists c t stored, w_cluster w = Some c /\ w_cluster w' = Some stored /\
      cl_Status stored = cl_Status (resumed t c) /\ failCount (w_mem w') = 0
  end.
Proof.
  unfold HandleResume. change (mem ≫= ?f) with (fun w => f (w_mem w) w). cbv beta. unfold mbind at 1, M_bind at 1.
  destruct (retryOnConflict _ _ w) as [[e|stored] w1] eqn:Hr.
  - intros [= <- <-]. by eapply retry_error; [apply (atomic_write resumed)|exact Hr].
  - apply (retry_write _ resumed) in Hr as (c & t & Hc & Hst & Hs).
    intros Hrun. destruct (pauseStartTime (w_mem w)); injection Hrun as <- <-; by exists c, t, stored.
Qed.

(** Pausing shows Paused and keeps the failure counter; resuming clears counter and
    message and flips the paused condition. *)
Theorem pause_then_resume w w1 w2 :
  HandlePause w = (inr (), w1) -> HandleResume w1 = (inr (), w2) ->
  exists c c1 c2, w_cluster w = Some c /\ w_cluster w1 = Some c1 /\ w_cluster w2 = Some c2 /\
    st_Phase (cl_Status c1) = PhasePaused /\ failCount c1 = failCount c /\
    c_Status <$> getCondition ConditionReconciliationPaused (st_Conditions (cl_Status c1)) = Some ConditionTrue /\
    failCount c2 = 0 /\ st_LastReconcileError (cl_Status c2) = "" /\
    c_Status <$> getCondition ConditionReconciliationPaused (st_Conditions (cl_Status c2)) = Some ConditionFalse.
Proof.
  unfold HandlePause, HandleResume. intros Hp Hr.
  unfold mbind at 1 2, M_bind at 1 2, mem at 1, gets at 1 in Hp. unfold mbind at 1 2, M_bind at 1 2, mem at 1, gets at 1 in Hr.
  destruct (retryOnConflict _ _ w) as [[?|s1] w1'] eqn:H1; [done|].
  destruct (retryOnConflict _ _ w1) as [[?|s2] w2'] eqn:H2; [done|].
  apply (retry_write _ (fun t latest => setCondition t (withPhase PhasePaused pausePhaseReason latest)
    ConditionReconciliationPaused true _ _)) in H1 as (c & t1 & Hc & Hs1 & Hst1).
  apply (retry_write _ resumed) in H2 as (c1 & t2 & Hc1 & Hs2 & Hst2).
  assert (w_cluster w1 = Some s1) as Hw1 by (injection Hp as <-; exact Hs1).
  assert (w_cluster w2 = Some s2) as Hw2 by (destruct (pauseStartTime (w_mem w1)); injection Hr as <-; exact Hs2).
  rewrite Hw1 in Hc1. injection Hc1 as <-.
  assert (st_Phase (cl_Status s1) = PhasePaused) as Hph by (by rewrite Hst1).
  exists c, s1, s2. split_and!; [done|done|done|done| | | | |].
  - unfold failCount. by rewrite Hst1.
  - rewrite Hst1. exact (setCondition_status t1 _ _ true _ _).
  - unfold failCount. by rewrite Hst2, resumed_paused.
  - by rewrite Hst2, resumed_paused.
  - rewrite Hst2, resumed_paused by done. exact (setCondition_status t2 s1 _ false _ _).
Qed.

Lemma resetFailedReconcileCount_cases w :
  let '(r, w') := resetFailedReconcileCount w in
  match r with
  | inl _ => w_cluster w' = w_cluster w
  | inr _ => exists c c', w_cluster w = Some c /\ w_cluster w' = Some c' /\
      failCount c' = 0 /\ st_LastReconcileError (cl_Status c') = "" /\
      st_Phase (cl_Status c') =
        (if decide (st_Phase (cl_Status c) = PhaseBackoffActive) then PhaseInProgress else st_Phase (cl_Status c))
  end.
Proof.
  unfold resetFailedReconcileCount, mbind, M_bind, now, gets.
  pose proof (keeps_refetchCluster (R := agree w_cluster) w) as Hk.
  destruct (refetchCluster w) as [[e|c] w1] eqn:Hf; simpl in Hk; [exact Hk|].
  apply refetchCluster_ok in Hf as (Hc & Hc1 & _). cbv zeta.
  destruct (bool_decide_reflect (st_Phase (cl_Status c) = PhaseBackoffActive)) as [Hb|Hb].
  all: case_decide as Hz.
  - by destruct Hz as (_ & _ & ?).
  - match goal with |- context [updateStatus ?x w1] => destruct (updateStatus x w1) as [[e1|s] w2] eqn:Hu end.
    { apply updateStatus_error in Hu. congruence. }
    apply updateStatus_ok in Hu as (cur & Hcur & Hs & _ & ->). destruct (_ <=? _); simpl.
    all: eexists _, _; split_and!; [done|exact Hs|done|done|by rewrite decide_True].
  - destruct Hz as (Hz & He & _). exists c, c. split_and!; [done|done|exact Hz|exact He|by rewrite decide_False].
  - match goal with |- context [updateStatus ?x w1] => destruct (updateStatus x w1) as [[e1|s] w2] eqn:Hu end.
    { apply updateStatus_error in Hu. congruence. }
    apply updateStatus_ok in Hu as (cur & Hcur & Hs & _ & ->). destruct (_ <=? _); simpl.
    all: eexists _, _; split_and!; [done|exact Hs|done|done|by rewrite decide_False].
Qed.

(** Resetting after a success clears counter and message and turns BackoffActive
    into InProgress, or fails without a change. *)
Theorem resetFailedReconcileCount_spec w :
  let '(r, w') := resetFailedReconcileCount w in
  match r with
  | inl _ => w_cluster w' = w_cluster w
  | inr _ => exists c c', w_cluster w = Some c /\ w_cluster w' = Some c' /\
      failCount c' = 0 /\ st_LastReconcileError (cl_Status c') = "" /\
      st_Phase (cl_Status c') =
        (if decide (st_Phase (cl_Status c) = PhaseBackoffActive) then PhaseInProgress else st_Phase (cl_Status c))
  end.
Proof. apply resetFailedReconcileCount_cases. Qed.

End Breaker.

(** A cluster that had failed three times is paused and resumed. *)
Lemma pause_then_resume_witness :
  let c := (example_cluster 2 None) <$ st_FailedReconcileCount := 3 $> in
  let w := sample_world c [] [] (mkStub [] [] [] []) in
  exists c c1 c2 (w1 w2 : World (H := sample_env)),
    w_cluster w = Some c /\ w_cluster w1 = Some c1 /\ w_cluster w2 = Some c2 /\
    st_Phase (cl_Status c1) = PhasePaused /\ failCount c1 = failCount c /\
    c_Status <$> getCondition ConditionReconciliationPaused (st_Conditions (cl_Status c1)) = Some ConditionTrue /\
    failCount c2 = 0 /\ st_LastReconcileError (cl_Status c2) = "" /\
    c_Status <$> getCondition ConditionReconciliationPaused (st_Conditions (cl_Status c2)) = Some ConditionFalse.
Proof.
  intros c w.
  destruct (HandlePause (H := sample_env) w) as [r1 w1] eqn:H1.
  assert (r1 = inr ()) as -> by (transitivity (fst (HandlePause (H := sample_env) w)); [by rewrite H1|by vm_compute]).
  destruct (HandleResume (H := sample_env) w1) as [r2 w2] eqn:H2.
  assert (r2 = inr ()) as ->.
  { transitivity (fst (HandleResume (H := sample_env) (snd (HandlePause (H := sample_env) w))));
      [by rewrite H1; cbn [snd]; rewrite H2|by vm_compute]. }
  destruct (pause_then_resume (H := sample_env) w w1 w2 H1 H2) as (c0 & c1 & c2 & Hall).
  by exists c0, c1, c2, w1, w2.
Defined.
