(* ===== verification/Storage.v ===== *)
(** * Volumes and persistent volume claims

    internal/storage: the volume policies (policy.go), the claims of a
    StatefulSet and their deletion (pvc.go) and the local claims of a pod
    (local.go).  Claim names follow Kubernetes' pattern
    <volume>-<statefulset>-<ordinal>. *)

From S2P Require Import Prelude GoValue Utils Api Events Kube.

(** ** Volume policies *)

(** [getVolumePolicy]: an unset volume mode means a filesystem. *)
Definition getVolumePolicy (vol : VolumeSpec) (storageSpec : option AerospikeStorageSpec)
    : option AerospikeVolumePolicy :=
  match storageSpec, vol_PersistentVolume vol with
  | Some spec, Some pv =>
      match pv_VolumeMode pv with
      | PersistentVolumeBlock => st_BlockVolumePolicy spec
      | _ => st_FilesystemVolumePolicy spec
      end
  | _, _ => None
  end.

(** [ResolveInitMethod]: the volume, then the policy, then "none". *)
Definition ResolveInitMethod (vol : VolumeSpec) (storageSpec : option AerospikeStorageSpec) : VolumeInitMethod :=
  if decide (vol_InitMethod vol <> InitMethodUnset) then vol_InitMethod vol
  else match getVolumePolicy vol storageSpec with
       | Some policy =>
           if decide (vp_InitMethod policy <> InitMethodUnset) then vp_InitMethod policy
           else VolumeInitMethodNone
       | None => VolumeInitMethodNone
       end.

(** [ResolveWipeMethod]. *)
Definition ResolveWipeMethod (vol : VolumeSpec) (storageSpec : option AerospikeStorageSpec) : VolumeWipeMethod :=
  if decide (vol_WipeMethod vol <> WipeMethodUnset) then vol_WipeMethod vol
  else match getVolumePolicy vol storageSpec with
       | Some policy =>
           if decide (vp_WipeMethod policy <> WipeMethodUnset) then vp_WipeMethod policy
           else VolumeWipeMethodNone
       | None => VolumeWipeMethodNone
       end.

(** [ResolveCascadeDelete]. *)
Definition ResolveCascadeDelete (vol : VolumeSpec) (storageSpec : option AerospikeStorageSpec) : bool :=
  match vol_CascadeDelete vol with
  | Some b => b
  | None =>
      match getVolumePolicy vol storageSpec with
      | Some policy => default false (vp_CascadeDelete policy)
      | None => false
      end
  end.

(** [cascadeDeleteVolumeNames]. *)
Definition cascadeDeleteVolumeNames (storageSpec : option AerospikeStorageSpec) : list string :=
  match storageSpec with
  | None => []
  | Some spec =>
      vol_Name <$> filter (fun vol => is_Some (vol_PersistentVolume vol) /\
                                      ResolveCascadeDelete vol storageSpec = true) (st_Volumes spec)
  end.

Definition HasCascadeDeletePVCs (storageSpec : option AerospikeStorageSpec) : bool :=
  bool_decide (cascadeDeleteVolumeNames storageSpec <> []).

(** ** Claim names *)

(** [strconv.ParseInt(s, 10, 32)]. *)
Definition parseInt32 (s : string) : option Z :=
  z ← atoi s; if decide (in_i32 z) then Some z else None.

(** The longest suffix of decimal digits, with what comes before it. *)
Fixpoint split_digits (s : string) : string * string :=
  match s with
  | EmptyString => ("", "")
  | String a s' =>
      match split_digits s' with
      | (EmptyString, digits) => if is_digit a then ("", String a digits) else (String a "", digits)
      | (prefix, digits) => (String a prefix, digits)
      end
  end.

(** The text before and after the last occurrence of [p] ([strings.LastIndex]). *)
Fixpoint cut_last (p s : string) : option (string * string) :=
  match s with
  | EmptyString => None
  | String a s' =>
      match cut_last p s' with
      | Some (x, y) => Some (String a x, y)
      | None => y ← cut_prefix p s; Some ("", y)
      end
  end.

(** [extractOrdinal]. *)
Definition extractOrdinal (pvcName stsName : string) : option Z :=
  let pattern := "-" +:+ stsName +:+ "-" in
  match split_digits pvcName with
  | (EmptyString, _) | (_, EmptyString) => None
  | (prefix, digits) =>
      match cut_suffix prefix pattern with
      | None => None
      | Some _ => parseInt32 digits
      end
  end.

(** [extractVolumeName]. *)
Definition extractVolumeName (pvcName stsName : string) : option string :=
  let pattern := "-" +:+ stsName +:+ "-" in
  match cut_last pattern pvcName with
  | None => None
  | Some (EmptyString, _) => None
  | Some (vol, suffix) =>
      match suffix with
      | EmptyString => None
      | _ => match parseInt32 suffix with None => None | Some _ => Some vol end
      end
  end.

(** [isOwnedByStatefulSet]. *)
Definition isOwnedByStatefulSet (pvc : PersistentVolumeClaim) (stsName : string) : bool :=
  match extractOrdinal (pvc_Name pvc) stsName with Some _ => true | None => false end.

(** [ParsePodName]: the StatefulSet and the ordinal of a pod. *)
Definition ParsePodName (podName : string) : option (string * Z) :=
  match split_last "-" podName with
  | None => None
  | Some (stsName, digits) =>
      match parse_nat digits with
      | None => None
      | Some n => if decide (in_i32 n) then Some (stsName, n) else None
      end
  end.

(** [ownedByStatefulSetUID]: no owner at all, or this StatefulSet. *)
Definition ownedByStatefulSetUID (pvc : PersistentVolumeClaim) (stsUID : string) : bool :=
  match pvc_OwnerReferences pvc with
  | [] => true
  | refs => existsb (fun uid => bool_decide (uid = stsUID)) refs
  end.

(** ** Listing and deleting claims *)

Section Storage.
Context `{Environment}.

(** [GetPVCsForStatefulSet]: by the labels of the cluster, falling back to all
    claims of the namespace when no labelled claim exists. *)
Definition GetPVCsForStatefulSet (clusterName stsName : string) : M (list PersistentVolumeClaim) :=
  labelled ← wrapping "listing PVCs"
    (listPVCs [("app.kubernetes.io/name", "aerospike-cluster"); ("app.kubernetes.io/instance", clusterName)]);
  items ← match labelled with
          | [] => wrapping "listing all PVCs" (listPVCs [])
          | _ => mret labelled
          end;
  mret (filter (fun pvc => isOwnedByStatefulSet pvc stsName = true) items).

(** The ownership predicate of [ownedOrphanCandidates]. *)
Definition orphanCandidate (sts : StatefulSet) (desiredReplicas : Z) (pvc : PersistentVolumeClaim) : bool :=
  match extractOrdinal (pvc_Name pvc) (sts_Name sts) with
  | None => false
  | Some ordinal =>
      if ordinal <? desiredReplicas then false
      else match extractVolumeName (pvc_Name pvc) (sts_Name sts) with
           | None => false
           | Some volName =>
               bool_decide (volName ∈ claimNames sts) && ownedByStatefulSetUID pvc (sts_UID sts)
           end
  end.

Definition ownedOrphanCandidates (sts : StatefulSet) (clusterName : string) (desiredReplicas : Z)
    : M (list PersistentVolumeClaim) :=
  match claimNames sts with
  | [] => mret []
  | _ =>
      items ← wrapping "listing PVCs" (listPVCs (LabelsForCluster clusterName));
      mret (filter (fun pvc => orphanCandidate sts desiredReplicas pvc = true) items)
  end.

(** The deletion loops skip claims that are gone; this one collects the other
    errors and counts what it deleted. *)
Definition deleteOrphan (stsName : string) (cascadeVolumes : list string) (acc : Z * list goerr)
    (pvc : PersistentVolumeClaim) : M (Z * list goerr) :=
  let '(deleted, errs) := acc in
  match extractVolumeName (pvc_Name pvc) stsName with
  | None => mret acc
  | Some volName =>
      if decide (volName ∈ cascadeVolumes) then
        r ← try (deletePVC (pvc_Name pvc));
        match r with
        | inr _ => mret (deleted + 1, errs)
        | inl e => if IsNotFound e then mret acc
                   else mret (deleted, errs ++ [wrapErr ("deleting orphaned cascade PVC " +:+ pvc_Name pvc) e])
        end
      else mret acc
  end.

(** [DeleteOrphanedCascadeDeletePVCs]. *)
Definition DeleteOrphanedCascadeDeletePVCs (sts : StatefulSet) (clusterName : string)
    (desiredReplicas : Z) (storageSpec : option AerospikeStorageSpec) : M (Z * option goerr) :=
  let cascadeVolumes := cascadeDeleteVolumeNames storageSpec in
  match cascadeVolumes with
  | [] => mret (0, None)
  | _ =>
      pvcs ← ownedOrphanCandidates sts clusterName desiredReplicas;
      '(deleted, errs) ← foldM (deleteOrphan (sts_Name sts) cascadeVolumes) (0, []) pvcs;
      mret (deleted, match errs with
                     | [] => None
                     | e :: _ => Some (mkErr (err_kind e) (join (String "010" "") (err_msg <$> errs)))
                     end)
  end.

(** The body of the loops that stop at the first real error. *)
Definition deleteClaim (what : string) (pvc : PersistentVolumeClaim) : M () :=
  r ← try (deletePVC (pvc_Name pvc));
  match r with
  | inr _ => mret ()
  | inl e => if IsNotFound e then mret () else raise (wrapErr (what +:+ pvc_Name pvc) e)
  end.

(** [DeletePVCsForStatefulSet]. *)
Definition DeletePVCsForStatefulSet (clusterName stsName : string) : M () :=
  pvcs ← GetPVCsForStatefulSet clusterName stsName;
  forM_ pvcs (deleteClaim "deleting PVC ").

(** [DeleteCascadeDeletePVCs]. *)
Definition DeleteCascadeDeletePVCs (clusterName stsName : string)
    (storageSpec : option AerospikeStorageSpec) : M () :=
  let cascadeVolumes := cascadeDeleteVolumeNames storageSpec in
  match cascadeVolumes with
  | [] => mret ()
  | _ =>
      pvcs ← GetPVCsForStatefulSet clusterName stsName;
      forM_ pvcs (fun pvc =>
        match extractVolumeName (pvc_Name pvc) stsName with
        | None => mret ()
        | Some volName =>
            if decide (volName ∈ cascadeVolumes) then deleteClaim "deleting cascade PVC " pvc else mret ()
        end)
  end.

(** ** Local storage *)

Definition IsLocalStorageClass (storageClassName : string) (localClasses : list string) : bool :=
  bool_decide (storageClassName ∈ localClasses).

(** [GetLocalPVCsForPod]. *)
Definition GetLocalPVCsForPod (clusterName stsName : string) (ordinal : Z)
    (storageSpec : option AerospikeStorageSpec) : M (list PersistentVolumeClaim) :=
  match storageSpec with
  | None => mret []
  | Some spec =>
      match st_LocalStorageClasses spec with
      | [] => mret []
      | classes =>
          all ← GetPVCsForStatefulSet clusterName stsName;
          mret (filter (fun pvc => extractOrdinal (pvc_Name pvc) stsName = Some ordinal /\
            IsLocalStorageClass (default "" (pvc_StorageClassName pvc)) classes = true) all)
      end
  end.

(** [DeleteLocalPVCsForPod]. *)
Definition DeleteLocalPVCsForPod (clusterName stsName : string) (ordinal : Z)
    (storageSpec : option AerospikeStorageSpec) : M () :=
  pvcs ← wrapping ("getting local PVCs for pod " +:+ podName stsName ordinal)
           (GetLocalPVCsForPod clusterName stsName ordinal storageSpec);
  forM_ pvcs (deleteClaim "deleting local PVC ").

End Storage.

(** ** Claim names round-trip *)

Definition claimName (volName stsName : string) (ordinal : Z) : string :=
  volName +:+ "-" +:+ stsName +:+ "-" +:+ pretty ordinal.

Lemma claimName_pattern volName stsName ordinal :
  claimName volName stsName ordinal =
  (volName +:+ ("-" +:+ stsName +:+ "-")) +:+ pretty ordinal.
Proof. unfold claimName. by rewrite !app_assoc_str. Qed.

Lemma split_digits_app s d :
  forallb is_digit (list_ascii_of_string d) = true ->
  split_digits (s +:+ String "-" d) = (s +:+ "-", d).
Proof.
  intros Hd.
  assert (split_digits d = ("", d)) as Hd'.
  { induction d as [|a d IH]; [done|]. simpl in *. apply andb_true_iff in Hd as [Ha Hd].
    by rewrite (IH Hd), Ha. }
  induction s as [|a s IH].
  - simpl. by rewrite Hd'.
  - rewrite !app_cons. simpl. rewrite IH. by destruct s.
Qed.

Lemma pretty_digits z : 0 <= z -> forallb is_digit (list_ascii_of_string (pretty z)) = true.
Proof. intros Hz. destruct z as [|p|p]; [done|apply pretty_pos_digits|lia]. Qed.

Lemma parseInt32_pretty z : 0 <= z < 2 ^ 31 -> parseInt32 (pretty z) = Some z.
Proof.
  intros Hz. unfold parseInt32. rewrite atoi_pretty by (unfold in_i64; lia). simpl.
  by rewrite decide_True by (unfold in_i32; lia).
Qed.

Lemma pretty_nonempty z : 0 <= z < 2 ^ 31 -> exists a d, pretty z = String a d.
Proof.
  intros Hz. pose proof (parseInt32_pretty z Hz) as Hp. destruct (pretty z) as [|a d]; [done|eauto].
Qed.

Lemma extractOrdinal_claimName volName stsName n :
  0 <= n < 2 ^ 31 -> extractOrdinal (claimName volName stsName n) stsName = Some n.
Proof.
  intros Hn. unfold extractOrdinal, claimName.
  replace (volName +:+ "-" +:+ stsName +:+ "-" +:+ pretty n)
    with ((volName +:+ "-" +:+ stsName) +:+ String "-" (pretty n)) by (by rewrite !app_assoc_str).
  rewrite split_digits_app by (apply pretty_digits; lia).
  destruct (pretty_nonempty n Hn) as (a & d & Hd). rewrite Hd.
  replace ((volName +:+ "-" +:+ stsName) +:+ "-") with (volName +:+ ("-" +:+ stsName +:+ "-"))
    by (by rewrite !app_assoc_str).
  rewrite cut_suffix_app. rewrite <- Hd. rewrite parseInt32_pretty by done. by destruct volName.
Qed.

(** In [u ++ t] with [u] a proper suffix of [p], [p] does not occur when it ends
    in a byte that [t] does not contain. *)
Lemma cut_last_none p c u t :
  str_contains c t = false -> (String.length u < String.length (p +:+ String c ""))%nat ->
  cut_last (p +:+ String c "") (u +:+ t) = None.
Proof.
  intros Ht. induction u as [|a u IH]; intros Hl.
  - change ("" +:+ t) with t. clear Hl. induction t as [|b t IH]; [done|]. simpl in *.
    apply orb_false_iff in Ht as [Hb Ht]. rewrite (IH Ht).
    destruct (cut_prefix _ (String b t)) as [r|] eqn:Hc; [|done].
    apply cut_prefix_Some in Hc. exfalso.
    assert (str_contains c (String b t) = true) as Hy
      by (rewrite Hc, !str_contains_app; simpl; rewrite bool_decide_true by done; by rewrite orb_true_r).
    simpl in Hy. by rewrite Hb, Ht in Hy.
  - rewrite app_cons. simpl in *. rewrite IH by lia.
    destruct (cut_prefix _ _) as [r|] eqn:Hc; [|done]. apply cut_prefix_Some in Hc. exfalso.
    change (String a (u +:+ t)) with (String a u +:+ t) in Hc.
    assert (forall x y z v : string, x +:+ y = z +:+ v -> (String.length x < String.length z)%nat ->
      exists k, z = x +:+ k /\ y = k +:+ v /\ k <> "") as Hsplit.
    { induction x as [|e x IHx]; intros y z v He Hlen.
      - exists z. simpl in *. split_and!; [done|done|]. intros ->. simpl in Hlen. lia.
      - destruct z as [|e' z]; simpl in *; [lia|]. rewrite !app_cons in He. injection He as -> He.
        destruct (IHx y z v He ltac:(lia)) as (k & -> & -> & Hk). exists k. by rewrite app_cons. }
    destruct (Hsplit _ _ _ _ Hc Hl) as (k & Hk & Hkt & Hne).
    assert (str_contains c k = true) as Hck.
    { clear -Hk Hne. revert p Hk. generalize (String a u). intros x. induction x as [|e x IHx]; intros p Hk.
      - change ("" +:+ k) with k in Hk. rewrite <- Hk, str_contains_app. simpl.
        rewrite bool_decide_true by done. by rewrite orb_true_r.
      - destruct p as [|e' p].
        + rewrite app_cons in Hk. injection Hk as _ Hk.
          destruct x; [|done]. destruct k; [done|]. done.
        + rewrite !app_cons in Hk. injection Hk as _ Hk. by apply (IHx p). }
    rewrite Hkt, str_contains_app, Hck in Ht. done.
Qed.

Lemma cut_last_app x p c t :
  str_contains c t = false -> p <> "" ->
  cut_last (p +:+ String c "") (x +:+ (p +:+ String c "") +:+ t) = Some (x, t).
Proof.
  intros Ht Hp. induction x as [|a x IH].
  - change ("" +:+ ?s) with s. destruct p as [|b p]; [done|]. rewrite !app_cons. simpl.
    replace (cut_last _ _) with (@None (string * string)).
    + rewrite decide_True by done. rewrite (proj2 (cut_prefix_Some (p +:+ String c "") _ t)) by done. done.
    + symmetry. apply (cut_last_none (String b p) c (p +:+ String c "") t); [done|].
      rewrite app_cons. simpl. lia.
  - rewrite app_cons. simpl. by rewrite IH.
Qed.

Lemma extractVolumeName_claimName volName stsName n :
  0 <= n < 2 ^ 31 -> volName <> "" -> extractVolumeName (claimName volName stsName n) stsName = Some volName.
Proof.
  intros Hn Hv. unfold extractVolumeName. rewrite claimName_pattern, app_assoc_str.
  replace ("-" +:+ stsName +:+ "-") with ((String "-" stsName) +:+ String "-" "") by done.
  rewrite cut_last_app; [|apply pretty_nonneg_not_contains; [done|lia]|done].
  destruct volName as [|a v]; [done|]. destruct (pretty_nonempty n Hn) as (b & d & Hd).
  rewrite Hd, <- Hd. by rewrite parseInt32_pretty.
Qed.

(** Volume name and ordinal are recovered from the claim name Kubernetes gives a
    StatefulSet volume. *)
Theorem claim_name_roundtrip volName stsName n :
  0 <= n < 2 ^ 31 -> volName <> "" ->
  extractOrdinal (claimName volName stsName n) stsName = Some n /\
  extractVolumeName (claimName volName stsName n) stsName = Some volName.
Proof. intros. split; [by apply extractOrdinal_claimName|by apply extractVolumeName_claimName]. Qed.

Lemma claim_name_roundtrip_witness :
  extractOrdinal (claimName "data" "demo-1" 4) "demo-1" = Some 4 /\
  extractVolumeName (claimName "data" "demo-1" 4) "demo-1" = Some "data".
Proof. apply (claim_name_roundtrip "data" "demo-1" 4); [lia|done]. Defined.

(** ** What a removed rack may lose *)

(** The labels every object of the cluster carries. *)
Definition clusterLabelled (clusterName : string) (labels : gomap string) : Prop :=
  map_get "app.kubernetes.io/name" labels = Some "aerospike-cluster" /\
  map_get "app.kubernetes.io/instance" labels = Some clusterName.

(** A persistent volume of the spec that asks to be deleted with its rack: by
    itself, or by the policy of its mode when it does not say. *)
Definition cascadeVolume (storageSpec : option AerospikeStorageSpec) (volName : string) : Prop :=
  exists spec vol pv, storageSpec = Some spec /\ vol ∈ st_Volumes spec /\ vol_Name vol = volName /\
    vol_PersistentVolume vol = Some pv /\
    (vol_CascadeDelete vol = Some true \/
     vol_CascadeDelete vol = None /\ exists policy, vp_CascadeDelete policy = Some true /\
       if decide (pv_VolumeMode pv = PersistentVolumeBlock) then st_BlockVolumePolicy spec = Some policy
       else st_FilesystemVolumePolicy spec = Some policy).

(** A claim name <volume>-<statefulset>-<ordinal> for such a volume. *)
Definition cascadeClaim (storageSpec : option AerospikeStorageSpec) (stsName name : string) : Prop :=
  exists volName ordinal, cascadeVolume storageSpec volName /\
    name = volName +:+ "-" +:+ stsName +:+ "-" +:+ ordinal /\
    ordinal <> "" /\ forallb is_digit (list_ascii_of_string ordinal) = true.

Lemma cascadeVolumes_spec storageSpec v :
  v ∈ cascadeDeleteVolumeNames storageSpec -> cascadeVolume storageSpec v.
Proof.
  unfold cascadeDeleteVolumeNames. destruct storageSpec as [spec|]; [|by intros ?%not_elem_of_nil].
  intros (vol & -> & (([pv Hpv] & Hc) & Hin)%list_elem_of_filter)%list_elem_of_fmap.
  exists spec, vol, pv. split_and!; [done..|]. unfold ResolveCascadeDelete, getVolumePolicy in Hc. rewrite Hpv in Hc.
  destruct (vol_CascadeDelete vol) as [[]|]; [by left|done|right]. split; [done|].
  destruct (pv_VolumeMode pv); simpl in *.
  all: match type of Hc with context [match ?x with Some _ => _ | None => _ end] => destruct x as [p|] eqn:Hp; [|done] end.
  all: exists p; by destruct (vp_CascadeDelete p) as [[]|].
Qed.

Lemma split_digits_spec s prefix digits :
  split_digits s = (prefix, digits) ->
  s = prefix +:+ digits /\ forallb is_digit (list_ascii_of_string digits) = true.
Proof.
  revert prefix digits. induction s as [|a s IH]; intros prefix digits; simpl; [by intros [= <- <-]|].
  destruct (split_digits s) as [p d]. destruct (IH p d eq_refl) as [-> Hd].
  destruct p as [|b p]; [destruct (is_digit a) eqn:Ha|]; intros [= <- <-]; simpl; by rewrite ?Ha, ?Hd.
Qed.

Lemma claim_name_parts pvc stsName volName :
  isOwnedByStatefulSet pvc stsName = true -> extractVolumeName (pvc_Name pvc) stsName = Some volName ->
  exists ordinal, pvc_Name pvc = volName +:+ "-" +:+ stsName +:+ "-" +:+ ordinal /\
    ordinal <> "" /\ forallb is_digit (list_ascii_of_string ordinal) = true.
Proof.
  unfold isOwnedByStatefulSet, extractOrdinal, extractVolumeName. generalize (pvc_Name pvc) as name. intros name.
  destruct (split_digits name) as [prefix digits] eqn:Hsp. apply split_digits_spec in Hsp as [-> Hd].
  destruct prefix as [|a p]; [done|]. destruct digits as [|b digits]; [done|]. revert Hd.
  assert (String b digits <> "") as Hne by done. revert Hne. generalize (String b digits). clear b digits. intros digits Hne Hd.
  destruct (cut_suffix (String a p) _) as [u|] eqn:Hcut; [|done]. apply cut_suffix_Some in Hcut as ->. intros _.
  rewrite app_assoc_str. change ("-" +:+ stsName +:+ "-") with (String "-" stsName +:+ String "-" "") at 1 2.
  rewrite cut_last_app; [|by apply digits_not_contains|done].
  destruct u as [|c u]; [done|]. destruct digits as [|b digits]; [done|]. destruct (parseInt32 _); [|done].
  intros [= <-]. exists (String b digits). by rewrite !app_assoc_str.
Qed.

(** ** What reclamation may delete *)

Section Reclaim.
Context `{Environment}.

(** A claim of this StatefulSet at or above the replica count, for a volume that
    opted into cascade deletion, with no foreign owner. *)
Definition reclaimable (sts : StatefulSet) (clusterName : string) (desiredReplicas : Z)
    (storageSpec : option AerospikeStorageSpec) (pvc : PersistentVolumeClaim) : Prop :=
  selector_matches (LabelsForCluster clusterName) (pvc_Labels pvc) = true /\
  (pvc_OwnerReferences pvc = [] \/ sts_UID sts ∈ pvc_OwnerReferences pvc) /\
  exists ordinal volName,
    extractOrdinal (pvc_Name pvc) (sts_Name sts) = Some ordinal /\ desiredReplicas <= ordinal /\
    extractVolumeName (pvc_Name pvc) (sts_Name sts) = Some volName /\
    volName ∈ claimNames sts /\ volName ∈ cascadeDeleteVolumeNames storageSpec.

Lemma listPVCs_ok sel w l w' :
  listPVCs sel w = (inr l, w') ->
  l = filter (fun p => selector_matches sel (pvc_Labels p) = true) (w_pvcs w) /\
  w_trace w' = w_trace w /\ w_pvcs w' = w_pvcs w.
Proof.
  unfold listPVCs, mbind, M_bind, api, gets, mret, M_ret.
  destruct (w_faults w) as [|[e|] fs]; intros; simplify_eq; done.
Qed.

Lemma orphanCandidate_true sts n pvc :
  orphanCandidate sts n pvc = true <->
  exists ordinal volName,
    extractOrdinal (pvc_Name pvc) (sts_Name sts) = Some ordinal /\ n <= ordinal /\
    extractVolumeName (pvc_Name pvc) (sts_Name sts) = Some volName /\
    volName ∈ claimNames sts /\
    (pvc_OwnerReferences pvc = [] \/ sts_UID sts ∈ pvc_OwnerReferences pvc).
Proof.
  unfold orphanCandidate. destruct (extractOrdinal _ _) as [o|]; [|naive_solver].
  destruct (Z.ltb_spec o n); [split; [done|]; naive_solver lia|].
  destruct (extractVolumeName _ _) as [v|]; [|naive_solver].
  rewrite andb_true_iff, bool_decide_eq_true.
  assert (ownedByStatefulSetUID pvc (sts_UID sts) = true <->
    (pvc_OwnerReferences pvc = [] \/ sts_UID sts ∈ pvc_OwnerReferences pvc)) as Ho.
  { unfold ownedByStatefulSetUID. destruct (pvc_OwnerReferences pvc) as [|r l]; [naive_solver|].
    rewrite existsb_exists. setoid_rewrite bool_decide_eq_true. setoid_rewrite <- list_elem_of_In.
    naive_solver. }
  rewrite Ho. naive_solver.
Qed.

Lemma ownedOrphanCandidates_ok sts clusterName n w l w' :
  ownedOrphanCandidates sts clusterName n w = (inr l, w') ->
  w_trace w' = w_trace w /\ w_pvcs w' = w_pvcs w /\
  forall pvc, pvc ∈ l <-> claimNames sts <> [] /\ pvc ∈ w_pvcs w /\
    selector_matches (LabelsForCluster clusterName) (pvc_Labels pvc) = true /\
    orphanCandidate sts n pvc = true.
Proof.
  unfold ownedOrphanCandidates. destruct (claimNames sts) as [|v vs].
  { intros [= <- <-]. split_and!; [done..|]. intros pvc. split; [by intros ?%not_elem_of_nil|naive_solver]. }
  unfold mbind, M_bind, wrapping.
  destruct (listPVCs _ w) as [[e|items] w1] eqn:Hl; [done|]. intros [= <- <-].
  apply listPVCs_ok in Hl as (-> & Ht & Hp). split_and!; [done..|]. intros pvc.
  rewrite !list_elem_of_filter. naive_solver.
Qed.

Lemma does_deletePVC P name : P (ADeletePVC name) -> keeps (does P) (deletePVC name).
Proof. intros HP. frame. Qed.

Lemma does_deleteOrphan P stsName vols acc pvc :
  (forall v, extractVolumeName (pvc_Name pvc) stsName = Some v -> v ∈ vols -> P (ADeletePVC (pvc_Name pvc))) ->
  keeps (does P) (deleteOrphan stsName vols acc pvc).
Proof.
  intros HP. unfold deleteOrphan. destruct acc as [d errs].
  destruct (extractVolumeName _ _) as [v|] eqn:Hv; [|apply keeps_ret].
  case_decide; [|apply keeps_ret].
  apply keeps_bind; [apply keeps_try, does_deletePVC; by eapply HP|]. intros [e|[]]; frame.
Qed.

(** Only reclaimable claims are deleted. *)
Lemma reclaim_only_reclaimable sts clusterName desiredReplicas storageSpec w :
  does (fun a => exists pvc, pvc ∈ w_pvcs w /\ a = ADeletePVC (pvc_Name pvc) /\
                   reclaimable sts clusterName desiredReplicas storageSpec pvc)
    w (snd (DeleteOrphanedCascadeDeletePVCs sts clusterName desiredReplicas storageSpec w)).
Proof.
  unfold DeleteOrphanedCascadeDeletePVCs.
  set (P := fun a => exists pvc, _). set (vols := cascadeDeleteVolumeNames storageSpec).
  assert (forall v, v ∈ vols -> v ∈ cascadeDeleteVolumeNames storageSpec) as Hvols by done.
  destruct vols as [|v0 vs]; [done|]. unfold mbind at 1, M_bind.
  destruct (ownedOrphanCandidates sts clusterName desiredReplicas w) as [[e|pvcs] w1] eqn:Hc; simpl.
  - assert (w_trace w1 = w_trace w) as Ht.
    { revert Hc. unfold ownedOrphanCandidates. destruct (claimNames sts); [done|].
      unfold mbind, M_bind, wrapping.
      pose proof (keeps_listPVCs (R := agree w_trace) (LabelsForCluster clusterName) w) as Hk.
      unfold agree in Hk. destruct (listPVCs _ w) as [[e'|items] w2]; by intros [= <- <-]. }
    exists []. split; [by rewrite Ht|constructor].
  - apply ownedOrphanCandidates_ok in Hc as (Ht & _ & Hin).
    transitivity w1; [exists []; split; [by rewrite Ht|constructor]|].
    apply keeps_bind; [|intros [d errs]; apply keeps_ret].
    apply keeps_foldM. intros acc pvc Hpvc. apply does_deleteOrphan. intros v Hv Hvin.
    apply Hin in Hpvc as (_ & Hw & Hsel & (o & v' & Ho & Hn & Hv' & Hvct & Hown)%orphanCandidate_true).
    exists pvc. split_and!; [done..|]. split_and!; [done..|]. exists o, v. rewrite Hv in Hv'.
    injection Hv' as <-. naive_solver.
Qed.

(** Whether the deletion loop removes a candidate. *)
Definition deletable (stsName : string) (vols : list string) (pvc : PersistentVolumeClaim) : Prop :=
  exists v, extractVolumeName (pvc_Name pvc) stsName = Some v /\ v ∈ vols.

Lemma deletePVC_calm name w :
  w_faults w = [] -> exists r w', deletePVC name w = (r, w') /\ w_faults w' = [] /\
    (forall q, q ∈ w_pvcs w' <-> q ∈ w_pvcs w /\ pvc_Name q <> name) /\
    (r = inr () \/ exists e, r = inl e /\ IsNotFound e = true).
Proof.
  intros Hf. unfold deletePVC, mbind, M_bind, api, gets. rewrite Hf.
  destruct (existsb _ (w_pvcs w)) eqn:He; simpl.
  - eexists _, _. split; [done|]. simpl. split_and!; [done| |by left]. intros q.
    rewrite list_elem_of_filter. naive_solver.
  - eexists _, _. split; [done|]. split_and!; [done| |right; by eexists].
    intros q. split; [|naive_solver]. intros Hq. split; [done|]. intros Hn.
    assert (existsb (fun p => bool_decide (pvc_Name p = name)) (w_pvcs w) = true) as Hx; [|congruence].
    apply existsb_exists. exists q. split; [by apply list_elem_of_In|by apply bool_decide_true].
Qed.

Lemma deleteOrphan_calm stsName vols acc pvc w :
  w_faults w = [] -> exists acc' w', deleteOrphan stsName vols acc pvc w = (inr acc', w') /\
    w_faults w' = [] /\ snd acc' = snd acc /\
    forall q, q ∈ w_pvcs w' <-> q ∈ w_pvcs w /\ ~ (deletable stsName vols pvc /\ pvc_Name q = pvc_Name pvc).
Proof.
  intros Hf. unfold deleteOrphan, deletable. destruct acc as [d errs].
  destruct (extractVolumeName (pvc_Name pvc) stsName) as [v|].
  2: { eexists _, _. split; [done|]. split_and!; [done..|]. naive_solver. }
  case_decide as Hv.
  2: { eexists _, _. split; [done|]. split_and!; [done..|]. naive_solver. }
  unfold mbind, M_bind, try.
  destruct (deletePVC_calm (pvc_Name pvc) w Hf) as (r & w' & -> & Hf' & Hq & [->|(e & -> & He)]).
  - eexists _, _. split; [done|]. split_and!; [done..|]. intros q. rewrite Hq. naive_solver.
  - rewrite He. eexists _, _. split; [done|]. split_and!; [done..|]. intros q. rewrite Hq. naive_solver.
Qed.

Lemma deleteOrphans_calm stsName vols l acc w :
  w_faults w = [] -> exists acc' w', foldM (deleteOrphan stsName vols) acc l w = (inr acc', w') /\
    snd acc' = snd acc /\
    forall q, q ∈ w_pvcs w' <-> q ∈ w_pvcs w /\
      ~ exists pvc, pvc ∈ l /\ deletable stsName vols pvc /\ pvc_Name q = pvc_Name pvc.
Proof.
  revert acc w. induction l as [|pvc l IH]; intros acc w Hf.
  { eexists _, _. split; [done|]. split; [done|]. intros q. split; [|naive_solver].
    intros Hq. split; [done|]. by intros (? & ?%not_elem_of_nil & _). }
  cbn [foldM]. unfold mbind, M_bind.
  destruct (deleteOrphan_calm stsName vols acc pvc w Hf) as (acc1 & w1 & -> & Hf1 & Ha & Hq1).
  destruct (IH acc1 w1 Hf1) as (acc2 & w2 & -> & Ha2 & Hq2). eexists _, _. split; [done|].
  split; [congruence|]. intros q. rewrite Hq2, Hq1. setoid_rewrite elem_of_cons. naive_solver.
Qed.

(** Without API failures the reclamation deletes exactly the orphaned cascade-
    delete claims of the StatefulSet and keeps every other claim. *)
Theorem reclaim_complete sts clusterName desiredReplicas storageSpec w :
  w_faults w = [] -> NoDup (pvc_Name <$> w_pvcs w) ->
  exists deleted w', DeleteOrphanedCascadeDeletePVCs sts clusterName desiredReplicas storageSpec w =
      (inr (deleted, None), w') /\
    forall pvc, pvc ∈ w_pvcs w' <->
      pvc ∈ w_pvcs w /\ ~ reclaimable sts clusterName desiredReplicas storageSpec pvc.
Proof.
  intros Hf Hnd. unfold DeleteOrphanedCascadeDeletePVCs.
  remember (cascadeDeleteVolumeNames storageSpec) as vols eqn:Hvols. destruct vols as [|v vs].
  { eexists _, _. split; [done|]. intros pvc. split; [|naive_solver]. intros Hp. split; [done|].
    intros (_ & _ & (o & v & _ & _ & _ & _ & Hv)). rewrite <- Hvols in Hv. by apply not_elem_of_nil in Hv. }
  unfold mbind at 1, M_bind.
  assert (exists l w1, ownedOrphanCandidates sts clusterName desiredReplicas w = (inr l, w1) /\ w_faults w1 = [])
    as (l & w1 & Hl & Hf1).
  { unfold ownedOrphanCandidates. destruct (claimNames sts); [by eexists _, _|].
    unfold mbind, M_bind, wrapping, listPVCs, mbind, M_bind, api, gets. rewrite Hf. by eexists _, _. }
  rewrite Hl. apply ownedOrphanCandidates_ok in Hl as (_ & Hpv & Hin). unfold mbind, M_bind.
  destruct (deleteOrphans_calm (sts_Name sts) (v :: vs) l (0, []) w1 Hf1) as ([d errs] & w2 & -> & He & Hq).
  simpl in He. subst errs. eexists _, _. split; [done|]. intros pvc. rewrite Hq, Hpv.
  assert (forall q, q ∈ w_pvcs w ->
    reclaimable sts clusterName desiredReplicas storageSpec q <->
    exists x, x ∈ l /\ deletable (sts_Name sts) (v :: vs) x /\ pvc_Name q = pvc_Name x) as Hr;
    [|split; intros [Hpin Hno]; (split; [done|]); intros Hx; apply Hno; by apply (Hr pvc Hpin)].
  intros q Hqin. split.
  - intros (Hsel & Hown & o & vn & Ho & Hn & Hvn & Hvct & Hcas). exists q. split_and!; [|by exists vn; rewrite Hvols|done].
    apply Hin. split_and!; [intros Hv; rewrite Hv in Hvct; by apply not_elem_of_nil in Hvct|done..|].
    apply orphanCandidate_true. naive_solver.
  - intros (x & Hx & (vn & Hvn & Hcas) & Hname).
    apply Hin in Hx as (_ & Hxin & Hsel & (o & v' & Ho & Hn & Hv' & Hvct & Hown)%orphanCandidate_true).
    assert (q = x) as ->.
    { clear -Hnd Hqin Hxin Hname. induction (w_pvcs w) as [|y ys IH]; [by apply not_elem_of_nil in Hqin|].
      csimpl in Hnd. apply NoDup_cons in Hnd as [Hy Hnd].
      apply elem_of_cons in Hqin as [->|Hqin], Hxin as [->|Hxin]; [done| | |by apply IH].
      - destruct Hy. rewrite Hname. by apply list_elem_of_fmap_2.
      - destruct Hy. rewrite <- Hname. by apply list_elem_of_fmap_2. }
    split; [done|]. split; [done|]. exists o, vn. rewrite Hvn in Hv'. injection Hv' as <-.
    rewrite Hvols in Hcas. done.
Qed.

(** Claims are only deleted, and only those whose names satisfy [D]. *)
Definition spends (D : string -> Prop) (P : action -> Prop) (w w' : World) : Prop :=
  does P w w' /\ (forall q, q ∈ w_pvcs w' -> q ∈ w_pvcs w) /\
  forall q, q ∈ w_pvcs w -> q ∈ w_pvcs w' \/ D (pvc_Name q).

#[export] Instance spends_pre D P : PreOrder (spends D P).
Proof.
  split; [intros w; split_and!; [done|done|by left]|]. intros w1 w2 w3 (Hd & Hs & Hl) (Hd' & Hs' & Hl').
  split_and!; [by trans w2|auto|]. intros q Hq. destruct (Hl q Hq) as [Hq2|]; [by apply Hl'|by right].
Qed.

#[export] Instance spends_frame D P : Frame (spends D P).
Proof.
  split; [apply _|intros w ? _|intros w ?..|intros w ? _].
  all: split_and!; [by exists []|done|by left].
Qed.

Lemma spends_of D P {A} (m : M A) : keeps (does P) m -> keeps (agree w_pvcs) m -> keeps (spends D P) m.
Proof. intros Hd Ha w. split; [apply Hd|]. rewrite (Ha w). split; [done|by left]. Qed.

Lemma spends_deletePVC D (P : action -> Prop) name : P (ADeletePVC name) -> D name -> keeps (spends D P) (deletePVC name).
Proof.
  intros HP HD w. split; [by apply does_deletePVC|]. pose proof (api_agree w_pvcs w) as Ha.
  unfold deletePVC, mbind, M_bind, gets. destruct (api w) as [[e|[]] w1]; simpl in *; [rewrite Ha; split; [done|by left]|].
  destruct (existsb _ _); simpl; rewrite Ha; [|split; [done|by left]]. split.
  - by intros q [_ Hq]%list_elem_of_filter.
  - intros q Hq. destruct (decide (pvc_Name q = name)) as [->|Hn]; [by right|left]. by apply list_elem_of_filter.
Qed.

Lemma GetPVCsForStatefulSet_ok clusterName stsName w l w' :
  GetPVCsForStatefulSet clusterName stsName w = (inr l, w') ->
  forall pvc, pvc ∈ l -> pvc ∈ w_pvcs w /\ isOwnedByStatefulSet pvc stsName = true /\
    (clusterLabelled clusterName (pvc_Labels pvc) \/
     forall q, q ∈ w_pvcs w -> ~ clusterLabelled clusterName (pvc_Labels q)).
Proof.
  assert (forall labels, selector_matches [("app.kubernetes.io/name", "aerospike-cluster"); ("app.kubernetes.io/instance", clusterName)]
    labels = true <-> clusterLabelled clusterName labels) as Hsel.
  { intros labels. unfold selector_matches, clusterLabelled. simpl. rewrite !andb_true_iff, !bool_decide_eq_true. naive_solver. }
  unfold GetPVCsForStatefulSet, mbind, M_bind, wrapping.
  destruct (listPVCs _ w) as [[e|labelled] w1] eqn:Hl; [done|]. apply listPVCs_ok in Hl as (-> & _ & Hp1).
  destruct (filter _ (w_pvcs w)) as [|q0 rest] eqn:Hf.
  - destruct (listPVCs [] w1) as [[e|all] w2] eqn:Ha; [done|]. apply listPVCs_ok in Ha as (-> & _ & _).
    intros [= <- _] pvc [Ho [_ Hin]%list_elem_of_filter]%list_elem_of_filter. rewrite Hp1 in Hin.
    split_and!; [done..|right]. intros q Hq Hlab. apply (not_elem_of_nil q). rewrite <- Hf.
    apply list_elem_of_filter. by rewrite Hsel.
  - rewrite <- Hf. intros [= <- _] pvc [Ho [Hs Hin]%list_elem_of_filter]%list_elem_of_filter.
    split_and!; [done..|left]. by apply Hsel.
Qed.

(** [DeleteCascadeDeletePVCs] deletes claims of that StatefulSet for cascade volumes only:
    claims of the cluster by their labels, unless no claim carries these. *)
Lemma cascade_spends clusterName stsName storageSpec (P : action -> Prop) w :
  (forall pvc, pvc ∈ w_pvcs w -> cascadeClaim storageSpec stsName (pvc_Name pvc) ->
     clusterLabelled clusterName (pvc_Labels pvc) \/
     (forall q, q ∈ w_pvcs w -> ~ clusterLabelled clusterName (pvc_Labels q)) -> P (ADeletePVC (pvc_Name pvc))) ->
  spends (cascadeClaim storageSpec stsName) P w (snd (DeleteCascadeDeletePVCs clusterName stsName storageSpec w)).
Proof.
  intros HP. unfold DeleteCascadeDeletePVCs. pose proof (cascadeVolumes_spec storageSpec) as Hvols.
  destruct (cascadeDeleteVolumeNames storageSpec) as [|v0 vs]; [reflexivity|]. apply bind_cases; intros ? w1 Hl.
  all: assert (spends (cascadeClaim storageSpec stsName) P w w1) as H1
    by (eapply keeps_run; [|exact Hl]; unfold GetPVCsForStatefulSet; apply spends_of; frame).
  { exact H1. }
  trans w1; [exact H1|]. match goal with |- spends ?D ?Q _ (snd (?m w1)) => cut (keeps (spends D Q) m); [intros Hk; apply Hk|] end.
  apply keeps_forM. intros pvc Hin.
  destruct (GetPVCsForStatefulSet_ok _ _ _ _ _ Hl pvc Hin) as (Hw & Ho & Hlab).
  destruct (extractVolumeName (pvc_Name pvc) stsName) as [v|] eqn:Hv; [|frame]. case_decide as Hvs; [|frame].
  assert (cascadeClaim storageSpec stsName (pvc_Name pvc)) as Hc.
  { destruct (claim_name_parts pvc stsName v Ho Hv) as (o & Hn & Hne & Hd). exists v, o. split_and!; auto. }
  unfold deleteClaim. apply keeps_bind; [apply keeps_try, spends_deletePVC; auto|].
  intros [e|[]]; [destruct (IsNotFound e)|]; apply spends_of; frame.
Qed.

End Reclaim.

(** ** Instances *)

Definition sample_volume (name : string) : VolumeSpec :=
  mkVolumeSpec name
    (mkVolumeSource (Some (mkPersistentVolumeSpec "ssd" PersistentVolumeFilesystem "10Gi" [] None None)) None None None None)
    None [] [] InitMethodUnset WipeMethodUnset (Some true).

Definition sample_storage : AerospikeStorageSpec :=
  mkStorageSpec [sample_volume "data"] 1 None None [] None.

Definition sample_sts (name : string) (replicas : Z) (hash : string) : StatefulSet :=
  mkStatefulSet name "sts-uid" (LabelsForCluster "demo") 1 None (Some replicas) ParallelPodManagement
    (mkPodTemplateSpec [] [(ConfigHashAnnotation, hash)] emptyPod)
    [mkVolumeClaimTemplate "data" [] [] ["ReadWriteOnce"] "Filesystem" "1Gi" None None] 1 replicas.

(** Two replicas: claims 0 and 1 stay, claim 2 goes. *)
Lemma reclaim_complete_witness :
  let claim n := mkPVC (claimName "data" "demo-1" n) (LabelsForCluster "demo") [] None in
  let w := (sample_world (mkCluster "demo" "default" "u" 1 1 None [] [] (emptySpec 2 "") (mkStatus PhaseUnset "" 0 0 "" [] ∅ 0 "" None None
              None 0 "" [] None None 0 "" None "" "")) [] [] (mkStub [] [] [] []))
           <| w_pvcs := [claim 0; claim 1; claim 2] |> in
  exists deleted w', DeleteOrphanedCascadeDeletePVCs (H := sample_env) (sample_sts "demo-1" 2 "h") "demo" 2
      (Some sample_storage) w = (inr (deleted, None), w') /\
    forall pvc, pvc ∈ w_pvcs w' <->
      pvc ∈ w_pvcs w /\ ~ reclaimable (sample_sts "demo-1" 2 "h") "demo" 2 (Some sample_storage) pvc.
Proof.
  intros claim w. apply (reclaim_complete (H := sample_env)); [done|].
  apply (bool_decide_unpack _). by vm_compute.
Defined.

(** ** Claims of another cluster *)

(** A claim of cluster x-foo is deleted with rack 1 of cluster foo, because foo has no
    labelled claim and the name reads as volume data-x. *)
Theorem cascade_fallback_foreign_claim :
  let other := mkPVC (claimName "data" "x-foo-1" 0) (LabelsForCluster "x-foo") [] None in
  let spec := mkStorageSpec [sample_volume "data-x"] 1 None None [] None in
  forall w : World (H := sample_env), w_faults w = [] -> w_pvcs w = [other] ->
  w_pvcs (snd (DeleteCascadeDeletePVCs (H := sample_env) "foo" (StatefulSetName "foo" 1) (Some spec) w)) = [].
Proof.
  intros other spec [? ? ? ? pvcs ? ? ? ? ? ? ? ? faults ? ? ?] Hf Hp. simpl in Hf, Hp. subst. by vm_compute.
Qed.

Lemma cascade_fallback_foreign_claim_witness :
  let other := mkPVC (claimName "data" "x-foo-1" 0) (LabelsForCluster "x-foo") [] None in
  let spec := mkStorageSpec [sample_volume "data-x"] 1 None None [] None in
  let w := (sample_world (mkCluster "foo" "default" "u" 1 1 None [] [] (emptySpec 2 "") (mkStatus PhaseUnset "" 0 0 "" [] ∅ 0 "" None None
              None 0 "" [] None None 0 "" None "" "")) [] [] (mkStub [] [] [] [])) <| w_pvcs := [other] |> in
  w_pvcs (snd (DeleteCascadeDeletePVCs (H := sample_env) "foo" (StatefulSetName "foo" 1) (Some spec) w)) = [].
Proof. intros other spec w. by apply cascade_fallback_foreign_claim. Defined.
