(* ===== verification/DynamicConfig.v ===== *)
(** * Dynamic configuration updates

    internal/controller/reconciler_dynamic_config.go: a two-phase update of the
    running configuration of a batch of pods.  Phase one validates the commands
    and probes every node; phase two applies them pod by pod and rolls back in
    reverse order when one fails. *)

From Stdlib Require Import SpecFloat.
From S2P Require Import Prelude GoValue Utils ConfigDiff ConfigGen Api Metrics Events Kube Aero Sizing Readiness Status.

(** ** Safe commands *)

(** The bytes allowed by the bare-key expression [A-Za-z0-9_.-]. *)
Definition bareKeyByte (a : ascii) : bool :=
  let n := N_of_ascii a in
  bool_decide (48 <= n <= 57 \/ 65 <= n <= 90 \/ 97 <= n <= 122 \/ n = 95 \/ n = 46 \/ n = 45)%N.

Definition tomlBareKey (key : string) : bool :=
  bool_decide (key <> "") && forallb bareKeyByte (list_ascii_of_string key).

(** The runes [strings.TrimSpace] strips, as UTF-8. *)
Definition spaceRunes : list string :=
  (fun l => string_of_list_ascii (ascii_of_N <$> l)) <$>
  [[9]; [10]; [11]; [12]; [13]; [32]; [194; 133]; [194; 160]; [225; 154; 128];
   [226; 128; 128]; [226; 128; 129]; [226; 128; 130]; [226; 128; 131]; [226; 128; 132];
   [226; 128; 133]; [226; 128; 134]; [226; 128; 135]; [226; 128; 136]; [226; 128; 137];
   [226; 128; 138]; [226; 128; 168]; [226; 128; 169]; [226; 128; 175]; [226; 129; 159];
   [227; 128; 128]]%N.

Definition hasEdgeSpace (s : string) : bool :=
  existsb (fun r => bool_decide (is_Some (cut_prefix r s)) || bool_decide (is_Some (cut_suffix s r))) spaceRunes.

(** A control character: C0, DEL, or C1 (the byte C2 followed by 80..9F). *)
Fixpoint hasControl (s : string) : bool :=
  match s with
  | EmptyString => false
  | String a s' =>
      let n := N_of_ascii a in
      bool_decide (n < 32 \/ n = 127)%N ||
      (bool_decide (n = 194)%N &&
       match s' with
       | String b _ => bool_decide (128 <= N_of_ascii b <= 159)%N
       | EmptyString => false
       end) || hasControl s'
  end.

(** [hasUnsafeValueChars]: the reason, if the text is unsafe. *)
Definition hasUnsafeValueChars (s : string) : option string :=
  if str_contains ";" s || str_contains ":" s || str_contains "=" s
  then Some "must not contain ';', ':' or '='"
  else if hasControl s then Some "must not contain control characters (e.g. newline, carriage return, tab)"
  else if hasEdgeSpace s then Some "must not contain leading or trailing whitespace"
  else None.

Record appliedChange := mkApplied { ac_change : Change; ac_rollback : string }.

Record RollbackResult := mkRollback { rb_SuccessCount : Z; rb_FailedCount : Z; rb_FailedPods : list string }.

Definition HasFailures (r : RollbackResult) : bool := 0 <? rb_FailedCount r.

Record podDynamicUpdate := mkUpdate { du_podName : string; du_node : AeroNode; du_applied : list appliedChange }.

Section DynamicConfig.
Context `{Environment}.

(** [buildSetConfigCommand]. *)
Definition checkField (name val : string) : option goerr :=
  reason ← hasUnsafeValueChars val;
  Some (Errorf ("invalid character in " +:+ name +:+ " " +:+ val +:+ ": " +:+ reason)).

Definition buildSetConfigCommand (change : Change) : goerr + string :=
  let valueStr := fmt_v (NewValue change) in
  if negb (tomlBareKey (Key change)) then inl (Errorf ("invalid character in key " +:+ Key change))
  else match checkField "context" (Context change) with
  | Some e => inl e
  | None => match checkField "namespace" (Namespace change) with
  | Some e => inl e
  | None => match checkField "value" valueStr with
  | Some e => inl e
  | None =>
      if decide (Namespace change = "") then
        inr ("set-config:context=" +:+ Context change +:+ ";" +:+ Key change +:+ "=" +:+ valueStr)
      else
        inr ("set-config:context=namespace;id=" +:+ Namespace change +:+ ";" +:+ Key change
             +:+ "=" +:+ valueStr)
  end end end.

(** [validateDynamicChanges]: all errors are reported together. *)
Definition validateDynamicChanges (changes : list Change) : option goerr :=
  let errs := omap (fun c => match buildSetConfigCommand c with inl e => Some (err_msg e) | inr _ => None end)
                changes in
  match errs with
  | [] => None
  | _ => Some (Errorf ("pre-flight validation failed for " +:+ pretty (Z.of_nat (length errs))
                       +:+ " change(s): " +:+ join "; " errs))
  end.

(** [buildRollbackCommand]: empty when the change cannot be reverted. *)
Definition buildRollbackCommand (change : Change) : string :=
  match OldValue change with
  | ANil => ""
  | old =>
      match buildSetConfigCommand {| Path := Path change; Context := Context change; Key := Key change;
              OldValue := ANil; NewValue := old; Namespace := Namespace change |} with
      | inr cmd => cmd
      | inl _ => ""
      end
  end.

(** ** One pod *)

(** [validateDynamicConfigOnPod]. *)
Definition validateDynamicConfigOnPod (node : AeroNode) (changes : list Change) : M () :=
  match validateDynamicChanges changes with
  | Some e => raise (wrapErr "pre-flight validation failed" e)
  | None => _ ← wrapping "node responsiveness check failed" (asinfoCommandOnNode node "node"); mret ()
  end.

(** [applyDynamicConfigOnPod]: the changes applied so far, and whether all were. *)
Fixpoint applyChanges (node : AeroNode) (applied : list appliedChange) (changes : list Change)
    : M (list appliedChange * bool) :=
  match changes with
  | [] => mret (applied, true)
  | change :: changes =>
      expired ← ctxExpired;
      if (expired : bool) then mret (applied, false)
      else match buildSetConfigCommand change with
           | inl _ => mret (applied, false)
           | inr cmd =>
               r ← try (asinfoCommandOnNode node cmd);
               if decide (r = inr "ok")
               then applyChanges node (applied ++ [mkApplied change (buildRollbackCommand change)]) changes
               else mret (applied, false)
           end
  end.

Definition applyDynamicConfigOnPod (node : AeroNode) (changes : list Change) : M (list appliedChange * bool) :=
  applyChanges node [] changes.

(** [rollbackDynamicChangesWithResult]: last change first, best effort. *)
Definition rollbackOne (node : AeroNode) (acc : RollbackResult) (ac : appliedChange) : M RollbackResult :=
  let failed := mkRollback (rb_SuccessCount acc) (rb_FailedCount acc + 1) (rb_FailedPods acc) in
  if decide (ac_rollback ac = "") then mret failed
  else
    r ← try (asinfoCommandOnNode node (ac_rollback ac));
    if decide (r = inr "ok")
    then mret (mkRollback (rb_SuccessCount acc + 1) (rb_FailedCount acc) (rb_FailedPods acc))
    else mret failed.

Definition rollbackDynamicChangesWithResult (node : AeroNode) (applied : list appliedChange) : M RollbackResult :=
  foldM (rollbackOne node) (mkRollback 0 0 []) (reverse applied).

Definition rollbackDynamicChanges (node : AeroNode) (applied : list appliedChange) : M () :=
  _ ← rollbackDynamicChangesWithResult node applied; mret ().

(** [rollbackDynamicChangesBatch]: last pod first. *)
Definition rollbackPod (acc : RollbackResult) (du : podDynamicUpdate) : M RollbackResult :=
  r ← rollbackDynamicChangesWithResult (du_node du) (du_applied du);
  if HasFailures r then
    _ ← record true EventDynamicConfigRollback;
    mret (mkRollback (rb_SuccessCount acc) (rb_FailedCount acc + 1) (rb_FailedPods acc ++ [du_podName du]))
  else
    _ ← record false EventDynamicConfigRollback;
    mret (mkRollback (rb_SuccessCount acc + 1) (rb_FailedCount acc) (rb_FailedPods acc)).

Definition rollbackDynamicChangesBatch (updates : list podDynamicUpdate) : M RollbackResult :=
  foldM rollbackPod (mkRollback 0 0 []) (reverse updates).

(** ** Bookkeeping on the API server *)

(** [updatePodConfigHash] (reconciler_restart.go). *)
Definition updatePodConfigHash (pod : Pod) (hash : string) : M () :=
  patchPod (AStampPod (pod_Name pod) ConfigHashAnnotation hash) (pod_Name pod)
    (fun p => p <| pod_Annotations ::= map_set ConfigHashAnnotation hash |>).

(** A status patch of one entry of the pod-status map. *)
Definition patchPodStatus (name : string) (f : AerospikePodStatus -> AerospikePodStatus) : M () :=
  latest ← refetchCluster;
  let ps := f (default zeroPodStatus (st_Pods (cl_Status latest) !! name)) in
  patchStatus (fun s => s <| st_Pods ::= insert name ps |>).

(** [updateDynamicConfigStatus]: failures only raise an event. *)
Definition updateDynamicConfigStatus (name status : string) : M () :=
  r ← try (patchPodStatus name (fun ps => ps <| ps_DynamicConfigStatus := status |>));
  match r with inl _ => record true EventDynamicConfigStatusFailed | inr _ => mret () end.

(** [updateDynamicConfigChanges]. *)
Definition changeStatus (ac : appliedChange) : DynamicConfigChangeStatus :=
  mkDynamicChange (Path (ac_change ac))
    (match OldValue (ac_change ac) with ANil => "" | v => fmt_v v end)
    (fmt_v (NewValue (ac_change ac))) "Applied".

Definition updateDynamicConfigChanges (name : string) (applied : list appliedChange) : M () :=
  ignore (patchPodStatus name (fun ps => ps <| ps_DynamicConfigChanges := changeStatus <$> applied |>)).

(** ** The batch *)

(** The nodes of all pods, or nothing when one cannot be found. *)
Fixpoint resolveTargets (client : list AeroNode) (pods : list Pod) : option (list (Pod * AeroNode)) :=
  match pods with
  | [] => Some []
  | pod :: pods =>
      node ← findNodeForPod client pod; rest ← resolveTargets client pods; Some ((pod, node) :: rest)
  end.

(** Phase one: whether every pod validates. *)
Fixpoint validateAll (changes : list Change) (targets : list (Pod * AeroNode)) : M bool :=
  match targets with
  | [] => mret true
  | (pod, node) :: targets =>
      expired ← ctxExpired;
      if (expired : bool) then mret false
      else
        r ← try (validateDynamicConfigOnPod node changes);
        match r with inl _ => mret false | inr _ => validateAll changes targets end
  end.

(** The hash annotation, the event and the status of a pod that was updated. *)
Definition recordApplied (pod : Pod) (desiredHash : string) (applied : list appliedChange) : M () :=
  _ ← (if decide (desiredHash = "") then mret () else ignore (updatePodConfigHash pod desiredHash));
  cluster ← mem;
  _ ← incCounter DynamicConfigUpdatesTotal cluster;
  _ ← record false EventDynamicConfigApplied;
  _ ← updateDynamicConfigStatus (pod_Name pod) "Applied";
  updateDynamicConfigChanges (pod_Name pod) applied.

(** Phase two. *)
Fixpoint applyAll (changes : list Change) (desiredHash : string) (successful : list podDynamicUpdate)
    (targets : list (Pod * AeroNode)) : M (bool * list podDynamicUpdate * option RollbackResult) :=
  match targets with
  | [] => mret (true, successful, None)
  | (pod, node) :: targets =>
      expired ← ctxExpired;
      if (expired : bool) then
        rb ← rollbackDynamicChangesBatch successful; mret (false, [], Some rb)
      else
        '(applied, ok) ← applyDynamicConfigOnPod node changes;
        if negb ok then
          _ ← rollbackDynamicChanges node applied;
          rb ← rollbackDynamicChangesBatch successful; mret (false, [], Some rb)
        else
          _ ← recordApplied pod desiredHash applied;
          applyAll changes desiredHash (successful ++ [mkUpdate (pod_Name pod) node applied]) targets
  end.

(** [tryDynamicConfigUpdateBatch]. *)
Definition tryDynamicConfigUpdateBatch (cluster : AerospikeCluster) (pods : list Pod)
    (oldConfig newConfig : gomap any) (client : list AeroNode) (desiredHash : string)
    : M (bool * list podDynamicUpdate * option RollbackResult) :=
  if negb (bool_decide (spec_EnableDynamicConfigUpdate (cl_Spec cluster) = Some true)) then mret (false, [], None)
  else
    let diff := Diff oldConfig newConfig in
    if negb (HasChanges diff) then mret (false, [], None)
    else if HasStaticChanges diff then mret (false, [], None)
    else match resolveTargets client pods with
         | None => mret (false, [], None)
         | Some targets =>
             valid ← validateAll (Dynamic diff) targets;
             if negb valid then mret (false, [], None)
             else applyAll (Dynamic diff) desiredHash [] targets
         end.

(** ** Commands carry exactly the intended fields *)

Lemma checkField_None name val :
  checkField name val = None ->
  str_contains ";" val = false /\ str_contains ":" val = false /\ str_contains "=" val = false.
Proof.
  unfold checkField, hasUnsafeValueChars.
  destruct (str_contains ";" val), (str_contains ":" val), (str_contains "=" val); done.
Qed.

Lemma bareKey_not_contains c key :
  bareKeyByte c = false -> tomlBareKey key = true -> str_contains c key = false.
Proof.
  intros Hc [_ Hk]%andb_true_iff. induction key as [|a key IH]; [done|]. simpl in *.
  apply andb_true_iff in Hk as [Ha Hk]. rewrite (IH Hk), bool_decide_false; [done|]. congruence.
Qed.

(** What the server reads: the fields of a command, split at the separators. *)
Definition commandFields (cmd : string) : option (list (string * string)) :=
  '(verb, rest) ← split_first ":" cmd;
  if decide (verb = "set-config") then mapM (split_first "=") (split_on ";" rest) else None.

Lemma split_first_app c x y : str_contains c x = false -> split_first c (x +:+ String c y) = Some (x, y).
Proof. intros Hx. by apply split_first_Some. Qed.

Lemma commandFields_body rest :
  commandFields ("set-config" +:+ String ":" rest) = mapM (split_first "=") (split_on ";" rest).
Proof. unfold commandFields. by rewrite split_first_app. Qed.

(** C13: a set-config command that is accepted parses back into exactly the context, the
    key and the value it was built from, so no field can smuggle in another parameter *)
Theorem set_config_no_injection change cmd :
  buildSetConfigCommand change = inr cmd ->
  commandFields cmd = Some
    ((if decide (Namespace change = "") then [("context", Context change)]
      else [("context", "namespace"); ("id", Namespace change)])
     ++ [(Key change, fmt_v (NewValue change))]).
Proof.
  unfold buildSetConfigCommand. destruct (tomlBareKey (Key change)) eqn:Hk; simpl; [|done].
  pose proof (bareKey_not_contains ";" _ eq_refl Hk) as Hk1.
  pose proof (bareKey_not_contains "=" _ eq_refl Hk) as Hk2.
  destruct (checkField "context" _) eqn:Hc; [done|]. apply checkField_None in Hc as (Hc1 & _ & _).
  destruct (checkField "namespace" _) eqn:Hn; [done|]. apply checkField_None in Hn as (Hn1 & _ & _).
  destruct (checkField "value" _) eqn:Hv; [done|]. apply checkField_None in Hv as (Hv1 & _ & _).
  assert (str_contains ";" (Key change +:+ String "=" (fmt_v (NewValue change))) = false) as Hkv
    by (by rewrite str_contains_app, Hk1; simpl; rewrite Hv1).
  case_decide; intros [= <-].
  - match goal with |- commandFields ?x = _ =>
      replace x with ("set-config" +:+ String ":" (("context=" +:+ Context change) +:+
        String ";" (Key change +:+ String "=" (fmt_v (NewValue change))))) by done end.
    rewrite commandFields_body. rewrite split_on_app by (by rewrite str_contains_app, Hc1).
    rewrite split_on_none by done. cbn [mapM].
    change ("context=" +:+ Context change) with ("context" +:+ String "=" (Context change)).
    by rewrite !split_first_app.
  - match goal with |- commandFields ?x = _ =>
      replace x with ("set-config" +:+ String ":" ("context=namespace" +:+ String ";"
        (("id=" +:+ Namespace change) +:+ String ";" (Key change +:+ String "=" (fmt_v (NewValue change))))))
      by done end.
    rewrite commandFields_body. rewrite split_on_app by done. rewrite split_on_app by (by rewrite str_contains_app, Hn1).
    rewrite split_on_none by done. cbn [mapM].
    change ("id=" +:+ Namespace change) with ("id" +:+ String "=" (Namespace change)).
    rewrite !split_first_app by done. done.
Qed.

(** ** Phase one sends probes only *)

Definition probe (a : action) : Prop := exists n, a = AInfo n "node".

Lemma does_probe node : keeps (does probe) (asinfoCommandOnNode node "node").
Proof.
  intros w. unfold asinfoCommandOnNode, mbind, M_bind, wrapping, requestInfo.
  destruct (aero_request _ _ _) as [[e|m] s]; simpl;
    [|destruct (map_get "node" m)]; (eexists [_]; split; [reflexivity|]); repeat constructor; by eexists.
Qed.

Lemma does_validateAll changes targets : keeps (does probe) (validateAll changes targets).
Proof.
  pose proof does_probe. induction targets as [|[pod node] targets IH]; cbn [validateAll]; [frame|].
  unfold validateDynamicConfigOnPod. frame.
Qed.

Lemma pods_validateAll changes targets : keeps (agree w_pods) (validateAll changes targets).
Proof.
  induction targets as [|[pod node] targets IH]; cbn [validateAll]; [frame|].
  unfold validateDynamicConfigOnPod. frame.
Qed.

Lemma validateAll_ok changes targets w : exists b w', validateAll changes targets w = (inr b, w').
Proof.
  revert w. induction targets as [|[pod node] targets IH]; intros w; [by eexists _, _|].
  cbn [validateAll]. unfold mbind, M_bind, ctxExpired, try.
  destruct (w_deadline w) as [|[] bs]; [|by eexists _, _|].
  all: destruct (validateDynamicConfigOnPod node changes _) as [[e|[]] w1]; [by eexists _, _|apply IH].
Qed.

(** C5: when the validation phase of the two-phase dynamic update fails on any pod, the
    batch reports failure having sent probes only: no setting is changed on any node and
    no pod is stamped *)
Theorem two_phase_abort cluster pods oldConfig newConfig client desiredHash w :
  (forall targets, resolveTargets client pods = Some targets ->
     fst (validateAll (Dynamic (Diff oldConfig newConfig)) targets w) = inr false) ->
  exists w', tryDynamicConfigUpdateBatch cluster pods oldConfig newConfig client desiredHash w =
      (inr (false, [], None), w') /\
    does probe w w' /\ w_pods w' = w_pods w.
Proof.
  intros Hval. unfold tryDynamicConfigUpdateBatch.
  assert (does probe w w) as Hrefl by (by exists []).
  destruct (negb (bool_decide _)); [by eexists|].
  destruct (negb (HasChanges _)); [by eexists|]. destruct (HasStaticChanges _); [by eexists|].
  destruct (resolveTargets client pods) as [targets|]; [|by eexists].
  specialize (Hval targets eq_refl). unfold mbind, M_bind.
  pose proof (does_validateAll (Dynamic (Diff oldConfig newConfig)) targets w) as Hd.
  pose proof (pods_validateAll (Dynamic (Diff oldConfig newConfig)) targets w) as Hp.
  destruct (validateAll _ targets w) as [r w1]; simpl in *. subst r. by eexists.
Qed.

(** ** Success means every command was acknowledged *)

(** The last acknowledged command is in the trace. *)
Lemma asinfo_traced node cmd w : AInfo (node_Name node) cmd ∈ w_trace (snd (asinfoCommandOnNode node cmd w)).
Proof.
  unfold asinfoCommandOnNode, mbind, M_bind, wrapping, requestInfo.
  destruct (aero_request _ _ _) as [[e|m] s]; simpl; [left|]. destruct (map_get cmd m); left.
Qed.

Definition anyAction (a : action) : Prop := True.

Lemma does_grow w w' a : does anyAction w w' -> a ∈ w_trace w -> a ∈ w_trace w'.
Proof. intros (l & -> & _) Ha. apply elem_of_app. by right. Qed.

(** What a dynamic update does: commands to nodes, a stamp, status patches. *)
Section Writes.
Variable P : action -> Prop.
Hypothesis P_info : forall n cmd, P (AInfo n cmd).
Hypothesis P_stamp : forall n k v, P (AStampPod n k v).
Hypothesis P_status : P AUpdateStatus.

#[local] Instance writes_frameinfo : FrameInfo (does P).
Proof. split; [apply _|]. intros. eexists [_]. split; [reflexivity|]. by repeat constructor. Qed.

Lemma does_applyChanges node changes applied : keeps (does P) (applyChanges node applied changes).
Proof.
  revert applied. induction changes as [|c changes IH]; intros applied; cbn [applyChanges]; frame.
Qed.

Lemma does_patchPodStatus name f : keeps (does P) (patchPodStatus name f).
Proof. unfold patchPodStatus. frame. Qed.

Lemma does_recordApplied pod hash applied : keeps (does P) (recordApplied pod hash applied).
Proof.
  pose proof does_patchPodStatus.
  unfold recordApplied, updatePodConfigHash, updateDynamicConfigStatus, updateDynamicConfigChanges.
  frame.
Qed.

Lemma does_applyAll changes hash targets succ : keeps (does P) (applyAll changes hash succ targets).
Proof.
  pose proof does_applyChanges. pose proof does_recordApplied.
  revert succ. induction targets as [|[pod node] targets IH]; intros succ; cbn [applyAll]; [frame|].
  unfold rollbackDynamicChangesBatch, rollbackPod, rollbackDynamicChanges, rollbackDynamicChangesWithResult,
    rollbackOne, applyDynamicConfigOnPod. frame.
Qed.

Lemma does_tryDynamicConfigUpdateBatch cluster pods oldConfig newConfig client desiredHash :
  keeps (does P) (tryDynamicConfigUpdateBatch cluster pods oldConfig newConfig client desiredHash).
Proof.
  pose proof does_applyAll.
  assert (forall changes targets, keeps (does P) (validateAll changes targets)).
  { intros changes targets. eapply keeps_does_weaken; [|apply does_validateAll]. by intros ? [n ->]. }
  unfold tryDynamicConfigUpdateBatch. frame.
Qed.

End Writes.

Lemma applyChanges_all node changes applied w ups w' :
  applyChanges node applied changes w = (inr (ups, true), w') ->
  ac_change <$> ups = (ac_change <$> applied) ++ changes /\
  forall c, c ∈ changes -> exists cmd, buildSetConfigCommand c = inr cmd /\
    AInfo (node_Name node) cmd ∈ w_trace w'.
Proof.
  revert applied w. induction changes as [|c changes IH]; intros applied w; cbn [applyChanges].
  { intros [= <- <-]. split; [by rewrite app_nil_r|]. by intros c ?%not_elem_of_nil. }
  unfold mbind, M_bind, ctxExpired, try.
  assert (forall w0, match buildSetConfigCommand c with
      | inl _ => mret (applied, false)
      | inr cmd => r ← try (asinfoCommandOnNode node cmd);
          if decide (r = inr "ok")
          then applyChanges node (applied ++ [mkApplied c (buildRollbackCommand c)]) changes
          else mret (applied, false)
      end w0 = (inr (ups, true), w') -> 
    ac_change <$> ups = (ac_change <$> applied) ++ c :: changes /\
    (forall c0, c0 ∈ c :: changes -> exists cmd, buildSetConfigCommand c0 = inr cmd /\
      AInfo (node_Name node) cmd ∈ w_trace w')) as Hgoal.
  { intros w0. destruct (buildSetConfigCommand c) as [e|cmd] eqn:Hcmd; [by intros [=]|].
    unfold mbind, M_bind, try. pose proof (asinfo_traced node cmd w0) as Htr.
    destruct (asinfoCommandOnNode node cmd w0) as [r w1]. case_decide; [|by intros [=]].
    intros Hap. pose proof (does_applyChanges anyAction (fun _ _ => I) node changes
      (applied ++ [mkApplied c (buildRollbackCommand c)]) w1) as Hd.
    rewrite Hap in Hd. apply IH in Hap as [Hups Hall]. split.
    - rewrite Hups, fmap_app. by rewrite <- app_assoc.
    - intros c0 [->|Hc0]%elem_of_cons; [|by apply Hall]. exists cmd. split; [done|].
      by eapply does_grow. }
  destruct (w_deadline w) as [|[] bs]; [apply Hgoal|by intros [=]|apply Hgoal].
Qed.

(** The steps of a successful iteration of phase two. *)
Lemma applyAll_cons changes hash pod node targets succ w ups rb w' :
  applyAll changes hash succ ((pod, node) :: targets) w = (inr (true, ups, rb), w') ->
  exists w0 applied w1 w2, applyChanges node [] changes w0 = (inr (applied, true), w1) /\
    does anyAction w1 w2 /\
    applyAll changes hash (succ ++ [mkUpdate (pod_Name pod) node applied]) targets w2 = (inr (true, ups, rb), w').
Proof.
  cbn [applyAll]. unfold mbind, M_bind, ctxExpired, applyDynamicConfigOnPod.
  destruct (w_deadline w) as [|[] bs]; cbv beta iota zeta.
  2: { destruct (rollbackDynamicChangesBatch succ _) as [[?|?] ?]; by intros [=]. }
  all: match goal with |- context [applyChanges ?n [] ?cs ?w0] =>
         destruct (applyChanges n [] cs w0) as [[e|[applied []]] w1] eqn:Hap end;
    cbn [negb]; cbv beta iota; try by intros [=].
  2, 4: destruct (rollbackDynamicChanges node applied w1) as [[?|?] w2]; [by intros [=]|];
        destruct (rollbackDynamicChangesBatch succ w2) as [[?|?] ?]; by intros [=].
  all: pose proof (does_recordApplied anyAction (fun _ _ _ => I) I pod hash applied w1) as Hd;
    destruct (recordApplied pod hash applied w1) as [[?|?] w2]; [by intros [=]|]; simpl in Hd; eauto 10.
Qed.

Lemma applyAll_all changes hash targets succ w ups rb w' :
  applyAll changes hash succ targets w = (inr (true, ups, rb), w') ->
  du_podName <$> ups = (du_podName <$> succ) ++ ((fun t => pod_Name t.1) <$> targets) /\
  forall pod node, (pod, node) ∈ targets -> forall c, c ∈ changes ->
    exists cmd, buildSetConfigCommand c = inr cmd /\ AInfo (node_Name node) cmd ∈ w_trace w'.
Proof.
  revert succ w. induction targets as [|[pod node] targets IH]; intros succ w.
  { intros [= <- <- <-]. csimpl. rewrite app_nil_r. split; [done|]. by intros ? ? ?%not_elem_of_nil. }
  intros (w0 & applied & w1 & w2 & Hap & Hd & Hrest)%applyAll_cons.
  pose proof (does_applyAll anyAction (fun _ _ => I) (fun _ _ _ => I) I changes hash targets
    (succ ++ [mkUpdate (pod_Name pod) node applied]) w2) as Hd2.
  rewrite Hrest in Hd2. apply applyChanges_all in Hap as [_ Hcmds]. apply IH in Hrest as [Hn Hall]. split.
  - rewrite Hn, fmap_app. csimpl. by rewrite <- app_assoc.
  - intros p n [[= -> ->]|Hin]%elem_of_cons c Hc; [|by eapply Hall].
    destruct (Hcmds c Hc) as (cmd & Hcmd & Htr). exists cmd. split; [done|].
    by eapply does_grow, does_grow.
Qed.

(** When the two-phase update reports success the change had no static part, every
    pod of the batch is reported as updated, and every change was sent as its command to
    the node of every pod. *)
Theorem dynamic_update_success cluster pods oldConfig newConfig client desiredHash w ups rb w' :
  tryDynamicConfigUpdateBatch cluster pods oldConfig newConfig client desiredHash w = (inr (true, ups, rb), w') ->
  HasStaticChanges (Diff oldConfig newConfig) = false /\
  du_podName <$> ups = pod_Name <$> pods /\
  forall pod, pod ∈ pods -> exists node, findNodeForPod client pod = Some node /\
    forall c, c ∈ Dynamic (Diff oldConfig newConfig) -> exists cmd,
      buildSetConfigCommand c = inr cmd /\ AInfo (node_Name node) cmd ∈ w_trace w'.
Proof.
  unfold tryDynamicConfigUpdateBatch.
  destruct (negb (bool_decide _)); [by intros [=]|].
  destruct (negb (HasChanges _)); [by intros [=]|]. destruct (HasStaticChanges _); [by intros [=]|].
  destruct (resolveTargets client pods) as [targets|] eqn:Ht; [|by intros [=]].
  unfold mbind, M_bind. destruct (validateAll_ok (Dynamic (Diff oldConfig newConfig)) targets w) as (b & w1 & ->).
  destruct b; simpl; [|by intros [=]]. intros (Hn & Hall)%applyAll_all. split; [done|].
  assert ((fun t => pod_Name t.1) <$> targets = pod_Name <$> pods /\
    forall pod, pod ∈ pods -> exists node, findNodeForPod client pod = Some node /\ (pod, node) ∈ targets) as [Hp Hin].
  { clear -Ht. revert targets Ht. induction pods as [|p pods IH]; intros targets Ht; simpl in Ht.
    - injection Ht as <-. split; [done|]. by intros ? ?%not_elem_of_nil.
    - destruct (findNodeForPod client p) as [n|] eqn:Hf; [|done]. simpl in Ht.
      destruct (resolveTargets client pods) as [ts|]; [|done]. injection Ht as <-.
      destruct (IH ts eq_refl) as [Hn Hin]. csimpl. split; [by rewrite Hn|].
      intros pod [->|Hpod]%elem_of_cons; [exists n; split; [done|left]|].
      destruct (Hin pod Hpod) as (n' & ? & ?). exists n'. split; [done|by right]. }
  split; [by rewrite Hn, Hp|]. intros pod Hpod. destruct (Hin pod Hpod) as (node & Hf & Hnode).
  exists node. split; [done|]. intros c Hc. by eapply Hall.
Qed.

(** ** Number formats

    [%v] prints a float64, which is what a JSON number decodes to, as %g does,
    in exponent form from 1e+06 on; the generator of the configuration file prints an integer. *)

(** An integral float whose %v text is not its decimal form is sent in that text, while
    the configuration file would carry the decimal. *)
Theorem set_config_exponent_form change f z :
  NewValue change = AFloat64 f -> int64_of_float f = z -> SFeqb f (float64_of_Z z) = true ->
  fmt_g f <> pretty z ->
  forall cmd, buildSetConfigCommand change = inr cmd ->
  formatValue (NewValue change) = pretty z /\
  exists fields value, commandFields cmd = Some (fields ++ [(Key change, value)]) /\ value <> pretty z.
Proof.
  intros Hv Hz Hf Hne cmd Hcmd. apply set_config_no_injection in Hcmd. rewrite Hcmd, Hv. split.
  - simpl. unfold formatFloat. by rewrite Hz, Hf.
  - eexists _, (fmt_g f). by split.
Qed.

End DynamicConfig.

(** ** Concrete runs *)

Definition sample_change : Change :=
  Build_Change "service.proto-fd-max" "service" "proto-fd-max" (AInt KInt64 15000) (AInt KInt64 20000) "".

Lemma set_config_no_injection_witness :
  commandFields "set-config:context=service;proto-fd-max=20000" =
    Some [("context", "service"); ("proto-fd-max", "20000")].
Proof. exact (set_config_no_injection (H := sample_env) sample_change _ eq_refl). Defined.

(** 30 days in seconds, printed as Go prints it. *)
Definition exponent_env : Environment := {|
  env_go := {| fmt_g := fun _ => "2.592e+06"; f2i_undef := fun _ => 0; f2i32_undef := fun _ => 0 |};
  aero_state := Stub; aero_dial := aero_dial (Environment := sample_env); aero_request := stub_request;
  pod_exec := pod_exec (Environment := sample_env); sha256_json := fun _ => "";
  retry_again := 0; scaled_value := fun _ _ => inr 0;
  initScript := ""
|}.

Lemma set_config_exponent_form_witness :
  let change := Build_Change "namespace.default-ttl" "namespace" "default-ttl" ANil
    (AFloat64 (float64_of_Z 2592000)) "test" in
  formatValue (H := env_go (Environment := exponent_env)) (NewValue change) = "2592000" /\
  exists fields value,
    commandFields "set-config:context=namespace;id=test;default-ttl=2.592e+06" =
      Some (fields ++ [(Key change, value)]) /\ value <> "2592000".
Proof.
  intros change. exact (set_config_exponent_form (H := exponent_env) change (float64_of_Z 2592000) 2592000
    eq_refl eq_refl eq_refl ltac:(discriminate) _ eq_refl).
Defined.

Definition sample_config (limit : Z) : gomap any := [("service", AMap [("proto-fd-max", AInt KInt64 limit)])].

Definition sample_node (n : Z) : AeroNode :=
  mkAeroNode ("BB" +:+ pretty n) (Some ("10.0.0." +:+ pretty n)).

Definition dynamic_pod (n : Z) : Pod :=
  (sample_pod ("demo-1-" +:+ pretty n) PodRunning true "h1") <| pod_PodIP := "10.0.0." +:+ pretty n |>.

Definition dynamic_cluster : AerospikeCluster :=
  (example_cluster 2 None) <| cl_Spec ::= fun s => s <| spec_EnableDynamicConfigUpdate := Some true |> |>.

(** Node BB2 refuses the new value. *)
Definition dynamic_world (refused : list string) : World (H := sample_env) :=
  sample_world dynamic_cluster [dynamic_pod 1; dynamic_pod 2] []
    (mkStub [sample_node 1; sample_node 2] [] refused []).

Lemma two_phase_abort_witness :
  let w := (dynamic_world []) <| w_deadline := [false; true] |> in
  exists w', tryDynamicConfigUpdateBatch (H := sample_env) dynamic_cluster [dynamic_pod 1; dynamic_pod 2]
      (sample_config 15000) (sample_config 20000) [sample_node 1; sample_node 2] "h2" w =
      (inr (false, [], None), w') /\
    does probe w w' /\ w_pods w' = w_pods w.
Proof.
  intros w. apply (two_phase_abort (H := sample_env)). intros targets Ht.
  assert (resolveTargets [sample_node 1; sample_node 2] [dynamic_pod 1; dynamic_pod 2] =
    Some [(dynamic_pod 1, sample_node 1); (dynamic_pod 2, sample_node 2)]) as Hr by (by vm_compute).
  rewrite Hr in Ht. apply (inj Some) in Ht as <-. by vm_compute.
Defined.

Lemma dynamic_update_success_witness :
  exists ups (w' : World (H := sample_env)), du_podName <$> ups = ["demo-1-1"; "demo-1-2"] /\
    forall pod, pod ∈ [dynamic_pod 1; dynamic_pod 2] ->
      exists node, findNodeForPod [sample_node 1; sample_node 2] pod = Some node /\
      forall c, c ∈ Dynamic (Diff (sample_config 15000) (sample_config 20000)) -> exists cmd,
        buildSetConfigCommand (H := sample_env) c = inr cmd /\ AInfo (node_Name node) cmd ∈ w_trace w'.
Proof.
  set (run := tryDynamicConfigUpdateBatch (H := sample_env) dynamic_cluster [dynamic_pod 1; dynamic_pod 2]
    (sample_config 15000) (sample_config 20000) [sample_node 1; sample_node 2] "h2" (dynamic_world [])).
  assert (match run with (inr (true, _, _), _) => True | _ => False end) as Hok by (by vm_compute).
  destruct run as [[e|[[[] ups] rb]] w'] eqn:Hrun; try (by destruct Hok).
  exists ups, w'. exact (proj2 (dynamic_update_success (H := sample_env) _ _ _ _ _ _ _ _ _ _ Hrun)).
Defined.

(** ** After a rollback

    The parameters of a pod updated before the failing one are restored, the
    configuration hash stamped on it is not: the pod then carries the desired
    hash while it runs the old configuration. *)

(** After a rollback that succeeded, a pod updated before the failure runs the old
    setting but carries the hash of the new configuration. *)
Theorem rollback_keeps_new_hash :
  let '(r, w') := tryDynamicConfigUpdateBatch (H := sample_env) dynamic_cluster [dynamic_pod 1; dynamic_pod 2]
      (sample_config 15000) (sample_config 20000) [sample_node 1; sample_node 2] "h2"
      (dynamic_world ["BB2/set-config:context=service;proto-fd-max=20000"]) in
  r = inr (false, [], Some (mkRollback 1 0 [])) /\
  (** the last setting node BB1 accepted is the old one *)
  filter (fun e => e.1 = "BB1") (stub_log (w_aero w')) =
    [("BB1", "set-config:context=service;proto-fd-max=15000");
     ("BB1", "set-config:context=service;proto-fd-max=20000"); ("BB1", "node")] /\
  (** but its pod carries the new hash *)
  map_get ConfigHashAnnotation <$> (pod_Annotations <$> w_pods w') = [Some "h2"; Some "h1"].
Proof. by vm_compute. Qed.
