(* ===== verification/ConfigMaps.v ===== *)
(** * The ConfigMap of a rack

    internal/controller/reconciler_config.go: the configuration a rack runs with,
    the text of its [aerospike.conf] with the mesh seeds of every pod of the
    cluster, and the ConfigMap that holds it. *)

From S2P Require Import Prelude GoValue Utils Api ConfigGen Events Kube Ensure Sizing.

Definition ServicePort : Z := 3000.
Definition FabricPort : Z := 3001.
Definition HeartbeatPort : Z := 3002.
Definition InfoPort : Z := 3003.

(** [getEffectiveConfig]: the rack's configuration merged over the cluster's. *)
Definition getEffectiveConfig (cluster : AerospikeCluster) (rack : Rack) : option (gomap any) :=
  match spec_AerospikeConfig (cl_Spec cluster), rack_AerospikeConfig rack with
  | None, rackConfig => rackConfig
  | Some config, None => Some config
  | Some config, Some rackConfig => Some (DeepMerge config rackConfig)
  end.

(** The configuration used when none is given. *)
Definition minimalConfig (clusterName : string) : gomap any :=
  [("service", AMap [("cluster-name", AString clusterName)]);
   ("network", AMap
     [("service", AMap [("address", AString "any"); ("port", AInt KInt ServicePort)]);
      ("heartbeat", AMap [("mode", AString "mesh"); ("port", AInt KInt HeartbeatPort)]);
      ("fabric", AMap [("address", AString "any"); ("port", AInt KInt FabricPort)])])].

(** The names of the pods of one rack, [for j := range size]. *)
Definition rackPodNames (clusterName : string) (rack : Rack) (size : Z) : list string :=
  (fun j => podName (StatefulSetName clusterName (rack_ID rack)) (Z.of_nat j)) <$> seq 0 (Z.to_nat size).

(** The names of all pods of the cluster. *)
Definition allPodNames (cluster : AerospikeCluster) : list string :=
  let racks := getRacks cluster in
  concat (zip_with (rackPodNames (cl_Name cluster)) racks (rackSizes cluster racks)).

(** internal/initcontainer/scripts.go *)
Definition GetConfigMapData `{Environment} (aerospikeConf : string) : gomap string :=
  [("aerospike.conf", aerospikeConf); ("aerospike-init.sh", initScript)].

Section ConfigMaps.
Context `{Environment}.

(** The port of the mesh seeds: the configured heartbeat port if it is a number. *)
Definition configuredHeartbeatPort (config : gomap any) : Z :=
  match as_map (map_index "network" config) with
  | None => HeartbeatPort
  | Some netCfg =>
      match as_map (map_index "heartbeat" netCfg) with
      | None => HeartbeatPort
      | Some hbCfg =>
          match map_get "port" hbCfg with
          | None => HeartbeatPort
          | Some port => IntFromAny port HeartbeatPort
          end
      end
  end.

(** The configuration rendered for a rack: a copy with the access placeholders. *)
Definition renderedConfig (cluster : AerospikeCluster) (effectiveConfig : option (gomap any)) : gomap any :=
  let config := default (minimalConfig (cl_Name cluster)) effectiveConfig in
  let podSvcType := from_option ss_ServiceType "" (spec_PodService (cl_Spec cluster)) in
  (InjectAccessAddressPlaceholders config (spec_AerospikeNetworkPolicy (cl_Spec cluster)) podSvcType).1.

(** The text of [aerospike.conf]. *)
Definition rackConfText (cluster : AerospikeCluster) (effectiveConfig : option (gomap any)) : res string :=
  let config := renderedConfig cluster effectiveConfig in
  GenerateConfForPod (Some config) (HeadlessServiceName (cl_Name cluster)) (cl_Namespace cluster)
    (allPodNames cluster) (configuredHeartbeatPort config).

Definition writeConfigMap (cmName : string) (labels data : gomap string) : M () :=
  createOrElse "ConfigMap" cmName (Some EventConfigMapCreated) (mkConfigMap cmName labels data)
    (updateDrifted "ConfigMap" cmName (Some EventConfigMapUpdated)
      (fun existing => negb (mapsEqual (cm_Data existing) data && mapsEqual (cm_Labels existing) labels))
      (fun existing => existing <| cm_Data := data |> <| cm_Labels := labels |>)).

(** [reconcileConfigMap]. *)
Definition reconcileConfigMap (cluster : AerospikeCluster) (rack : Rack) (effectiveConfig : option (gomap any)) : M () :=
  match rackConfText cluster effectiveConfig with
  | Err msg => raise (NewValidationf ("generating aerospike.conf: " +:+ msg))
  | Ok confText =>
      writeConfigMap (ConfigMapName (cl_Name cluster) (rack_ID rack))
        (LabelsForRack (cl_Name cluster) (rack_ID rack)) (GetConfigMapData confText)
  end.

(** ** What is written *)

Lemma map_wf_LabelsForRack c r : map_wf (LabelsForRack c r).
Proof. apply map_wf_set. repeat constructor; set_solver. Qed.

Lemma map_wf_data conf : map_wf (GetConfigMapData conf).
Proof. repeat constructor; set_solver. Qed.

(** The ConfigMap holds exactly these data and labels. *)
Definition holds (cm : ConfigMap) (labels data : gomap string) : Prop :=
  mapsEqual (cm_Data cm) data = true /\ mapsEqual (cm_Labels cm) labels = true.

Lemma writeConfigMap_achieves lvl cmName labels data l0 :
  map_wf labels -> map_wf data ->
  achieves (T := ConfigMap) lvl (writeConfigMap cmName labels data) (fun l => l = l0) (fun _ l =>
    (exists cm, findObj cmName l = Some cm /\ holds cm labels data) /\
    forall n, n <> cmName -> findObj n l = findObj n l0).
Proof.
  intros Hl Hd.
  assert (forall cm, cm_Data cm = data -> cm_Labels cm = labels -> holds cm labels data) as Hwritten.
  { intros cm <- <-. split; by apply mapsEqual_refl. }
  eapply achieves_weaken; [apply (achieves_ensure (T := ConfigMap) _ _ _ _ _ _ _ _ (fun cm => holds cm labels data))|intros l Hll; exact Hll|].
  - done.
  - intros old Hn. exact Hn.
  - by apply Hwritten.
  - intros old _ Hs%negb_false_iff%andb_prop. exact Hs.
  - intros old _ _. by apply Hwritten.
  - intros [] l (cm & Hcm & Hf & Hne & _). split; [by exists cm|done].
Qed.

(** Nothing is written when the ConfigMap holds what it should. *)
Lemma writeConfigMap_quiet cmName labels data cm l :
  findObj cmName l = Some cm -> holds cm labels data -> keeps (still l) (writeConfigMap cmName labels data).
Proof.
  intros Hcm [Hd Hl]. eapply (still_ensure (T := ConfigMap)); [done|done|]. by rewrite Hd, Hl.
Qed.

(** A pass over a rack either reports an error or leaves its ConfigMap with the
    labels and the text rendered from the effective configuration, and then a second
    pass finds nothing to write. *)
Theorem reconcileConfigMap_settles cluster rack config w :
  let '(r, w') := reconcileConfigMap cluster rack config w in
  match rackConfText cluster config with
  | Err _ => w' = w /\ exists e, r = inl e /\ IsValidation e = true
  | Ok conf =>
      (w_faults w = [] -> r = inr ()) /\
      (r = inr () ->
        (exists cm, findObj (ConfigMapName (cl_Name cluster) (rack_ID rack)) (w_configMaps w') = Some cm /\
           holds cm (LabelsForRack (cl_Name cluster) (rack_ID rack)) (GetConfigMapData conf)) /\
        (forall n, n <> ConfigMapName (cl_Name cluster) (rack_ID rack) ->
           findObj n (w_configMaps w') = findObj n (w_configMaps w)) /\
        w_trace (snd (reconcileConfigMap cluster rack config w')) = w_trace w')
  end.
Proof.
  unfold reconcileConfigMap. destruct (rackConfText cluster config) as [conf|msg]; [|split; [done|]; eexists; by split].
  set (name := ConfigMapName _ _). set (labels := LabelsForRack _ _).
  pose proof (fun lvl => writeConfigMap_achieves lvl name labels (GetConfigMapData conf) (w_configMaps w)
    (map_wf_LabelsForRack _ _) (map_wf_data _) w eq_refl) as Hw.
  destruct (writeConfigMap name labels (GetConfigMapData conf) w) as [r w']. split.
  - intros Hf. destruct (Hw Calm Hf) as (_ & Hc & _). by destruct (Hc eq_refl) as [[] ->].
  - intros ->. destruct (Hw Lossy I) as (_ & _ & Ha). destruct (Ha () eq_refl) as [(cm & Hcm & Hh) Ho].
    split; [by exists cm|]. split; [exact Ho|]. by eapply (writeConfigMap_quiet name).
Qed.

End ConfigMaps.

(** ** Mesh seeds *)

Lemma rackPodNames_length c rack size : length (rackPodNames c rack size) = Z.to_nat size.
Proof. unfold rackPodNames. by rewrite length_fmap, length_seq. Qed.

Lemma rackPodNames_owner c rack size n :
  n ∈ rackPodNames c rack size ->
  exists j, split_last "-" n = Some (StatefulSetName c (rack_ID rack), pretty (Z.of_nat j)).
Proof.
  intros (j & -> & _)%list_elem_of_fmap. exists j. apply split_last_podName. lia.
Qed.

Lemma rackPodNames_NoDup c rack size : NoDup (rackPodNames c rack size).
Proof.
  apply NoDup_fmap_2; [|apply NoDup_seq]. intros i j Hij.
  apply (f_equal (split_last "-")) in Hij.
  rewrite !split_last_podName in Hij by lia. injection Hij as Hij. apply pretty_Z_inj in Hij. lia.
Qed.

Lemma podNames_NoDup c racks sizes :
  NoDup (rack_ID <$> racks) -> Forall (fun r => 0 <= rack_ID r) racks ->
  NoDup (concat (zip_with (rackPodNames c) racks sizes)).
Proof.
  revert sizes. induction racks as [|rack racks IH]; intros [|size sizes] Hnd Hpos; try constructor.
  apply NoDup_cons in Hnd as [Hid Hnd]. apply Forall_cons in Hpos as [Hr Hpos]. simpl. apply NoDup_app.
  split; [apply rackPodNames_NoDup|]. split; [|by apply IH]. intros n Hn Hin.
  apply rackPodNames_owner in Hn as [j Hj].
  apply list_elem_of_In, in_concat in Hin as (l & Hl%list_elem_of_In & Hnl%list_elem_of_In).
  apply elem_of_lookup_zip_with in Hl as (i & rack' & size' & -> & Hi & _).
  apply rackPodNames_owner in Hnl as [j' Hj']. rewrite Hj in Hj'. injection Hj' as Hs _.
  apply list_elem_of_lookup_2 in Hi. rewrite Forall_forall in Hpos.
  apply StatefulSetName_inj in Hs as [_ Hs]; [|done|by apply Hpos]. apply Hid. rewrite Hs.
  by apply list_elem_of_fmap_2.
Qed.

(** The seed list names every pod of the cluster once: as many names as the cluster has
    pods, all different. *)
Theorem allPodNames_spec cluster :
  0 <= spec_Size (cl_Spec cluster) < 2 ^ 31 - 1 -> Z.of_nat (length (getRacks cluster)) < 2 ^ 31 ->
  NoDup (rack_ID <$> getRacks cluster) -> Forall (fun r => 0 <= rack_ID r) (getRacks cluster) ->
  NoDup (allPodNames cluster) /\ Z.of_nat (length (allPodNames cluster)) = spec_Size (cl_Spec cluster).
Proof.
  intros Hs Hn Hnd Hpos. split; [by apply podNames_NoDup|].
  destruct (rackSizes_split cluster Hs Hn) as (Hsum & _ & Hge). rewrite <- Hsum. unfold allPodNames.
  assert (length (rackSizes cluster (getRacks cluster)) = length (getRacks cluster)) as Hlen
    by (unfold rackSizes; by rewrite length_fmap, length_seq).
  clear -Hlen Hge. revert Hlen Hge. generalize (rackSizes cluster (getRacks cluster)) as sizes.
  induction (getRacks cluster) as [|rack racks IH]; intros [|size sizes] Hlen Hge; try done.
  apply Forall_cons in Hge as [Hsz Hge]. simpl. rewrite length_app, rackPodNames_length. simpl in Hlen.
  specialize (IH sizes). unfold sumZ in *. simpl. rewrite Nat2Z.inj_add, IH by (done || lia). lia.
Qed.
