(* ===== verification/PDB.v ===== *)
(** * Pod disruption budgets

    internal/controller/reconciler_pdb.go: the budget derived from the replication
    factors, and the PodDisruptionBudgets of a cluster: one for the whole cluster,
    or one per rack when a rack sets its own budget. *)

From S2P Require Import Prelude GoValue Utils Api ConfigGen Events Kube Sizing ConfigMaps.

(** [pdbPolicy]. *)
Record pdbPolicy := mkPolicy { pol_MaxUnavailable : option IntOrString }.

Definition defaultReplicationFactor : Z := 2.

Section Budget.
Context `{GoPlatform}.

(** The replication factor of one namespace. *)
Definition namespaceReplicationFactor (nsMap : gomap any) : Z :=
  let rf := match map_index "replication-factor" nsMap with
            | AInt KInt v | AInt KInt64 v => i32 v
            | AInt KInt32 v => v
            | AFloat64 v => int32_of_float v
            | _ => defaultReplicationFactor
            end in
  if rf <? 1 then defaultReplicationFactor else rf.

Definition minRFStep (minRF : Z) (ns : any) : Z :=
  match as_map ns with
  | None => minRF
  | Some nsMap =>
      let rf := namespaceReplicationFactor nsMap in
      if (minRF =? 0) || (rf <? minRF) then rf else minRF
  end.

(** [minReplicationFactor]. *)
Definition minReplicationFactor (config : option (gomap any)) : Z :=
  match config with
  | None => defaultReplicationFactor
  | Some value =>
      match as_list (map_index "namespaces" value) with
      | None | Some [] => defaultReplicationFactor
      | Some namespaces =>
          let minRF := foldl minRFStep 0 namespaces in
          if minRF =? 0 then defaultReplicationFactor else minRF
      end
  end.

(** [defaultMaxUnavailable]. *)
Definition defaultMaxUnavailable (cluster : AerospikeCluster) (rack : option Rack) : Z :=
  let config := match rack with
                | Some rack => getEffectiveConfig cluster rack
                | None => spec_AerospikeConfig (cl_Spec cluster)
                end in
  let mu := i32 (minReplicationFactor config - 1) in
  if 1 <? mu then mu else 1.

(** [resolvePDBPolicy]. *)
Definition resolvePDBPolicy (configured : option IntOrString) (defaultMU size : Z) : pdbPolicy :=
  match configured with
  | None => mkPolicy (Some (IntVal defaultMU))
  | Some (StrVal s) => mkPolicy (Some (StrVal s))
  | Some (IntVal v) =>
      let capped := if (1 <? size) && (i32 (size - 1) <? v) then i32 (size - 1) else v in
      let capped := if capped <? 0 then 0 else capped in
      mkPolicy (Some (IntVal capped))
  end.

(** [effectivePDBPolicy]. *)
Definition effectivePDBPolicy (cluster : AerospikeCluster) (rack : option Rack) (rackSize : Z) : pdbPolicy :=
  let configured := match rack ≫= rack_MaxUnavailable with
                    | Some v => Some v
                    | None => spec_MaxUnavailable (cl_Spec cluster)
                    end in
  resolvePDBPolicy configured (defaultMaxUnavailable cluster rack) rackSize.

(** The smallest default of the racks. *)
Definition clusterDefaultMU (cluster : AerospikeCluster) (racks : list Rack) : Z :=
  let defaultMU := foldl (fun defaultMU rack =>
    let mu := defaultMaxUnavailable cluster (Some rack) in
    if (defaultMU =? 0) || (mu <? defaultMU) then mu else defaultMU) 0 racks in
  if defaultMU <? 1 then 1 else defaultMU.

(** [clusterPDBPolicy]. *)
Definition clusterPDBPolicy (cluster : AerospikeCluster) (racks : list Rack) : pdbPolicy :=
  let configured := match racks with
                    | [rack] => match rack_MaxUnavailable rack with
                                | Some v => Some v
                                | None => spec_MaxUnavailable (cl_Spec cluster)
                                end
                    | _ => spec_MaxUnavailable (cl_Spec cluster)
                    end in
  resolvePDBPolicy configured (clusterDefaultMU cluster racks) (spec_Size (cl_Spec cluster)).

End Budget.

(** [anyRackSetsMaxUnavailable]. *)
Definition anyRackSetsMaxUnavailable (racks : list Rack) : bool :=
  existsb (fun rack => bool_decide (is_Some (rack_MaxUnavailable rack))) racks.

(** [intOrStringEqual] and [intOrStringPtrEqual]. *)
Definition intOrStringEqual (a b : IntOrString) : bool := bool_decide (a = b).

Definition intOrStringPtrEqual (a b : option IntOrString) : bool :=
  match a, b with
  | Some a, Some b => intOrStringEqual a b
  | None, None => true
  | _, _ => false
  end.

(** [equality.Semantic.DeepEqual] with a selector that has labels only. *)
Definition selectorEqual (existing : option LabelSelector) (matchLabels : gomap string) : bool :=
  match existing with
  | None => false
  | Some s => mapsEqual (ls_MatchLabels s) matchLabels && bool_decide (length (ls_MatchExpressions s) = 0%nat)
  end.

(** [pdbNeedsUpdate]. *)
Definition pdbNeedsUpdate (existing : PodDisruptionBudget) (desiredLabels desiredSelectorLabels : gomap string)
    (desired : pdbPolicy) : bool :=
  if bool_decide (is_Some (pdb_MinAvailable existing)) then true
  else if negb (intOrStringPtrEqual (pdb_MaxUnavailable existing) (pol_MaxUnavailable desired)) then true
  else if negb (selectorEqual (pdb_Selector existing) desiredSelectorLabels) then true
  else existsb (fun e => negb (bool_decide (lookup_str e.1 (pdb_Labels existing) = e.2))) desiredLabels.

(** [isRackPDBName]. *)
Definition isRackPDBName (name clusterName : string) : bool :=
  match cut_prefix (clusterName +:+ "-") name with
  | None => false
  | Some rest =>
      match cut_suffix rest "-pdb" with
      | None => false
      | Some idStr => bool_decide (is_Some (atoi idStr))
      end
  end.

Section PDB.
Context `{Environment}.

(** The label that names the cluster an object belongs to. *)
Definition pdbOwner (pdb : PodDisruptionBudget) : string := lookup_str InstanceLabel (pdb_Labels pdb).

(** [reconcileOnePDB]; a fresh object can always be given an owner reference. *)
Definition reconcileOnePDB (cluster : AerospikeCluster) (pdbName : string) (selectorLabels : gomap string)
    (policy : pdbPolicy) : M () :=
  let labels := LabelsForCluster (cl_Name cluster) in
  let selector := Some (mkLabelSelector selectorLabels []) in
  existing ← try (getObj (T := PodDisruptionBudget) pdbName);
  match existing with
  | inl e =>
      if IsNotFound e then
        _ ← wrapping ("creating PDB " +:+ pdbName)
              (createObj (mkPDB pdbName labels None (pol_MaxUnavailable policy) selector));
        record false EventPDBCreated
      else raise (wrapErr ("getting PDB " +:+ pdbName) e)
  | inr existing =>
      if decide (pdbOwner existing <> "" /\ pdbOwner existing <> cl_Name cluster) then
        record true EventPDBNameConflict
      else if negb (pdbNeedsUpdate existing labels selectorLabels policy) then mret ()
      else
        _ ← wrapping ("updating PDB " +:+ pdbName)
              (updateObj (existing <| pdb_Labels ::= fun l => mapsCopy l labels |>
                                   <| pdb_MinAvailable := None |>
                                   <| pdb_MaxUnavailable := pol_MaxUnavailable policy |>
                                   <| pdb_Selector := selector |>));
        record false EventPDBUpdated
  end.

(** [deletePDBByName]. *)
Definition deletePDBByName (pdbName : string) : M () :=
  existing ← try (getObj (T := PodDisruptionBudget) pdbName);
  match existing with
  | inl e =>
      if IsNotFound e then mret () else raise (wrapErr ("getting PDB " +:+ pdbName +:+ " for deletion") e)
  | inr existing =>
      r ← try (deleteObj (T := PodDisruptionBudget) (pdb_Name existing));
      match r with
      | inl e => if IsNotFound e then mret () else raise (wrapErr ("deleting PDB " +:+ pdbName) e)
      | inr _ => mret ()
      end
  end.

(** [deleteClusterPDB]. *)
Definition deleteClusterPDB (cluster : AerospikeCluster) : M () := deletePDBByName (PDBName (cl_Name cluster)).

(** [deleteRackPDBs]: [keep] lists the names with a true entry. *)
Definition deleteRackPDBs (cluster : AerospikeCluster) (keep : list string) : M () :=
  pdbs ← wrapping ("listing PDBs for cluster " +:+ cl_Name cluster)
           (listObj (T := PodDisruptionBudget) (LabelsForCluster (cl_Name cluster)));
  forM_ pdbs (fun pdb =>
    let name := pdb_Name pdb in
    if decide (name = PDBName (cl_Name cluster) \/ name ∈ keep) then mret ()
    else if negb (isRackPDBName name (cl_Name cluster)) then mret ()
    else deletePDBByName name).

(** [deleteAllPDBs]. *)
Definition deleteAllPDBs (cluster : AerospikeCluster) : M () :=
  _ ← deleteClusterPDB cluster; deleteRackPDBs cluster [].

Definition perRackPDBs (racks : list Rack) : bool :=
  (1 <? Z.of_nat (length racks)) && anyRackSetsMaxUnavailable racks.

(** [reconcilePDB]. *)
Definition reconcilePDB (cluster : AerospikeCluster) : M () :=
  let racks := getRacks cluster in
  if bool_decide (spec_DisablePDB (cl_Spec cluster) = Some true) then deleteAllPDBs cluster
  else if negb (perRackPDBs racks) then
    _ ← deleteRackPDBs cluster [];
    reconcileOnePDB cluster (PDBName (cl_Name cluster)) (SelectorLabelsForCluster (cl_Name cluster))
      (clusterPDBPolicy cluster racks)
  else
    _ ← deleteClusterPDB cluster;
    _ ← record true EventPDBPerRackBudget;
    _ ← forM_ (zip racks (rackSizes cluster racks)) (fun '(rack, rackSize) =>
          reconcileOnePDB cluster (RackPDBName (cl_Name cluster) (rack_ID rack))
            (LabelsForRack (cl_Name cluster) (rack_ID rack)) (effectivePDBPolicy cluster (Some rack) rackSize));
    deleteRackPDBs cluster ((fun rack => RackPDBName (cl_Name cluster) (rack_ID rack)) <$> racks).

End PDB.

(** ** The derived budget *)

(** The replication factor a namespace states, as a number of any type a decoder
    produces; Aerospike's default when it states none. *)
Definition states_rf (nsMap : gomap any) (n : Z) : Prop :=
  match map_get "replication-factor" nsMap with
  | None => n = defaultReplicationFactor
  | Some (AInt (KInt | KInt32 | KInt64) v) => n = v
  | Some (AFloat64 f) => float_trunc f = Some n
  | _ => False
  end.

(** A namespace of the configuration a rack runs. *)
Definition rack_namespace (cluster : AerospikeCluster) (rack : Rack) (nsMap : gomap any) : Prop :=
  exists config namespaces, getEffectiveConfig cluster rack = Some config /\
    map_get "namespaces" config = Some (AList namespaces) /\ AMap nsMap ∈ namespaces.

Section BudgetLemmas.
Context `{GoPlatform}.

Lemma states_rf_computed nsMap n :
  states_rf nsMap n -> 1 <= n < 2 ^ 31 -> namespaceReplicationFactor nsMap = n.
Proof.
  unfold states_rf, namespaceReplicationFactor, map_index, int32_of_float. intros Hs Hn.
  destruct (map_get "replication-factor" nsMap) as [[]|]; try done; simpl.
  - destruct k; try done; subst n; rewrite ?i32_small by lia; by destruct (Z.ltb_spec z 1); [lia|].
  - rewrite Hs. rewrite decide_True by (unfold in_i32; lia). by destruct (Z.ltb_spec n 1); [lia|].
Qed.

Lemma namespaceReplicationFactor_pos nsMap : 1 <= namespaceReplicationFactor nsMap.
Proof. unfold namespaceReplicationFactor. cbv zeta. by case_match eqn:Hr; [|apply Z.ltb_ge in Hr]. Qed.

(** The fold keeps the minimum; zero means that no namespace was seen. *)
Lemma minRF_fold nss m :
  0 <= m ->
  let r := foldl minRFStep m nss in
  0 <= r /\ (0 < m -> 0 < r <= m) /\
  forall nsMap, AMap nsMap ∈ nss -> 0 < r <= namespaceReplicationFactor nsMap.
Proof.
  revert m. induction nss as [|ns nss IH]; intros m Hm; simpl; [split_and!; [done|lia|by intros ? ?%elem_of_nil]|].
  assert (0 <= minRFStep m ns /\ (0 < m -> 0 < minRFStep m ns <= m) /\
    forall nsMap, ns = AMap nsMap -> 0 < minRFStep m ns <= namespaceReplicationFactor nsMap) as (H0 & H1 & H2).
  { unfold minRFStep. destruct (as_map ns) as [nsMap|] eqn:Hns.
    - pose proof (namespaceReplicationFactor_pos nsMap) as Hp.
      assert (forall nsMap', ns = AMap nsMap' -> nsMap' = nsMap) as Hu by (intros ? ->; by injection Hns).
      destruct (Z.eqb_spec m 0), (Z.ltb_spec (namespaceReplicationFactor nsMap) m); simpl;
        (split_and!; [lia|lia|intros ? ->%Hu; lia]).
    - split_and!; [done|lia|]. intros ? ->. done. }
  destruct (IH _ H0) as (I0 & I1 & I2). split; [done|]. split; [intros Hp; specialize (H1 Hp); lia|].
  intros nsMap [Heq|Hin]%elem_of_cons; [|by apply I2]. symmetry in Heq. destruct (H2 _ Heq). lia.
Qed.

Lemma minReplicationFactor_le cluster rack nsMap :
  rack_namespace cluster rack nsMap ->
  1 <= minReplicationFactor (getEffectiveConfig cluster rack) <= namespaceReplicationFactor nsMap.
Proof.
  intros (config & nss & -> & Hn & Hin). unfold minReplicationFactor, map_index. rewrite Hn. simpl.
  destruct nss as [|ns nss]; [by apply elem_of_nil in Hin|].
  destruct (minRF_fold (ns :: nss) 0) as (_ & _ & Hmin); [done|]. specialize (Hmin _ Hin).
  destruct (Z.eqb_spec (foldl minRFStep 0 (ns :: nss)) 0); lia.
Qed.

Lemma defaultMaxUnavailable_pos cluster rack : 1 <= defaultMaxUnavailable cluster rack.
Proof. unfold defaultMaxUnavailable. cbv zeta. case_match eqn:Hr; [apply Z.ltb_lt in Hr|]; lia. Qed.

Lemma defaultMaxUnavailable_le cluster rack nsMap n :
  rack_namespace cluster rack nsMap -> states_rf nsMap n -> 1 <= n < 2 ^ 31 ->
  defaultMaxUnavailable cluster (Some rack) <= Z.max 1 (n - 1).
Proof.
  intros Hns Hs Hn. pose proof (minReplicationFactor_le _ _ _ Hns) as Hle.
  rewrite (states_rf_computed _ _ Hs Hn) in Hle. unfold defaultMaxUnavailable.
  rewrite i32_small by lia. destruct (Z.ltb_spec 1 (minReplicationFactor (getEffectiveConfig cluster rack) - 1)); lia.
Qed.

Lemma clusterDefaultMU_le cluster racks rack :
  rack ∈ racks -> clusterDefaultMU cluster racks <= defaultMaxUnavailable cluster (Some rack).
Proof.
  set (f := fun d rack => let mu := defaultMaxUnavailable cluster (Some rack) in
                          if (d =? 0) || (mu <? d) then mu else d).
  assert (forall racks d, 0 <= d -> let r := foldl f d racks in
    (0 < d -> 0 < r <= d) /\ forall rack, rack ∈ racks -> 0 < r <= defaultMaxUnavailable cluster (Some rack)) as Hf.
  { clear racks rack. induction racks as [|x racks IH]; intros d Hd; simpl; [split; [lia|by intros ? ?%elem_of_nil]|].
    pose proof (defaultMaxUnavailable_pos cluster (Some x)) as Hx.
    assert (0 < f d x <= defaultMaxUnavailable cluster (Some x) /\ (0 < d -> f d x <= d)) as [H1 H2].
    { unfold f. destruct (Z.eqb_spec d 0), (Z.ltb_spec (defaultMaxUnavailable cluster (Some x)) d); simpl; lia. }
    destruct (IH (f d x)) as [I1 I2]; [lia|]. split; [lia|]. intros rack [->|Hin]%elem_of_cons; [lia|by apply I2]. }
  intros Hin. unfold clusterDefaultMU. fold f. destruct (Hf racks 0) as [_ Hr]; [done|].
  pose proof (defaultMaxUnavailable_pos cluster (Some rack)). specialize (Hr _ Hin).
  destruct (Z.ltb_spec (foldl f 0 racks) 1); lia.
Qed.

Lemma resolvePDBPolicy_capped z d size v :
  0 <= size < 2 ^ 31 -> pol_MaxUnavailable (resolvePDBPolicy (Some (IntVal z)) d size) = Some (IntVal v) ->
  0 <= v /\ (1 < size -> v < size).
Proof.
  intros Hsize. cbn [resolvePDBPolicy pol_MaxUnavailable]. intros [= <-].
  destruct (Z.ltb_spec 1 size) as [Hs|Hs]; cbn [andb].
  - rewrite i32_small by lia. destruct (Z.ltb_spec (size - 1) z);
      (case_match eqn:Hr; [apply Z.ltb_lt in Hr|apply Z.ltb_ge in Hr]; lia).
  - case_match eqn:Hr; [apply Z.ltb_lt in Hr|apply Z.ltb_ge in Hr]; lia.
Qed.

(** The number written to the cluster-wide disruption budget is never negative;
    when none is configured it is at most the replication factor minus one, or one, for
    every namespace of every rack; a configured number stays below the size of a cluster
    of more than one pod. *)
Theorem cluster_budget_bounds cluster v :
  0 <= spec_Size (cl_Spec cluster) < 2 ^ 31 ->
  pol_MaxUnavailable (clusterPDBPolicy cluster (getRacks cluster)) = Some (IntVal v) ->
  0 <= v /\
  (spec_MaxUnavailable (cl_Spec cluster) = None -> Forall (fun r => rack_MaxUnavailable r = None) (getRacks cluster) ->
    forall rack nsMap n, rack ∈ getRacks cluster -> rack_namespace cluster rack nsMap ->
      states_rf nsMap n -> 1 <= n < 2 ^ 31 -> v <= Z.max 1 (n - 1)) /\
  (spec_MaxUnavailable (cl_Spec cluster) <> None -> 1 < spec_Size (cl_Spec cluster) ->
    v < spec_Size (cl_Spec cluster)).
Proof.
  intros Hsize. unfold clusterPDBPolicy.
  set (configured := match getRacks cluster with [rack] => _ | _ => _ end). intros Hv.
  assert (configured = None -> v = clusterDefaultMU cluster (getRacks cluster)) as Hnone.
  { intros Hc. rewrite Hc in Hv. simpl in Hv. by injection Hv. }
  assert (forall z, configured = Some z -> 0 <= v /\ (1 < spec_Size (cl_Spec cluster) -> v < spec_Size (cl_Spec cluster))) as Hsome.
  { intros z Hc. rewrite Hc in Hv. destruct z as [z|s]; [|done]. by eapply resolvePDBPolicy_capped. }
  split; [|split].
  - destruct configured eqn:Hc; [by eapply Hsome|]. rewrite Hnone by done. unfold clusterDefaultMU. case_match eqn:Hr; [|apply Z.ltb_ge in Hr]; lia.
  - intros Hu Hr rack nsMap n Hin Hns Hs Hn. rewrite Hnone.
    + etrans; [by apply clusterDefaultMU_le|by eapply defaultMaxUnavailable_le].
    + unfold configured. destruct (getRacks cluster) as [|r [|]]; try done.
      apply Forall_cons in Hr as [-> _]. done.
  - intros Hu Hs. assert (is_Some configured) as [z Hz]; [|by eapply Hsome].
    unfold configured. destruct (spec_MaxUnavailable (cl_Spec cluster)); [|done].
    destruct (getRacks cluster) as [|r [|]]; try by eexists. destruct (rack_MaxUnavailable r); by eexists.
Qed.

End BudgetLemmas.

(** ** Names *)

Lemma app_inj_l s t u : s +:+ t = s +:+ u -> t = u.
Proof. induction s as [|a s IH]; [done|]. rewrite !app_cons. by intros [= ?%IH]. Qed.

Lemma RackPDBName_inj c r r' : RackPDBName c r = RackPDBName c r' -> r = r'.
Proof.
  intros Heq%app_inj_l%app_inj_l%app_inj_r. by apply pretty_Z_inj.
Qed.

Lemma RackPDBName_ne c r : RackPDBName c r <> PDBName c.
Proof.
  intros Heq%app_inj_l. apply (f_equal String.length) in Heq.
  rewrite !length_app_str in Heq. simpl in Heq. lia.
Qed.

Lemma isRackPDBName_rack c r : in_i64 r -> isRackPDBName (RackPDBName c r) c = true.
Proof.
  intros Hr. unfold isRackPDBName, RackPDBName.
  rewrite <- (app_assoc_str c "-"), cut_prefix_app, cut_suffix_app. apply bool_decide_eq_true.
  rewrite atoi_pretty by done. by eexists.
Qed.

(** ** What a pass leaves behind *)

Section Spec.
Context `{Environment}.

(** The budgets a cluster asks for: name, selector and policy. *)
Definition desiredPDBs (cluster : AerospikeCluster) : list (string * gomap string * pdbPolicy) :=
  let c := cl_Name cluster in
  let racks := getRacks cluster in
  if bool_decide (spec_DisablePDB (cl_Spec cluster) = Some true) then []
  else if negb (perRackPDBs racks) then [(PDBName c, SelectorLabelsForCluster c, clusterPDBPolicy cluster racks)]
  else (fun '(rack, size) => (RackPDBName c (rack_ID rack), LabelsForRack c (rack_ID rack),
                              effectivePDBPolicy cluster (Some rack) size)) <$> zip racks (rackSizes cluster racks).

(** The budget belongs to another cluster. *)
Definition foreign (c : string) (pdb : PodDisruptionBudget) : Prop := pdbOwner pdb <> "" /\ pdbOwner pdb <> c.

(** The stored budget says what was asked for, and nothing else. *)
Definition enforces (c : string) (sel : gomap string) (pol : pdbPolicy) (pdb : PodDisruptionBudget) : Prop :=
  pdb_MinAvailable pdb = None /\ pdb_MaxUnavailable pdb = pol_MaxUnavailable pol /\
  (exists s, pdb_Selector pdb = Some s /\ ls_MatchExpressions s = [] /\ mapsEqual (ls_MatchLabels s) sel = true) /\
  forall k v, (k, v) ∈ LabelsForCluster c -> lookup_str k (pdb_Labels pdb) = v.

(** A budget this operator would have made for the cluster: its labels and one of its names. *)
Definition managed (c : string) (pdb : PodDisruptionBudget) : Prop :=
  selector_matches (LabelsForCluster c) (pdb_Labels pdb) = true /\
  (pdb_Name pdb = PDBName c \/ isRackPDBName (pdb_Name pdb) c = true).

(** The contract: each budget asked for is enforced unless another cluster holds
    its name, no other managed budget remains, and names outside the cluster's
    are left alone. *)
Definition pdbs_ok (cluster : AerospikeCluster) (l : list PodDisruptionBudget) : Prop :=
  (forall n sel pol, (n, sel, pol) ∈ desiredPDBs cluster ->
     exists pdb, findObj n l = Some pdb /\
       (foreign (cl_Name cluster) pdb \/ enforces (cl_Name cluster) sel pol pdb)) /\
  (forall pdb, pdb ∈ l -> managed (cl_Name cluster) pdb ->
     exists sel pol, (pdb_Name pdb, sel, pol) ∈ desiredPDBs cluster).

Lemma pdbNeedsUpdate_false pdb c sel pol :
  pdbNeedsUpdate pdb (LabelsForCluster c) sel pol = false <-> enforces c sel pol pdb.
Proof.
  unfold pdbNeedsUpdate, enforces. split.
  - destruct (pdb_MinAvailable pdb); [by rewrite bool_decide_true by eauto|].
    rewrite bool_decide_false by (intros [? [=]]).
    destruct (intOrStringPtrEqual _ _) eqn:Hm; [|done]. destruct (selectorEqual _ _) eqn:Hs; [|done]. simpl negb.
    cbv iota. intros Hl. split; [done|]. split; [|split].
    + destruct (pdb_MaxUnavailable pdb), (pol_MaxUnavailable pol); try done. simpl in Hm.
      by apply bool_decide_eq_true in Hm as ->.
    + unfold selectorEqual in Hs. destruct (pdb_Selector pdb) as [s|]; [|done]. exists s.
      apply andb_prop in Hs as [Hs He]. apply bool_decide_eq_true, length_zero_iff_nil in He. done.
    + intros k v Hin. apply not_true_iff_false in Hl. destruct (decide (lookup_str k (pdb_Labels pdb) = v)); [done|].
      destruct Hl. apply existsb_exists. exists (k, v). split; [by apply list_elem_of_In|].
      by rewrite bool_decide_false.
  - intros (-> & Hm & (s & Hs & He & Heq) & Hl). rewrite bool_decide_false by (intros [? [=]]).
    rewrite Hm, Hs. unfold selectorEqual. rewrite Heq, He.
    replace (intOrStringPtrEqual _ _) with true; [|destruct (pol_MaxUnavailable pol); [|done]; symmetry; by apply bool_decide_eq_true].
    rewrite bool_decide_true by done. simpl negb. cbv iota. apply not_true_iff_false. intros ([k v] & Hin & Hne)%existsb_exists.
    apply list_elem_of_In in Hin. rewrite bool_decide_true in Hne; [done|by apply Hl].
Qed.

Lemma lookup_copy_labels c labels k v :
  (k, v) ∈ LabelsForCluster c -> lookup_str k (mapsCopy labels (LabelsForCluster c)) = v.
Proof.
  intros Hin. unfold lookup_str. rewrite map_get_copy by apply map_wf_LabelsForCluster.
  apply map_get_Some in Hin; [|apply map_wf_LabelsForCluster]. by rewrite Hin.
Qed.

Lemma filter_unnamed {T} `{!Stored T} name (l : list T) :
  findObj name l = None -> filter (fun o => obj_name o <> name) l = l.
Proof.
  rewrite findObj_None. apply list_filter_id.
Qed.

(** *** The parts *)

Lemma reconcileOnePDB_achieves lvl cluster name sel pol l0 :
  map_wf sel ->
  achieves (T := PodDisruptionBudget) lvl (reconcileOnePDB cluster name sel pol) (fun l => l = l0) (fun _ l =>
    (exists pdb, findObj name l = Some pdb /\
       (foreign (cl_Name cluster) pdb \/ enforces (cl_Name cluster) sel pol pdb)) /\
    (forall n, n <> name -> findObj n l = findObj n l0) /\
    (forall pdb, pdb ∈ l -> pdb ∈ l0 \/ pdb_Name pdb = name)).
Proof.
  intros Hsel. unfold reconcileOnePDB.
  eapply achieves_bind; [apply achieves_try_getObj|]. intros [e|old]; apply achieves_pre; intros l [-> Hr].
  - destruct (IsNotFound e) eqn:He; [|apply achieves_raise; intros _ _ Hcalm; destruct Hr as [Hr _]; by rewrite (Hr Hcalm) in He].
    eapply achieves_bind; [apply achieves_wrapping, achieves_createObj; intros ->; by apply Hr|]. intros [].
    eapply achieves_weaken; [apply achieves_record|intros l Hll; exact Hll|]. intros [] l [-> Hn].
    change (findObj name l0 = None) in Hn. split; [|split].
    + eexists. rewrite findObj_app, Hn, findObj_cons. simpl. rewrite decide_True by done. split; [done|]. right.
      split; [done|]. split; [done|]. split; [exists (mkLabelSelector sel []); split_and!; [done..|by apply mapsEqual_refl]|].
      intros k v Hin. apply map_get_Some in Hin; [|apply map_wf_LabelsForCluster].
      unfold lookup_str. cbn [pdb_Labels]. by rewrite Hin.
    + intros n Hne. rewrite findObj_app, findObj_cons. simpl. rewrite decide_False by done. by destruct (findObj n l0).
    + intros pdb [Hin|Hin]%elem_of_app; [by left|]. apply list_elem_of_singleton in Hin as ->. by right.
  - case_decide as Hown.
    { eapply achieves_weaken; [apply achieves_record|intros l Hll; exact Hll|]. intros [] l ->.
      split; [exists old; by split; [|left]|]. split; [done|by left]. }
    destruct (pdbNeedsUpdate _ _ _ _) eqn:Hup; simpl negb; cbv iota.
    + pose proof (findObj_Some _ _ _ Hr) as [_ Hname]. simpl in Hname.
      set (new := old <| pdb_Labels ::= _ |> <| pdb_MinAvailable := _ |> <| pdb_MaxUnavailable := _ |>
                      <| pdb_Selector := _ |>).
      assert (obj_name new = name) as Hn' by done.
      eapply achieves_bind; [apply achieves_wrapping, (achieves_updateObj _ new old); by rewrite Hn'|]. intros [].
      eapply achieves_weaken; [apply achieves_record|intros l Hll; exact Hll|]. intros [] l ->. split; [|split].
      * exists new. rewrite findObj_replace, Hn', decide_True, Hr by done. split; [done|]. right.
        split; [done|]. split; [done|]. split; [exists (mkLabelSelector sel []); split_and!; [done..|by apply mapsEqual_refl]|].
        intros k v Hin. by apply lookup_copy_labels.
      * intros n Hne. by rewrite findObj_replace, Hn', decide_False by done.
      * intros pdb (x & -> & Hx)%list_elem_of_fmap. case_decide; [by right|by left].
    + apply achieves_ret. intros l ->. split; [|split; [done|by left]]. exists old. split; [done|]. right.
      by apply pdbNeedsUpdate_false.
Qed.

Lemma deletePDBByName_achieves lvl name l0 :
  lvl <> Lossy ->
  achieves (T := PodDisruptionBudget) lvl (deletePDBByName name) (fun l => l = l0) (fun _ l => l = filter (fun o => obj_name o <> name) l0).
Proof.
  intros Hlvl. unfold deletePDBByName.
  eapply achieves_bind; [apply achieves_try_getObj|]. intros [e|old]; apply achieves_pre; intros l [-> Hr].
  - destruct Hr as [Hr Habs]. destruct (IsNotFound e) eqn:He.
    + apply achieves_ret. intros l ->. rewrite filter_unnamed; [done|by apply Habs].
    + apply achieves_raise. intros _ _ Hcalm. by specialize (Hr Hcalm).
  - pose proof (findObj_Some _ _ _ Hr) as [_ Hname]. simpl in Hname. rewrite Hname.
    eapply achieves_bind; [apply achieves_try_deleteObj|]. intros [e|[]]; [|by apply achieves_ret].
    apply achieves_pre. intros l [-> [He Habs]]. destruct (IsNotFound e) eqn:Hnf.
    + exfalso. specialize (Habs Hlvl eq_refl). congruence.
    + apply achieves_raise. intros _ _ Hcalm. by specialize (He Hcalm).
Qed.

(** The names [deleteRackPDBs] removes. *)
Definition doomed (c : string) (keep : list string) (pdb : PodDisruptionBudget) : Prop :=
  pdb_Name pdb <> PDBName c /\ ~ (pdb_Name pdb ∈ keep) /\ isRackPDBName (pdb_Name pdb) c = true.

#[export] Instance doomed_dec c keep pdb : Decision (doomed c keep pdb).
Proof. unfold doomed. apply _. Defined.

Definition doomedNames (c : string) (keep : list string) (l : list PodDisruptionBudget) : list string :=
  pdb_Name <$> filter (doomed c keep) l.

Lemma filter_doomed_snoc c keep pre x (l : list PodDisruptionBudget) :
  filter (fun p => pdb_Name p ∉ doomedNames c keep (pre ++ [x])) l =
  if decide (doomed c keep x) then filter (fun p => pdb_Name p <> pdb_Name x) (filter (fun p => pdb_Name p ∉ doomedNames c keep pre) l)
  else filter (fun p => pdb_Name p ∉ doomedNames c keep pre) l.
Proof.
  assert (doomedNames c keep (pre ++ [x]) =
    doomedNames c keep pre ++ if decide (doomed c keep x) then [pdb_Name x] else []) as ->.
  { unfold doomedNames. rewrite filter_app, fmap_app, filter_cons. by case_decide. }
  case_decide; [|by rewrite app_nil_r]. rewrite list_filter_filter. apply list_filter_iff. intros p. set_solver.
Qed.

Lemma deleteRackPDBs_achieves lvl cluster keep l0 :
  lvl <> Lossy ->
  achieves (T := PodDisruptionBudget) lvl (deleteRackPDBs cluster keep) (fun l => l = l0) (fun _ l =>
    l = filter (fun p => pdb_Name p ∉ doomedNames (cl_Name cluster) keep
      (filter (fun o => selector_matches (LabelsForCluster (cl_Name cluster)) (pdb_Labels o) = true) l0)) l0).
Proof.
  intros Hlvl. unfold deleteRackPDBs.
  eapply achieves_bind; [apply achieves_wrapping, achieves_listObj|]. intros pdbs.
  apply achieves_pre. intros l [-> ->].
  eapply achieves_weaken; [apply (achieves_forM _ _ (fun pre l =>
    l = filter (fun p => pdb_Name p ∉ doomedNames (cl_Name cluster) keep pre) l0))| |].
  - intros pre x post _. apply achieves_pre. intros l ->. cbv zeta. case_decide as Hk.
    { apply achieves_ret. intros l ->. rewrite filter_doomed_snoc, decide_False; [done|]. unfold doomed. tauto. }
    destruct (isRackPDBName _ _) eqn:Hrack; simpl negb; cbv iota.
    + eapply achieves_weaken; [by apply deletePDBByName_achieves|intros l Hl; exact Hl|]. intros [] l ->.
      rewrite filter_doomed_snoc, decide_True; [done|]. unfold doomed. tauto.
    + apply achieves_ret. intros l ->. rewrite filter_doomed_snoc, decide_False; [done|]. unfold doomed. rewrite Hrack. naive_solver.
  - intros l ->. symmetry. apply list_filter_id. intros p _. apply not_elem_of_nil.
  - by intros [] l ->.
Qed.

Lemma findObj_filter_notin n (D : list string) (l : list PodDisruptionBudget) :
  n ∉ D -> findObj n (filter (fun p => pdb_Name p ∉ D) l) = findObj n l.
Proof.
  intros Hn. induction l as [|x l IH]; [done|]. rewrite filter_cons, findObj_cons.
  case_decide; rewrite ?findObj_cons, IH; [done|]. case_decide as Hx; [|done]. simpl in Hx. by subst.
Qed.

(** After the clean-up of rack budgets, the managed ones that are left were to be kept. *)
Lemma kept_after c keep l0 pdb :
  pdb ∈ filter (fun p => pdb_Name p ∉ doomedNames c keep
    (filter (fun o => selector_matches (LabelsForCluster c) (pdb_Labels o) = true) l0)) l0 ->
  pdb ∈ l0 /\ (managed c pdb -> pdb_Name pdb = PDBName c \/ pdb_Name pdb ∈ keep).
Proof.
  intros [Hnot Hin]%list_elem_of_filter. split; [done|]. intros [Hsel Hname].
  destruct (decide (pdb_Name pdb = PDBName c)); [by left|]. destruct (decide (pdb_Name pdb ∈ keep)); [by right|].
  destruct Hnot. apply list_elem_of_fmap. exists pdb. split; [done|]. apply list_elem_of_filter.
  unfold doomed. split; [|by apply list_elem_of_filter]. naive_solver.
Qed.

Lemma doomedNames_spec c keep l n :
  n ∈ doomedNames c keep l -> n <> PDBName c /\ ~ (n ∈ keep) /\ isRackPDBName n c = true.
Proof. intros (p & -> & [Hd _]%list_elem_of_filter)%list_elem_of_fmap. exact Hd. Qed.

Definition rackPDBsOk (cluster : AerospikeCluster) (l1 : list PodDisruptionBudget) (done : list (Rack * Z))
    (l : list PodDisruptionBudget) : Prop :=
  let name rack := RackPDBName (cl_Name cluster) (rack_ID rack) in
  (forall rack size, (rack, size) ∈ done -> exists pdb, findObj (name rack) l = Some pdb /\
     (foreign (cl_Name cluster) pdb \/
      enforces (cl_Name cluster) (LabelsForRack (cl_Name cluster) (rack_ID rack)) (effectivePDBPolicy cluster (Some rack) size) pdb)) /\
  (forall n, n ∉ name <$> done.*1 -> findObj n l = findObj n l1) /\
  (forall pdb, pdb ∈ l -> pdb ∈ l1 \/ pdb_Name pdb ∈ name <$> done.*1).

Lemma rackPDBs_achieves lvl cluster todo l1 :
  NoDup (rack_ID <$> todo.*1) ->
  achieves (T := PodDisruptionBudget) lvl (forM_ todo (fun '(rack, rackSize) =>
      reconcileOnePDB cluster (RackPDBName (cl_Name cluster) (rack_ID rack))
        (LabelsForRack (cl_Name cluster) (rack_ID rack)) (effectivePDBPolicy cluster (Some rack) rackSize)))
    (fun l => l = l1) (fun _ => rackPDBsOk cluster l1 todo).
Proof.
  intros Hnd. eapply achieves_weaken; [apply (achieves_forM _ _ (rackPDBsOk cluster l1))| |by intros ? ?].
  - intros pre [rack size] post Htodo. apply achieves_pre. intros l (H1 & H2 & H3).
    eapply achieves_weaken; [apply reconcileOnePDB_achieves, map_wf_LabelsForRack|intros l' Hl'; exact Hl'|].
    intros [] l' (G1 & G2 & G3).
    assert (forall rack' size', (rack', size') ∈ pre -> RackPDBName (cl_Name cluster) (rack_ID rack') <>
      RackPDBName (cl_Name cluster) (rack_ID rack)) as Hne.
    { intros rack' size' Hin Heq%RackPDBName_inj. rewrite Htodo, fmap_app, fmap_app, fmap_cons, fmap_cons in Hnd.
      apply NoDup_app in Hnd as (_ & Hd & _). apply (Hd (rack_ID rack')); [|rewrite Heq; left].
      apply list_elem_of_fmap_2. by apply (list_elem_of_fmap_2 fst) in Hin. }
    split; [|split].
    + intros rack' size' [Hin|Hin]%elem_of_app.
      * destruct (H1 _ _ Hin) as (pdb & Hpdb & Hok). exists pdb. rewrite G2 by (by eapply Hne). done.
      * apply list_elem_of_singleton in Hin as [= -> ->]. done.
    + intros n Hn. rewrite !fmap_app in Hn. rewrite G2 by set_solver. apply H2. set_solver.
    + intros pdb [Hin|Hin]%G3; rewrite !fmap_app; [apply H3 in Hin as [?|?]; set_solver|]. right. rewrite Hin. set_solver.
  - intros l ->. split; [by intros ? ? ?%elem_of_nil|]. split; [done|by left].
Qed.

Lemma zip_rackSizes cluster racks :
  (zip racks (rackSizes cluster racks)).*1 = racks.
Proof. apply fst_zip. unfold rackSizes. rewrite length_fmap, length_seq. done. Qed.

(** Names outside the cluster's are left alone. *)
Definition others_kept (c : string) (l0 l : list PodDisruptionBudget) : Prop :=
  forall n, n <> PDBName c -> isRackPDBName n c = false -> findObj n l = findObj n l0.

(** The cluster-wide budget exists only when it is asked for. *)
Definition one_shape (cluster : AerospikeCluster) (l : list PodDisruptionBudget) : Prop :=
  findObj (PDBName (cl_Name cluster)) l = None \/
  exists sel pol, (PDBName (cl_Name cluster), sel, pol) ∈ desiredPDBs cluster.

Lemma reconcilePDB_achieves lvl cluster l0 :
  lvl <> Lossy -> NoDup (rack_ID <$> getRacks cluster) -> Forall (fun r => in_i64 (rack_ID r)) (getRacks cluster) ->
  achieves (T := PodDisruptionBudget) lvl (reconcilePDB cluster) (fun l => l = l0)
    (fun _ l => pdbs_ok cluster l /\ others_kept (cl_Name cluster) l0 l /\ one_shape cluster l).
Proof.
  intros Hlvl Hnd Hids. unfold reconcilePDB, pdbs_ok, one_shape, desiredPDBs. set (c := cl_Name cluster).
  destruct (bool_decide (spec_DisablePDB (cl_Spec cluster) = Some true)).
  - unfold deleteAllPDBs. eapply achieves_bind; [by apply deletePDBByName_achieves|]. intros [].
    apply achieves_pre. intros l1 ->. eapply achieves_weaken; [by apply deleteRackPDBs_achieves|intros l Hl; exact Hl|].
    intros [] l ->. split; [split|split].
    + by intros n sel pol ?%elem_of_nil.
    + intros pdb [Hin Hm]%kept_after Hman. apply list_elem_of_filter in Hin as [Hne _].
      destruct (Hm Hman) as [Hm'|Hm']; [done|by apply elem_of_nil in Hm'].
    + intros n Hn Hr. rewrite findObj_filter_notin; [by rewrite findObj_filter, decide_False|].
      intros (_ & _ & Hd)%doomedNames_spec. unfold c in Hr. congruence.
    + left. rewrite findObj_filter_notin; [by rewrite findObj_filter, decide_True|]. by intros (Hd & _)%doomedNames_spec.
  - destruct (perRackPDBs (getRacks cluster)); simpl negb; cbv iota.
    + eapply achieves_bind; [by apply deletePDBByName_achieves|]. intros [].
      eapply achieves_bind; [apply achieves_record|]. intros [].
      eapply achieves_bind; [apply rackPDBs_achieves; by rewrite zip_rackSizes|]. intros [].
      apply achieves_pre. intros l2 (H1 & H2 & H3). rewrite zip_rackSizes in H2, H3.
      eapply achieves_weaken; [by apply deleteRackPDBs_achieves|intros l Hl; exact Hl|]. intros [] l ->. split; [split|split].
      * intros n sel pol ([rack size] & [= -> -> ->] & Hin)%list_elem_of_fmap. rewrite findObj_filter_notin; [by apply H1|].
        intros (_ & Hk & _)%doomedNames_spec. apply Hk. apply list_elem_of_fmap. exists rack. split; [done|].
        apply (list_elem_of_fmap_2 fst) in Hin. by rewrite zip_rackSizes in Hin.
      * intros pdb [Hin Hm]%kept_after Hman.
        assert (pdb_Name pdb ∈ (fun rack => RackPDBName c (rack_ID rack)) <$> getRacks cluster) as Hk.
        { destruct (Hm Hman) as [Hm'|Hm']; [|done]. apply H3 in Hin as [Hin|Hin]; [|done].
          apply list_elem_of_filter in Hin as [Hne _]. done. }
        apply list_elem_of_fmap in Hk as (rack & Hname & Hrack).
        rewrite <- (zip_rackSizes cluster (getRacks cluster)) in Hrack. apply list_elem_of_fmap in Hrack as ([r size] & -> & Hin').
        rewrite Hname. do 2 eexists. apply list_elem_of_fmap. by exists (r, size).
      * intros n Hn Hr. rewrite findObj_filter_notin by (intros (_ & _ & Hd)%doomedNames_spec; unfold c in Hr; congruence).
        rewrite H2; [by rewrite findObj_filter, decide_False|].
        intros (rack & -> & Hin)%list_elem_of_fmap. unfold c in Hr. rewrite isRackPDBName_rack in Hr; [done|].
        rewrite Forall_forall in Hids. by apply Hids.
      * left. rewrite findObj_filter_notin by (by intros (Hd & _)%doomedNames_spec).
        rewrite H2; [by rewrite findObj_filter, decide_True|].
        intros (rack & Heq & _)%list_elem_of_fmap. by destruct (RackPDBName_ne c (rack_ID rack)).
    + eapply achieves_bind; [by apply deleteRackPDBs_achieves|]. intros [].
      apply achieves_pre. intros l1 ->.
      eapply achieves_weaken; [apply reconcileOnePDB_achieves; repeat constructor; set_solver|intros l Hl; exact Hl|].
      intros [] l (G1 & G2 & G3). split; [split|split].
      * intros n sel pol [= -> -> ->]%list_elem_of_singleton. done.
      * intros pdb Hin Hman. assert (pdb_Name pdb = PDBName c) as ->; [|do 2 eexists; by left].
        apply G3 in Hin as [[Hin Hm]%kept_after|Hin]; [|done].
        destruct (Hm Hman) as [Hm'|Hm']; [done|by apply elem_of_nil in Hm'].
      * intros n Hn Hr. rewrite G2 by done. rewrite findObj_filter_notin; [done|].
        intros (_ & _ & Hd)%doomedNames_spec. unfold c in Hr. congruence.
      * right. do 2 eexists. by left.
Qed.

(** *** A second pass *)

Lemma still_deletePDB (l : list PodDisruptionBudget) name : findObj name l = None -> keeps (still l) (deletePDBByName name).
Proof.
  intros Hn. unfold deletePDBByName. apply still_try_getObj; [intros e; frame|]. intros o Ho. congruence.
Qed.

Lemma still_deleteRackPDBs (l : list PodDisruptionBudget) cluster keep :
  (forall pdb, pdb ∈ l -> managed (cl_Name cluster) pdb -> pdb_Name pdb = PDBName (cl_Name cluster) \/ pdb_Name pdb ∈ keep) ->
  keeps (still l) (deleteRackPDBs cluster keep).
Proof.
  intros Hl. unfold deleteRackPDBs. apply still_listObj. apply keeps_forM.
  intros pdb [Hsel Hin]%list_elem_of_filter. cbv zeta. case_decide as Hk; [frame|].
  destruct (isRackPDBName _ _) eqn:Hr; simpl negb; cbv iota; [|frame]. destruct Hk. apply Hl; [done|]. split; [done|by right].
Qed.

Lemma still_reconcileOne (l : list PodDisruptionBudget) cluster name sel pol pdb :
  findObj name l = Some pdb -> foreign (cl_Name cluster) pdb \/ enforces (cl_Name cluster) sel pol pdb ->
  keeps (still l) (reconcileOnePDB cluster name sel pol).
Proof.
  intros Hpdb Hok. unfold reconcileOnePDB. cbv zeta. apply still_try_getObj.
  - intros e. destruct (IsNotFound e); [by eapply still_create_taken|frame].
  - intros old Hold. rewrite Hpdb in Hold. injection Hold as <-. case_decide as Hf; [frame|].
    destruct Hok as [Hok|Hok%pdbNeedsUpdate_false]; [done|]. rewrite Hok. simpl negb. cbv iota. frame.
Qed.

Lemma reconcilePDB_still cluster l :
  pdbs_ok cluster l -> one_shape cluster l -> keeps (still l) (reconcilePDB cluster).
Proof.
  unfold reconcilePDB, pdbs_ok, one_shape, desiredPDBs. set (c := cl_Name cluster). intros [Hd Hm].
  destruct (bool_decide (spec_DisablePDB (cl_Spec cluster) = Some true)).
  - intros [Ho|(? & ? & ?%elem_of_nil)]; [|done]. unfold deleteAllPDBs.
    apply keeps_bind; [by apply still_deletePDB|]. intros []. apply still_deleteRackPDBs. intros pdb Hin Hman.
    by destruct (Hm _ Hin Hman) as (? & ? & ?%elem_of_nil).
  - destruct (perRackPDBs (getRacks cluster)); simpl negb in *; cbv iota in *.
    + intros [Ho|(? & ? & ([rack size] & [= Heq _ _] & _)%list_elem_of_fmap)];
        [|by destruct (RackPDBName_ne c (rack_ID rack))].
      apply keeps_bind; [by apply still_deletePDB|]. intros []. apply keeps_bind; [frame|]. intros [].
      apply keeps_bind.
      * apply keeps_forM. intros [rack size] Hin.
        destruct (Hd (RackPDBName c (rack_ID rack)) (LabelsForRack c (rack_ID rack))
          (effectivePDBPolicy cluster (Some rack) size)) as (pdb & Hpdb & Hok); [|by eapply still_reconcileOne].
        apply list_elem_of_fmap. by exists (rack, size).
      * intros []. apply still_deleteRackPDBs. intros pdb Hin Hman. right.
        destruct (Hm _ Hin Hman) as (? & ? & ([rack size] & [= Hname _ _] & Hz)%list_elem_of_fmap). rewrite Hname.
        apply list_elem_of_fmap. exists rack. split; [done|]. apply (list_elem_of_fmap_2 fst) in Hz.
        by rewrite zip_rackSizes in Hz.
    + intros _. apply keeps_bind.
      * apply still_deleteRackPDBs. intros pdb Hin Hman. left.
        by destruct (Hm _ Hin Hman) as (? & ? & [= -> _ _]%list_elem_of_singleton).
      * intros []. destruct (Hd _ _ _ (proj2 (list_elem_of_singleton _ _) eq_refl)) as (pdb & Hpdb & Hok).
        by eapply still_reconcileOne.
Qed.

(** C25: a pass without API faults succeeds, and one that reports success leaves the
    budgets the spec asks for: each desired budget is enforced or its name belongs to
    another cluster, no other budget of the cluster is left over, budgets outside the
    names of the cluster keep their contents, and a second pass has nothing to do *)
Theorem reconcilePDB_refines cluster w :
  Forall honestFault (w_faults w) ->
  NoDup (rack_ID <$> getRacks cluster) -> Forall (fun r => in_i64 (rack_ID r)) (getRacks cluster) ->
  let '(r, w') := reconcilePDB cluster w in
  (w_faults w = [] -> r = inr ()) /\
  (r = inr () -> pdbs_ok cluster (w_pdbs w') /\ others_kept (cl_Name cluster) (w_pdbs w) (w_pdbs w') /\
     w_trace (snd (reconcilePDB cluster w')) = w_trace w').
Proof.
  intros Hh Hnd Hids.
  pose proof (fun lvl Hl => reconcilePDB_achieves lvl cluster (w_pdbs w) Hl Hnd Hids w eq_refl) as Hw.
  destruct (reconcilePDB cluster w) as [r w']. split.
  - intros Hf. destruct (Hw Calm) as (_ & Hc & _); [done|done|]. by destruct (Hc eq_refl) as [[] ->].
  - intros ->. destruct (Hw Honest) as (_ & _ & Ha); [done|done|]. destruct (Ha () eq_refl) as (Hok & Hkeep & Hone).
    split; [exact Hok|]. split; [exact Hkeep|]. by destruct (reconcilePDB_still cluster _ Hok Hone w' eq_refl).
Qed.

End Spec.

(** ** Instances *)

Definition sample_racks : RackConfig :=
  mkRackConfig [plainRack 1; (plainRack 2) <| rack_MaxUnavailable := Some (IntVal 1) |>] None None None [].

Definition sample_namespaces (rf : Z) : gomap any :=
  [("namespaces", AList [AMap [("name", AString "test"); ("replication-factor", AInt KInt64 rf)]])].

Lemma cluster_budget_bounds_witness :
  let cluster := (example_cluster 6 None) <| cl_Spec ::= fun s => s <| spec_AerospikeConfig := Some (sample_namespaces 3) |> |> in
  pol_MaxUnavailable (clusterPDBPolicy (H := sample_platform) cluster (getRacks cluster)) = Some (IntVal 2) /\
  forall rack nsMap n, rack ∈ getRacks cluster -> rack_namespace cluster rack nsMap ->
    states_rf nsMap n -> 1 <= n < 2 ^ 31 -> 2 <= Z.max 1 (n - 1).
Proof.
  intros cluster. split; [by vm_compute|].
  apply (cluster_budget_bounds (H := sample_platform) cluster 2); [simpl; lia|by vm_compute|done|by repeat constructor].
Defined.

(** Two racks, the second with its own budget; a leftover budget of rack 3 is removed. *)
Lemma reconcilePDB_refines_witness :
  let cluster := example_cluster 4 (Some sample_racks) in
  let old := mkPDB (RackPDBName "demo" 3) (LabelsForCluster "demo") None (Some (IntVal 1)) None in
  let w := (sample_world cluster [] [] (mkStub [] [] [] [])) <| w_pdbs := [old] |> in
  pdb_Name <$> w_pdbs (snd (reconcilePDB (H := sample_env) cluster w)) = ["demo-1-pdb"; "demo-2-pdb"] /\
  let '(r, w') := reconcilePDB (H := sample_env) cluster w in
  (w_faults w = [] -> r = inr ()) /\
  (r = inr () -> pdbs_ok (H := sample_env) cluster (w_pdbs w') /\ others_kept (H := sample_env) (cl_Name cluster) (w_pdbs w) (w_pdbs w') /\
     w_trace (snd (reconcilePDB (H := sample_env) cluster w')) = w_trace w').
Proof.
  intros cluster old w. split; [by vm_compute|].
  apply (reconcilePDB_refines (H := sample_env) cluster w); [constructor| |]; apply (bool_decide_unpack _); by vm_compute.
Defined.

(** ** The budget of another cluster *)

(** Unlike the update path, deletion does not look at the owner: rack 1 of cluster demo
    and cluster demo-1 share the name demo-1-pdb, so a pass of demo-1 with budgets disabled
    deletes the budget that protects rack 1 of demo. *)
Theorem disable_deletes_foreign_budget :
  let cluster := (example_cluster 3 None) <| cl_Name := "demo-1" |>
                   <| cl_Spec ::= fun s => s <| spec_DisablePDB := Some true |> |> in
  let theirs := mkPDB (RackPDBName "demo" 1) (LabelsForCluster "demo") None (Some (IntVal 1))
                  (Some (mkLabelSelector (LabelsForRack "demo" 1) [])) in
  let w := (sample_world cluster [] [] (mkStub [] [] [] [])) <| w_pdbs := [theirs] |> in
  let run := reconcilePDB (H := sample_env) cluster w in
  foreign (cl_Name cluster) theirs /\ fst run = inr () /\ w_pdbs (snd run) = [] /\
  ADeleteObj "PodDisruptionBudget" "demo-1-pdb" ∈ w_trace (snd run).
Proof. split; [split; by vm_compute|]. split; [by vm_compute|]. split; [by vm_compute|]. vm_compute. left. Qed.
