(* ===== verification/Services.v ===== *)
(** * Services and the role that reads them

    internal/controller/reconciler_services.go, reconciler_pod_service.go,
    reconciler_seeds_finder.go and reconciler_pod_rbac.go: the headless service of
    a cluster, a service per pod, the load balancer for seed discovery, and the
    Role and RoleBinding with which a pod reads its own service.

    What the API server stores for a Service is not what was sent: it fills in a
    type, a traffic policy and node ports.  That is the class [ServiceAPI]. *)

From S2P Require Import Prelude GoValue Utils Api ConfigGen Events Kube Ensure Sizing Status ConfigMaps.

(** ** Labels, annotations and ports *)

(** [mergeAdditionalLabels]. *)
Definition mergeAdditionalLabels (base additional : gomap string) : gomap string :=
  foldl (fun base e => if map_has e.1 base then base else map_set e.1 e.2 base) base additional.

(** [isSystemAnnotation]. *)
Definition isSystemAnnotation (key : string) : bool :=
  match split_first "/" key with
  | None => false
  | Some (prefix, _) =>
      bool_decide (prefix = "kubernetes.io") || has_suffix prefix ".kubernetes.io" ||
      bool_decide (prefix = "k8s.io") || has_suffix prefix ".k8s.io"
  end.

(** [reconcileAnnotations]; a nil map and an empty one are the same list. *)
Definition reconcileAnnotations (existing desired : gomap string) : gomap string :=
  mapsCopy (filter (fun e => isSystemAnnotation e.1 = true) existing) desired.

(** [equalAnnotations]. *)
Definition equalAnnotations (actual desired : gomap string) : bool :=
  mapsEqual actual (reconcileAnnotations actual desired).

(** [servicePortsChanged]. *)
Definition samePort (p d : ServicePortEntry) : bool :=
  bool_decide (sp_Name p = sp_Name d) && bool_decide (sp_Port p = sp_Port d) &&
  bool_decide (sp_TargetPort p = sp_TargetPort d) && bool_decide (sp_Protocol p = sp_Protocol d).

Definition servicePortsChanged (existing desired : list ServicePortEntry) : bool :=
  negb (bool_decide (length existing = length desired)) ||
  existsb (fun pd => negb (samePort pd.1 pd.2)) (zip existing desired).

(** A port of the controller: the target port is the same number, over TCP. *)
Definition tcpPort (name : string) (port : Z) : ServicePortEntry :=
  mkServicePort name port (IntVal port) "TCP" 0.

Definition headlessPorts : list ServicePortEntry :=
  [tcpPort "service" ServicePort; tcpPort "fabric" FabricPort;
   tcpPort "heartbeat" HeartbeatPort; tcpPort "info" InfoPort].

(** The labels and annotations of a service with custom metadata. *)
Definition metaLabels (base : gomap string) (meta : option AerospikeObjectMeta) : gomap string :=
  match meta with Some m => mergeAdditionalLabels base (om_Labels m) | None => base end.

Definition metaAnnotations (meta : option AerospikeObjectMeta) : gomap string :=
  match meta with Some m => mapsCopy [] (om_Annotations m) | None => [] end.

(** ** What the API server makes of a Service *)

Definition portKey (p : ServicePortEntry) : string * Z * IntOrString * string :=
  (sp_Name p, sp_Port p, sp_TargetPort p, sp_Protocol p).

(** [admitService old s]: the object stored when [s] is sent, over [old] if it exists.
    Metadata, selector and ports are kept, up to the node ports the server assigns; a
    type that is given is kept, a service inside the cluster gets no node ports, and a load
    balancer gets a traffic policy. *)
Class ServiceAPI := {
  admitService : option Service -> Service -> Service;
  admit_Name old s : svc_Name (admitService old s) = svc_Name s;
  admit_Labels old s : svc_Labels (admitService old s) = svc_Labels s;
  admit_Annotations old s : svc_Annotations (admitService old s) = svc_Annotations s;
  admit_Selector old s : svc_Selector (admitService old s) = svc_Selector s;
  admit_PublishNotReady old s : svc_PublishNotReadyAddresses (admitService old s) = svc_PublishNotReadyAddresses s;
  admit_Ports old s : portKey <$> svc_Ports (admitService old s) = portKey <$> svc_Ports s;
  admit_ClusterIP_Ports old s : svc_Type s = ServiceTypeClusterIP -> svc_Ports (admitService old s) = svc_Ports s;
  admit_Type old s : svc_Type s <> ServiceTypeOther "" -> svc_Type (admitService old s) = svc_Type s;
  admit_SourceRanges old s : svc_LoadBalancerSourceRanges (admitService old s) = svc_LoadBalancerSourceRanges s;
  admit_Policy old s : svc_Type s = ServiceTypeLoadBalancer ->
    svc_ExternalTrafficPolicy (admitService old s) =
      if decide (svc_ExternalTrafficPolicy s = "") then "Cluster" else svc_ExternalTrafficPolicy s
}.

(** ** The headless service *)

(** [headlessServiceNeedsUpdate]. *)
Definition headlessServiceNeedsUpdate (existing : Service) (desiredLabels desiredAnnotations desiredSelector : gomap string)
    (desiredPorts : list ServicePortEntry) : bool :=
  negb (equalAnnotations (svc_Annotations existing) desiredAnnotations) ||
  negb (mapsEqual (svc_Labels existing) desiredLabels) ||
  negb (mapsEqual (svc_Selector existing) desiredSelector) ||
  negb (svc_PublishNotReadyAddresses existing) ||
  servicePortsChanged (svc_Ports existing) desiredPorts.

Definition headlessLabels (cluster : AerospikeCluster) : gomap string :=
  metaLabels (LabelsForCluster (cl_Name cluster)) (spec_HeadlessService (cl_Spec cluster) ≫= ss_Metadata).

Definition headlessAnnotations (cluster : AerospikeCluster) : gomap string :=
  metaAnnotations (spec_HeadlessService (cl_Spec cluster) ≫= ss_Metadata).

(** ** Services of pods *)

(** A string converted to [corev1.ServiceType]. *)
Definition serviceTypeOf (s : string) : ServiceType :=
  if decide (s = "ClusterIP") then ServiceTypeClusterIP
  else if decide (s = "NodePort") then ServiceTypeNodePort
  else if decide (s = "LoadBalancer") then ServiceTypeLoadBalancer
  else ServiceTypeOther s.

(** [podServiceType]. *)
Definition podServiceType (spec : option AerospikeServiceSpec) : ServiceType :=
  match spec with
  | Some spec => if decide (ss_ServiceType spec = "") then ServiceTypeClusterIP else serviceTypeOf (ss_ServiceType spec)
  | None => ServiceTypeClusterIP
  end.

(** [podServicePorts]. *)
Definition podServicePorts (svcType : ServiceType) : list ServicePortEntry :=
  tcpPort "service" ServicePort ::
  if decide (svcType = ServiceTypeNodePort \/ svcType = ServiceTypeLoadBalancer)
  then [tcpPort "fabric" FabricPort; tcpPort "heartbeat" HeartbeatPort] else [].

(** [podServiceNeedsUpdate]. *)
Definition podServiceNeedsUpdate (existing : Service) (desiredLabels desiredAnnotations desiredSelector : gomap string)
    (desiredPorts : list ServicePortEntry) (desiredType : ServiceType) : bool :=
  negb (equalAnnotations (svc_Annotations existing) desiredAnnotations) ||
  negb (mapsEqual (svc_Labels existing) desiredLabels) ||
  negb (bool_decide (svc_Type existing = desiredType)) ||
  negb (mapsEqual (svc_Selector existing) desiredSelector) ||
  servicePortsChanged (svc_Ports existing) desiredPorts.

(** [podServiceSpec], in a service with these metadata. *)
Definition podServiceSpec (name : string) (labels annotations : gomap string) (svcType : ServiceType)
    (selector : gomap string) (ports : list ServicePortEntry) : Service :=
  mkService name labels annotations svcType "" selector false ports "" [] [].

Definition podServiceName (podName : string) : string := podName +:+ "-pod".

Definition podServiceLabels (cluster : AerospikeCluster) (podName : string) : gomap string :=
  metaLabels (map_set podServiceLabel podName (LabelsForCluster (cl_Name cluster)))
    (spec_PodService (cl_Spec cluster) ≫= ss_Metadata).

Definition podServiceAnnotations (cluster : AerospikeCluster) : gomap string :=
  metaAnnotations (spec_PodService (cl_Spec cluster) ≫= ss_Metadata).

Definition podServiceSelector (podName : string) : gomap string :=
  [("statefulset.kubernetes.io/pod-name", podName)].

(** ** The load balancer for seed discovery *)

(** [sourceRangesEqual]. *)
Definition sourceRangesEqual (a b : list string) : bool :=
  if decide (length a = 0%nat /\ length b = 0%nat) then true
  else if decide (length a <> length b) then false
  else forallb (fun xy => bool_decide (xy.1 = xy.2)) (zip a b).

Definition desiredPolicy (lbSpec : LoadBalancerSpec) : string :=
  if decide (lb_ExternalTrafficPolicy lbSpec = "") then "Cluster" else lb_ExternalTrafficPolicy lbSpec.

(** [seedsFinderServiceNeedsUpdate]. *)
Definition seedsFinderServiceNeedsUpdate (existing : Service) (desiredLabels desiredAnnotations desiredSelector : gomap string)
    (desiredPorts : list ServicePortEntry) (lbSpec : LoadBalancerSpec) : bool :=
  if negb (equalAnnotations (svc_Annotations existing) desiredAnnotations) then true
  else if negb (mapsEqual (svc_Labels existing) desiredLabels) then true
  else if negb (mapsEqual (svc_Selector existing) desiredSelector) then true
  else if servicePortsChanged (svc_Ports existing) desiredPorts then true
  else if negb (bool_decide (svc_ExternalTrafficPolicy existing = desiredPolicy lbSpec)) then true
  else if negb (sourceRangesEqual (svc_LoadBalancerSourceRanges existing) (lb_LoadBalancerSourceRanges lbSpec)) then true
  else false.

Definition seedsFinderLabels (cluster : AerospikeCluster) (lbSpec : LoadBalancerSpec) : gomap string :=
  mergeAdditionalLabels (LabelsForCluster (cl_Name cluster)) (lb_Labels lbSpec).

Definition seedsFinderPorts (lbSpec : LoadBalancerSpec) : list ServicePortEntry :=
  let port := if lb_Port lbSpec =? 0 then 3000 else lb_Port lbSpec in
  let targetPort := if lb_TargetPort lbSpec =? 0 then 3000 else lb_TargetPort lbSpec in
  [mkServicePort "service" port (IntVal targetPort) "TCP" 0].

(** ** The role of the pods *)

Definition podServiceReaderRole := "acko-pod-service-reader".
Definition DefaultServiceAccountName := "default".

(** [podutil.ServiceAccountName]. *)
Definition ServiceAccountName (cluster : AerospikeCluster) : string :=
  match spec_PodSpec (cl_Spec cluster) with
  | Some ps => if decide (ps_ServiceAccountName ps = "") then DefaultServiceAccountName else ps_ServiceAccountName ps
  | None => DefaultServiceAccountName
  end.

Definition needsPodServiceRBAC (cluster : AerospikeCluster) : bool :=
  match spec_PodService (cl_Spec cluster) with
  | Some s => bool_decide (ss_ServiceType s <> "" /\ ss_ServiceType s <> "ClusterIP")
  | None => false
  end.

Definition podServiceRoleName (cluster : AerospikeCluster) : string :=
  cl_Name cluster +:+ "-" +:+ podServiceReaderRole.

Definition readerRules : list PolicyRule := [mkPolicyRule [EmptyString] ["services"] ["get"] []].

Definition readerRoleRef (roleName : string) : RoleRef := mkRoleRef "rbac.authorization.k8s.io" "Role" roleName.

Definition readerSubjects (cluster : AerospikeCluster) : list Subject :=
  [mkSubject "ServiceAccount" "" (ServiceAccountName cluster) (cl_Namespace cluster)].

(** A cluster as the owner of objects. *)
Definition controllerRef (cluster : AerospikeCluster) : string := "acko.io/AerospikeCluster/" +:+ cl_Name cluster.

(** [setOwnerRef]: refused when another object is the controller. *)
Definition setOwnerRef (cluster : AerospikeCluster) (controller : option string) : goerr + option string :=
  match controller with
  | Some owner =>
      if decide (owner = controllerRef cluster) then inr (Some owner)
      else inl (Errorf "setting controller reference: object is already owned by another controller")
  | None => inr (Some (controllerRef cluster))
  end.

Section Services.
Context `{Environment} `{!ServiceAPI}.

(** [reconcileHeadlessService]. *)
Definition reconcileHeadlessService (cluster : AerospikeCluster) : M () :=
  let svcName := HeadlessServiceName (cl_Name cluster) in
  let labels := headlessLabels cluster in
  let selectorLabels := SelectorLabelsForCluster (cl_Name cluster) in
  let desiredAnnotations := headlessAnnotations cluster in
  createOrElse "headless service" svcName (Some EventServiceCreated)
    (admitService None (mkService svcName labels desiredAnnotations (ServiceTypeOther "") "None" selectorLabels true headlessPorts "" [] []))
    (updateDrifted "headless service" svcName (Some EventServiceUpdated)
      (fun existing => headlessServiceNeedsUpdate existing labels desiredAnnotations selectorLabels headlessPorts)
      (fun existing => admitService (Some existing)
         (existing <| svc_Labels := labels |>
                   <| svc_Annotations ::= fun l => reconcileAnnotations l desiredAnnotations |>
                   <| svc_Ports := headlessPorts |> <| svc_Selector := selectorLabels |>
                   <| svc_PublishNotReadyAddresses := true |>))).

(** The body of the loop of [reconcilePodServices]. *)
Definition reconcilePodService (cluster : AerospikeCluster) (podName : string) : M () :=
  let serviceType := podServiceType (spec_PodService (cl_Spec cluster)) in
  let svcName := podServiceName podName in
  let labels := podServiceLabels cluster podName in
  let desiredPorts := podServicePorts serviceType in
  let podSelector := podServiceSelector podName in
  let desiredAnnotations := podServiceAnnotations cluster in
  createOrElse "pod service" svcName None
    (admitService None (podServiceSpec svcName labels desiredAnnotations serviceType podSelector desiredPorts))
    (updateDrifted "pod service" svcName None
      (fun existing => podServiceNeedsUpdate existing labels desiredAnnotations podSelector desiredPorts serviceType)
      (fun existing => admitService (Some existing)
         (existing <| svc_Labels := labels |>
                   <| svc_Annotations ::= fun l => reconcileAnnotations l desiredAnnotations |>
                   <| svc_Type := serviceType |> <| svc_Selector := podSelector |> <| svc_Ports := desiredPorts |>))).

(** [cleanupStalePodServices]; a nil set of names has no members. *)
Definition cleanupStalePodServices (cluster : AerospikeCluster) (activePodNames : list string) : M () :=
  svcs ← wrapping "listing pod services for cleanup"
           (listServices (SelectorLabelsForCluster (cl_Name cluster)) podServiceLabel);
  forM_ svcs (fun svc =>
    let podName := lookup_str podServiceLabel (svc_Labels svc) in
    if decide (podName = "") then mret ()
    else if decide (podName ∈ activePodNames) then mret ()
    else deleteTolerant (T := Service) ("deleting stale pod service " +:+ svc_Name svc) (svc_Name svc)).

(** The services of these pods, and no others. *)
Definition podServicesFor (cluster : AerospikeCluster) (podNames : list string) : M () :=
  _ ← forM_ podNames (reconcilePodService cluster); cleanupStalePodServices cluster podNames.

(** [reconcilePodServices]. *)
Definition reconcilePodServices (cluster : AerospikeCluster) : M () :=
  match spec_PodService (cl_Spec cluster) with
  | None => cleanupStalePodServices cluster []
  | Some _ =>
      pods ← wrapping "listing cluster pods for pod services" (listClusterPods cluster);
      podServicesFor cluster (pod_Name <$> pods)
  end.

(** [cleanupSeedsFinderService]. *)
Definition cleanupSeedsFinderService (svcName : string) : M () :=
  try (getObj (T := Service) svcName) ≫= deleteFetched
    (fun name => _ ← deleteTolerant (T := Service) ("deleting seeds finder service " +:+ svcName) name; record false EventServiceDeleted)
    (fun e => if IsNotFound e then mret ()
              else raise (wrapErr ("getting seeds finder service " +:+ svcName +:+ " for cleanup") e)).

(** [reconcileSeedsFinderService]. *)
Definition reconcileSeedsFinderService (cluster : AerospikeCluster) : M () :=
  let svcName := seedsFinderServiceName (cl_Name cluster) in
  match spec_SeedsFinderServices (cl_Spec cluster) ≫= sfs_LoadBalancer with
  | None => cleanupSeedsFinderService svcName
  | Some lbSpec =>
      let labels := seedsFinderLabels cluster lbSpec in
      let selectorLabels := SelectorLabelsForCluster (cl_Name cluster) in
      let desiredAnnotations := mapsCopy [] (lb_Annotations lbSpec) in
      let desiredPorts := seedsFinderPorts lbSpec in
      createOrElse "seeds finder service" svcName (Some EventServiceCreated)
        (admitService None (mkService svcName labels desiredAnnotations ServiceTypeLoadBalancer "" selectorLabels false
           desiredPorts (lb_ExternalTrafficPolicy lbSpec) (lb_LoadBalancerSourceRanges lbSpec) []))
        (updateDrifted "seeds finder service" svcName (Some EventServiceUpdated)
          (fun existing => seedsFinderServiceNeedsUpdate existing labels desiredAnnotations selectorLabels desiredPorts lbSpec)
          (fun existing => admitService (Some existing)
             (existing <| svc_Labels := labels |>
                       <| svc_Annotations ::= fun l => reconcileAnnotations l desiredAnnotations |>
                       <| svc_Selector := selectorLabels |> <| svc_Ports := desiredPorts |>
                       <| svc_ExternalTrafficPolicy := desiredPolicy lbSpec |>
                       <| svc_LoadBalancerSourceRanges := lb_LoadBalancerSourceRanges lbSpec |>)))
  end.

End Services.

Section RBAC.
Context `{Environment}.

(** The Role of [reconcilePodServiceRBAC]. *)
Definition reconcileReaderRole (cluster : AerospikeCluster) : M () :=
  let roleName := podServiceRoleName cluster in
  createOrElse "pod service reader role" roleName None
    (mkRole roleName readerRules (Some (controllerRef cluster)))
    (fun existing =>
       if decide (ro_Rules existing = readerRules) then mret ()
       else
         owner ← lift (setOwnerRef cluster (ro_Controller existing));
         wrapping ("updating pod service reader role " +:+ roleName)
           (updateObj (existing <| ro_Rules := readerRules |> <| ro_Controller := owner |>))).

(** Its RoleBinding; the reference to the role cannot be changed in place. *)
Definition reconcileReaderBinding (cluster : AerospikeCluster) : M () :=
  let bindingName := podServiceRoleName cluster in
  let desired := mkRoleBinding bindingName (readerRoleRef bindingName) (readerSubjects cluster) (Some (controllerRef cluster)) in
  createOrElse "pod service reader rolebinding" bindingName None desired
    (fun existing =>
       if decide (rb_RoleRef existing = rb_RoleRef desired) then
         if decide (rb_Subjects existing = rb_Subjects desired) then mret ()
         else
           owner ← lift (setOwnerRef cluster (rb_Controller existing));
           wrapping ("updating pod service reader rolebinding " +:+ bindingName)
             (updateObj (existing <| rb_Subjects := rb_Subjects desired |> <| rb_Controller := owner |>))
       else
         _ ← deleteTolerant (T := RoleBinding) ("deleting drifted pod service reader rolebinding " +:+ bindingName) (rb_Name existing);
         wrapping ("recreating pod service reader rolebinding " +:+ bindingName) (createObj desired)).

(** [cleanupPodServiceRBAC]: an object that cannot be fetched is left alone. *)
Definition cleanupPodServiceRBAC (roleName : string) : M () :=
  _ ← try (getObj (T := RoleBinding) roleName) ≫= deleteFetched
        (deleteTolerant (T := RoleBinding) ("deleting pod service reader rolebinding " +:+ roleName)) (fun _ => mret ());
  try (getObj (T := Role) roleName) ≫= deleteFetched
    (deleteTolerant (T := Role) ("deleting pod service reader role " +:+ roleName)) (fun _ => mret ()).

(** [reconcilePodServiceRBAC]. *)
Definition reconcilePodServiceRBAC (cluster : AerospikeCluster) : M () :=
  if needsPodServiceRBAC cluster then
    _ ← reconcileReaderRole cluster; reconcileReaderBinding cluster
  else cleanupPodServiceRBAC (podServiceRoleName cluster).

End RBAC.

(** ** Maps of labels and annotations *)

Lemma mapsEqual_true a b :
  map_wf a -> map_wf b -> (forall k, map_get k a = map_get k b) -> mapsEqual a b = true.
Proof.
  intros Ha Hb Hab. apply andb_true_intro. split.
  - apply bool_decide_eq_true. rewrite <- (length_fmap fst a), <- (length_fmap fst b).
    apply Permutation_length, NoDup_Permutation; [done..|]. intros k.
    fold (map_keys a) (map_keys b). by rewrite <- !map_get_is_Some, Hab.
  - apply forallb_forall. intros [k v] Hin%list_elem_of_In. apply bool_decide_eq_true. rewrite <- Hab.
    by apply map_get_Some.
Qed.

Lemma mapsEqual_spec a b : map_wf a -> map_wf b -> mapsEqual a b = true <-> forall k, map_get k a = map_get k b.
Proof. intros Ha Hb. split; [by apply mapsEqual_get|by apply mapsEqual_true]. Qed.

Lemma map_wf_copy {A} (dst src : gomap A) : map_wf dst -> map_wf (mapsCopy dst src).
Proof.
  unfold mapsCopy. revert dst. induction src as [|e src IH]; intros dst Hd; [done|]. simpl. by apply IH, map_wf_set.
Qed.

Lemma map_wf_filter {A} (P : string * A -> Prop) `{!forall e, Decision (P e)} (m : gomap A) : map_wf m -> map_wf (filter P m).
Proof.
  unfold map_wf, map_keys. induction m as [|e m IH]; [done|]. rewrite fmap_cons, filter_cons. intros [He Hm]%NoDup_cons.
  case_decide; [|by apply IH]. rewrite fmap_cons. apply NoDup_cons. split; [|by apply IH].
  intros (e' & Hee & [_ He']%list_elem_of_filter)%list_elem_of_fmap. apply He. rewrite Hee. by apply list_elem_of_fmap_2.
Qed.

Lemma map_get_filter_keys {A} (f : string -> bool) k (m : gomap A) :
  map_get k (filter (fun e => f e.1 = true) m) = if f k then map_get k m else None.
Proof.
  induction m as [|[k' v] m IH]; [by destruct (f k)|]. rewrite filter_cons. cbn [fst]. case_decide as Hd; cbn [map_get].
  - case_decide; subst; [by rewrite Hd|done].
  - rewrite IH. case_decide; subst; [by destruct (f k')|done].
Qed.

(** A label of the operator is never overwritten. *)
Lemma mergeAdditionalLabels_get base additional k :
  map_get k (mergeAdditionalLabels base additional) =
    match map_get k base with Some v => Some v | None => map_get k additional end.
Proof.
  unfold mergeAdditionalLabels. revert base.
  induction additional as [|[k' v'] additional IH]; intros base; [simpl; by destruct (map_get k base)|].
  cbn [foldl fst snd]. rewrite IH. cbn [map_get]. unfold map_has. destruct (map_get k' base) as [u|] eqn:Hb.
  - rewrite bool_decide_eq_true_2 by done. case_decide; subst; [by rewrite Hb|done].
  - rewrite bool_decide_eq_false_2 by by intros [? ?]. rewrite map_get_set.
    case_decide; subst; [by rewrite Hb|done].
Qed.

Lemma map_wf_mergeAdditionalLabels base additional : map_wf base -> map_wf (mergeAdditionalLabels base additional).
Proof.
  unfold mergeAdditionalLabels. revert base. induction additional as [|e additional IH]; intros base Hb; [done|].
  simpl. apply IH. destruct (map_has _ _); [done|by apply map_wf_set].
Qed.

(** What an annotation is to be: the desired value, or for a system annotation the value it has. *)
Definition annotation_target (existing desired : gomap string) (k : string) : option string :=
  match map_get k desired with
  | Some v => Some v
  | None => if isSystemAnnotation k then map_get k existing else None
  end.

Lemma reconcileAnnotations_get existing desired k :
  map_wf desired -> map_get k (reconcileAnnotations existing desired) = annotation_target existing desired k.
Proof. intros Hd. unfold reconcileAnnotations. by rewrite map_get_copy, map_get_filter_keys. Qed.

Lemma map_wf_reconcileAnnotations existing desired : map_wf existing -> map_wf (reconcileAnnotations existing desired).
Proof. intros He. by apply map_wf_copy, map_wf_filter. Qed.

Lemma equalAnnotations_spec actual desired :
  map_wf actual -> map_wf desired ->
  equalAnnotations actual desired = true <-> forall k, map_get k actual = annotation_target actual desired k.
Proof.
  intros Ha Hd. unfold equalAnnotations. rewrite mapsEqual_spec by (done || by apply map_wf_reconcileAnnotations).
  split; intros Hk k; rewrite Hk; [by rewrite <- (reconcileAnnotations_get actual desired k)|
    by rewrite reconcileAnnotations_get, <- Hk].
Qed.

Lemma samePort_spec p d : samePort p d = true <-> portKey p = portKey d.
Proof.
  unfold samePort, portKey. rewrite !andb_true_iff, !bool_decide_eq_true. split; [by intros [[[-> ->] ->] ->]|by intros [= -> -> -> ->]].
Qed.

Lemma servicePortsChanged_spec existing desired :
  servicePortsChanged existing desired = false <-> portKey <$> existing = portKey <$> desired.
Proof.
  unfold servicePortsChanged. rewrite orb_false_iff, negb_false_iff, bool_decide_eq_true. revert desired.
  induction existing as [|p existing IH]; intros [|d desired]; [by repeat split|by split; [intros [? _]|]..|].
  cbn [zip zip_with existsb fst snd]. rewrite !fmap_cons, orb_false_iff, negb_false_iff, samePort_spec.
  change (length (p :: existing) = length (d :: desired)) with (S (length existing) = S (length desired)).
  rewrite Nat.succ_inj_wd. split.
  - intros (Hl & Hp & He). f_equal; [done|]. by apply IH.
  - intros Heq. pose proof (f_equal (hd (portKey p)) Heq) as Hp.
    pose proof (f_equal (@tl _) Heq) as He. by apply IH in He as [Hl He].
Qed.

Lemma sourceRangesEqual_spec a b : sourceRangesEqual a b = true <-> a = b.
Proof.
  unfold sourceRangesEqual. case_decide as Hz; [destruct Hz, a, b; done|]. case_decide as Hl; [split; [done|by intros ->]|].
  assert (length a = length b) as Hlen by lia. clear Hz Hl. revert b Hlen.
  induction a as [|x a IH]; intros [|y b] Hlen; try done. cbn [zip zip_with forallb fst snd].
  rewrite andb_true_iff, bool_decide_eq_true, IH by (simpl in Hlen; lia). split; [by intros [-> ->]|by intros [= -> ->]].
Qed.

(** ** A service that is as it should be *)

(** What the controller wants of a service. *)
Record want := mkWant {
  wt_Labels : gomap string;
  wt_Annotations : gomap string;
  wt_Selector : gomap string;
  wt_Ports : list ServicePortEntry
}.

Definition want_wf (t : want) : Prop := map_wf (wt_Labels t) /\ map_wf (wt_Annotations t) /\ map_wf (wt_Selector t).
Definition svc_wf (s : Service) : Prop := map_wf (svc_Labels s) /\ map_wf (svc_Annotations s) /\ map_wf (svc_Selector s).

(** Exactly the wanted labels, selector and ports; the wanted annotations, and no others but
    those of Kubernetes itself. *)
Definition conforms (t : want) (s : Service) : Prop :=
  (forall k, map_get k (svc_Labels s) = map_get k (wt_Labels t)) /\
  (forall k, map_get k (svc_Annotations s) = annotation_target (svc_Annotations s) (wt_Annotations t) k) /\
  (forall k, map_get k (svc_Selector s) = map_get k (wt_Selector t)) /\
  portKey <$> svc_Ports s = portKey <$> wt_Ports t.

(** The four comparisons the controller makes for each service. *)
Definition drifted (t : want) (s : Service) : bool :=
  negb (equalAnnotations (svc_Annotations s) (wt_Annotations t)) || negb (mapsEqual (svc_Labels s) (wt_Labels t)) ||
  negb (mapsEqual (svc_Selector s) (wt_Selector t)) || servicePortsChanged (svc_Ports s) (wt_Ports t).

Lemma drifted_spec t s : want_wf t -> svc_wf s -> drifted t s = false <-> conforms t s.
Proof.
  intros (Hl & Ha & Hs) (Gl & Ga & Gs). unfold drifted, conforms.
  rewrite !orb_false_iff, !negb_false_iff, equalAnnotations_spec, !mapsEqual_spec, servicePortsChanged_spec by done. tauto.
Qed.

Lemma conforms_fresh t s :
  svc_Labels s = wt_Labels t -> svc_Annotations s = wt_Annotations t -> svc_Selector s = wt_Selector t ->
  portKey <$> svc_Ports s = portKey <$> wt_Ports t -> conforms t s.
Proof.
  intros Hl Ha Hs Hp. unfold conforms, annotation_target. rewrite Hl, Ha, Hs. split_and!; [done| |done..].
  intros k. destruct (map_get k (wt_Annotations t)); [done|]. by destruct (isSystemAnnotation k).
Qed.

Lemma conforms_refreshed t s existing :
  want_wf t -> svc_Labels s = wt_Labels t -> svc_Annotations s = reconcileAnnotations existing (wt_Annotations t) ->
  svc_Selector s = wt_Selector t -> portKey <$> svc_Ports s = portKey <$> wt_Ports t -> conforms t s.
Proof.
  intros (_ & Hwf & _) Hl Ha Hs Hp. unfold conforms. rewrite Hl, Hs, Ha. split_and!; [done| |done..].
  intros k. unfold annotation_target at 1. rewrite reconcileAnnotations_get by done. unfold annotation_target.
  destruct (map_get k (wt_Annotations t)); [done|]. by destruct (isSystemAnnotation k).
Qed.

Lemma svc_wf_fresh t s :
  want_wf t -> svc_Labels s = wt_Labels t -> svc_Annotations s = wt_Annotations t -> svc_Selector s = wt_Selector t -> svc_wf s.
Proof. intros (? & ? & ?) Hl Ha Hs. unfold svc_wf. by rewrite Hl, Ha, Hs. Qed.

Lemma svc_wf_refreshed t s existing :
  want_wf t -> map_wf existing -> svc_Labels s = wt_Labels t ->
  svc_Annotations s = reconcileAnnotations existing (wt_Annotations t) -> svc_Selector s = wt_Selector t -> svc_wf s.
Proof.
  intros (? & ? & ?) He Hl Ha Hs. unfold svc_wf. rewrite Hl, Ha, Hs. split_and!; [done| |done]. by apply map_wf_reconcileAnnotations.
Qed.

(** The services the controller wants. *)
Definition headlessWant (cluster : AerospikeCluster) : want :=
  mkWant (headlessLabels cluster) (headlessAnnotations cluster) (SelectorLabelsForCluster (cl_Name cluster)) headlessPorts.

Definition podWant (cluster : AerospikeCluster) (podName : string) : want :=
  mkWant (podServiceLabels cluster podName) (podServiceAnnotations cluster) (podServiceSelector podName)
    (podServicePorts (podServiceType (spec_PodService (cl_Spec cluster)))).

Definition seedsWant (cluster : AerospikeCluster) (lbSpec : LoadBalancerSpec) : want :=
  mkWant (seedsFinderLabels cluster lbSpec) (mapsCopy [] (lb_Annotations lbSpec))
    (SelectorLabelsForCluster (cl_Name cluster)) (seedsFinderPorts lbSpec).

Lemma headless_drift cluster s :
  headlessServiceNeedsUpdate s (headlessLabels cluster) (headlessAnnotations cluster)
    (SelectorLabelsForCluster (cl_Name cluster)) headlessPorts =
  drifted (headlessWant cluster) s || negb (svc_PublishNotReadyAddresses s).
Proof. unfold headlessServiceNeedsUpdate, drifted, headlessWant. simpl. repeat destruct (negb _); simpl; by rewrite ?orb_true_r, ?orb_false_r. Qed.

Lemma pod_drift cluster podName s :
  podServiceNeedsUpdate s (podServiceLabels cluster podName) (podServiceAnnotations cluster) (podServiceSelector podName)
    (podServicePorts (podServiceType (spec_PodService (cl_Spec cluster)))) (podServiceType (spec_PodService (cl_Spec cluster))) =
  drifted (podWant cluster podName) s || negb (bool_decide (svc_Type s = podServiceType (spec_PodService (cl_Spec cluster)))).
Proof.
  unfold podServiceNeedsUpdate, drifted, podWant. cbn [wt_Labels wt_Annotations wt_Selector wt_Ports].
  repeat destruct (negb _); simpl; by rewrite ?orb_true_r, ?orb_false_r.
Qed.

Lemma seeds_drift cluster lbSpec s :
  seedsFinderServiceNeedsUpdate s (seedsFinderLabels cluster lbSpec) (mapsCopy [] (lb_Annotations lbSpec))
    (SelectorLabelsForCluster (cl_Name cluster)) (seedsFinderPorts lbSpec) lbSpec =
  drifted (seedsWant cluster lbSpec) s || negb (bool_decide (svc_ExternalTrafficPolicy s = desiredPolicy lbSpec)) ||
  negb (sourceRangesEqual (svc_LoadBalancerSourceRanges s) (lb_LoadBalancerSourceRanges lbSpec)).
Proof.
  unfold seedsFinderServiceNeedsUpdate, drifted, seedsWant. cbn [wt_Labels wt_Annotations wt_Selector wt_Ports].
  repeat destruct (negb _); simpl; try done; destruct (servicePortsChanged _ _); done.
Qed.

Lemma map_wf_SelectorLabels c : map_wf (SelectorLabelsForCluster c).
Proof. repeat constructor; set_solver. Qed.

Lemma map_wf_metaLabels base meta : map_wf base -> map_wf (metaLabels base meta).
Proof. destruct meta; [apply map_wf_mergeAdditionalLabels|done]. Qed.

Lemma map_wf_metaAnnotations meta : map_wf (metaAnnotations meta).
Proof. destruct meta; [apply map_wf_copy|]; constructor. Qed.

Lemma headlessWant_wf cluster : want_wf (headlessWant cluster).
Proof. split_and!; [apply map_wf_metaLabels, map_wf_LabelsForCluster|apply map_wf_metaAnnotations|apply map_wf_SelectorLabels]. Qed.

Lemma podWant_wf cluster podName : want_wf (podWant cluster podName).
Proof.
  split_and!; [apply map_wf_metaLabels, map_wf_set, map_wf_LabelsForCluster|apply map_wf_metaAnnotations|].
  repeat constructor; set_solver.
Qed.

Lemma seedsWant_wf cluster lbSpec : want_wf (seedsWant cluster lbSpec).
Proof.
  split_and!; [apply map_wf_mergeAdditionalLabels, map_wf_LabelsForCluster|apply map_wf_copy; constructor|apply map_wf_SelectorLabels].
Qed.

(** ** What a pass leaves behind *)

(** A field of an as_sent service. *)
Ltac as_sent := by rewrite ?admit_Labels, ?admit_Annotations, ?admit_Selector, ?admit_Ports, ?admit_PublishNotReady, ?admit_SourceRanges.

Definition services_wf (l : list Service) : Prop := forall s, s ∈ l -> svc_wf s.

(** The objects these reconcilers of services read or write besides services. *)
Definition beside `{Environment} (w : World) : list Pod * list Role * list RoleBinding := (w_pods w, w_roles w, w_roleBindings w).

(** Framing for the reconcilers of services. *)
Ltac frame_service :=
  unfold reconcileHeadlessService, podServicesFor, reconcilePodService, cleanupStalePodServices, reconcileSeedsFinderService,
    cleanupSeedsFinderService, createOrElse, orCreate, updateDrifted, announce, deleteFetched, deleteTolerant, deleteGone, beside; frame.

Section Passes.
Context `{Environment} `{!ServiceAPI}.

Definition headless_ok (cluster : AerospikeCluster) (s : Service) : Prop :=
  conforms (headlessWant cluster) s /\ svc_PublishNotReadyAddresses s = true.

Lemma headless_ok_stale cluster s :
  svc_wf s ->
  headlessServiceNeedsUpdate s (headlessLabels cluster) (headlessAnnotations cluster)
    (SelectorLabelsForCluster (cl_Name cluster)) headlessPorts = false <-> headless_ok cluster s.
Proof.
  intros Hwf. rewrite headless_drift, orb_false_iff, negb_false_iff, drifted_spec; [done|apply headlessWant_wf|done].
Qed.

Definition found_wf (l : list Service) : Prop := forall n s, findObj n l = Some s -> svc_wf s.

Lemma headless_achieves lvl cluster l0 :
  found_wf l0 ->
  achieves (T := Service) lvl (reconcileHeadlessService cluster) (fun l => l = l0) (fun _ l =>
    exists s, (svc_wf s /\ headless_ok cluster s) /\ placed (HeadlessServiceName (cl_Name cluster)) s l0 l).
Proof.
  intros Hwf. pose proof (headlessWant_wf cluster) as Ht.
  apply (achieves_ensure (T := Service)).
  - apply admit_Name.
  - intros old Hold. etransitivity; [apply admit_Name|exact Hold].
  - split; [apply (svc_wf_fresh (headlessWant cluster)); as_sent|]. split; [apply conforms_fresh|]; as_sent.
  - intros old Hold Hs. pose proof (Hwf _ _ Hold). split; [done|]. by apply headless_ok_stale.
  - intros old Hold _. destruct (Hwf _ _ Hold) as (_ & Ha & _).
    split; [apply (svc_wf_refreshed (headlessWant cluster) _ (svc_Annotations old)); as_sent|].
    split; [apply (conforms_refreshed _ _ (svc_Annotations old))|]; as_sent.
Qed.

Lemma headless_still cluster l s :
  findObj (HeadlessServiceName (cl_Name cluster)) l = Some s -> svc_wf s -> headless_ok cluster s ->
  keeps (still l) (reconcileHeadlessService cluster).
Proof.
  intros Hs Hwf Hok. eapply (still_ensure (T := Service)); [done|apply admit_Name|]. by apply headless_ok_stale.
Qed.

(** *** Services of pods *)

Definition pod_ok (cluster : AerospikeCluster) (podName : string) (s : Service) : Prop :=
  conforms (podWant cluster podName) s /\ svc_Type s = podServiceType (spec_PodService (cl_Spec cluster)).

Lemma pod_ok_stale cluster podName s :
  svc_wf s ->
  podServiceNeedsUpdate s (podServiceLabels cluster podName) (podServiceAnnotations cluster) (podServiceSelector podName)
    (podServicePorts (podServiceType (spec_PodService (cl_Spec cluster)))) (podServiceType (spec_PodService (cl_Spec cluster))) = false <->
  pod_ok cluster podName s.
Proof.
  intros Hwf. rewrite pod_drift, orb_false_iff, negb_false_iff, bool_decide_eq_true, drifted_spec; [done|apply podWant_wf|done].
Qed.

Lemma podServiceType_given spec : podServiceType spec <> ServiceTypeOther "".
Proof. unfold podServiceType, serviceTypeOf. destruct spec; repeat case_decide; congruence. Qed.

Lemma pod_achieves lvl cluster podName l0 :
  found_wf l0 ->
  achieves (T := Service) lvl (reconcilePodService cluster podName) (fun l => l = l0) (fun _ l =>
    exists s, (svc_wf s /\ pod_ok cluster podName s) /\ placed (podServiceName podName) s l0 l).
Proof.
  intros Hwf. pose proof (podWant_wf cluster podName) as Ht.
  pose proof (podServiceType_given (spec_PodService (cl_Spec cluster))) as Hty. apply (achieves_ensure (T := Service)).
  - apply admit_Name.
  - intros old Hold. etransitivity; [apply admit_Name|exact Hold].
  - split; [apply (svc_wf_fresh (podWant cluster podName)); as_sent|].
    split; [apply conforms_fresh; as_sent|by apply admit_Type].
  - intros old Hold Hs. pose proof (Hwf _ _ Hold). split; [done|]. by apply pod_ok_stale.
  - intros old Hold _. destruct (Hwf _ _ Hold) as (_ & Ha & _).
    split; [apply (svc_wf_refreshed (podWant cluster podName) _ (svc_Annotations old)); as_sent|].
    split; [apply (conforms_refreshed _ _ (svc_Annotations old)); as_sent|by apply admit_Type].
Qed.

(** A service of a pod of the cluster, by its labels, whose pod is not active. *)
Definition stalePodService (cluster : AerospikeCluster) (active : list string) (s : Service) : bool :=
  bool_decide (selector_matches (SelectorLabelsForCluster (cl_Name cluster)) (svc_Labels s) = true /\
               map_has podServiceLabel (svc_Labels s) = true) &&
  bool_decide (lookup_str podServiceLabel (svc_Labels s) <> "" /\ ~ (lookup_str podServiceLabel (svc_Labels s) ∈ active)).

(** What the clean-up lists. *)
Definition podServicesIn (cluster : AerospikeCluster) (l : list Service) : list Service :=
  filter (fun s => selector_matches (SelectorLabelsForCluster (cl_Name cluster)) (svc_Labels s) = true /\
                   map_has podServiceLabel (svc_Labels s) = true) l.

Lemma achieves_listServices lvl cluster l0 :
  achieves (T := Service) lvl (listServices (SelectorLabelsForCluster (cl_Name cluster)) podServiceLabel) (fun l => l = l0)
    (fun r l => l = l0 /\ r = podServicesIn cluster l0).
Proof.
  change (listServices _ _) with (_ ← api; l ← gets (stored (T := Service)); mret (M := M) (podServicesIn cluster l)).
  apply achieves_api, achieves_ret. by intros l ->.
Qed.

Lemma cleanup_achieves lvl cluster active l0 :
  lvl <> Lossy ->
  achieves (T := Service) lvl (cleanupStalePodServices cluster active) (fun l => l = l0)
    (fun _ l => l = without (names (filter (fun s => stalePodService cluster active s = true) l0)) l0).
Proof.
  intros Hlvl. unfold cleanupStalePodServices.
  eapply achieves_bind; [apply achieves_wrapping, achieves_listServices|].
  intros svcs. apply achieves_pre. intros l [-> ->].
  eapply achieves_weaken; [apply (achieves_deleteAll _ (fun s =>
    bool_decide (lookup_str podServiceLabel (svc_Labels s) <> "" /\ ~ (lookup_str podServiceLabel (svc_Labels s) ∈ active))));
    [done| |]|intros l Hl; exact Hl|].
  - intros s Hs%bool_decide_eq_false. cbv zeta. repeat case_decide; tauto.
  - intros s [H1 H2]%bool_decide_eq_true. cbv zeta. rewrite !decide_False by done. by eexists.
  - intros [] l ->. unfold podServicesIn. rewrite list_filter_filter. f_equal. f_equal. apply list_filter_iff. intros s.
    unfold stalePodService. rewrite andb_true_iff, !bool_decide_eq_true. tauto.
Qed.

(** Every active pod has its service; the stale ones are gone, the others untouched. *)
Definition podServicesOk (cluster : AerospikeCluster) (active : list string) (l0 l : list Service) : Prop :=
  (forall p, p ∈ active -> exists s, findObj (podServiceName p) l = Some s /\ pod_ok cluster p s) /\
  (forall s, s ∈ l -> stalePodService cluster active s = false) /\
  (forall n, n ∉ podServiceName <$> active ->
     findObj n l = (s ← findObj n l0; if stalePodService cluster active s then None else Some s)).

Lemma podServiceName_inj p q : podServiceName p = podServiceName q -> p = q.
Proof. apply app_inj_r. Qed.

Lemma pod_ok_label cluster p s : pod_ok cluster p s -> lookup_str podServiceLabel (svc_Labels s) = p.
Proof.
  intros [(Hl & _) _]. unfold lookup_str. rewrite Hl. simpl wt_Labels. unfold podServiceLabels, metaLabels.
  destruct (_ ≫= _); rewrite ?mergeAdditionalLabels_get; by rewrite map_get_set_eq.
Qed.

Lemma podServicesFor_achieves lvl cluster active l0 :
  lvl <> Lossy -> NoDup (names l0) -> found_wf l0 ->
  achieves (T := Service) lvl (podServicesFor cluster active) (fun l => l = l0)
    (fun _ l => podServicesOk cluster active l0 l /\ NoDup (names l) /\ found_wf l).
Proof.
  intros Hlvl Hnd Hwf. unfold podServicesFor.
  eapply achieves_bind; [apply (achieves_placeAll _ _ podServiceName svc_wf (pod_ok cluster)); [apply podServiceName_inj| |done|done]|].
  { intros p l1 _ Hwf1. by apply pod_achieves. }
  intros []. apply achieves_pre. intros l1 (H1 & H2 & H3 & H4).
  eapply achieves_weaken; [by apply cleanup_achieves|intros l Hl; exact Hl|]. intros [] l ->.
  pose proof (fun n => findObj_without_filter (stalePodService cluster active) l1 n H3) as Hfind.
  assert (found_wf (without (names (filter (fun s => stalePodService cluster active s = true) l1)) l1)) as Hwf'.
  { intros n s. rewrite Hfind. destruct (findObj n l1) as [s'|] eqn:Hs; [|done]. simpl.
    destruct (stalePodService _ _ _); [done|]. intros [= ->]. by eapply H4. }
  split; [|split; [by apply NoDup_without|done]]. split; [|split].
  - intros p Hp. destruct (H1 p Hp) as (s & Hs & Hok). exists s. split; [|done]. rewrite Hfind, Hs. simpl.
    unfold stalePodService. rewrite (pod_ok_label _ _ _ Hok), (bool_decide_eq_false_2 (p <> "" /\ _)) by tauto. by rewrite andb_false_r.
  - intros s Hs. apply findObj_elem in Hs; [|by apply NoDup_without]. rewrite Hfind in Hs.
    destruct (findObj _ l1) as [s'|]; [|done]. simpl in Hs. destruct (stalePodService cluster active s') eqn:Hst; [done|].
    by injection Hs as <-.
  - intros n Hn. by rewrite Hfind, H2.
Qed.

(** *** A second pass over the pods *)

Lemma pod_still cluster podName l s :
  findObj (podServiceName podName) l = Some s -> svc_wf s -> pod_ok cluster podName s ->
  keeps (still l) (reconcilePodService cluster podName).
Proof.
  intros Hs Hwf Hok. eapply (still_ensure (T := Service)); [done|apply admit_Name|]. by apply pod_ok_stale.
Qed.

Lemma podServicesFor_still cluster active l0 l :
  podServicesOk cluster active l0 l -> found_wf l -> keeps (still l) (podServicesFor cluster active).
Proof.
  intros (H1 & H2 & _) Hwf. unfold podServicesFor. apply keeps_bind.
  - apply keeps_forM. intros p Hp. destruct (H1 p Hp) as (s & Hs & Hok). eapply pod_still; [done|by eapply Hwf|done].
  - intros []. unfold cleanupStalePodServices.
    change (listServices _ _) with (_ ← api; l ← gets (stored (T := Service)); mret (M := M) (podServicesIn cluster l)).
    apply still_select, keeps_forM.
    intros s [Hsel Hs]%list_elem_of_filter. cbv zeta. repeat (case_decide; [frame|]).
    specialize (H2 s Hs). unfold stalePodService in H2. rewrite !bool_decide_eq_true_2 in H2 by done. done.
Qed.

(** *** The load balancer *)

Definition seeds_good (cluster : AerospikeCluster) (lbSpec : LoadBalancerSpec) (s : Service) : Prop :=
  conforms (seedsWant cluster lbSpec) s /\ svc_ExternalTrafficPolicy s = desiredPolicy lbSpec /\
  svc_LoadBalancerSourceRanges s = lb_LoadBalancerSourceRanges lbSpec.

Lemma seeds_good_stale cluster lbSpec s :
  svc_wf s ->
  seedsFinderServiceNeedsUpdate s (seedsFinderLabels cluster lbSpec) (mapsCopy [] (lb_Annotations lbSpec))
    (SelectorLabelsForCluster (cl_Name cluster)) (seedsFinderPorts lbSpec) lbSpec = false <-> seeds_good cluster lbSpec s.
Proof.
  intros Hwf. rewrite seeds_drift, !orb_false_iff, !negb_false_iff, bool_decide_eq_true, sourceRangesEqual_spec, drifted_spec;
    [|apply seedsWant_wf|done]. unfold seeds_good. tauto.
Qed.

Lemma desiredPolicy_given lbSpec : desiredPolicy lbSpec <> "".
Proof. unfold desiredPolicy. by case_decide. Qed.

Definition seedsWanted (cluster : AerospikeCluster) : option LoadBalancerSpec :=
  spec_SeedsFinderServices (cl_Spec cluster) ≫= sfs_LoadBalancer.

(** The load balancer is there as the spec asks, or not there at all. *)
Definition seeds_ok (cluster : AerospikeCluster) (l : list Service) : Prop :=
  match seedsWanted cluster with
  | Some lbSpec => exists s, findObj (seedsFinderServiceName (cl_Name cluster)) l = Some s /\ seeds_good cluster lbSpec s
  | None => findObj (seedsFinderServiceName (cl_Name cluster)) l = None
  end.

(** A service of that name is a load balancer: its type is never changed. *)
Definition seeds_typed (cluster : AerospikeCluster) (l : list Service) : Prop :=
  forall s, findObj (seedsFinderServiceName (cl_Name cluster)) l = Some s -> svc_Type s = ServiceTypeLoadBalancer.

Lemma seeds_present_achieves lvl cluster lbSpec l0 :
  seedsWanted cluster = Some lbSpec -> found_wf l0 -> seeds_typed cluster l0 ->
  achieves (T := Service) lvl (reconcileSeedsFinderService cluster) (fun l => l = l0) (fun _ l =>
    exists s, (svc_wf s /\ seeds_good cluster lbSpec s) /\ placed (seedsFinderServiceName (cl_Name cluster)) s l0 l).
Proof.
  intros Hlb Hwf Hty. pose proof (seedsWant_wf cluster lbSpec) as Ht.
  unfold reconcileSeedsFinderService. unfold seedsWanted in Hlb. rewrite Hlb. apply (achieves_ensure (T := Service)).
  - apply admit_Name.
  - intros old Hold. etransitivity; [apply admit_Name|exact Hold].
  - split; [apply (svc_wf_fresh (seedsWant cluster lbSpec)); as_sent|]. split; [apply conforms_fresh; as_sent|].
    split; [etransitivity; [by apply admit_Policy|reflexivity]|as_sent].
  - intros old Hold Hs. pose proof (Hwf _ _ Hold). split; [done|]. by apply seeds_good_stale.
  - intros old Hold _. destruct (Hwf _ _ Hold) as (_ & Ha & _).
    split; [apply (svc_wf_refreshed (seedsWant cluster lbSpec) _ (svc_Annotations old)); as_sent|].
    split; [apply (conforms_refreshed _ _ (svc_Annotations old)); as_sent|].
    split; [|as_sent]. rewrite admit_Policy by exact (Hty old Hold). apply decide_False, desiredPolicy_given.
Qed.

Lemma seeds_absent_achieves lvl cluster l0 :
  lvl <> Lossy -> seedsWanted cluster = None ->
  achieves (T := Service) lvl (reconcileSeedsFinderService cluster) (fun l => l = l0) (fun _ l =>
    l = filter (fun s => obj_name s <> seedsFinderServiceName (cl_Name cluster)) l0).
Proof.
  intros Hlvl Hlb. unfold reconcileSeedsFinderService. unfold seedsWanted in Hlb. rewrite Hlb. unfold cleanupSeedsFinderService.
  apply achieves_deleteFetched; [done| |by intros e ->|intros e ->; right; by eexists].
  eapply achieves_bind; [by apply achieves_deleteTolerant|]. intros [].
  eapply achieves_weaken; [apply achieves_record|intros l Hl; exact Hl|by intros].
Qed.

Lemma NoDup_filter_names (n : string) (l : list Service) :
  NoDup (names l) -> NoDup (names (filter (fun s => obj_name s <> n) l)).
Proof.
  intros Hnd. pose proof (without_snoc [] n l) as Hw. rewrite without_nil in Hw.
  rewrite <- Hw. by apply NoDup_without.
Qed.

Lemma seeds_achieves lvl cluster l0 :
  lvl <> Lossy -> NoDup (names l0) -> found_wf l0 -> (is_Some (seedsWanted cluster) -> seeds_typed cluster l0) ->
  achieves (T := Service) lvl (reconcileSeedsFinderService cluster) (fun l => l = l0) (fun _ l =>
    seeds_ok cluster l /\ (forall n, n <> seedsFinderServiceName (cl_Name cluster) -> findObj n l = findObj n l0) /\
    NoDup (names l) /\ found_wf l).
Proof.
  intros Hlvl Hnd Hwf Hty. unfold seeds_ok. destruct (seedsWanted cluster) as [lbSpec|] eqn:Hlb.
  - eapply achieves_weaken; [apply (seeds_present_achieves _ _ lbSpec); [done|done|by apply Hty]|intros l Hl; exact Hl|].
    intros [] l (s & [Hs Hg] & Hf & Hne & Hnd'). split; [by exists s|]. split; [done|]. split; [by apply Hnd'|].
    intros n s' Hs'. destruct (decide (n = seedsFinderServiceName (cl_Name cluster))) as [->|Hn]; [congruence|].
    rewrite Hne in Hs' by done. by eapply Hwf.
  - eapply achieves_weaken; [by apply seeds_absent_achieves|intros l Hl; exact Hl|]. intros [] l ->.
    split; [by rewrite findObj_filter, decide_True|].
    split; [intros n Hn; by rewrite findObj_filter, decide_False|]. split; [by apply NoDup_filter_names|].
    intros n s. rewrite findObj_filter. case_decide; [done|]. apply Hwf.
Qed.

Lemma seeds_still cluster l :
  seeds_ok cluster l -> found_wf l -> keeps (still l) (reconcileSeedsFinderService cluster).
Proof.
  unfold seeds_ok, reconcileSeedsFinderService. fold (seedsWanted cluster). intros Hok Hwf.
  destruct (seedsWanted cluster) as [lbSpec|].
  - destruct Hok as (s & Hs & Hg). eapply (still_ensure (T := Service)); [done|apply admit_Name|].
    apply seeds_good_stale; [by eapply Hwf|done].
  - apply still_deleteFetched; [done|]. intros e. frame.
Qed.

(** *** Headless, pods and load balancer in one pass *)

(** The names of the pods that have a service: none when the feature is off. *)
Definition activePods (cluster : AerospikeCluster) (pods : list Pod) : list string :=
  match spec_PodService (cl_Spec cluster) with
  | None => []
  | Some _ => pod_Name <$> filter (fun p => selector_matches (SelectorLabelsForCluster (cl_Name cluster)) (pod_Labels p) = true) pods
  end.

(** What is known of the services, with the frame. *)
Lemma service_outcome lvl m w (Q : list Service -> Prop) :
  achieves (T := Service) lvl m (fun l => l = w_services w) (fun _ : () => Q) -> keeps (agree beside) m ->
  outcome lvl m w (fun _ w' => Q (w_services w') /\ beside w' = beside w).
Proof. intros Hm Hk. exact (outcome_achieves (T := Service) lvl m (agree beside) w (fun _ => Q) Hm Hk). Qed.

Lemma podServices_outcome lvl cluster w :
  lvl <> Lossy -> NoDup (names (w_services w)) -> found_wf (w_services w) ->
  outcome lvl (reconcilePodServices cluster) w (fun _ w' =>
    (podServicesOk cluster (activePods cluster (w_pods w)) (w_services w) (w_services w') /\
     NoDup (names (w_services w')) /\ found_wf (w_services w')) /\ beside w' = beside w).
Proof.
  intros Hlvl Hnd Hwf.
  assert (forall active w, NoDup (names (w_services w)) -> found_wf (w_services w) ->
    outcome lvl (podServicesFor cluster active) w (fun _ w' =>
      (podServicesOk cluster active (w_services w) (w_services w') /\ NoDup (names (w_services w')) /\ found_wf (w_services w')) /\
      beside w' = beside w)) as Hfor.
  { intros active w0 Hnd0 Hwf0. apply (service_outcome lvl (podServicesFor cluster active) w0 (fun l =>
      podServicesOk cluster active (w_services w0) l /\ NoDup (names l) /\ found_wf l)); [by apply podServicesFor_achieves|frame_service]. }
  unfold reconcilePodServices, activePods. destruct (spec_PodService (cl_Spec cluster)) as [ps|] eqn:Hps.
  - eapply outcome_bind.
    + apply outcome_wrapping. apply (outcome_read _ w_pods _ _ (fun pods w' =>
        pods = filter (fun p => selector_matches (SelectorLabelsForCluster (cl_Name cluster)) (pod_Labels p) = true) (w_pods w) /\
        w_services w' = w_services w /\ beside w' = beside w)).
      intros fs. by apply outcome_ret.
    + intros pods w' (-> & Hs & Hp). rewrite <- Hs, <- Hp. apply Hfor; by rewrite Hs.
  - change (cleanupStalePodServices cluster []) with (podServicesFor cluster []). by apply Hfor.
Qed.

Lemma headless_outcome lvl cluster w :
  found_wf (w_services w) ->
  outcome lvl (reconcileHeadlessService cluster) w (fun _ w' =>
    (exists s, (svc_wf s /\ headless_ok cluster s) /\
       placed (HeadlessServiceName (cl_Name cluster)) s (w_services w) (w_services w')) /\ beside w' = beside w).
Proof.
  intros Hwf. apply (service_outcome lvl (reconcileHeadlessService cluster) w (fun l => exists s, (svc_wf s /\ headless_ok cluster s) /\
    placed (HeadlessServiceName (cl_Name cluster)) s (w_services w) l)); [by apply headless_achieves|frame_service].
Qed.

Lemma seeds_outcome lvl cluster w :
  lvl <> Lossy -> NoDup (names (w_services w)) -> found_wf (w_services w) ->
  (is_Some (seedsWanted cluster) -> seeds_typed cluster (w_services w)) ->
  outcome lvl (reconcileSeedsFinderService cluster) w (fun _ w' =>
    (seeds_ok cluster (w_services w') /\
     (forall n, n <> seedsFinderServiceName (cl_Name cluster) -> findObj n (w_services w') = findObj n (w_services w)) /\
     NoDup (names (w_services w')) /\ found_wf (w_services w')) /\ beside w' = beside w).
Proof.
  intros Hlvl Hnd Hwf Hty. apply (service_outcome lvl (reconcileSeedsFinderService cluster) w (fun l => seeds_ok cluster l /\
    (forall n, n <> seedsFinderServiceName (cl_Name cluster) -> findObj n l = findObj n (w_services w)) /\
    NoDup (names l) /\ found_wf l)); [by apply seeds_achieves|frame_service].
Qed.

End Passes.

(** ** The role and its binding *)

Section Reader.
Context `{Environment}.

(** The controller may take the object over. *)
Definition ownable (cluster : AerospikeCluster) (controller : option string) : Prop :=
  controller = None \/ controller = Some (controllerRef cluster).

Lemma setOwnerRef_ok cluster controller :
  ownable cluster controller <-> setOwnerRef cluster controller = inr (Some (controllerRef cluster)).
Proof.
  unfold ownable, setOwnerRef. destruct controller as [o|]; [|naive_solver]. case_decide; subst; naive_solver.
Qed.

Lemma achieves_setOwnerRef {T} `{!Stored T} lvl cluster controller (P : list T -> Prop) :
  (lvl = Calm -> ownable cluster controller) ->
  achieves lvl (lift (setOwnerRef cluster controller)) P (fun _ => P).
Proof.
  intros Ho. destruct (setOwnerRef cluster controller) as [e|o] eqn:He; [|by apply achieves_ret].
  apply achieves_raise. intros _ _ Hl. apply Ho, setOwnerRef_ok in Hl. congruence.
Qed.

Definition binding_ok (cluster : AerospikeCluster) (b : RoleBinding) : Prop :=
  rb_RoleRef b = readerRoleRef (podServiceRoleName cluster) /\ rb_Subjects b = readerSubjects cluster.

(** Objects of that name are not controlled by something else. *)
Definition roles_ownable (cluster : AerospikeCluster) (l : list Role) : Prop :=
  forall r, findObj (podServiceRoleName cluster) l = Some r -> ownable cluster (ro_Controller r).
Definition bindings_ownable (cluster : AerospikeCluster) (l : list RoleBinding) : Prop :=
  forall b, findObj (podServiceRoleName cluster) l = Some b -> ownable cluster (rb_Controller b).

Lemma readerRole_achieves lvl cluster l0 :
  (lvl = Calm -> roles_ownable cluster l0) ->
  achieves (T := Role) lvl (reconcileReaderRole cluster) (fun l => l = l0) (fun _ l =>
    exists r, ro_Rules r = readerRules /\ placed (podServiceRoleName cluster) r l0 l).
Proof.
  intros Hown. apply achieves_createOrElse; [done| |].
  - intros Hnone. eexists. split; [|by apply placed_create]. done.
  - intros old Hold. pose proof (findObj_Some _ _ _ Hold) as [_ Hname]. case_decide as Hr.
    { apply achieves_ret. intros l ->. exists old. split; [done|by apply placed_same]. }
    eapply achieves_bind; [apply achieves_setOwnerRef; intros Hl; by apply (Hown Hl)|]. intros owner.
    set (new := old <| ro_Rules := readerRules |> <| ro_Controller := owner |>).
    assert (obj_name new = podServiceRoleName cluster) as Hn by exact Hname. apply achieves_wrapping.
    eapply achieves_weaken; [apply (achieves_updateObj _ new old); by rewrite Hn|intros l Hl; exact Hl|].
    intros [] l ->. exists new. split; [done|by apply (placed_update _ _ old)].
Qed.

Lemma readerBinding_achieves lvl cluster l0 :
  lvl <> Lossy -> (lvl = Calm -> bindings_ownable cluster l0) ->
  achieves (T := RoleBinding) lvl (reconcileReaderBinding cluster) (fun l => l = l0) (fun _ l =>
    exists b, binding_ok cluster b /\ placed (podServiceRoleName cluster) b l0 l).
Proof.
  intros Hlvl Hown. unfold reconcileReaderBinding. cbv zeta. set (desired := mkRoleBinding _ _ _ _).
  apply achieves_createOrElse; [done| |].
  - intros Hnone. exists desired. split; [done|by apply placed_create].
  - intros old Hold. pose proof (findObj_Some _ _ _ Hold) as [_ Hname]. case_decide as Href; [case_decide as Hsub|].
    + apply achieves_ret. intros l ->. exists old. split; [done|by apply placed_same].
    + eapply achieves_bind; [apply achieves_setOwnerRef; intros Hl; by apply (Hown Hl)|]. intros owner.
      set (new := old <| rb_Subjects := rb_Subjects desired |> <| rb_Controller := owner |>).
      assert (obj_name new = podServiceRoleName cluster) as Hn by exact Hname. apply achieves_wrapping.
      eapply achieves_weaken; [apply (achieves_updateObj _ new old); by rewrite Hn|intros l Hl; exact Hl|].
      intros [] l ->. exists new. split; [by split|by apply (placed_update _ _ old)].
    + change (rb_Name old) with (obj_name old). rewrite Hname.
      eapply achieves_bind; [by apply achieves_deleteTolerant|]. intros []. apply achieves_wrapping.
      apply (achieves_create _ _ (podServiceRoleName cluster)); [done|by rewrite findObj_filter, decide_True|].
      intros _. exists desired. split; [done|by apply placed_recreate].
Qed.

(** The pods may read their service, or neither object is left. *)
Definition rbac_ok (cluster : AerospikeCluster) (roles : list Role) (bindings : list RoleBinding) : Prop :=
  if needsPodServiceRBAC cluster then
    (exists r, findObj (podServiceRoleName cluster) roles = Some r /\ ro_Rules r = readerRules) /\
    (exists b, findObj (podServiceRoleName cluster) bindings = Some b /\ binding_ok cluster b)
  else findObj (podServiceRoleName cluster) roles = None /\ findObj (podServiceRoleName cluster) bindings = None.

(** Everything but the two kinds it writes. *)
Definition apart_rbac (w : World) : list Service * list Pod := (w_services w, w_pods w).

Lemma readerRole_outcome lvl cluster w :
  (lvl = Calm -> roles_ownable cluster (w_roles w)) ->
  outcome lvl (reconcileReaderRole cluster) w (fun _ w' =>
    (exists r, ro_Rules r = readerRules /\ placed (podServiceRoleName cluster) r (w_roles w) (w_roles w')) /\
    agree (fun w => (apart_rbac w, w_roleBindings w)) w w').
Proof.
  intros Hown. eapply outcome_weaken.
  { apply (outcome_achieves (T := Role) lvl _ (agree (fun w => (apart_rbac w, w_roleBindings w)))); [by apply readerRole_achieves|].
    unfold reconcileReaderRole, createOrElse, orCreate, announce, apart_rbac. frame. }
  intros [] w' Hw'. exact Hw'.
Qed.

Lemma readerBinding_outcome lvl cluster w :
  lvl <> Lossy -> (lvl = Calm -> bindings_ownable cluster (w_roleBindings w)) ->
  outcome lvl (reconcileReaderBinding cluster) w (fun _ w' =>
    (exists b, binding_ok cluster b /\ placed (podServiceRoleName cluster) b (w_roleBindings w) (w_roleBindings w')) /\
    agree (fun w => (apart_rbac w, w_roles w)) w w').
Proof.
  intros Hlvl Hown. eapply outcome_weaken.
  { apply (outcome_achieves (T := RoleBinding) lvl _ (agree (fun w => (apart_rbac w, w_roles w)))); [by apply readerBinding_achieves|].
    unfold reconcileReaderBinding, createOrElse, orCreate, announce, apart_rbac, deleteTolerant, deleteGone. frame. }
  intros [] w' Hw'. exact Hw'.
Qed.

Lemma cleanupRBAC_calm name w :
  outcome Calm (cleanupPodServiceRBAC name) w (fun _ w' =>
    (findObj name (w_roles w') = None /\ findObj name (w_roleBindings w') = None) /\ agree apart_rbac w w').
Proof.
  unfold cleanupPodServiceRBAC. eapply outcome_bind.
  { apply (outcome_achieves (T := RoleBinding) Calm _ (agree apart_rbac)).
    - apply achieves_deleteFetched; [done|by apply achieves_deleteTolerant|done|by left].
    - unfold deleteFetched, deleteTolerant, deleteGone, apart_rbac. frame. }
  intros [] w1 [Hb1 Hw1]. eapply outcome_weaken.
  { apply (outcome_achieves (T := Role) Calm _ (agree (fun w => (apart_rbac w, w_roleBindings w)))).
    - apply achieves_deleteFetched; [done|by apply achieves_deleteTolerant|done|by left].
    - unfold deleteFetched, deleteTolerant, deleteGone, apart_rbac. frame. }
  intros [] w2 [Hr2 Hw2]. injection Hw2 as Hs Hp Hb2.
  change (stored w2) with (w_roles w2) in Hr2. change (stored w1) with (w_roleBindings w1) in Hb1. split; [split|].
  - by rewrite Hr2, findObj_filter, decide_True.
  - by rewrite Hb2, Hb1, findObj_filter, decide_True.
  - etransitivity; [exact Hw1|]. unfold agree, apart_rbac. by rewrite Hs, Hp.
Qed.

Lemma rbac_outcome lvl cluster w :
  lvl <> Lossy -> (lvl = Calm -> roles_ownable cluster (w_roles w) /\ bindings_ownable cluster (w_roleBindings w)) ->
  outcome lvl (reconcilePodServiceRBAC cluster) w (fun _ w' =>
    (needsPodServiceRBAC cluster = true \/ lvl = Calm -> rbac_ok cluster (w_roles w') (w_roleBindings w')) /\
    agree apart_rbac w w').
Proof.
  intros Hlvl Hown. unfold reconcilePodServiceRBAC, rbac_ok. destruct (needsPodServiceRBAC cluster).
  - eapply outcome_bind; [apply readerRole_outcome; intros Hl; by apply (Hown Hl)|].
    intros [] w1 [(r & Hr & Hpl) Hw1]. injection Hw1 as Hs1 Hp1 Hb1.
    eapply outcome_weaken; [apply readerBinding_outcome; [done|]; intros Hl; rewrite Hb1; by apply (Hown Hl)|].
    intros [] w2 [(b & Hb & Hpl') Hw2]. injection Hw2 as Hs2 Hp2 Hr2. split.
    + intros _. split; [exists r; rewrite Hr2; by split; [apply Hpl|]|exists b; by split; [apply Hpl'|]].
    + unfold agree, apart_rbac. by rewrite Hs2, Hs1, Hp2, Hp1.
  - destruct lvl; [done| |].
    + eapply outcome_weaken; [apply (outcome_frame _ _ (agree apart_rbac)); [done|..]|].
      * unfold cleanupPodServiceRBAC, deleteFetched, deleteTolerant, deleteGone. frame.
      * unfold cleanupPodServiceRBAC, deleteFetched, deleteTolerant, deleteGone, apart_rbac. frame.
      * intros [] w' Hw'. split; [by intros [?|?]|done].
    + eapply outcome_weaken; [apply cleanupRBAC_calm|]. intros [] w' [Hw' Ha]. by split.
Qed.

End Reader.

(** ** The four reconcilers in a row *)

Section Pass.
Context `{Environment} `{!ServiceAPI}.

(** The order of [Reconcile]: headless service, pod services, their role, load balancer. *)
Definition reconcileServices (cluster : AerospikeCluster) : M () :=
  _ ← reconcileHeadlessService cluster;
  _ ← reconcilePodServices cluster;
  _ ← reconcilePodServiceRBAC cluster;
  reconcileSeedsFinderService cluster.

(** Services as the spec asks: every one that is wanted, none that is stale, the others untouched. *)
Record settled (cluster : AerospikeCluster) (pods : list Pod) (l0 l : list Service) : Prop := mkSettled {
  set_headless : exists s, findObj (HeadlessServiceName (cl_Name cluster)) l = Some s /\ headless_ok cluster s;
  set_pods p : p ∈ activePods cluster pods -> exists s, findObj (podServiceName p) l = Some s /\ pod_ok cluster p s;
  set_stale s : s ∈ l -> stalePodService cluster (activePods cluster pods) s = false;
  set_seeds : seeds_ok cluster l;
  set_others n : n <> HeadlessServiceName (cl_Name cluster) -> n <> seedsFinderServiceName (cl_Name cluster) ->
    n ∉ podServiceName <$> activePods cluster pods ->
    findObj n l = (s ← findObj n l0; if stalePodService cluster (activePods cluster pods) s then None else Some s)
}.

(** The custom labels of the other services do not claim that they belong to a pod. *)
Definition plain_labels (cluster : AerospikeCluster) : Prop :=
  map_get podServiceLabel (headlessLabels cluster) = None /\
  forall lbSpec, seedsWanted cluster = Some lbSpec -> map_get podServiceLabel (seedsFinderLabels cluster lbSpec) = None.

(** The pods are those of the racks of the cluster. *)
Definition rack_pods (cluster : AerospikeCluster) (pods : list Pod) : Prop :=
  forall p, p ∈ activePods cluster pods -> exists r i, p = podName (StatefulSetName (cl_Name cluster) r) i.

Lemma unlabelled_fresh cluster active s :
  map_get podServiceLabel (svc_Labels s) = None -> stalePodService cluster active s = false.
Proof.
  intros Hl. unfold stalePodService, map_has. rewrite Hl, (bool_decide_eq_false_2 (_ /\ _)); [done|].
  by intros [_ Hh%bool_decide_eq_true].
Qed.

Lemma podServiceName_headless cluster pods p :
  rack_pods cluster pods -> p ∈ activePods cluster pods -> podServiceName p <> HeadlessServiceName (cl_Name cluster).
Proof.
  intros Hr Hp. destruct (Hr p Hp) as (r & i & ->). intros Heq%(f_equal String.length).
  unfold podServiceName, podName, StatefulSetName, HeadlessServiceName in Heq. rewrite !length_app_str in Heq. simpl in Heq. lia.
Qed.

Lemma podServiceName_seeds c p : podServiceName p <> seedsFinderServiceName c.
Proof.
  intros Heq%(f_equal (fun s => cut_suffix s "b")). unfold podServiceName, seedsFinderServiceName, cut_suffix in Heq.
  rewrite !string_rev_app_dist in Heq. discriminate Heq.
Qed.

Lemma headless_ne_seeds c : HeadlessServiceName c <> seedsFinderServiceName c.
Proof.
  intros Heq%(f_equal String.length). unfold seedsFinderServiceName, HeadlessServiceName in Heq.
  rewrite length_app_str in Heq. simpl in Heq. lia.
Qed.

(** The three lists of services along a pass. *)
Lemma settled_intro cluster pods l0 l1 l2 l3 s :
  plain_labels cluster -> rack_pods cluster pods -> NoDup (names l3) ->
  headless_ok cluster s -> placed (HeadlessServiceName (cl_Name cluster)) s l0 l1 ->
  podServicesOk cluster (activePods cluster pods) l1 l2 ->
  seeds_ok cluster l3 -> (forall n, n <> seedsFinderServiceName (cl_Name cluster) -> findObj n l3 = findObj n l2) ->
  settled cluster pods l0 l3.
Proof.
  intros [Hpl Hpl'] Hrp Hnd Hh (H1 & H1' & _) (P1 & P2 & P3) Hs Hne.
  pose proof (headless_ne_seeds (cl_Name cluster)) as Hd.
  assert (HeadlessServiceName (cl_Name cluster) ∉ podServiceName <$> activePods cluster pods) as Hnp.
  { intros (p & Heq & Hp)%list_elem_of_fmap. by eapply podServiceName_headless. }
  assert (stalePodService cluster (activePods cluster pods) s = false) as Hst.
  { apply unlabelled_fresh. destruct Hh as [(Hl & _) _]. by rewrite Hl. }
  split; [| | |done|].
  - exists s. split; [|done]. rewrite Hne, P3, H1 by done. simpl. by rewrite Hst.
  - intros p Hp. rewrite Hne by apply podServiceName_seeds. by apply P1.
  - intros s' Hs'. apply findObj_elem in Hs'; [|done].
    destruct (decide (obj_name s' = seedsFinderServiceName (cl_Name cluster))) as [Hn|Hn].
    + rewrite Hn in Hs'. unfold seeds_ok in Hs. destruct (seedsWanted cluster) as [lb|]; [|congruence].
      destruct Hs as (s'' & Hs'' & (Hl & _) & _). rewrite Hs' in Hs''. injection Hs'' as <-.
      apply unlabelled_fresh. rewrite Hl. by apply Hpl'.
    + rewrite Hne in Hs' by done. apply P2. by apply findObj_Some in Hs' as [Hs' _].
  - intros n Hn1 Hn2 Hn3. by rewrite Hne, P3, H1'.
Qed.

Lemma found_wf_of l : services_wf l -> found_wf l.
Proof. intros Hwf n s [Hs _]%findObj_Some. by apply Hwf. Qed.

Lemma found_wf_placed name s l0 l : found_wf l0 -> svc_wf s -> placed name s l0 l -> found_wf l.
Proof.
  intros Hwf Hs (Hf & Hne & _) n s' Hs'. destruct (decide (n = name)) as [->|Hn]; [congruence|].
  rewrite Hne in Hs' by done. by eapply Hwf.
Qed.

Lemma reconcileServices_outcome lvl cluster w :
  lvl <> Lossy -> (lvl = Calm -> roles_ownable cluster (w_roles w) /\ bindings_ownable cluster (w_roleBindings w)) ->
  NoDup (names (w_services w)) -> found_wf (w_services w) -> plain_labels cluster -> rack_pods cluster (w_pods w) ->
  seeds_typed cluster (w_services w) ->
  outcome lvl (reconcileServices cluster) w (fun _ w' =>
    settled cluster (w_pods w) (w_services w) (w_services w') /\ found_wf (w_services w') /\ w_pods w' = w_pods w /\
    (needsPodServiceRBAC cluster = true \/ lvl = Calm -> rbac_ok cluster (w_roles w') (w_roleBindings w'))).
Proof.
  intros Hlvl Hown Hnd Hwf Hpl Hrp Hty. unfold reconcileServices.
  eapply outcome_bind; [by apply headless_outcome|]. intros [] w1 [(s & [Hs Hh] & Hp) [= Bp1 Br1 Bb1]].
  pose proof (found_wf_placed _ _ _ _ Hwf Hs Hp) as Hwf1. pose proof (proj2 (proj2 Hp) Hnd) as Hnd1.
  eapply outcome_bind; [by apply podServices_outcome|]. intros [] w2 [(Hok & Hnd2 & Hwf2) [= Bp2 Br2 Bb2]].
  eapply outcome_bind; [apply rbac_outcome; [done|]; intros Hl; rewrite Br2, Br1, Bb2, Bb1; by apply Hown|].
  intros [] w3 [Hrb [= Hs3 Hp3]].
  eapply outcome_weaken; [apply seeds_outcome; [done|by rewrite Hs3..|]|].
  - intros _ s' Hs'. rewrite Hs3 in Hs'. destruct Hok as (_ & _ & Hok). rewrite Hok in Hs'.
    + destruct Hp as (_ & Hp & _). rewrite Hp in Hs' by (intros Heq; symmetry in Heq; by apply headless_ne_seeds in Heq).
      destruct (findObj _ (w_services w)) as [s''|] eqn:Hs''; [|done]. simpl in Hs'.
      destruct (stalePodService _ _ _); [done|]. injection Hs' as <-. by apply Hty.
    + intros (p & Heq & _)%list_elem_of_fmap. by apply (podServiceName_seeds (cl_Name cluster) p).
  - intros [] w4 [(Hsd & Hne & Hnd4 & Hwf4) [= Bp4 Br4 Bb4]].
    split; [|split; [done|split; [congruence|by rewrite Br4, Bb4]]].
    rewrite Bp1 in Hok. rewrite Hs3 in Hne. by eapply settled_intro.
Qed.

(** *** A second pass *)

(** From these objects, nothing is written. *)
Definition quiet (l : list Service) (b : list Pod * list Role * list RoleBinding) : relation World := fun w w' =>
  w_services w = l -> beside w = b -> w_trace w' = w_trace w /\ w_services w' = l /\ beside w' = b.

#[export] Instance quiet_frame l b : Frame (quiet l b).
Proof.
  split; [split|..]; unfold quiet; [done| |done..].
  intros w1 w2 w3 H12 H23 Hl Hb. destruct (H12 Hl Hb) as (<- & Hl2 & Hb2). by apply H23.
Qed.

Lemma quiet_service {A} (m : M A) l b : keeps (still (T := Service) l) m -> keeps (agree beside) m -> keeps (quiet l b) m.
Proof. intros Hs Hb w Hl Hw. destruct (Hs w Hl) as [Ht Hl']. by rewrite (Hb w). Qed.

Lemma quiet_role {A} (m : M A) l pods roles bindings :
  keeps (still (T := Role) roles) m -> keeps (agree (fun w => (apart_rbac w, w_roleBindings w))) m ->
  keeps (quiet l (pods, roles, bindings)) m.
Proof.
  intros Hs Hb w Hl [= Hp Hr Hrb]. destruct (Hs w Hr) as [Ht Hr']. pose proof (Hb w) as [= Hs' Hp' Hb'].
  unfold beside. rewrite Hs', Hp', Hb'. split; [done|]. split; [done|]. change (w_roles (snd (m w)) = roles) in Hr'. congruence.
Qed.

Lemma quiet_binding {A} (m : M A) l pods roles bindings :
  keeps (still (T := RoleBinding) bindings) m -> keeps (agree (fun w => (apart_rbac w, w_roles w))) m ->
  keeps (quiet l (pods, roles, bindings)) m.
Proof.
  intros Hs Hb w Hl [= Hp Hr Hrb]. destruct (Hs w Hrb) as [Ht Hr']. pose proof (Hb w) as [= Hs' Hp' Hb'].
  unfold beside. rewrite Hs', Hp', Hb'. split; [done|]. split; [done|].
  change (w_roleBindings (snd (m w)) = bindings) in Hr'. congruence.
Qed.

Ltac frame_rbac :=
  unfold reconcileReaderRole, reconcileReaderBinding, createOrElse, orCreate, announce, deleteFetched, deleteTolerant, deleteGone, apart_rbac; frame.

Lemma quiet_rbac cluster l pods roles bindings :
  rbac_ok cluster roles bindings -> keeps (quiet l (pods, roles, bindings)) (reconcilePodServiceRBAC cluster).
Proof.
  unfold rbac_ok, reconcilePodServiceRBAC. destruct (needsPodServiceRBAC cluster).
  - intros [(r & Hr & Hrules) (b & Hb & Href & Hsub)]. apply keeps_bind; [|intros []].
    + apply quiet_role; [|frame_rbac]. eapply still_createOrElse; [done|done|]. rewrite decide_True by done. frame.
    + apply quiet_binding; [|frame_rbac]. eapply still_createOrElse; [done|done|].
      rewrite (decide_True _ _ Href), (decide_True _ _ Hsub). frame.
  - intros [Hr Hb]. unfold cleanupPodServiceRBAC. apply keeps_bind; [|intros []].
    + apply quiet_binding; [|frame_rbac]. apply still_deleteFetched; [done|]. intros e. frame.
    + apply quiet_role; [|frame_rbac]. apply still_deleteFetched; [done|]. intros e. frame.
Qed.

Lemma listPods_ok sel w pods w' :
  listPods sel w = (inr pods, w') -> pods = filter (fun p => selector_matches sel (pod_Labels p) = true) (w_pods w).
Proof.
  unfold listPods, mbind, M_bind, api, gets. destruct (w_faults w) as [|[e|] fs]; by intros [= <- <-].
Qed.

Lemma quiet_podServices cluster l0 l pods roles bindings :
  podServicesOk cluster (activePods cluster pods) l0 l -> found_wf l ->
  keeps (quiet l (pods, roles, bindings)) (reconcilePodServices cluster).
Proof.
  intros Hok Hwf.
  assert (keeps (quiet l (pods, roles, bindings)) (podServicesFor cluster (activePods cluster pods))) as Hfor.
  { apply quiet_service; [by eapply podServicesFor_still|frame_service]. }
  unfold reconcilePodServices. unfold activePods in Hfor. destruct (spec_PodService (cl_Spec cluster)); [|exact Hfor].
  intros w Hl Hb.
  apply (bind_cases _ _ _ (fun w' => w_trace w' = w_trace w /\ w_services w' = l /\ beside w' = (pods, roles, bindings))).
  - intros e w1 Hw1. refine (keeps_run (quiet l _) _ _ _ _ _ Hw1 Hl Hb). unfold listClusterPods. frame.
  - intros ps w1 Hw1. assert (quiet l (pods, roles, bindings) w w1) as Hq.
    { refine (keeps_run _ _ _ _ _ _ Hw1). unfold listClusterPods. frame. }
    apply wrapping_ok, listPods_ok in Hw1 as ->. destruct (Hq Hl Hb) as (Ht & Hl1 & Hb1).
    injection Hb as -> _ _. rewrite <- Ht. by apply Hfor.
Qed.

Lemma reconcileServices_quiet cluster pods l0 l roles bindings :
  settled cluster pods l0 l -> found_wf l -> rbac_ok cluster roles bindings ->
  keeps (quiet l (pods, roles, bindings)) (reconcileServices cluster).
Proof.
  intros Hset Hwf Hrb. unfold reconcileServices.
  apply keeps_bind; [|intros []; apply keeps_bind; [|intros []; apply keeps_bind; [by apply quiet_rbac|intros []]]].
  - destruct (set_headless _ _ _ _ Hset) as (s & Hs & Hok).
    apply quiet_service; [eapply headless_still; [done|by eapply Hwf|done]|frame_service].
  - apply (quiet_podServices cluster l); [|done]. split; [|split].
    + apply (set_pods _ _ _ _ Hset).
    + apply (set_stale _ _ _ _ Hset).
    + intros n _. destruct (findObj n l) as [s|] eqn:Hs; [|done]. simpl. apply findObj_Some in Hs as [Hs _].
      by rewrite (set_stale _ _ _ _ Hset s Hs).
  - apply quiet_service; [|frame_service]. apply seeds_still; [by eapply set_seeds|done].
Qed.

(** C30: a pass over the services of a cluster that meets no API error succeeds, and one
    that reports success leaves exactly the services the spec asks for: the headless
    service, the load balancer and one service per pod have the wanted labels,
    annotations, selector, ports and type, no service of a pod that is gone is left,
    every other service is untouched; the pods' role is there when it is needed; and a
    second pass has nothing to write. This is for pods of the racks, a seeds service
    that is missing or of type LoadBalancer, custom labels that do not put the label of
    pod services on the headless or seeds service, a role and binding that nothing else
    controls, and API errors that never call an existing object absent *)
Theorem reconcileServices_settles cluster w :
  Forall honestFault (w_faults w) -> NoDup (names (w_services w)) -> services_wf (w_services w) ->
  plain_labels cluster -> rack_pods cluster (w_pods w) -> seeds_typed cluster (w_services w) ->
  roles_ownable cluster (w_roles w) -> bindings_ownable cluster (w_roleBindings w) ->
  let '(r, w') := reconcileServices cluster w in
  (w_faults w = [] -> r = inr () /\ rbac_ok cluster (w_roles w') (w_roleBindings w')) /\
  (r = inr () ->
     settled cluster (w_pods w) (w_services w) (w_services w') /\
     (needsPodServiceRBAC cluster = true -> rbac_ok cluster (w_roles w') (w_roleBindings w')) /\
     (rbac_ok cluster (w_roles w') (w_roleBindings w') ->
        w_trace (snd (reconcileServices cluster w')) = w_trace w')).
Proof.
  intros Hh Hnd Hwf Hpl Hrp Hty Hro Hbo.
  pose proof (fun lvl Hl => reconcileServices_outcome lvl cluster w Hl (fun _ => conj Hro Hbo) Hnd (found_wf_of _ Hwf) Hpl Hrp Hty) as Hw.
  destruct (reconcileServices cluster w) as [r w'] eqn:Hrun. split.
  - intros Hf. specialize (Hw Calm ltac:(done) Hf). rewrite Hrun in Hw. destruct Hw as (_ & Hc & Hq).
    destruct (Hc eq_refl) as [[] ->]. split; [done|]. apply (Hq () eq_refl). by right.
  - intros ->. specialize (Hw Honest ltac:(done) Hh). rewrite Hrun in Hw. destruct Hw as (_ & _ & Hq).
    destruct (Hq () eq_refl) as (Hset & Hwf' & Hp & Hrb). split; [done|]. split; [intros Hn; apply Hrb; by left|].
    intros Hok. rewrite <- Hp in Hset. by destruct (reconcileServices_quiet _ _ _ _ _ _ Hset Hwf' Hok w' eq_refl eq_refl).
Qed.

End Pass.

(** ** Instances *)

(** An API server that fills in what is missing and assigns no node ports. *)
Definition sample_admit (s : Service) : Service :=
  let s := if decide (svc_Type s = ServiceTypeOther "") then s <| svc_Type := ServiceTypeClusterIP |> else s in
  if decide (svc_Type s = ServiceTypeLoadBalancer /\ svc_ExternalTrafficPolicy s = "")
  then s <| svc_ExternalTrafficPolicy := "Cluster" |> else s.

#[local] Program Instance sample_service_api : ServiceAPI := {| admitService _ s := sample_admit s |}.
Solve All Obligations with intros; unfold sample_admit; repeat case_decide; destruct_and?; done || congruence || tauto.

(** A cluster with a service per pod behind load balancers, and one load balancer for the seeds. *)
Definition exposed_cluster : AerospikeCluster :=
  (example_cluster 2 None) <| cl_Spec ::= fun s => s
    <| spec_PodService := Some (mkServiceSpec (Some (mkObjectMeta [("team", "db")] [])) "LoadBalancer") |>
    <| spec_SeedsFinderServices := Some (mkSeedsFinderServices (Some (mkLoadBalancerSpec [] [] "" 0 0 ["10.0.0.0/8"]))) |> |>.

(** Two pods run; the service of a third was left behind, and the headless service lost its ports. *)
Definition exposed_world : World (H := sample_env) :=
  (sample_world exposed_cluster [sample_pod "demo-0-0" PodRunning true ""; sample_pod "demo-0-1" PodRunning true ""] []
     (mkStub [] [] [] [])) <| w_services := [
     podServiceSpec "demo-0-2-pod" (map_set podServiceLabel "demo-0-2" (LabelsForCluster "demo")) [] ServiceTypeLoadBalancer [] [];
     mkService "demo" (LabelsForCluster "demo") [] ServiceTypeClusterIP "None" (SelectorLabelsForCluster "demo") true [] "" [] [];
     mkService "other" [] [] ServiceTypeClusterIP "10.0.0.1" [] false [] "" [] []] |>.

Lemma reconcileServices_settles_witness :
  svc_Name <$> w_services (snd (reconcileServices (H := sample_env) exposed_cluster exposed_world)) =
    ["demo"; "other"; "demo-0-0-pod"; "demo-0-1-pod"; "demo-seeds-lb"] /\
  let '(r, w') := reconcileServices (H := sample_env) exposed_cluster exposed_world in
  (w_faults exposed_world = [] -> r = inr () /\ rbac_ok (H := sample_env) exposed_cluster (w_roles w') (w_roleBindings w')) /\
  (r = inr () ->
     settled (H := sample_env) exposed_cluster (w_pods exposed_world) (w_services exposed_world) (w_services w') /\
     (needsPodServiceRBAC exposed_cluster = true -> rbac_ok (H := sample_env) exposed_cluster (w_roles w') (w_roleBindings w')) /\
     (rbac_ok (H := sample_env) exposed_cluster (w_roles w') (w_roleBindings w') ->
        w_trace (snd (reconcileServices (H := sample_env) exposed_cluster w')) = w_trace w')).
Proof.
  split; [by vm_compute|]. apply (reconcileServices_settles (H := sample_env) exposed_cluster exposed_world).
  - constructor.
  - apply (bool_decide_unpack _). by vm_compute.
  - intros s Hs. repeat (apply elem_of_cons in Hs as [->|Hs]; [split_and!; apply (bool_decide_unpack _); by vm_compute|]).
    by apply elem_of_nil in Hs.
  - split; [by vm_compute|]. by intros lbSpec [= <-].
  - intros p Hp. change (p ∈ ["demo-0-0"; "demo-0-1"]) in Hp.
    apply elem_of_cons in Hp as [->|Hp]; [by exists 0, 0|]. apply list_elem_of_singleton in Hp as ->. by exists 0, 1.
  - intros s Hs. exfalso. vm_compute in Hs. discriminate Hs.
  - intros r Hr. discriminate Hr.
  - intros b Hb. discriminate Hb.
Defined.

(** ** Labels that make the clean-up delete a service *)

(** A user label on the headless service that has the key of the pod services makes the
    clean-up, which goes by labels alone, delete the headless service; the next pass
    creates it again, and every pass succeeds. *)
Theorem labelled_headless_service_deleted :
  let cluster := (example_cluster 2 None) <| cl_Spec ::= fun s => s
    <| spec_HeadlessService := Some (mkServiceSpec (Some (mkObjectMeta [] [(podServiceLabel, "all")])) "") |> |> in
  let w := sample_world cluster [] [] (mkStub [] [] [] []) in
  let run := reconcileServices (H := sample_env) cluster w in
  fst run = inr () /\ w_services (snd run) = [] /\
  w_trace (snd run) = [ADeleteObj "Service" "demo"; ACreateObj "Service" "demo"].
Proof. split; [by vm_compute|]. split; by vm_compute. Qed.

(** A load balancer for the seeds whose type was changed is never made a load balancer
    again: the type is not compared, and an update of the other fields keeps it. *)
Theorem seeds_type_not_restored :
  let svc := mkService "demo-seeds-lb" [] [] ServiceTypeClusterIP "" [] false [] "" [] [] in
  let w := exposed_world <| w_services := [svc] |> in
  let w' := snd (reconcileSeedsFinderService (H := sample_env) exposed_cluster w) in
  svc_Type <$> w_services w' = [ServiceTypeClusterIP] /\ AUpdateObj "Service" "demo-seeds-lb" ∈ w_trace w'.
Proof. split; [by vm_compute|]. vm_compute. left. Qed.
