(* ===== verification/Monitoring.v ===== *)
(** * Monitoring and network policies

    internal/controller/reconciler_monitoring.go and reconciler_networkpolicy.go:
    the metrics service, the ServiceMonitor and PrometheusRule of the Prometheus
    operator with the default alert rules, and the NetworkPolicy or
    CiliumNetworkPolicy of a cluster.

    The last three kinds are optional: their definitions may not be installed,
    and the controller may not be allowed to use them.  Such answers are among
    the errors an API call may give.  The content of an object of these kinds is
    a JSON value, and reading it back is the class [JSONStore]. *)

From Stdlib Require Import SpecFloat.
From S2P Require Import Prelude GoValue Utils Api ConfigGen Events Kube Ensure Sizing Status ConfigMaps Services.

(** ** JSON objects on the API server *)

(** A value without numbers, whose maps have no repeated keys. *)
Fixpoint textual (v : any) : bool :=
  match v with
  | ANil | ABool _ | AString _ => true
  | AInt _ _ | AFloat32 _ | AFloat64 _ => false
  | AList l => forallb textual l
  | AMap m => bool_decide (NoDup m.*1) && forallb (fun e => textual e.2) m
  end.

(** [readBack v]: what decoding the stored text of [v] gives.  Numbers may come back with
    another dynamic type; everything else is as it was sent. *)
Class JSONStore := {
  readBack : any -> any;
  readBack_textual v : textual v = true -> readBack v = v
}.

(** [unstructuredResourceChanged]. *)
Definition unstructuredResourceChanged {kind} (existing : Unstructured kind) (desiredSpec : any)
    (desiredLabels : gomap string) : bool :=
  match un_Spec existing with
  | None => true
  | Some currentSpec =>
      negb (deepEqual currentSpec desiredSpec) || negb (mapsEqual (un_Labels existing) desiredLabels)
  end.

(** [toStringMap]. *)
Definition toStringMap (m : gomap string) : any := AMap ((fun e => (e.1, AString e.2)) <$> m).

(** ** What is wanted *)

Definition monitoringEnabled (cluster : AerospikeCluster) : bool :=
  from_option mon_Enabled false (spec_Monitoring (cl_Spec cluster)).

Definition serviceMonitorSpec (cluster : AerospikeCluster) : option ServiceMonitorSpec :=
  spec_Monitoring (cl_Spec cluster) ≫= mon_ServiceMonitor.

Definition smEnabled (cluster : AerospikeCluster) : bool :=
  monitoringEnabled cluster && from_option sm_Enabled false (serviceMonitorSpec cluster).

Definition prometheusRuleSpec (cluster : AerospikeCluster) : option PrometheusRuleSpec :=
  spec_Monitoring (cl_Spec cluster) ≫= mon_PrometheusRule.

Definition prEnabled (cluster : AerospikeCluster) : bool :=
  monitoringEnabled cluster && from_option pr_Enabled false (prometheusRuleSpec cluster).

Definition metricsPort (cluster : AerospikeCluster) : Z := from_option mon_Port 0 (spec_Monitoring (cl_Spec cluster)).

(** The metrics service of [reconcileMetricsService]. *)
Definition metricsService (cluster : AerospikeCluster) : Service :=
  mkService (MetricsServiceName (cl_Name cluster)) (LabelsForCluster (cl_Name cluster)) [] ServiceTypeClusterIP ""
    (SelectorLabelsForCluster (cl_Name cluster)) false [tcpPort "metrics" (metricsPort cluster)] "" [] [].

(** [metricsServiceNeedsUpdate]. *)
Definition metricsServiceNeedsUpdate (existing desired : Service) : bool :=
  negb (bool_decide (svc_Type existing = svc_Type desired)) ||
  negb (bool_decide (svc_Ports existing = svc_Ports desired)) ||
  negb (mapsEqual (svc_Selector existing) (svc_Selector desired)) ||
  negb (mapsEqual (svc_Labels existing) (svc_Labels desired)).

(** The ServiceMonitor of [reconcileServiceMonitor]. *)
Definition serviceMonitorLabels (cluster : AerospikeCluster) : gomap string :=
  mergeAdditionalLabels (LabelsForCluster (cl_Name cluster)) (from_option sm_Labels [] (serviceMonitorSpec cluster)).

Definition smSpec (cluster : AerospikeCluster) : any :=
  AMap [("selector", AMap [("matchLabels", toStringMap (SelectorLabelsForCluster (cl_Name cluster)))]);
        ("endpoints", AList [AMap
           [("port", AString "metrics");
            ("interval", AString (from_option sm_Interval "" (serviceMonitorSpec cluster)));
            ("path", AString "/metrics")]]);
        ("namespaceSelector", AMap [("matchNames", AList [AString (cl_Namespace cluster)])])].

(** *** Alert rules *)

Definition dq : string := String (Ascii.ascii_of_nat 34) EmptyString.

(** [label="value"] of a Prometheus selector. *)
Definition matcher (label value : string) : string := label +:+ "=" +:+ dq +:+ value +:+ dq.

Definition alertRule (alert expr for_ severity clusterName summary description : string) : any :=
  AMap [("alert", AString alert); ("expr", AString expr); ("for", AString for_);
        ("labels", AMap [("severity", AString severity); ("cluster", AString clusterName)]);
        ("annotations", AMap [("summary", AString summary); ("description", AString description)])].

(** [defaultAlertRules]. *)
Definition defaultAlertRules (clusterName namespace : string) : list any :=
  let jobLabel := clusterName +:+ "-metrics" in
  let byJob := "{" +:+ matcher "job" jobLabel +:+ "," +:+ matcher "namespace" namespace +:+ "}" in
  let byName := "{" +:+ matcher "namespace" namespace +:+ "," +:+ matcher "name" clusterName +:+ "}" in
  [AMap [("name", AString (clusterName +:+ ".rules"));
         ("rules", AList
   [alertRule "AerospikeNodeDown" ("up" +:+ byJob +:+ " == 0") "1m" "critical" clusterName
      ("Aerospike node down in cluster " +:+ clusterName)
      "{{ $labels.pod }} has been down for more than 1 minute.";
    alertRule "AerospikeNamespaceStopWrites" ("aerospike_namespace_stop_writes" +:+ byJob +:+ " == 1") "0m" "critical" clusterName
      ("Aerospike namespace stop-writes in cluster " +:+ clusterName)
      "Namespace {{ $labels.ns }} on {{ $labels.pod }} has stopped accepting writes.";
    alertRule "AerospikeHighDiskUsage"
      ("aerospike_namespace_device_used_bytes" +:+ byJob +:+ " / aerospike_namespace_device_total_bytes" +:+ byJob +:+ " > 0.8")
      "5m" "warning" clusterName ("Aerospike high disk usage in cluster " +:+ clusterName)
      "Namespace {{ $labels.ns }} on {{ $labels.pod }} disk usage is above 80%%.";
    alertRule "AerospikeHighMemoryUsage"
      ("aerospike_namespace_memory_used_bytes" +:+ byJob +:+ " / aerospike_namespace_memory_total_bytes" +:+ byJob +:+ " > 0.8")
      "5m" "warning" clusterName ("Aerospike high memory usage in cluster " +:+ clusterName)
      "Namespace {{ $labels.ns }} on {{ $labels.pod }} memory usage is above 80%%.";
    alertRule "AerospikeReconcileStale" ("time() - acko_last_reconcile_timestamp_seconds" +:+ byName +:+ " > 300") "5m" "warning" clusterName
      ("Aerospike operator reconciliation stale for cluster " +:+ clusterName)
      ("The operator has not reconciled cluster " +:+ clusterName +:+ " in the last 5+ minutes.");
    alertRule "AerospikeClusterSizeMismatch" ("acko_cluster_ready_pods" +:+ byName +:+ " != acko_cluster_as_size" +:+ byName) "2m" "warning" clusterName
      ("K8s pod count differs from Aerospike cluster-size for cluster " +:+ clusterName)
      ("The number of ready K8s pods does not match the Aerospike cluster-size reported by asinfo for cluster " +:+ clusterName +:+ ".");
    alertRule "AerospikeOperatorCircuitBreakerActive" ("acko_circuit_breaker_active" +:+ byName +:+ " == 1") "5m" "critical" clusterName
      ("Aerospike operator circuit breaker is active for cluster " +:+ clusterName)
      ("The operator has hit 10+ consecutive reconciliation failures for cluster " +:+ namespace +:+ "/" +:+ clusterName +:+
       ". Manual investigation required.")])]].

(** A custom group is decoded into a map; the JSON null leaves the map nil. *)
Definition ruleGroup (raw : any) : option any :=
  match raw with AMap m => Some (AMap m) | ANil => Some (AMap []) | _ => None end.

(** The groups: the custom ones if there are any; [None] when one is not an object. *)
Definition ruleGroups (cluster : AerospikeCluster) : option (list any) :=
  match from_option pr_CustomRules [] (prometheusRuleSpec cluster) with
  | [] => Some (defaultAlertRules (cl_Name cluster) (cl_Namespace cluster))
  | custom => mapM ruleGroup custom
  end.

Definition prSpec (groups : list any) : any := AMap [("groups", AList groups)].

Definition prometheusRuleLabels (cluster : AerospikeCluster) : gomap string :=
  mergeAdditionalLabels (LabelsForCluster (cl_Name cluster)) (from_option pr_Labels [] (prometheusRuleSpec cluster)).

(** *** Network policies *)

Definition policyPort (port : Z) : any := AMap [("protocol", AString "TCP"); ("port", AInt KInt port)].
Definition ingressRule (ports : list Z) (from : list any) : any :=
  AMap (("ports", AList (policyPort <$> ports)) :: match from with [] => [] | _ => [("from", AList from)] end).

(** [buildK8sNetworkPolicy]. *)
Definition buildK8sNetworkPolicy (cluster : AerospikeCluster) (name : string) : NetworkPolicy :=
  let peers := AMap [("podSelector", AMap [("matchLabels", toStringMap (SelectorLabelsForCluster (cl_Name cluster)))])] in
  let ingressRules := [ingressRule [FabricPort; HeartbeatPort] [peers]; ingressRule [ServicePort] []] ++
    (if monitoringEnabled cluster then [ingressRule [metricsPort cluster] []] else []) in
  mkNetworkPolicy name (LabelsForCluster (cl_Name cluster))
    (AMap [("podSelector", AMap [("matchLabels", toStringMap (SelectorLabelsForCluster (cl_Name cluster)))]);
           ("policyTypes", AList [AString "Ingress"]);
           ("ingress", AList ingressRules)]).

(** [k8sNetworkPolicyChanged]. *)
Definition k8sNetworkPolicyChanged (existing desired : NetworkPolicy) : bool :=
  negb (deepEqual (np_Spec existing) (np_Spec desired)) || negb (mapsEqual (np_Labels existing) (np_Labels desired)).

Definition ciliumPorts (ports : list Z) : string * any :=
  ("toPorts", AList [AMap [("ports", AList
     ((fun p : Z => AMap [("port", AString (pretty p)); ("protocol", AString "TCP")]) <$> ports))]]).

(** The content of the policy of [reconcileCiliumNetworkPolicy]. *)
Definition ciliumSpec (cluster : AerospikeCluster) : any :=
  let selector := AMap [("matchLabels", toStringMap (SelectorLabelsForCluster (cl_Name cluster)))] in
  let ingressRules :=
    [AMap [("fromEndpoints", AList [selector]); ciliumPorts [FabricPort; HeartbeatPort]]; AMap [ciliumPorts [ServicePort]]] ++
    (if monitoringEnabled cluster then [AMap [ciliumPorts [metricsPort cluster]]] else []) in
  AMap [("endpointSelector", selector); ("ingress", AList ingressRules)].

(** ** The reconcilers *)

Section Monitoring.
Context `{Environment} `{!ServiceAPI} `{!JSONStore}.

(** [reconcileMetricsService]. *)
Definition reconcileMetricsService (cluster : AerospikeCluster) (enabled : bool) : M () :=
  let svcName := MetricsServiceName (cl_Name cluster) in
  let desired := metricsService cluster in
  existing ← try (getObj (T := Service) svcName);
  if enabled then
    orCreate ("getting metrics service " +:+ svcName) (createObj (admitService None desired))
      (updateDrifted "metrics service" svcName None
        (fun existing => metricsServiceNeedsUpdate existing desired)
        (fun existing => admitService (Some existing)
           (existing <| svc_Type := svc_Type desired |> <| svc_Ports := svc_Ports desired |>
                     <| svc_Selector := svc_Selector desired |> <| svc_Labels := svc_Labels desired |>))) existing
  else
    deleteFetched (deleteGone (T := Service))
      (fun e => if IsNotFound e then mret ()
                else raise (wrapErr ("getting metrics service " +:+ svcName +:+ " for cleanup") e)) existing.

(** A missing definition of the kind is reported as it is. *)
Definition unlessNoMatch {T} (existing : goerr + T) (k : goerr + T -> M ()) : M () :=
  match existing with
  | inl e => if IsNoMatchError e then raise e else k existing
  | inr _ => k existing
  end.

(** An object of an optional kind is created or brought back to its content and labels. *)
Definition ensureUnstructured {kind} `{!Stored (Unstructured kind)} (name : string) (labels : gomap string) (spec : any)
    (existing : goerr + Unstructured kind) : M () :=
  orCreate ("getting " +:+ kind +:+ " " +:+ name) (createObj (mkUnstructured name labels (Some (readBack spec))))
    (updateDrifted kind name None
      (fun existing => unstructuredResourceChanged existing spec labels)
      (fun existing => existing <| un_Spec := Some (readBack spec) |> <| un_Labels := labels |>)) existing.

(** Its clean-up: a kind that is not installed has no objects. *)
Definition cleanupUnstructured {kind} `{!Stored (Unstructured kind)} (name : string) (existing : goerr + Unstructured kind) : M () :=
  deleteFetched (deleteGone (T := Unstructured kind))
    (fun e => if IsNotFound e || IsNoMatchError e then mret ()
              else raise (wrapErr ("getting " +:+ kind +:+ " " +:+ name +:+ " for cleanup") e)) existing.

(** [reconcileServiceMonitor]. *)
Definition reconcileServiceMonitor (cluster : AerospikeCluster) (enabled : bool) : M () :=
  let smName := ServiceMonitorName (cl_Name cluster) in
  existing ← try (getObj (T := Unstructured "ServiceMonitor") smName);
  if enabled then
    unlessNoMatch existing (ensureUnstructured smName (serviceMonitorLabels cluster) (smSpec cluster))
  else cleanupUnstructured smName existing.

(** [reconcilePrometheusRule]. *)
Definition reconcilePrometheusRule (cluster : AerospikeCluster) (enabled : bool) : M () :=
  let prName := PrometheusRuleName (cl_Name cluster) in
  existing ← try (getObj (T := Unstructured "PrometheusRule") prName);
  if enabled then
    unlessNoMatch existing (fun existing =>
      match ruleGroups cluster with
      | None => raise (Errorf "parsing custom PrometheusRule group")
      | Some groups => ensureUnstructured prName (prometheusRuleLabels cluster) (prSpec groups) existing
      end)
  else cleanupUnstructured prName existing.

(** An optional resource: a missing definition or a refusal is logged and skipped. *)
Definition optional (what : string) (m : M ()) : M () :=
  r ← try m;
  match r with
  | inr _ => mret ()
  | inl e => if IsNoMatchError e then mret () else if IsForbidden e then mret ()
             else raise (wrapErr ("reconciling " +:+ what) e)
  end.

(** [reconcileMonitoring]. *)
Definition reconcileMonitoring (cluster : AerospikeCluster) : M () :=
  _ ← wrapping "reconciling metrics service" (reconcileMetricsService cluster (monitoringEnabled cluster));
  _ ← optional "ServiceMonitor" (reconcileServiceMonitor cluster (smEnabled cluster));
  optional "PrometheusRule" (reconcilePrometheusRule cluster (prEnabled cluster)).

(** [reconcileK8sNetworkPolicy]; when it is disabled an error of [r.Get] is dropped. *)
Definition reconcileK8sNetworkPolicy (cluster : AerospikeCluster) (enabled : bool) : M () :=
  let npName := NetworkPolicyName (cl_Name cluster) in
  let np := buildK8sNetworkPolicy cluster npName in
  existing ← try (getObj (T := NetworkPolicy) npName);
  if enabled then
    orCreate ("getting NetworkPolicy " +:+ npName) (createObj np)
      (fun existing =>
         if k8sNetworkPolicyChanged existing np
         then updateObj (existing <| np_Spec := np_Spec np |> <| np_Labels := np_Labels np |>) else mret ()) existing
  else deleteFetched (deleteGone (T := NetworkPolicy)) (fun _ => mret ()) existing.

(** [reconcileCiliumNetworkPolicy]. *)
Definition reconcileCiliumNetworkPolicy (cluster : AerospikeCluster) (enabled : bool) : M () :=
  let npName := NetworkPolicyName (cl_Name cluster) in
  let labels := LabelsForCluster (cl_Name cluster) in
  let spec := ciliumSpec cluster in
  existing ← try (getObj (T := Unstructured "CiliumNetworkPolicy") npName);
  if enabled then
    match existing with
    | inl e =>
        if IsNoMatchError e then mret ()
        else if IsForbidden e then mret ()
        else if IsNotFound e then createObj (T := Unstructured "CiliumNetworkPolicy") (mkUnstructured npName labels (Some (readBack spec)))
        else raise (wrapErr ("getting CiliumNetworkPolicy " +:+ npName) e)
    | inr existing =>
        if unstructuredResourceChanged existing spec labels
        then updateObj (T := Unstructured "CiliumNetworkPolicy")
               (existing <| un_Spec := Some (readBack spec) |> <| un_Labels := labels |>)
        else mret ()
    end
  else deleteFetched (deleteGone (T := Unstructured "CiliumNetworkPolicy")) (fun _ => mret ()) existing.

Definition npcEnabled (cluster : AerospikeCluster) : bool :=
  from_option npc_Enabled false (spec_NetworkPolicyConfig (cl_Spec cluster)).

(** [reconcileNetworkPolicy]. *)
Definition reconcileNetworkPolicy (cluster : AerospikeCluster) : M () :=
  match from_option npc_Type NetworkPolicyTypeUnset (spec_NetworkPolicyConfig (cl_Spec cluster)) with
  | NetworkPolicyTypeCilium => reconcileCiliumNetworkPolicy cluster (npcEnabled cluster)
  | _ => reconcileK8sNetworkPolicy cluster (npcEnabled cluster)
  end.

End Monitoring.

(** ** Equality of JSON values *)

(** A value without floats, whose maps have no repeated keys. *)
Fixpoint floatless (v : any) : bool :=
  match v with
  | ANil | ABool _ | AString _ | AInt _ _ => true
  | AFloat32 _ | AFloat64 _ => false
  | AList l => forallb floatless l
  | AMap m => bool_decide (NoDup m.*1) && forallb (fun e => floatless e.2) m
  end.

Lemma deepEqual_refl v : floatless v = true -> deepEqual v v = true.
Proof.
  induction v as [|bv|k z| | |str|l IH|m IH] using any_rec_ind; intros Hv; try done; simpl in Hv |- *.
  - by destruct bv.
  - by rewrite bool_decide_eq_true_2, Z.eqb_refl.
  - by apply bool_decide_eq_true.
  - induction IH as [|x l Hx _ IH]; [done|]. simpl in Hv. apply andb_prop in Hv as [H1 H2]. by rewrite Hx, IH.
  - apply andb_prop in Hv as [Hnd%bool_decide_eq_true Hv]. rewrite bool_decide_eq_true_2 by done. simpl.
    apply forallb_forall. intros r Hr%list_elem_of_In. apply list_elem_of_fmap in Hr as ([k x] & -> & Hx). unfold id.
    rewrite forallb_forall in Hv. rewrite Forall_forall in IH. simpl.
    rewrite (proj2 (map_get_Some k x m Hnd) Hx). apply (IH (k, x)); [done|]. apply (Hv (k, x)). by apply list_elem_of_In.
Qed.

Lemma textual_floatless v : textual v = true -> floatless v = true.
Proof.
  induction v as [| | | | | |l IH|m IH] using any_rec_ind; intros Hv; try done; simpl in Hv |- *.
  - apply forallb_forall. intros x Hx. rewrite forallb_forall in Hv. rewrite Forall_forall in IH.
    apply IH; [by apply list_elem_of_In|by apply Hv].
  - apply andb_prop in Hv as [Hnd Hv]. rewrite Hnd. simpl. apply forallb_forall. intros e He.
    rewrite forallb_forall in Hv. rewrite Forall_forall in IH. apply IH; [by apply list_elem_of_In|by apply Hv].
Qed.

Lemma textual_smSpec cluster : textual (smSpec cluster) = true.
Proof. reflexivity. Qed.

Lemma textual_default_rules c ns : textual (prSpec (defaultAlertRules c ns)) = true.
Proof. reflexivity. Qed.

Lemma textual_ciliumSpec cluster : textual (ciliumSpec cluster) = true.
Proof. unfold ciliumSpec. by destruct (monitoringEnabled cluster). Qed.

Lemma floatless_policy cluster name : floatless (np_Spec (buildK8sNetworkPolicy cluster name)) = true.
Proof. unfold buildK8sNetworkPolicy. by destruct (monitoringEnabled cluster). Qed.

(** ** Errors *)

(** A kind that is not installed, or may not be used. *)
Definition tolerated (e : goerr) : Prop := IsNoMatchError e = true \/ IsForbidden e = true.

(** Errors that are neither that nor "not found". *)
Definition plain_error (e : goerr) : Prop := ~ tolerated e /\ IsNotFound e = false.

Lemma kind_of_wrapErr msg e : err_kind (wrapErr msg e) = err_kind e.
Proof. done. Qed.

#[export] Instance tolerated_errors : ErrorSet tolerated.
Proof.
  split; [done|]. intros e [He%bool_decide_eq_true|He%bool_decide_eq_true]; apply bool_decide_eq_false; congruence.
Qed.

#[export] Instance plain_errors : ErrorSet plain_error.
Proof. split; [done|]. by intros e [_ He]. Qed.

(** No errors at all. *)
#[export] Instance no_errors : ErrorSet (fun _ => False).
Proof. by split. Qed.

Lemma calm_no_errors fs : fs = [] -> Forall (fault_in (fun _ => False)) fs.
Proof. intros ->. constructor. Qed.

(** ** What the reconcilers leave behind *)

Section Settles.
Context `{Environment} `{!ServiceAPI} `{!JSONStore}.

(** An object of an optional kind has the content and the labels that are wanted. *)
Definition has_content {kind} (spec : any) (labels : gomap string) (o : Unstructured kind) : Prop :=
  exists cur, un_Spec o = Some cur /\ deepEqual cur spec = true /\ mapsEqual (un_Labels o) labels = true.

Lemma has_content_unchanged {kind} spec labels (o : Unstructured kind) :
  unstructuredResourceChanged o spec labels = false <-> has_content spec labels o.
Proof.
  unfold unstructuredResourceChanged, has_content. destruct (un_Spec o) as [cur|]; [|split; [done|by intros (? & ? & _)]].
  rewrite orb_false_iff, !negb_false_iff. split; [by exists cur|by intros (? & [= <-] & ? & ?)].
Qed.

Lemma has_content_written {kind} spec labels (o : Unstructured kind) :
  textual spec = true -> map_wf labels -> un_Spec o = Some (readBack spec) -> un_Labels o = labels -> has_content spec labels o.
Proof.
  intros Ht Hl Hs Ho. exists (readBack spec). rewrite Ho, readBack_textual by done. split; [by rewrite Hs, readBack_textual|].
  split; [by apply deepEqual_refl, textual_floatless|by apply mapsEqual_refl].
Qed.

Lemma yields_ensureUnstructured {kind} `{!Stored (Unstructured kind)} E `{!ErrorSet E} name labels spec l0
    (good : Unstructured kind -> Prop) :
  (forall o : Unstructured kind, obj_name o = un_Name o) ->
  (forall o, unstructuredResourceChanged o spec labels = false -> good o) ->
  (forall o, un_Spec o = Some (readBack spec) -> un_Labels o = labels -> good o) ->
  yields E (existing ← try (getObj (T := Unstructured kind) name);
            unlessNoMatch existing (ensureUnstructured name labels spec)) (fun l => l = l0)
    (fun _ l => exists o, good o /\ placed name o l0 l).
Proof.
  intros Hname Hkeep Hnew.
  destruct (yields_orCreate E name ("getting " +:+ kind +:+ " " +:+ name)
    (createObj (mkUnstructured name labels (Some (readBack spec))))
    (updateDrifted kind name None (fun existing => unstructuredResourceChanged existing spec labels)
      (fun existing : Unstructured kind => existing <| un_Spec := Some (readBack spec) |> <| un_Labels := labels |>)) l0
    (fun _ l => exists o, good o /\ placed name o l0 l)) as (Y1 & Y2 & Y3).
  - intros Hn. set (o := mkUnstructured _ _ _). assert (obj_name o = name) as Ho by (by rewrite Hname).
    apply (yields_create E name o); [done..|]. exists o. split; [by apply Hnew|by apply placed_create].
  - intros old Hold. pose proof (findObj_Some _ _ _ Hold) as [_ Hn]. rewrite Hname in Hn.
    set (o := old <| un_Spec := Some (readBack spec) |> <| un_Labels := labels |>).
    assert (obj_name o = name) as Ho by (by rewrite Hname).
    apply yields_updateDrifted; [done|done|done| |].
    + intros Hs. exists old. split; [by apply Hkeep|by apply placed_same].
    + intros _. exists o. split; [by apply Hnew|by apply (placed_update _ _ old)].
  - apply yields_get.
    + intros e He. unfold unlessNoMatch. destruct (IsNoMatchError e); [by apply yields_raise|by apply Y1].
    + intros e He Hn. unfold unlessNoMatch. destruct (IsNoMatchError e) eqn:Hm; [|by apply Y2].
      apply bool_decide_eq_true in He, Hm. congruence.
    + intros old Hold. by apply Y3.
Qed.

Lemma yields_cleanupUnstructured {kind} `{!Stored (Unstructured kind)} E `{!ErrorSet E} name l0 (Q : () -> list (Unstructured kind) -> Prop) :
  (forall e, E e -> IsNoMatchError e = true -> Q () l0) -> Q () (filter (fun o => obj_name o <> name) l0) ->
  yields E (try (getObj (T := Unstructured kind) name) ≫= cleanupUnstructured name) (fun l => l = l0) Q.
Proof.
  intros Hnm HQ. unfold cleanupUnstructured, deleteFetched. apply yields_get.
  - intros e He. destruct (IsNotFound e || IsNoMatchError e) eqn:Hm; [|by apply yields_raise, errors_wrap].
    apply orb_prop in Hm as [Hm|Hm]; [rewrite (errors_honest e He) in Hm; done|]. apply yields_ret. intros l ->. by eapply Hnm.
  - intros e -> Hn. apply yields_ret. intros l ->. by rewrite without_absent in HQ.
  - intros old Hold. pose proof (findObj_Some _ _ _ Hold) as [_ ->].
    eapply yields_weaken; [by apply yields_deleteGone|intros l Hl; exact Hl|]. by intros [] l ->.
Qed.

Lemma yields_cleanedUp {kind} `{!Stored (Unstructured kind)} E `{!ErrorSet E} name (l0 : list (Unstructured kind)) :
  (forall e, E e -> ~ tolerated e) ->
  yields E (try (getObj (T := Unstructured kind) name) ≫= cleanupUnstructured name) (fun l => l = l0)
    (fun _ l => l = filter (fun o => obj_name o <> name) l0).
Proof.
  intros HE. apply (yields_cleanupUnstructured E name l0 (fun _ l => l = filter (fun o => obj_name o <> name) l0)); [|done].
  intros e He Hn. destruct (HE e He). by left.
Qed.

(** *** The metrics service *)

Definition metrics_good (cluster : AerospikeCluster) (s : Service) : Prop :=
  svc_Type s = ServiceTypeClusterIP /\ svc_Ports s = [tcpPort "metrics" (metricsPort cluster)] /\
  mapsEqual (svc_Selector s) (SelectorLabelsForCluster (cl_Name cluster)) = true /\
  mapsEqual (svc_Labels s) (LabelsForCluster (cl_Name cluster)) = true.

Lemma metrics_good_unchanged cluster s :
  metricsServiceNeedsUpdate s (metricsService cluster) = false <-> metrics_good cluster s.
Proof.
  unfold metricsServiceNeedsUpdate, metrics_good. rewrite !orb_false_iff, !negb_false_iff, !bool_decide_eq_true. simpl. tauto.
Qed.

Lemma metrics_good_written cluster s :
  svc_Type s = ServiceTypeClusterIP -> svc_Ports s = svc_Ports (metricsService cluster) ->
  svc_Selector s = svc_Selector (metricsService cluster) -> svc_Labels s = svc_Labels (metricsService cluster) -> metrics_good cluster s.
Proof.
  intros Ht Hp Hs Hl. unfold metrics_good. rewrite Ht, Hp, Hs, Hl. split_and!; [done|done|apply mapsEqual_refl, map_wf_SelectorLabels|
    apply mapsEqual_refl, map_wf_LabelsForCluster].
Qed.

(** The service is there as wanted, or not there at all. *)
Definition metrics_ok (cluster : AerospikeCluster) (l : list Service) : Prop :=
  if monitoringEnabled cluster
  then exists s, findObj (MetricsServiceName (cl_Name cluster)) l = Some s /\ metrics_good cluster s
  else findObj (MetricsServiceName (cl_Name cluster)) l = None.

(** The same for an optional kind. *)
Definition optional_ok {kind} `{!Stored (Unstructured kind)} (enabled : bool) (name : string) (spec : any) (labels : gomap string)
    (l : list (Unstructured kind)) : Prop :=
  if enabled then exists o, findObj name l = Some o /\ has_content spec labels o else findObj name l = None.

Definition rest_kept {T} `{!Stored T} (name : string) (l0 l : list T) : Prop := forall n, n <> name -> findObj n l = findObj n l0.

Lemma rest_kept_filter {T} `{!Stored T} name (l : list T) : rest_kept name l (filter (fun o => obj_name o <> name) l).
Proof. intros n Hn. by rewrite findObj_filter, decide_False. Qed.

Lemma yields_metrics E `{!ErrorSet E} cluster l0 :
  yields (T := Service) E (reconcileMetricsService cluster (monitoringEnabled cluster)) (fun l => l = l0) (fun _ l =>
    metrics_ok cluster l /\ rest_kept (MetricsServiceName (cl_Name cluster)) l0 l).
Proof.
  unfold reconcileMetricsService, metrics_ok. cbv zeta. destruct (monitoringEnabled cluster).
  - set (name := MetricsServiceName (cl_Name cluster)).
    assert (forall s l, metrics_good cluster s -> placed name s l0 l ->
      (exists s, findObj name l = Some s /\ metrics_good cluster s) /\ rest_kept name l0 l) as Hplaced.
    { intros s l Hs (Hf & Hne & _). split; [by exists s|done]. }
    match goal with |- yields _ (_ ← _; orCreate ?g ?m ?f _) _ _ =>
      destruct (yields_orCreate E name g m f l0 (fun _ l =>
        (exists s, findObj name l = Some s /\ metrics_good cluster s) /\ rest_kept name l0 l)) as (Y1 & Y2 & Y3) end.
    + intros Hn. apply (yields_create E name); [apply admit_Name|done|].
      eapply Hplaced; [|apply placed_create; [apply admit_Name|done]].
      apply metrics_good_written; [by apply admit_Type|by apply admit_ClusterIP_Ports|by rewrite admit_Selector|by rewrite admit_Labels].
    + intros old Hold. pose proof (findObj_Some _ _ _ Hold) as [_ Hn].
      apply yields_updateDrifted; [done|done|etransitivity; [apply admit_Name|exact Hn]| |].
      * intros Hs%metrics_good_unchanged. apply (Hplaced old); [done|by apply placed_same].
      * intros _. eapply Hplaced; [|apply (placed_update _ _ old); [etransitivity; [apply admit_Name|exact Hn]|done]].
        apply metrics_good_written; [etransitivity; [by apply admit_Type|done]|etransitivity; [by apply admit_ClusterIP_Ports|done]|by rewrite admit_Selector|by rewrite admit_Labels].
    + by apply yields_get.
  - eapply yields_weaken; [|intros l Hl; exact Hl|].
    + match goal with |- yields _ (_ ← _; deleteFetched _ ?f _) _ _ =>
        destruct (yields_deleteFetched E (MetricsServiceName (cl_Name cluster)) f l0) as (Y1 & Y2 & Y3) end.
      * by intros e ->.
      * intros e He. rewrite (errors_honest e He). eexists. split; [done|by apply errors_wrap].
      * by apply yields_get.
    + intros [] l ->. split; [by rewrite findObj_filter, decide_True|apply rest_kept_filter].
Qed.

(** *** The optional kinds *)

Lemma yields_serviceMonitor E `{!ErrorSet E} cluster l0 :
  (forall e, E e -> ~ tolerated e) ->
  yields (T := Unstructured "ServiceMonitor") E (reconcileServiceMonitor cluster (smEnabled cluster)) (fun l => l = l0) (fun _ l =>
    optional_ok (smEnabled cluster) (ServiceMonitorName (cl_Name cluster)) (smSpec cluster) (serviceMonitorLabels cluster) l /\
    rest_kept (ServiceMonitorName (cl_Name cluster)) l0 l).
Proof.
  intros HE. unfold reconcileServiceMonitor, optional_ok. cbv zeta. destruct (smEnabled cluster).
  - eapply yields_weaken; [apply (yields_ensureUnstructured E _ _ _ l0 (has_content (smSpec cluster) (serviceMonitorLabels cluster)))|intros l Hl; exact Hl|].
    + done.
    + intros o Ho. by apply has_content_unchanged.
    + intros o. apply has_content_written; [apply textual_smSpec|apply map_wf_mergeAdditionalLabels, map_wf_LabelsForCluster].
    + intros [] l (o & Ho & Hf & Hne & _). split; [by exists o|done].
  - eapply yields_weaken; [by apply yields_cleanedUp|intros l Hl; exact Hl|].
    intros [] l ->. split; [by rewrite findObj_filter, decide_True|apply rest_kept_filter].
Qed.

(** The groups the rule is to have. *)
Definition wantedGroups (cluster : AerospikeCluster) : any := prSpec (default [] (ruleGroups cluster)).

(** The custom groups are objects, and hold no numbers. *)
Definition rules_textual (cluster : AerospikeCluster) : Prop :=
  prEnabled cluster = true -> is_Some (ruleGroups cluster) /\ textual (wantedGroups cluster) = true.

Lemma yields_prometheusRule E `{!ErrorSet E} cluster l0 :
  (forall e, E e -> ~ tolerated e) -> rules_textual cluster ->
  yields (T := Unstructured "PrometheusRule") E (reconcilePrometheusRule cluster (prEnabled cluster)) (fun l => l = l0) (fun _ l =>
    optional_ok (prEnabled cluster) (PrometheusRuleName (cl_Name cluster)) (wantedGroups cluster) (prometheusRuleLabels cluster) l /\
    rest_kept (PrometheusRuleName (cl_Name cluster)) l0 l).
Proof.
  intros HE Hr. unfold reconcilePrometheusRule, optional_ok, rules_textual, wantedGroups in *. cbv zeta. destruct (prEnabled cluster).
  - destruct (Hr eq_refl) as [[groups ->] Ht]. simpl in Ht |- *.
    eapply yields_weaken; [apply (yields_ensureUnstructured E _ _ _ l0 (has_content (prSpec groups) (prometheusRuleLabels cluster)))|intros l Hl; exact Hl|].
    + done.
    + intros o Ho. by apply has_content_unchanged.
    + intros o. apply has_content_written; [done|apply map_wf_mergeAdditionalLabels, map_wf_LabelsForCluster].
    + intros [] l (o & Ho & Hf & Hne & _). split; [by exists o|done].
  - eapply yields_weaken; [by apply yields_cleanedUp|intros l Hl; exact Hl|].
    intros [] l ->. split; [by rewrite findObj_filter, decide_True|apply rest_kept_filter].
Qed.

(** *** One pass *)

Lemma delivers_optional E `{!ErrorSet E} what m w (Q : () -> World -> Prop) :
  (forall e, E e -> ~ tolerated e) -> delivers E m w Q -> delivers E (optional what m) w Q.
Proof.
  intros HE Hm Hw. specialize (Hm Hw). unfold optional, mbind, M_bind, try. destruct (m w) as [[e|[]] w1]; [|done].
  destruct Hm as [Hw1 He]. destruct (IsNoMatchError e) eqn:Hn; [destruct (HE e He); by left|].
  destruct (IsForbidden e) eqn:Hf; [destruct (HE e He); by right|]. split; [done|by apply errors_wrap].
Qed.

(** The objects of the three kinds as the spec asks, the others untouched. *)
Record monitored (cluster : AerospikeCluster) (w w' : World) : Prop := mkMonitored {
  mon_metrics : metrics_ok cluster (w_services w');
  mon_services : rest_kept (MetricsServiceName (cl_Name cluster)) (w_services w) (w_services w');
  mon_monitor : optional_ok (smEnabled cluster) (ServiceMonitorName (cl_Name cluster)) (smSpec cluster)
    (serviceMonitorLabels cluster) (w_serviceMonitors w');
  mon_monitors : rest_kept (ServiceMonitorName (cl_Name cluster)) (w_serviceMonitors w) (w_serviceMonitors w');
  mon_rule : optional_ok (prEnabled cluster) (PrometheusRuleName (cl_Name cluster)) (wantedGroups cluster)
    (prometheusRuleLabels cluster) (w_prometheusRules w');
  mon_rules : rest_kept (PrometheusRuleName (cl_Name cluster)) (w_prometheusRules w) (w_prometheusRules w')
}.

Ltac frame_monitoring :=
  unfold reconcileMetricsService, reconcileServiceMonitor, reconcilePrometheusRule, unlessNoMatch, ensureUnstructured, cleanupUnstructured,
    orCreate, updateDrifted, announce, deleteFetched, deleteGone; frame.

Lemma monitoring_delivers E `{!ErrorSet E} cluster w :
  (forall e, E e -> ~ tolerated e) -> rules_textual cluster ->
  delivers E (reconcileMonitoring cluster) w (fun _ w' => monitored cluster w w').
Proof.
  intros HE Hr. unfold reconcileMonitoring. eapply delivers_bind; [apply delivers_wrapping; [done|]|].
  { apply (delivers_yields (T := Service) E _ (agree (fun w => (w_serviceMonitors w, w_prometheusRules w)))); [apply yields_metrics; done|].
    frame_monitoring. }
  intros [] w1 [(Hm & Hmr) [= Hsm1 Hpr1]].
  eapply delivers_bind; [apply delivers_optional; [done|done|]|].
  { apply (delivers_yields (T := Unstructured "ServiceMonitor") E _ (agree (fun w => (w_services w, w_prometheusRules w))));
      [by apply yields_serviceMonitor|]. frame_monitoring. }
  intros [] w2 [(Hs & Hsr) [= Hsv2 Hpr2]].
  eapply delivers_weaken; [apply delivers_optional; [done|done|]|].
  { apply (delivers_yields (T := Unstructured "PrometheusRule") E _ (agree (fun w => (w_services w, w_serviceMonitors w))));
      [by apply yields_prometheusRule|]. frame_monitoring. }
  intros [] w3 [(Hp & Hpr) [= Hsv3 Hsm3]]. split.
  - rewrite Hsv3, Hsv2. exact Hm.
  - rewrite Hsv3, Hsv2. exact Hmr.
  - rewrite Hsm3. exact Hs.
  - rewrite Hsm3, <- Hsm1. exact Hsr.
  - exact Hp.
  - rewrite <- Hpr1, <- Hpr2. exact Hpr.
Qed.

(** *** A second pass *)

Definition quiet_monitoring (ls : list Service) (lm : list (Unstructured "ServiceMonitor")) (lr : list (Unstructured "PrometheusRule"))
    : relation World := fun w w' =>
  w_services w = ls -> w_serviceMonitors w = lm -> w_prometheusRules w = lr ->
  w_trace w' = w_trace w /\ w_services w' = ls /\ w_serviceMonitors w' = lm /\ w_prometheusRules w' = lr.

#[export] Instance quiet_monitoring_frame ls lm lr : Frame (quiet_monitoring ls lm lr).
Proof.
  split; [split|..]; unfold quiet_monitoring; [done| |done..].
  intros w1 w2 w3 H12 H23 ? ? ?. destruct H12 as (<- & ? & ? & ?); [done..|]. by apply H23.
Qed.

(** The kind a reconciler writes is still, the others are not touched. *)
Lemma quiet_of_services {A} (m : M A) ls lm lr :
  keeps (still (T := Service) ls) m -> keeps (agree (fun w => (w_serviceMonitors w, w_prometheusRules w))) m ->
  keeps (quiet_monitoring ls lm lr) m.
Proof.
  intros Hs Ha w E1 E2 E3. destruct (Hs w E1) as [Ht Hl]. pose proof (Ha w) as [= A1 A2]. rewrite A1, A2. by split_and!.
Qed.

Lemma quiet_of_monitors {A} (m : M A) ls lm lr :
  keeps (still (T := Unstructured "ServiceMonitor") lm) m -> keeps (agree (fun w => (w_services w, w_prometheusRules w))) m ->
  keeps (quiet_monitoring ls lm lr) m.
Proof.
  intros Hs Ha w E1 E2 E3. destruct (Hs w E2) as [Ht Hl]. pose proof (Ha w) as [= A1 A2]. rewrite A1, A2. by split_and!.
Qed.

Lemma quiet_of_rules {A} (m : M A) ls lm lr :
  keeps (still (T := Unstructured "PrometheusRule") lr) m -> keeps (agree (fun w => (w_services w, w_serviceMonitors w))) m ->
  keeps (quiet_monitoring ls lm lr) m.
Proof.
  intros Hs Ha w E1 E2 E3. destruct (Hs w E3) as [Ht Hl]. pose proof (Ha w) as [= A1 A2]. rewrite A1, A2. by split_and!.
Qed.

Lemma still_metrics cluster l : metrics_ok cluster l -> keeps (still (T := Service) l) (reconcileMetricsService cluster (monitoringEnabled cluster)).
Proof.
  unfold metrics_ok, reconcileMetricsService. cbv zeta. destruct (monitoringEnabled cluster).
  - intros (s & Hs & Hg%metrics_good_unchanged). eapply still_orCreate; [done| |].
    + eapply still_taken. etransitivity; [|exact Hs]. f_equal. apply admit_Name.
    + unfold updateDrifted. rewrite Hg. frame.
  - intros Hn. apply still_deleteFetched; [done|]. intros e. frame.
Qed.

Lemma still_ensureUnstructured {kind} `{!Stored (Unstructured kind)} name labels spec (o : Unstructured kind) l :
  (forall o : Unstructured kind, obj_name o = un_Name o) -> findObj name l = Some o -> has_content spec labels o ->
  keeps (still l) (existing ← try (getObj (T := Unstructured kind) name); unlessNoMatch existing (ensureUnstructured name labels spec)).
Proof.
  intros Hname Ho Hc%has_content_unchanged.
  assert (keeps (still l) (createObj (mkUnstructured (kind := kind) name labels (Some (readBack spec))))) as Hmake.
  { eapply still_taken. by rewrite Hname. }
  apply still_try_getObj; unfold unlessNoMatch, ensureUnstructured, orCreate, updateDrifted.
  - intros e. destruct (IsNoMatchError e); [frame|]. destruct (IsNotFound e); [done|frame].
  - intros o' Ho'. rewrite Ho in Ho'. injection Ho' as <-. rewrite Hc. frame.
Qed.

Lemma still_cleanupUnstructured {kind} `{!Stored (Unstructured kind)} name (l : list (Unstructured kind)) :
  findObj name l = None -> keeps (still l) (try (getObj (T := Unstructured kind) name) ≫= cleanupUnstructured name).
Proof. intros Hn. apply still_deleteFetched; [done|]. intros e. frame. Qed.

Lemma monitoring_quiet cluster w w' :
  rules_textual cluster -> monitored cluster w w' ->
  keeps (quiet_monitoring (w_services w') (w_serviceMonitors w') (w_prometheusRules w')) (reconcileMonitoring cluster).
Proof.
  intros Hr [Hm _ Hs _ Hp _].
  assert (keeps (quiet_monitoring (w_services w') (w_serviceMonitors w') (w_prometheusRules w'))
    (reconcileMetricsService cluster (monitoringEnabled cluster))) as K1.
  { apply quiet_of_services; [by apply still_metrics|frame_monitoring]. }
  assert (keeps (quiet_monitoring (w_services w') (w_serviceMonitors w') (w_prometheusRules w'))
    (reconcileServiceMonitor cluster (smEnabled cluster))) as K2.
  { apply quiet_of_monitors; [|frame_monitoring]. unfold optional_ok, reconcileServiceMonitor in *. cbv zeta. destruct (smEnabled cluster).
    - destruct Hs as (o & Ho & Hc). by eapply still_ensureUnstructured.
    - by apply still_cleanupUnstructured. }
  assert (keeps (quiet_monitoring (w_services w') (w_serviceMonitors w') (w_prometheusRules w'))
    (reconcilePrometheusRule cluster (prEnabled cluster))) as K3.
  { apply quiet_of_rules; [|frame_monitoring]. unfold optional_ok, reconcilePrometheusRule, rules_textual, wantedGroups in *. cbv zeta.
    destruct (prEnabled cluster); [|by apply still_cleanupUnstructured].
    destruct (Hr eq_refl) as [[groups Hg] _]. rewrite Hg in *. destruct Hp as (o & Ho & Hc). by eapply still_ensureUnstructured. }
  unfold reconcileMonitoring, optional. frame.
Qed.

(** C34: a pass over the monitoring objects that meets no API error succeeds, and one
    that reports success without being refused access or told wrongly that an object is
    absent leaves the metrics service, the ServiceMonitor and the PrometheusRule as the
    spec asks, each of them absent when it is switched off and every other object
    untouched, and a second pass writes nothing; custom rule groups must be objects that
    hold no numbers *)
Theorem reconcileMonitoring_settles cluster w :
  Forall (fault_in plain_error) (w_faults w) -> rules_textual cluster ->
  let '(r, w') := reconcileMonitoring cluster w in
  (w_faults w = [] -> r = inr ()) /\
  (r = inr () -> monitored cluster w w' /\ w_trace (snd (reconcileMonitoring cluster w')) = w_trace w').
Proof.
  intros Hf Hr. pose proof (monitoring_delivers plain_error cluster w (fun e He => proj1 He) Hr Hf) as Hd.
  pose proof (fun Hc => monitoring_delivers (fun _ => False) cluster w (fun e He => match He with end) Hr (calm_no_errors _ Hc)) as Hc.
  destruct (reconcileMonitoring cluster w) as [[e|[]] w'].
  - split; [|done]. intros Hn. by destruct (Hc Hn).
  - split; [done|]. intros _. destruct Hd as [_ Hd]. split; [done|].
    by destruct (monitoring_quiet cluster w w' Hr Hd w' eq_refl eq_refl eq_refl).
Qed.

(** *** Refusals *)

Lemma delivers_refused_monitor cluster w :
  delivers tolerated (reconcileServiceMonitor cluster (smEnabled cluster)) w (fun _ _ => True).
Proof.
  eapply delivers_weaken; [apply (delivers_yields (T := Unstructured "ServiceMonitor") tolerated _ (fun _ _ => True) w (fun _ _ => True)); [|done]|done].
  unfold reconcileServiceMonitor. cbv zeta. destruct (smEnabled cluster); [|by apply (yields_cleanupUnstructured tolerated _ _ (fun _ _ => True))].
  eapply yields_weaken; [by apply (yields_ensureUnstructured tolerated _ _ _ (w_serviceMonitors w) (fun _ => True))|intros l Hl; exact Hl|done].
Qed.

Lemma delivers_refused_rule cluster w :
  (prEnabled cluster = true -> is_Some (ruleGroups cluster)) ->
  delivers tolerated (reconcilePrometheusRule cluster (prEnabled cluster)) w (fun _ _ => True).
Proof.
  intros Hr. eapply delivers_weaken; [apply (delivers_yields (T := Unstructured "PrometheusRule") tolerated _ (fun _ _ => True) w (fun _ _ => True)); [|done]|done].
  unfold reconcilePrometheusRule. cbv zeta. destruct (prEnabled cluster); [|by apply (yields_cleanupUnstructured tolerated _ _ (fun _ _ => True))].
  destruct (Hr eq_refl) as [groups ->].
  eapply yields_weaken; [by apply (yields_ensureUnstructured tolerated _ _ _ (w_prometheusRules w) (fun _ => True))|intros l Hl; exact Hl|done].
Qed.

Lemma optional_refused what m w (Q : () -> World -> Prop) :
  delivers tolerated m w Q -> Forall (fault_in tolerated) (w_faults w) ->
  exists w', optional what m w = (inr (), w') /\ Forall (fault_in tolerated) (w_faults w').
Proof.
  intros Hm Hw. specialize (Hm Hw). unfold optional, mbind, M_bind, try. destruct (m w) as [[e|[]] w1]; destruct Hm as [Hw1 He]; [|by eexists].
  destruct (IsNoMatchError e) eqn:Hn; [by eexists|]. destruct (IsForbidden e) eqn:Hf; [by eexists|]. by destruct He; congruence.
Qed.

(** A missing installation of the Prometheus operator, or a controller that may not
    use its kinds, never makes the pass fail: once the metrics service is in order, a
    run in which every API error is of that sort reports success. *)
Theorem refused_monitoring_succeeds cluster w w1 :
  reconcileMetricsService cluster (monitoringEnabled cluster) w = (inr (), w1) ->
  Forall (fault_in tolerated) (w_faults w1) -> (prEnabled cluster = true -> is_Some (ruleGroups cluster)) ->
  fst (reconcileMonitoring cluster w) = inr ().
Proof.
  intros Hm Hw Hr. unfold reconcileMonitoring.
  destruct (optional_refused "ServiceMonitor" _ w1 _ (delivers_refused_monitor cluster w1) Hw) as (w2 & H2 & Hw2).
  destruct (optional_refused "PrometheusRule" _ w2 _ (delivers_refused_rule cluster w2 Hr) Hw2) as (w3 & H3 & _).
  unfold mbind, M_bind, wrapping. by rewrite Hm, H2, H3.
Qed.

(** *** Network policies *)

Definition policy_good (desired np : NetworkPolicy) : Prop :=
  deepEqual (np_Spec np) (np_Spec desired) = true /\ mapsEqual (np_Labels np) (np_Labels desired) = true.

Lemma policy_good_unchanged desired np : k8sNetworkPolicyChanged np desired = false <-> policy_good desired np.
Proof. unfold k8sNetworkPolicyChanged. by rewrite orb_false_iff, !negb_false_iff. Qed.

Lemma policy_good_written cluster name np :
  np_Spec np = np_Spec (buildK8sNetworkPolicy cluster name) -> np_Labels np = LabelsForCluster (cl_Name cluster) ->
  policy_good (buildK8sNetworkPolicy cluster name) np.
Proof.
  intros Hs Hl. unfold policy_good. rewrite Hs, Hl. split; [apply deepEqual_refl, floatless_policy|apply mapsEqual_refl, map_wf_LabelsForCluster].
Qed.

(** The policy of the chosen type is there as wanted, or not there at all. *)
Definition policy_ok (cluster : AerospikeCluster) (w : World) : Prop :=
  let npName := NetworkPolicyName (cl_Name cluster) in
  match from_option npc_Type NetworkPolicyTypeUnset (spec_NetworkPolicyConfig (cl_Spec cluster)) with
  | NetworkPolicyTypeCilium =>
      optional_ok (npcEnabled cluster) npName (ciliumSpec cluster) (LabelsForCluster (cl_Name cluster)) (w_ciliumPolicies w)
  | _ =>
      if npcEnabled cluster then
        exists np, findObj npName (w_networkPolicies w) = Some np /\ policy_good (buildK8sNetworkPolicy cluster npName) np
      else findObj npName (w_networkPolicies w) = None
  end.

Lemma yields_k8sPolicy E `{!ErrorSet E} cluster l0 :
  yields (T := NetworkPolicy) E (reconcileK8sNetworkPolicy cluster true) (fun l => l = l0) (fun _ l => exists np,
    findObj (NetworkPolicyName (cl_Name cluster)) l = Some np /\
    policy_good (buildK8sNetworkPolicy cluster (NetworkPolicyName (cl_Name cluster))) np).
Proof.
  unfold reconcileK8sNetworkPolicy. cbv zeta. set (name := NetworkPolicyName _). set (np := buildK8sNetworkPolicy cluster name).
  match goal with |- yields _ (_ ← _; orCreate ?g ?m ?f _) _ ?Q => destruct (yields_orCreate E name g m f l0 Q) as (Y1 & Y2 & Y3) end.
  - intros Hn. apply (yields_create E name np); [done|done|]. exists np.
    split; [by apply placed_create|by apply policy_good_written].
  - intros old Hold. pose proof (findObj_Some _ _ _ Hold) as [_ Hn]. destruct (k8sNetworkPolicyChanged old np) eqn:Hc.
    + set (new := old <| np_Spec := np_Spec np |> <| np_Labels := np_Labels np |>). apply (yields_update E name new old); [exact Hn|done|].
      exists new. split; [apply (placed_update name new old); [exact Hn|done]|by apply policy_good_written].
    + apply yields_ret. intros l ->. exists old. split; [done|by apply policy_good_unchanged].
  - by apply yields_get.
Qed.

Lemma yields_ciliumPolicy E `{!ErrorSet E} cluster l0 :
  (forall e, E e -> ~ tolerated e) ->
  yields (T := Unstructured "CiliumNetworkPolicy") E (reconcileCiliumNetworkPolicy cluster true) (fun l => l = l0) (fun _ l =>
    optional_ok true (NetworkPolicyName (cl_Name cluster)) (ciliumSpec cluster) (LabelsForCluster (cl_Name cluster)) l).
Proof.
  intros HE. unfold reconcileCiliumNetworkPolicy, optional_ok. cbv zeta. set (name := NetworkPolicyName _).
  assert (forall o : Unstructured "CiliumNetworkPolicy", un_Spec o = Some (readBack (ciliumSpec cluster)) -> un_Labels o = LabelsForCluster (cl_Name cluster) ->
    has_content (ciliumSpec cluster) (LabelsForCluster (cl_Name cluster)) o) as Hnew.
  { intros o. apply has_content_written; [apply textual_ciliumSpec|apply map_wf_LabelsForCluster]. }
  apply yields_get.
  - intros e He. destruct (IsNoMatchError e) eqn:Hn; [destruct (HE e He); by left|].
    destruct (IsForbidden e) eqn:Hf; [destruct (HE e He); by right|]. rewrite (errors_honest e He). by apply yields_raise, errors_wrap.
  - intros e He Hn. assert (IsNoMatchError e = false) as -> by (apply bool_decide_eq_true in He; apply bool_decide_eq_false; congruence).
    assert (IsForbidden e = false) as -> by (apply bool_decide_eq_true in He; apply bool_decide_eq_false; congruence). rewrite He.
    apply (yields_create E name); [done|done|]. eexists. split; [by apply placed_create|by apply Hnew].
  - intros old Hold. pose proof (findObj_Some _ _ _ Hold) as [_ Hn]. destruct (unstructuredResourceChanged old _ _) eqn:Hc.
    + set (new := old <| un_Spec := _ |> <| un_Labels := _ |>). apply (yields_update E name new old); [exact Hn|done|].
      exists new. split; [apply (placed_update name new old); [exact Hn|done]|by apply Hnew].
    + apply yields_ret. intros l ->. exists old. split; [done|by apply has_content_unchanged].
Qed.

(** A clean-up that meets no fault removes the object. *)
Lemma yields_dropped {T} `{!Stored T} name l0 :
  yields (T := T) (fun _ => False) (try (getObj (T := T) name) ≫= deleteFetched (deleteGone (T := T)) (fun _ => mret ())) (fun l => l = l0)
    (fun _ l => findObj name l = None).
Proof.
  unfold deleteFetched. apply yields_get; [done| |].
  - intros e He Hn. apply yields_ret. by intros l ->.
  - intros old Hold. pose proof (findObj_Some _ _ _ Hold) as [_ ->].
    eapply yields_weaken; [by apply yields_deleteGone|intros l Hl; exact Hl|]. intros [] l ->. by rewrite findObj_filter, decide_True.
Qed.

Lemma policy_run {T} `{!Stored T} (enabled : bool) (m : M ()) (Q : list T -> Prop) w :
  Forall (fault_in plain_error) (w_faults w) ->
  (enabled = true -> yields plain_error m (fun l => l = stored w) (fun _ => Q)) ->
  yields (fun _ => False) m (fun l => l = stored w) (fun _ => Q) ->
  (w_faults w = [] -> fst (m w) = inr () /\ Q (stored (snd (m w)))) /\ (fst (m w) = inr () -> enabled = true -> Q (stored (snd (m w)))).
Proof.
  intros Hf Hp Hc. specialize (Hc w). assert (enabled = true -> _) as Hp' by (intros Hn; exact (Hp Hn w Hf eq_refl)).
  destruct (m w) as [[e|[]] w']; (split; [intros Hn; by destruct (Hc (calm_no_errors _ Hn) eq_refl)|]); [done|].
  intros _ Hn. by destruct (Hp' Hn).
Qed.

(** A pass over the network policy that meets no API error succeeds and leaves the policy of
    the chosen type as the spec asks; one that reports success without being refused access
    does so when the policy is enabled. *)
Theorem reconcileNetworkPolicy_settles cluster w :
  Forall (fault_in plain_error) (w_faults w) ->
  let run := reconcileNetworkPolicy cluster w in
  (w_faults w = [] -> fst run = inr () /\ policy_ok cluster (snd run)) /\
  (fst run = inr () -> npcEnabled cluster = true -> policy_ok cluster (snd run)).
Proof.
  intros Hf. unfold reconcileNetworkPolicy, policy_ok, optional_ok. cbv zeta. set (name := NetworkPolicyName _).
  pose proof (fun E HE => yields_k8sPolicy E (ErrorSet0 := HE) cluster (w_networkPolicies w)) as Hk.
  pose proof (fun E HE => yields_ciliumPolicy E (ErrorSet0 := HE) cluster (w_ciliumPolicies w)) as Hc.
  destruct (npcEnabled cluster), (from_option npc_Type _ _).
  - exact (policy_run (T := NetworkPolicy) true _ _ w Hf (fun _ => Hk plain_error _) (Hk _ no_errors)).
  - exact (policy_run (T := NetworkPolicy) true _ _ w Hf (fun _ => Hk plain_error _) (Hk _ no_errors)).
  - exact (policy_run (T := Unstructured "CiliumNetworkPolicy") true _ _ w Hf (fun _ => Hc plain_error _ (fun e He => proj1 He))
      (Hc _ no_errors (fun e He => match He with end))).
  - exact (policy_run (T := NetworkPolicy) false _ _ w Hf (fun He => match Bool.diff_false_true He with end) (yields_dropped name _)).
  - exact (policy_run (T := NetworkPolicy) false _ _ w Hf (fun He => match Bool.diff_false_true He with end) (yields_dropped name _)).
  - exact (policy_run (T := Unstructured "CiliumNetworkPolicy") false _ _ w Hf (fun He => match Bool.diff_false_true He with end) (yields_dropped name _)).
Qed.

End Settles.

(** ** Instances *)

(** Decoding as the API machinery does it: a number without a fraction is an int64. *)
Definition readNumber (f : spec_float) : any :=
  match float_trunc f with
  | Some z => if SFeqb (float64_of_Z z) f then AInt KInt64 z else AFloat64 f
  | None => AFloat64 f
  end.

Fixpoint decodeAgain (v : any) : any :=
  match v with
  | AInt _ z => AInt KInt64 z
  | AFloat64 f => readNumber f
  | AList l => AList (decodeAgain <$> l)
  | AMap m => AMap ((fun e => (e.1, decodeAgain e.2)) <$> m)
  | v => v
  end.

Lemma decodeAgain_textual v : textual v = true -> decodeAgain v = v.
Proof.
  induction v as [| | | | | |l IH|m IH] using any_rec_ind; intros Hv; try done; simpl in Hv |- *; f_equal.
  - rewrite forallb_forall in Hv. rewrite Forall_forall in IH. rewrite <- (list_fmap_id l) at 2.
    apply list_fmap_ext. intros i x Hx%list_elem_of_lookup_2. apply IH; [done|]. by apply Hv, list_elem_of_In.
  - apply andb_prop in Hv as [_ Hv]. rewrite forallb_forall in Hv. rewrite Forall_forall in IH. rewrite <- (list_fmap_id m) at 2.
    apply list_fmap_ext. intros i [k x] Hx%list_elem_of_lookup_2. simpl. f_equal. apply (IH (k, x)); [done|].
    apply (Hv (k, x)). by apply list_elem_of_In.
Qed.

#[local] Existing Instance sample_service_api.
#[local] Instance sample_json_store : JSONStore := {| readBack := decodeAgain; readBack_textual := decodeAgain_textual |}.

(** A cluster with every monitoring feature on; [rules] are its custom rule groups. *)
Definition monitored_cluster (rules : list any) : AerospikeCluster :=
  (example_cluster 2 None) <| cl_Spec ::= fun s => s <| spec_Monitoring := Some (mkMonitoringSpec true "exporter:1" 9145 None [] []
    (Some (mkServiceMonitorSpec true "30s" [("release", "prom")])) (Some (mkPrometheusRuleSpec true [] rules))) |> |>.

Definition monitored_world (rules : list any) : World (H := sample_env) :=
  sample_world (monitored_cluster rules) [] [] (mkStub [] [] [] []).

Lemma reconcileMonitoring_settles_witness :
  let cluster := monitored_cluster [] in
  let w := (monitored_world []) <| w_serviceMonitors := [mkUnstructured "demo-monitor" [] None; mkUnstructured "other" [] None] |> in
  un_Name <$> w_serviceMonitors (snd (reconcileMonitoring (H := sample_env) cluster w)) = ["demo-monitor"; "other"] /\
  let '(r, w') := reconcileMonitoring (H := sample_env) cluster w in
  (w_faults w = [] -> r = inr ()) /\
  (r = inr () -> monitored (H := sample_env) cluster w w' /\ w_trace (snd (reconcileMonitoring (H := sample_env) cluster w')) = w_trace w').
Proof.
  intros cluster w. split; [by vm_compute|].
  apply (reconcileMonitoring_settles (H := sample_env) cluster w); [constructor|]. intros _. split; [by eexists|by vm_compute].
Defined.

(** The metrics service is created; the other two kinds are refused. *)
Lemma refused_monitoring_succeeds_witness :
  let cluster := monitored_cluster [] in
  let faults := [None; None; Some (mkErr KForbidden "servicemonitors is forbidden"); Some (mkErr KNoMatch "no matches for kind")] in
  let w := (monitored_world []) <| w_faults := faults |> in
  fst (reconcileMonitoring (H := sample_env) cluster w) = inr ().
Proof.
  intros cluster faults w.
  apply (refused_monitoring_succeeds (H := sample_env) cluster w
    (snd (reconcileMetricsService (H := sample_env) cluster (monitoringEnabled cluster) w))).
  - reflexivity.
  - assert (w_faults (snd (reconcileMetricsService (H := sample_env) cluster (monitoringEnabled cluster) w)) =
      [Some (mkErr KForbidden "servicemonitors is forbidden"); Some (mkErr KNoMatch "no matches for kind")]) as -> by (by vm_compute).
    apply Forall_cons. split; [intros e [= <-]; by right|]. apply Forall_cons. split; [intros e [= <-]; by left|constructor].
  - intros _. by eexists.
Defined.

(** ** Behaviours that differ from what is meant *)

(** A custom rule group that holds a number is written again on every pass: the number
    is decoded as a float from the spec and as an integer from the API server. *)
Definition numbered_group : any :=
  AMap [("name", AString "slow"); ("limit", AFloat64 (float64_of_Z 5)); ("rules", AList [])].

Theorem numbered_rules_rewritten :
  let cluster := monitored_cluster [numbered_group] in
  let pass w := snd (reconcileMonitoring (H := sample_env) cluster w) in
  let w1 := pass (monitored_world [numbered_group]) in
  w_trace (pass w1) = AUpdateObj "PrometheusRule" "demo-alerts" :: w_trace w1 /\
  w_trace (pass (pass w1)) = AUpdateObj "PrometheusRule" "demo-alerts" :: w_trace (pass w1).
Proof. split; by vm_compute. Qed.

(** The descriptions of two default alerts say 80%%: the doubled sign is meant for Sprintf,
    which these texts do not go through. *)
Definition alertTexts (groups : list any) : list string :=
  group ← groups;
  rule ← default [] (as_map group ≫= fun m => as_list (map_index "rules" m));
  from_option (fun text => [text]) []
    (m ← as_map rule; a ← as_map (map_index "annotations" m); as_string (map_index "description" a)).

Theorem doubled_percent_in_alerts c ns :
  let texts := alertTexts (defaultAlertRules c ns) in
  texts !! 2%nat = Some "Namespace {{ $labels.ns }} on {{ $labels.pod }} disk usage is above 80%%." /\
  texts !! 3%nat = Some "Namespace {{ $labels.ns }} on {{ $labels.pod }} memory usage is above 80%%.".
Proof. by split. Qed.

(** Changing the type of the network policy leaves the policy of the old type in force: only
    the chosen kind is looked at. *)
Definition policed_cluster (ty : NetworkPolicyType) : AerospikeCluster :=
  (example_cluster 2 None) <| cl_Spec ::= fun s => s <| spec_NetworkPolicyConfig := Some (mkNetworkPolicyConfig true ty) |> |>.

Theorem old_policy_left_behind :
  let w := sample_world (policed_cluster NetworkPolicyTypeKubernetes) [] [] (mkStub [] [] [] []) in
  let w1 := snd (reconcileNetworkPolicy (H := sample_env) (policed_cluster NetworkPolicyTypeKubernetes) w) in
  let run := reconcileNetworkPolicy (H := sample_env) (policed_cluster NetworkPolicyTypeCilium) w1 in
  fst run = inr () /\ np_Name <$> w_networkPolicies (snd run) = ["demo-netpol"] /\
  un_Name <$> w_ciliumPolicies (snd run) = ["demo-netpol"].
Proof. split; [by vm_compute|]. split; by vm_compute. Qed.

(** Nor is it removed when the policy is switched off by dropping the whole block: without
    it the type is the default one. *)
Theorem dropped_cilium_policy_left_behind :
  let w := sample_world (policed_cluster NetworkPolicyTypeCilium) [] [] (mkStub [] [] [] []) in
  let w1 := snd (reconcileNetworkPolicy (H := sample_env) (policed_cluster NetworkPolicyTypeCilium) w) in
  let run := reconcileNetworkPolicy (H := sample_env) (example_cluster 2 None) w1 in
  fst run = inr () /\ un_Name <$> w_ciliumPolicies (snd run) = ["demo-netpol"].
Proof. split; by vm_compute. Qed.
