(* ===== verification/ACL.v ===== *)
(** * Access control

    internal/controller/reconciler_acl.go and retry.go: the roles and users of the
    spec are made the roles and users of the Aerospike cluster, with one retry on a
    connection that broke.  The administration calls of the client library are the
    class [AdminClient]: what the server knows is a [security] database, a query
    that succeeds reports it, and a command that is accepted has its effect on it. *)

From S2P Require Import Prelude GoValue Utils Api Metrics Events Kube Aero Sizing Status.

(** ** The security database of the servers *)

Record security := mkSecurity {
  sec_roles : gmap string (gset Privilege);
  sec_users : gmap string (string * gset string)
}.

(** The effect of a command that is accepted. *)
Definition exec (c : adminCommand) (s : security) : security :=
  match c with
  | CreateRole n ps _ => mkSecurity (<[n := list_to_set ps]> (sec_roles s)) (sec_users s)
  | DropRole n => mkSecurity (delete n (sec_roles s)) (sec_users s)
  | GrantPrivileges n ps => mkSecurity (alter (fun X => X ∪ list_to_set ps) n (sec_roles s)) (sec_users s)
  | RevokePrivileges n ps => mkSecurity (alter (fun X => X ∖ list_to_set ps) n (sec_roles s)) (sec_users s)
  | CreateUser n pw rs => mkSecurity (sec_roles s) (<[n := (pw, list_to_set rs)]> (sec_users s))
  | DropUser n => mkSecurity (sec_roles s) (delete n (sec_users s))
  | GrantRoles n rs => mkSecurity (sec_roles s) (alter (fun u => (u.1, u.2 ∪ list_to_set rs)) n (sec_users s))
  | RevokeRoles n rs => mkSecurity (sec_roles s) (alter (fun u => (u.1, u.2 ∖ list_to_set rs)) n (sec_users s))
  | ChangePassword n pw => mkSecurity (sec_roles s) (alter (fun u => (pw, u.2)) n (sec_users s))
  end.

(** Neither the code of a privilege nor its namespace has a colon in it. *)
Definition colon_free (p : Privilege) : Prop :=
  str_contains ":" (prv_Code p) = false /\ str_contains ":" (prv_Namespace p) = false.

Class AdminClient `{Environment} := {
  security_of : aero_state -> security;
  (** [QueryRoles] and [QueryUsers]: names with their privileges, and with their roles *)
  admin_roles : list AeroNode -> aero_state -> goerr + list (string * list Privilege);
  admin_users : list AeroNode -> aero_state -> goerr + list (string * list string);
  admin_do : list AeroNode -> adminCommand -> aero_state -> (goerr + ()) * aero_state;
  admin_roles_names client s l : admin_roles client s = inr l -> NoDup l.*1;
  admin_roles_ok client s l : admin_roles client s = inr l ->
    forall n X, sec_roles (security_of s) !! n = Some X <-> exists ps, (n, ps) ∈ l /\ X = list_to_set ps;
  admin_roles_clean client s l n ps p : admin_roles client s = inr l -> (n, ps) ∈ l -> p ∈ ps -> colon_free p;
  admin_users_names client s l : admin_users client s = inr l -> NoDup l.*1;
  admin_users_ok client s l : admin_users client s = inr l ->
    forall n X, (snd <$> sec_users (security_of s) !! n) = Some X <-> exists rs, (n, rs) ∈ l /\ X = list_to_set rs;
  admin_do_ok client c s s' : admin_do client c s = (inr (), s') -> security_of s' = exec c (security_of s);
  (** a command that fails has had its effect or none *)
  admin_do_any client c s e s' : admin_do client c s = (inl e, s') ->
    security_of s' = security_of s \/ security_of s' = exec c (security_of s)
}.

(** ** Privileges *)

Definition builtinRoles : list string :=
  ["user-admin"; "sys-admin"; "data-admin"; "read"; "write"; "read-write"; "read-write-udf"; "truncate"].

(** [privilegeFromCodeString]: the eight codes the client library exports. *)
Definition privilegeFromCodeString (s : string) : goerr + Privilege :=
  if decide (s ∈ ["read"; "write"; "read-write"; "read-write-udf"; "sys-admin"; "user-admin"; "data-admin"; "truncate"])
  then inr (mkPrivilege s "" "")
  else inl (Errorf ("unknown privilege code " +:+ s)).

(** [strings.SplitN(s, ".", 3)]. *)
Definition privilegeParts (s : string) : string * option string * option string :=
  match split_first "." s with
  | None => (s, None, None)
  | Some (code, rest) =>
      match split_first "." rest with
      | None => (code, Some rest, None)
      | Some (ns, set) => (code, Some ns, Some set)
      end
  end.

(** [parsePrivilege]. *)
Definition parsePrivilege (s : string) : goerr + Privilege :=
  let '(code, ns, set) := privilegeParts s in
  match privilegeFromCodeString code with
  | inl e => inl e
  | inr priv => inr (mkPrivilege (prv_Code priv) (default (prv_Namespace priv) ns) (default (prv_SetName priv) set))
  end.

(** [roleParsedPrivileges]. *)
Fixpoint parsePrivileges (roleName : string) (l : list string) : goerr + list Privilege :=
  match l with
  | [] => inr []
  | s :: l =>
      match parsePrivilege s, parsePrivileges roleName l with
      | inl e, _ => inl (wrapErr ("role " +:+ roleName) e)
      | inr _, inl e => inl e
      | inr p, inr ps => inr (p :: ps)
      end
  end.

Definition roleParsedPrivileges (roleSpec : AerospikeRoleSpec) : goerr + list Privilege :=
  parsePrivileges (role_Name roleSpec) (role_Privileges roleSpec).

(** [privilegeKey] and [privilegeSet]. *)
Definition privilegeKey (p : Privilege) : string := prv_Code p +:+ ":" +:+ prv_Namespace p +:+ ":" +:+ prv_SetName p.

Definition privilegeSet (privs : list Privilege) : gomap Privilege :=
  foldl (fun set p => map_set (privilegeKey p) p set) [] privs.

(** The entries of one set whose keys the other lacks. *)
Definition missingFrom {A B} (a : gomap A) (b : gomap B) : gomap A := filter (fun e => map_has e.1 b = false) a.

(** [sliceToSet]. *)
Definition sliceToSet (ss : list string) : gomap bool := foldl (fun set s => map_set s true set) [] ss.

(** ** Retries *)

Definition transientAeroErrorSubstrings : list string :=
  ["connection reset"; "connection refused"; "timeout"; "i/o timeout"; "broken pipe"; "eof";
   "network is unreachable"; "no available connections"; "not connected"].

(** [isTransientAeroError]. *)
Definition isTransientAeroError (e : goerr) : bool :=
  existsb (fun sub => contains_str sub (to_lower (err_msg e))) transientAeroErrorSubstrings.

Section ACL.
Context `{Environment} `{!AdminClient}.

Definition adminDo (client : list AeroNode) (c : adminCommand) : M () := fun w =>
  let '(r, s) := admin_do client c (w_aero w) in
  (r, w <| w_aero := s |> <| w_trace ::= cons (AAdmin c) |>).

Definition queryRoles (client : list AeroNode) : M (list (string * list Privilege)) :=
  s ← gets w_aero; lift (admin_roles client s).

Definition queryUsers (client : list AeroNode) : M (list (string * list string)) :=
  s ← gets w_aero; lift (admin_users client s).

(** [retryOnTransient]. *)
Definition retryOnTransient (fn : M ()) : M () :=
  r ← try fn;
  match r with
  | inr _ => mret ()
  | inl e => if isTransientAeroError e then fn else raise e
  end.

(** [retryOnTransientWithReconnect]. *)
Definition retryOnTransientWithReconnect (getClient : M (list AeroNode)) (fn : list AeroNode -> M ()) : M () :=
  initial ← getClient;
  r ← try (fn initial);
  match r with
  | inr _ => mret ()
  | inl e =>
      if isTransientAeroError e then
        fresh ← try getClient;
        match fresh with inl _ => raise e | inr fresh => fn fresh end
      else raise e
  end.

(** [syncRolePrivileges]. *)
Definition syncRolePrivileges (client : list AeroNode) (roleName : string) (current desired : list Privilege) : M () :=
  let currentSet := privilegeSet current in
  let desiredSet := privilegeSet desired in
  let toGrant := (missingFrom desiredSet currentSet).*2 in
  _ ← (match toGrant with
       | [] => mret ()
       | _ => wrapping ("granting privileges to role " +:+ roleName) (adminDo client (GrantPrivileges roleName toGrant))
       end);
  let toRevoke := (missingFrom currentSet desiredSet).*2 in
  match toRevoke with
  | [] => mret ()
  | _ => wrapping ("revoking privileges from role " +:+ roleName) (adminDo client (RevokePrivileges roleName toRevoke))
  end.

(** [syncUserRoles]. *)
Definition syncUserRoles (client : list AeroNode) (userName : string) (currentRoles desiredRoles : list string) : M () :=
  let currentSet := sliceToSet currentRoles in
  let desiredSet := sliceToSet desiredRoles in
  let toGrant := (missingFrom desiredSet currentSet).*1 in
  _ ← (match toGrant with
       | [] => mret ()
       | _ => wrapping ("granting roles to user " +:+ userName) (adminDo client (GrantRoles userName toGrant))
       end);
  let toRevoke := (missingFrom currentSet desiredSet).*1 in
  match toRevoke with
  | [] => mret ()
  | _ => wrapping ("revoking roles from user " +:+ userName) (adminDo client (RevokeRoles userName toRevoke))
  end.

(** The body of the first loop of [reconcileRoles]. *)
Definition parsedOrInvalid (roleSpec : AerospikeRoleSpec) : M (list Privilege) :=
  match roleParsedPrivileges roleSpec with
  | inl e => raise (NewValidationf ("parsing privileges for role " +:+ role_Name roleSpec +:+ ": " +:+ err_msg e))
  | inr ps => mret ps
  end.

Definition reconcileRole (client : list AeroNode) (existingRoles : list (string * list Privilege)) (roleSpec : AerospikeRoleSpec) : M () :=
  match map_get (role_Name roleSpec) (mapsCopy [] existingRoles) with
  | None =>
      privileges ← parsedOrInvalid roleSpec;
      wrapping ("creating role " +:+ role_Name roleSpec) (adminDo client (CreateRole (role_Name roleSpec) privileges []))
  | Some existing =>
      desiredPrivs ← parsedOrInvalid roleSpec;
      wrapping ("syncing privileges for role " +:+ role_Name roleSpec)
        (syncRolePrivileges client (role_Name roleSpec) existing desiredPrivs)
  end.

(** [reconcileRoles]. *)
Definition reconcileRoles (acl : AerospikeAccessControlSpec) (client : list AeroNode) : M () :=
  existingRoles ← wrapping "querying roles" (queryRoles client);
  _ ← forM_ (acl_Roles acl) (reconcileRole client existingRoles);
  forM_ existingRoles (fun role =>
    if decide (~ (role.1 ∈ role_Name <$> acl_Roles acl) /\ ~ (role.1 ∈ builtinRoles))
    then wrapping ("dropping role " +:+ role.1) (adminDo client (DropRole role.1))
    else mret ()).

(** The body of the first loop of [reconcileUsers]. *)
Definition reconcileUser (client : list AeroNode) (existingUsers : list (string * list string)) (userSpec : AerospikeUserSpec) : M () :=
  password ← wrapping ("getting password for user " +:+ user_Name userSpec) (getPasswordFromSecret (user_SecretName userSpec));
  match map_get (user_Name userSpec) (mapsCopy [] existingUsers) with
  | None =>
      wrapping ("creating user " +:+ user_Name userSpec)
        (adminDo client (CreateUser (user_Name userSpec) password (user_Roles userSpec)))
  | Some existing =>
      _ ← wrapping ("syncing roles for user " +:+ user_Name userSpec)
            (syncUserRoles client (user_Name userSpec) existing (user_Roles userSpec));
      wrapping ("changing password for user " +:+ user_Name userSpec)
        (adminDo client (ChangePassword (user_Name userSpec) password))
  end.

(** The admin user of the spec that was applied before. *)
Definition previousAdmin (cluster : AerospikeCluster) : option AerospikeUserSpec :=
  spec ← st_AppliedSpec (cl_Status cluster); FindAdminUser (acl_Users <$> spec_AerospikeAccessControl spec).

(** Whether an existing user that the spec does not have is an admin that must stay:
    the one the controller connects as, or the one it is being renamed from. *)
Definition isConnectedAdmin (cluster : AerospikeCluster) (user : string) : bool :=
  bool_decide ((user_Name <$> adminUser cluster) = Some user).

Definition isRenamedAdmin (cluster : AerospikeCluster) (user : string) : bool :=
  match previousAdmin cluster, adminUser cluster with
  | Some prev, Some admin => bool_decide (user = user_Name prev /\ user_Name prev <> user_Name admin)
  | _, _ => false
  end.

(** [reconcileUsers]. *)
Definition reconcileUsers (cluster : AerospikeCluster) (acl : AerospikeAccessControlSpec) (client : list AeroNode) : M () :=
  existingUsers ← wrapping "querying users" (queryUsers client);
  _ ← forM_ (acl_Users acl) (reconcileUser client existingUsers);
  forM_ existingUsers (fun user =>
    if decide (user.1 ∈ user_Name <$> acl_Users acl) then mret ()
    else if isConnectedAdmin cluster user.1 then mret ()
    else if isRenamedAdmin cluster user.1 then record true EventACLSyncError
    else wrapping ("dropping user " +:+ user.1) (adminDo client (DropUser user.1))).

(** A failed part of the synchronisation is counted. *)
Definition aclCounted {A} (cluster : AerospikeCluster) : M A -> M A := onError (incCounterWith ACLSyncTotal cluster "error").

(** [reconcileACL]: whether the spec was applied. *)
Definition reconcileACL (cluster : AerospikeCluster) : M bool :=
  match spec_AerospikeAccessControl (cl_Spec cluster) with
  | None => mret false
  | Some acl =>
      pods ← wrapping "listing pods for ACL sync" (listClusterPods cluster);
      if existsb isPodReady pods then
        _ ← record false EventACLSyncStarted;
        let getClient := getAerospikeClientWithRetry cluster in
        _ ← wrapping "ACL sync roles" (aclCounted cluster (retryOnTransientWithReconnect getClient (reconcileRoles acl)));
        _ ← wrapping "ACL sync users" (aclCounted cluster (retryOnTransientWithReconnect getClient (reconcileUsers cluster acl)));
        _ ← incCounterWith ACLSyncTotal cluster "success";
        _ ← record false EventACLSyncCompleted;
        mret true
      else mret false
  end.

End ACL.

(** ** Keys of privileges *)

Lemma privilegeKey_inj p q : colon_free p -> colon_free q -> privilegeKey p = privilegeKey q -> p = q.
Proof.
  destruct p as [c n s], q as [c' n' s']. intros [Hc Hn] [Hc' Hn'] Heq. unfold privilegeKey in Heq. simpl in *.
  assert (forall a b, a +:+ ":" +:+ b = a +:+ String ":" b) as Hs by done. rewrite !Hs in Heq.
  pose proof (proj2 (split_first_Some ":" _ c (n +:+ String ":" s)) (conj eq_refl Hc)) as E1.
  pose proof (proj2 (split_first_Some ":" _ c' (n' +:+ String ":" s')) (conj eq_refl Hc')) as E2.
  rewrite Heq, E2 in E1. injection E1 as -> E1.
  pose proof (proj2 (split_first_Some ":" _ n s) (conj eq_refl Hn)) as E3.
  pose proof (proj2 (split_first_Some ":" _ n' s') (conj eq_refl Hn')) as E4.
  rewrite <- E1, E4 in E3. by injection E3 as -> ->.
Qed.

Lemma privilegeSet_get k p privs : map_get k (privilegeSet privs) = Some p -> p ∈ privs /\ privilegeKey p = k.
Proof.
  assert (forall acc, map_get k (foldl (fun set p => map_set (privilegeKey p) p set) acc privs) = Some p ->
    map_get k acc = Some p \/ (p ∈ privs /\ privilegeKey p = k)) as Hgo.
  { induction privs as [|q privs IH]; intros acc Hk; [by left|]. simpl in Hk. apply IH in Hk as [Hk|[Hin Hk]]; [|right; set_solver].
    rewrite map_get_set in Hk. case_decide as Hd; [|by left]. injection Hk as ->. right. split; [left|done]. }
  intros Hk. by apply Hgo in Hk as [Hk|Hk].
Qed.

Lemma privilegeSet_has p privs : p ∈ privs -> is_Some (map_get (privilegeKey p) (privilegeSet privs)).
Proof.
  assert (forall acc, p ∈ privs \/ is_Some (map_get (privilegeKey p) acc) ->
    is_Some (map_get (privilegeKey p) (foldl (fun set p => map_set (privilegeKey p) p set) acc privs))) as Hgo; [|intros Hp; apply Hgo; by left].
  induction privs as [|q privs IH]; intros acc Hp; [destruct Hp as [Hp|Hp]; [by apply elem_of_nil in Hp|done]|]. simpl. apply IH.
  rewrite map_get_set. case_decide as Hd; [right; by eexists|]. destruct Hp as [Hp|Hp]; [|by right].
  apply elem_of_cons in Hp as [->|Hp]; [done|by left].
Qed.

Lemma map_wf_privilegeSet privs : map_wf (privilegeSet privs).
Proof.
  unfold privilegeSet. generalize (map_wf_nil (A := Privilege)). generalize (@nil (string * Privilege)) as acc.
  induction privs as [|q privs IH]; intros acc Hacc; [done|]. simpl. by apply IH, map_wf_set.
Qed.

(** The privileges to grant are those of the one list that the other lacks. *)
Lemma missing_privileges a b p :
  (forall q, q ∈ a \/ q ∈ b -> colon_free q) ->
  p ∈ (missingFrom (privilegeSet a) (privilegeSet b)).*2 <-> p ∈ a /\ ~ (p ∈ b).
Proof.
  intros Hc. unfold missingFrom. split.
  - intros ([k q] & -> & [Hb Ha]%list_elem_of_filter)%list_elem_of_fmap. simpl in *.
    apply (map_get_Some _ _ _ (map_wf_privilegeSet a)) in Ha. apply privilegeSet_get in Ha as [Ha <-]. split; [done|].
    intros Hq%privilegeSet_has. by apply bool_decide_eq_false in Hb.
  - intros [Ha Hb]. destruct (privilegeSet_has p a Ha) as [q Hq]. pose proof (privilegeSet_get _ _ _ Hq) as [Hqa Hk].
    apply privilegeKey_inj in Hk; [|apply Hc; by left..]. subst q. apply list_elem_of_fmap. exists (privilegeKey p, p). split; [done|].
    apply list_elem_of_filter. split; [|by apply map_get_Some_in]. apply bool_decide_eq_false. simpl. intros [q Hb'].
    apply privilegeSet_get in Hb' as [Hqb Hk]. apply privilegeKey_inj in Hk; [|apply Hc; by (left + right)..]. by subst q.
Qed.

Lemma sliceToSet_get k v ss : map_get k (sliceToSet ss) = Some v <-> k ∈ ss /\ v = true.
Proof.
  assert (forall acc, (forall k v, map_get k acc = Some v -> v = true) ->
    map_get k (foldl (fun set s => map_set s true set) acc ss) = Some v <-> (k ∈ ss \/ is_Some (map_get k acc)) /\ v = true) as Hgo.
  { induction ss as [|x ss IH]; intros acc Hacc; simpl.
    - split; [intros Hk; split; [right; by eexists|by eapply Hacc]|]. intros [[Hk|[v' Hk]] ->]; [by apply elem_of_nil in Hk|].
      by rewrite Hk, (Hacc _ _ Hk).
    - rewrite IH; [|intros k' v'; rewrite map_get_set; case_decide; [by intros [= <-]|apply Hacc]].
      rewrite map_get_set, elem_of_cons. case_decide; subst; naive_solver. }
  unfold sliceToSet. rewrite Hgo by done. simpl. split; [intros [[Hk|[? ?]] ->]; done|intros [Hk ->]; naive_solver].
Qed.

Lemma map_wf_sliceToSet ss : map_wf (sliceToSet ss).
Proof.
  unfold sliceToSet. generalize (map_wf_nil (A := bool)). generalize (@nil (string * bool)) as acc.
  induction ss as [|q ss IH]; intros acc Hacc; [done|]. simpl. by apply IH, map_wf_set.
Qed.

Lemma missing_roles a b r : r ∈ (missingFrom (sliceToSet a) (sliceToSet b)).*1 <-> r ∈ a /\ ~ (r ∈ b).
Proof.
  unfold missingFrom. rewrite list_elem_of_fmap. split.
  - intros ([k v] & -> & [Hb Ha]%list_elem_of_filter). simpl in *. apply (map_get_Some _ _ _ (map_wf_sliceToSet a)) in Ha.
    apply sliceToSet_get in Ha as [Ha _]. split; [done|]. intros Hr. apply bool_decide_eq_false in Hb. apply Hb. exists true.
    by apply sliceToSet_get.
  - intros [Ha Hb]. exists (r, true). split; [done|]. apply list_elem_of_filter.
    split; [|by apply map_get_Some_in, sliceToSet_get]. apply bool_decide_eq_false. simpl. intros [v Hv]. by apply sliceToSet_get in Hv as [Hv _].
Qed.

(** ** Effects on the security database *)

Section Effects.
Context `{Environment} `{!AdminClient}.

Definition secOf (w : World) : security := security_of (w_aero w).

(** Runs of [m] that return, in a world with these secrets. *)
Definition effect {A} (secrets : gomap (gomap string)) (m : M A) (P : security -> Prop) (Q : A -> security -> Prop) : Prop :=
  forall w a w', w_secrets w = secrets -> P (secOf w) -> m w = (inr a, w') -> Q a (secOf w').

Lemma effect_ret {A} ss (a : A) (P : security -> Prop) Q : (forall s, P s -> Q a s) -> effect ss (mret a) P Q.
Proof. intros HQ w b w' _ HP [= <- <-]. by apply HQ. Qed.

Lemma effect_raise {A} ss e (P : security -> Prop) Q : effect ss (raise (A := A) e) P Q.
Proof. by intros w b w' _ _ [=]. Qed.

Lemma effect_weaken {A} ss (m : M A) (P P' : security -> Prop) (Q Q' : A -> security -> Prop) :
  effect ss m P' Q' -> (forall s, P s -> P' s) -> (forall a s, Q' a s -> Q a s) -> effect ss m P Q.
Proof. intros Hm HP HQ w a w' Hs Hw Hr. eapply HQ, Hm; [done|by apply HP|done]. Qed.

Lemma effect_pre {A} ss (m : M A) (P : security -> Prop) Q : (forall s0, P s0 -> effect ss m (fun s => s = s0) Q) -> effect ss m P Q.
Proof. intros Hm w a w' Hs HP Hr. by eapply Hm. Qed.

Lemma effect_bind {A B} ss (m : M A) (f : A -> M B) P Q R :
  keeps (agree w_secrets) m -> effect ss m P Q -> (forall a, effect ss (f a) (Q a) R) -> effect ss (m ≫= f) P R.
Proof.
  intros Hk Hm Hf w b w' Hs HP (a & w1 & H1 & H2)%bind_ok. eapply Hf; [|by eapply Hm|done].
  rewrite <- Hs. by apply (keeps_run _ _ _ _ _ Hk H1).
Qed.

Lemma effect_wrapping {A} ss msg (m : M A) P Q : effect ss m P Q -> effect ss (wrapping msg m) P Q.
Proof. intros Hm w a w' Hs HP Hr%wrapping_ok. by eapply Hm. Qed.

(** Reads leave the database alone. *)
Lemma effect_read {A} ss (m : M A) (P : security -> Prop) : keeps (agree secOf) m -> effect ss m P (fun _ => P).
Proof. intros Hk w a w' _ HP Hr. pose proof (keeps_run _ _ _ _ _ Hk Hr) as Hs. unfold agree in Hs. by rewrite Hs. Qed.

Lemma effect_adminDo ss client c s0 :
  effect ss (adminDo client c) (fun s => s = s0) (fun _ s => s = exec c s0).
Proof.
  intros w [] w' _ <- Hr. unfold adminDo in Hr. destruct (admin_do client c (w_aero w)) as [[e|[]] s] eqn:Hd; [done|].
  injection Hr as <-. by apply admin_do_ok in Hd.
Qed.

Lemma effect_forM {A} ss (f : A -> M ()) (I : list A -> security -> Prop) xs :
  (forall x, keeps (agree w_secrets) (f x)) ->
  (forall pre x post, xs = pre ++ x :: post -> effect ss (f x) (I pre) (fun _ => I (pre ++ [x]))) ->
  effect ss (forM_ xs f) (I []) (fun _ => I xs).
Proof.
  intros Hk Hf. assert (forall post pre, xs = pre ++ post -> effect ss (forM_ post f) (I pre) (fun _ => I xs)) as Hgo; [|by apply Hgo].
  induction post as [|x post IH]; intros pre Heq.
  - rewrite app_nil_r in Heq. subst pre. by apply effect_ret.
  - simpl. eapply effect_bind; [done|by eapply Hf|]. intros []. apply IH. by rewrite <- app_assoc.
Qed.

(** Each attempt starts from whatever the one before left behind. *)
Lemma effect_retry ss getClient fn (Q : security -> Prop) :
  keeps (agree w_secrets) getClient -> (forall client, keeps (agree w_secrets) (fn client)) ->
  (forall client, effect ss (fn client) (fun _ => True) (fun _ => Q)) ->
  effect ss (retryOnTransientWithReconnect getClient fn) (fun _ => True) (fun _ => Q).
Proof.
  intros Hg Hk Hf. unfold retryOnTransientWithReconnect. apply (effect_bind _ _ _ _ (fun _ _ => True)); [done|done|]. intros client.
  intros w [] w' Hs _ (r & w1 & H1 & H2)%bind_try_ok.
  assert (w_secrets w1 = ss) as Hs1 by (rewrite <- Hs; by apply (keeps_run _ _ _ _ _ (Hk client) H1)).
  destruct r as [e|[]]; [|injection H2 as <-; exact (Hf client w () w1 Hs I H1)].
  destruct (isTransientAeroError e); [|done]. apply bind_try_ok in H2 as (fresh & w2 & H3 & H4).
  destruct fresh as [e'|fresh]; [done|]. refine (Hf fresh w2 () w' _ I H4).
  rewrite <- Hs1. by apply (keeps_run _ _ _ _ _ Hg H3).
Qed.

(** ** Frames *)

Lemma keeps_adminDo (R : relation World) client c :
  (forall w s, R w (w <| w_aero := s |> <| w_trace ::= cons (AAdmin c) |>)) -> keeps R (adminDo client c).
Proof. intros HR w. unfold adminDo. destruct (admin_do _ _ _) as [r s]. apply HR. Qed.

Lemma secrets_adminDo client c : keeps (agree w_secrets) (adminDo client c).
Proof. by apply keeps_adminDo. Qed.

(** Reading a password and connecting involve no command. *)
Lemma keeps_password R `{!Frame R} name : keeps R (getPasswordFromSecret name).
Proof. unfold getPasswordFromSecret. frame. Qed.

Lemma keeps_client R `{!Frame R} cluster n : keeps R (clientAttempts n cluster).
Proof. pose proof (keeps_password R). induction n as [|n IH]; simpl; unfold getAerospikeClient; frame. Qed.

Lemma keeps_queryRoles R `{!Frame R} client : keeps R (queryRoles client).
Proof. unfold queryRoles. frame. Qed.

Lemma keeps_queryUsers R `{!Frame R} client : keeps R (queryUsers client).
Proof. unfold queryUsers. frame. Qed.

(** ** One role, one user *)

Lemma alter_insert_eq {V} (f : V -> V) k x (m : gmap string V) : m !! k = Some x -> alter f k m = <[k := f x]> m.
Proof.
  intros Hk. apply map_eq. intros j. destruct (decide (j = k)) as [->|Hj]; [by rewrite lookup_alter_eq, lookup_insert_eq, Hk|].
  by rewrite lookup_alter_ne, lookup_insert_ne.
Qed.

(** Granting what is missing and revoking what is extra gives the desired set. *)
Lemma grant_revoke `{Countable K} (cur des G R : list K) :
  (forall p, p ∈ G <-> p ∈ des /\ ~ (p ∈ cur)) -> (forall p, p ∈ R <-> p ∈ cur /\ ~ (p ∈ des)) ->
  (list_to_set cur ∪ list_to_set G) ∖ list_to_set R =@{gset K} list_to_set des.
Proof.
  intros HG HR. apply set_eq. intros p. rewrite elem_of_difference, elem_of_union, !elem_of_list_to_set, HG, HR.
  destruct (decide (p ∈ cur)), (decide (p ∈ des)); tauto.
Qed.

(** A grant or revocation that is left out when there is nothing to do. *)
Lemma effect_unless_nil {A} ss client msg (l : list A) c s0 s1 :
  (l = [] -> s1 = s0) -> (l <> [] -> exec c s0 = s1) ->
  effect ss (match l with [] => mret () | _ => wrapping msg (adminDo client c) end) (fun s => s = s0) (fun _ s => s = s1).
Proof.
  intros Hnil Hc. destruct l as [|x l]; [apply effect_ret; intros s ->; by rewrite Hnil|].
  apply effect_wrapping. eapply effect_weaken; [apply effect_adminDo|intros s Hs; exact Hs|]. intros [] s ->. by apply Hc.
Qed.

Lemma secrets_unless_nil {A} client msg (l : list A) c :
  keeps (agree w_secrets) (match l with [] => mret () | _ => wrapping msg (adminDo client c) end).
Proof. pose proof (secrets_adminDo client c). destruct l; frame. Qed.

Lemma syncRolePrivileges_effect ss client name cur des s0 :
  sec_roles s0 !! name = Some (list_to_set cur) -> (forall q, q ∈ des \/ q ∈ cur -> colon_free q) ->
  effect ss (syncRolePrivileges client name cur des) (fun s => s = s0)
    (fun _ s => s = mkSecurity (<[name := list_to_set des]> (sec_roles s0)) (sec_users s0)).
Proof.
  intros Hcur Hc. unfold syncRolePrivileges. cbv zeta.
  set (G := (missingFrom (privilegeSet des) (privilegeSet cur)).*2). set (R := (missingFrom (privilegeSet cur) (privilegeSet des)).*2).
  set (s1 := mkSecurity (<[name := list_to_set cur ∪ list_to_set G]> (sec_roles s0)) (sec_users s0)).
  assert ((list_to_set cur ∪ list_to_set G) ∖ list_to_set R =@{gset Privilege} list_to_set des) as Heq.
  { apply grant_revoke; intros p; apply missing_privileges; intros q Hq; apply Hc; tauto. }
  eapply effect_bind; [apply secrets_unless_nil|apply (effect_unless_nil _ _ _ _ _ s0 s1)|intros []; eapply effect_unless_nil].
  - intros Hnil. unfold s1. rewrite Hnil. simpl. rewrite union_empty_r_L, insert_id by done. by destruct s0.
  - intros _. simpl. by rewrite (alter_insert_eq _ _ (list_to_set cur)).
  - intros Hnil. unfold s1. rewrite <- Heq, Hnil. simpl. by rewrite difference_empty_L.
  - intros _. simpl. rewrite (alter_insert_eq _ _ (list_to_set cur ∪ list_to_set G)) by by rewrite lookup_insert_eq.
    by rewrite insert_insert_eq, Heq.
Qed.

Lemma syncUserRoles_effect ss client name pw cur des s0 :
  sec_users s0 !! name = Some (pw, list_to_set cur) ->
  effect ss (syncUserRoles client name cur des) (fun s => s = s0)
    (fun _ s => s = mkSecurity (sec_roles s0) (<[name := (pw, list_to_set des)]> (sec_users s0))).
Proof.
  intros Hcur. unfold syncUserRoles. cbv zeta.
  set (G := (missingFrom (sliceToSet des) (sliceToSet cur)).*1). set (R := (missingFrom (sliceToSet cur) (sliceToSet des)).*1).
  set (s1 := mkSecurity (sec_roles s0) (<[name := (pw, list_to_set cur ∪ list_to_set G)]> (sec_users s0))).
  assert ((list_to_set cur ∪ list_to_set G) ∖ list_to_set R =@{gset string} list_to_set des) as Heq.
  { apply grant_revoke; intros p; apply missing_roles. }
  eapply effect_bind; [apply secrets_unless_nil|apply (effect_unless_nil _ _ _ _ _ s0 s1)|intros []; eapply effect_unless_nil].
  - intros Hnil. unfold s1. rewrite Hnil. simpl. rewrite union_empty_r_L, insert_id by done. by destruct s0.
  - intros _. simpl. by rewrite (alter_insert_eq _ _ (pw, list_to_set cur)).
  - intros Hnil. unfold s1. rewrite <- Heq, Hnil. simpl. by rewrite difference_empty_L.
  - intros _. simpl. rewrite (alter_insert_eq _ _ (pw, list_to_set cur ∪ list_to_set G)) by by rewrite lookup_insert_eq.
    simpl. by rewrite insert_insert_eq, Heq.
Qed.

(** ** The roles *)

(** What a query reported. *)
Definition described (l : list (string * list Privilege)) (s : security) : Prop :=
  forall n, sec_roles s !! n = list_to_set <$> map_get n l.

Lemma queryRoles_effect ss client :
  effect ss (queryRoles client) (fun _ => True) (fun l s =>
    described l s /\ NoDup l.*1 /\ (forall n ps p, (n, ps) ∈ l -> p ∈ ps -> colon_free p)).
Proof.
  intros w l w' _ _ Hr. change (queryRoles client w) with (admin_roles client (w_aero w), w) in Hr. injection Hr as Hl <-.
  pose proof (admin_roles_names _ _ _ Hl) as Hnd. split; [|split; [done|]].
  - intros n. destruct (map_get n l) as [ps|] eqn:Hn.
    + apply (admin_roles_ok _ _ _ Hl). exists ps. split; [by apply map_get_Some_in|done].
    + destruct (sec_roles (secOf w) !! n) as [X|] eqn:HX; [|done]. apply (admin_roles_ok _ _ _ Hl) in HX as (ps & Hin & _).
      apply (map_get_Some n ps l Hnd) in Hin. congruence.
  - intros n ps p Hin Hp. by eapply admin_roles_clean.
Qed.

(** Privileges of the spec have no colons in their codes and namespaces. *)
Definition clean_roles (acl : AerospikeAccessControlSpec) : Prop :=
  forall role ps, role ∈ acl_Roles acl -> roleParsedPrivileges role = inr ps -> forall p, p ∈ ps -> colon_free p.

Definition setRole (n : string) (ps : list Privilege) (s : security) : security :=
  mkSecurity (<[n := list_to_set ps]> (sec_roles s)) (sec_users s).

Lemma reconcileRole_effect ss client l role s0 :
  NoDup l.*1 -> (forall n ps p, (n, ps) ∈ l -> p ∈ ps -> colon_free p) ->
  (forall ps p, roleParsedPrivileges role = inr ps -> p ∈ ps -> colon_free p) ->
  sec_roles s0 !! role_Name role = list_to_set <$> map_get (role_Name role) l ->
  effect ss (reconcileRole client l role) (fun s => s = s0)
    (fun _ s => exists ps, roleParsedPrivileges role = inr ps /\ s = setRole (role_Name role) ps s0).
Proof.
  intros Hnd Hcl Hcp Hs. unfold reconcileRole, parsedOrInvalid.
  assert (map_get (role_Name role) (mapsCopy [] l) = map_get (role_Name role) l) as ->.
  { rewrite map_get_copy by done. by destruct (map_get _ l). }
  assert (effect ss (match roleParsedPrivileges role with
      | inl e => raise (NewValidationf ("parsing privileges for role " +:+ role_Name role +:+ ": " +:+ err_msg e))
      | inr ps => mret ps
      end) (fun s => s = s0) (fun ps s => roleParsedPrivileges role = inr ps /\ s = s0)) as Hparse.
  { destruct (roleParsedPrivileges role) as [e|ps]; [apply effect_raise|]. by apply effect_ret. }
  destruct (map_get (role_Name role) l) as [cur|] eqn:Hget; (eapply effect_bind; [frame|exact Hparse|]);
    intros ps; apply effect_pre; intros s [Hps ->]; apply effect_wrapping.
  - eapply effect_weaken; [apply syncRolePrivileges_effect; [exact Hs|]|intros s Hs'; exact Hs'|].
    + intros q [Hq|Hq]; [by eapply Hcp|]. apply map_get_Some_in in Hget. by eapply Hcl.
    + intros [] s ->. by exists ps.
  - eapply effect_weaken; [apply effect_adminDo|intros s Hs'; exact Hs'|]. intros [] s ->. by exists ps.
Qed.

Lemma secrets_reconcileRole client l role : keeps (agree w_secrets) (reconcileRole client l role).
Proof. pose proof (secrets_adminDo client). unfold reconcileRole, parsedOrInvalid, syncRolePrivileges. frame. Qed.

(** Every role of the spec has exactly its privileges, and no other role is left but the
    predefined ones. *)
Definition roles_ok (acl : AerospikeAccessControlSpec) (s : security) : Prop :=
  (forall role, role ∈ acl_Roles acl -> exists ps, roleParsedPrivileges role = inr ps /\
     sec_roles s !! role_Name role = Some (list_to_set ps)) /\
  (forall n, is_Some (sec_roles s !! n) -> n ∈ role_Name <$> acl_Roles acl \/ n ∈ builtinRoles).

Lemma rolesLoop_effect ss client acl l s0 :
  described l s0 -> NoDup l.*1 -> (forall n ps p, (n, ps) ∈ l -> p ∈ ps -> colon_free p) -> clean_roles acl ->
  NoDup (role_Name <$> acl_Roles acl) ->
  effect ss (forM_ (acl_Roles acl) (reconcileRole client l)) (fun s => s = s0) (fun _ s =>
    (forall role, role ∈ acl_Roles acl -> exists ps, roleParsedPrivileges role = inr ps /\
       sec_roles s !! role_Name role = Some (list_to_set ps)) /\
    (forall n, n ∉ role_Name <$> acl_Roles acl -> sec_roles s !! n = sec_roles s0 !! n)).
Proof.
  intros Hd Hnd Hcl Hcr Hnames. eapply effect_weaken; [apply (effect_forM _ _ (fun pre s =>
    (forall role, role ∈ pre -> exists ps, roleParsedPrivileges role = inr ps /\ sec_roles s !! role_Name role = Some (list_to_set ps)) /\
    (forall n, n ∉ role_Name <$> pre -> sec_roles s !! n = sec_roles s0 !! n)) (acl_Roles acl))| |by intros [] s Hs].
  - intros role. apply secrets_reconcileRole.
  - intros pre role post Hsplit. apply effect_pre. intros s [H1 H2].
    assert (role_Name role ∉ role_Name <$> pre) as Hfresh.
    { rewrite Hsplit, fmap_app, fmap_cons in Hnames. apply NoDup_app in Hnames as (_ & Hn & _).
      intros Hin. apply (Hn _ Hin). left. }
    eapply effect_weaken; [apply (reconcileRole_effect _ _ _ _ s); [done|done| |]|intros s' Hs'; exact Hs'|].
    + intros ps p Hps. apply (Hcr role ps); [rewrite Hsplit; set_solver|done].
    + rewrite H2 by done. apply Hd.
    + intros [] s' (ps & Hps & ->). simpl. split.
      * intros role' [Hr|Hr]%elem_of_app; [|apply list_elem_of_singleton in Hr as ->; exists ps; by rewrite lookup_insert_eq].
        destruct (H1 role' Hr) as (ps' & Hps' & Hl). exists ps'. split; [done|]. rewrite lookup_insert_ne; [done|].
        intros Heq. apply Hfresh. rewrite Heq. by apply list_elem_of_fmap_2.
      * intros n Hn. rewrite fmap_app in Hn. rewrite lookup_insert_ne by set_solver. apply H2. set_solver.
  - intros s ->. split; [by intros role ?%elem_of_nil|done].
Qed.

Lemma dropRoles_effect ss client acl (l : list (string * list Privilege)) s0 :
  (forall n, is_Some (sec_roles s0 !! n) -> n ∈ role_Name <$> acl_Roles acl \/ n ∈ l.*1) ->
  effect ss (forM_ l (fun role =>
    if decide (~ (role.1 ∈ role_Name <$> acl_Roles acl) /\ ~ (role.1 ∈ builtinRoles))
    then wrapping ("dropping role " +:+ role.1) (adminDo client (DropRole role.1)) else mret ())) (fun s => s = s0) (fun _ s =>
    (forall n, n ∈ role_Name <$> acl_Roles acl -> sec_roles s !! n = sec_roles s0 !! n) /\
    (forall n, is_Some (sec_roles s !! n) -> n ∈ role_Name <$> acl_Roles acl \/ n ∈ builtinRoles)).
Proof.
  intros Hall. eapply effect_weaken; [apply (effect_forM _ _ (fun pre s =>
    (forall n, n ∈ role_Name <$> acl_Roles acl -> sec_roles s !! n = sec_roles s0 !! n) /\
    (forall n, is_Some (sec_roles s !! n) -> is_Some (sec_roles s0 !! n)) /\
    (forall n, n ∈ pre.*1 -> is_Some (sec_roles s !! n) -> n ∈ role_Name <$> acl_Roles acl \/ n ∈ builtinRoles)) l)| |].
  - intros role. pose proof (secrets_adminDo client). case_decide; frame.
  - intros pre [n ps] post _. apply effect_pre. intros s (H1 & H2 & H3). cbn [fst]. case_decide as Hdrop.
    + apply effect_wrapping. eapply effect_weaken; [apply effect_adminDo|intros s' Hs'; exact Hs'|]. intros [] s' ->. simpl. split_and!.
      * intros m Hm. rewrite lookup_delete_ne; [by apply H1|]. intros <-. by destruct Hdrop.
      * intros m Hm. apply H2. destruct (decide (m = n)) as [->|Hne]; [by rewrite lookup_delete_eq in Hm; destruct Hm|].
        by rewrite lookup_delete_ne in Hm.
      * intros m Hm Hs. rewrite fmap_app in Hm. destruct (decide (m = n)) as [->|Hne]; [by rewrite lookup_delete_eq in Hs; destruct Hs|].
        rewrite lookup_delete_ne in Hs by done. apply H3; [set_solver|done].
    + apply effect_ret. intros s' ->. split_and!; [done|done|]. intros m Hm Hs. rewrite fmap_app in Hm.
      apply elem_of_app in Hm as [Hm|Hm]; [by apply H3|]. apply list_elem_of_singleton in Hm as ->. simpl in *.
      destruct (decide (n ∈ role_Name <$> acl_Roles acl)), (decide (n ∈ builtinRoles)); tauto.
  - intros s ->. split_and!; [done|done|]. by intros n ?%elem_of_nil.
  - intros [] s (H1 & H2 & H3). split; [done|]. intros n Hn. destruct (Hall n (H2 n Hn)) as [?|Hl]; [by left|by apply H3].
Qed.

Lemma reconcileRoles_effect ss acl client :
  clean_roles acl -> NoDup (role_Name <$> acl_Roles acl) ->
  effect ss (reconcileRoles acl client) (fun _ => True) (fun _ => roles_ok acl).
Proof.
  intros Hcr Hnames. unfold reconcileRoles.
  eapply effect_bind; [pose proof (keeps_queryRoles (agree w_secrets) client); frame|apply effect_wrapping, queryRoles_effect|].
  intros l. apply effect_pre. intros s0 (Hd & Hnd & Hcl).
  eapply effect_bind; [apply keeps_forM; intros role _; apply secrets_reconcileRole|by apply rolesLoop_effect|].
  intros []. apply effect_pre. intros s1 (H1 & H2).
  eapply effect_weaken; [apply (dropRoles_effect _ _ _ _ s1)|intros s Hs; exact Hs|].
  - intros n Hn. destruct (decide (n ∈ role_Name <$> acl_Roles acl)) as [?|Hni]; [by left|right].
    rewrite H2, Hd in Hn by done. apply fmap_is_Some in Hn. by apply map_get_is_Some.
  - intros [] s (H3 & H4). split; [|done]. intros role Hr. destruct (H1 role Hr) as (ps & Hps & Hl). exists ps.
    split; [done|]. rewrite H3; [done|]. by apply list_elem_of_fmap_2.
Qed.

(** ** The users *)

(** The password in a secret. *)
Definition secretPassword (ss : gomap (gomap string)) (name : string) : option string :=
  data ← map_get name ss; map_get "password" data.

Lemma getSecret_ok name w d w' : getSecret name w = (inr d, w') -> map_get name (w_secrets w) = Some d.
Proof.
  unfold getSecret, mbind, M_bind, api, gets. destruct (w_faults w) as [|[e|] fs]; [|done|]; simpl;
    (destruct (map_get name (w_secrets w)); [by intros [= <- <-]|done]).
Qed.

Lemma getPassword_effect ss name (P : security -> Prop) :
  effect ss (getPasswordFromSecret name) P (fun pw s => secretPassword ss name = Some pw /\ P s).
Proof.
  intros w pw w' Hs HP Hr. split.
  - unfold getPasswordFromSecret in Hr. apply bind_try_ok in Hr as (r & w1 & Hg & Hr). destruct r as [e|d]; [by destruct (IsNotFound e)|].
    apply getSecret_ok in Hg. unfold secretPassword. rewrite <- Hs, Hg. simpl. destruct (map_get "password" d); [|done]. by injection Hr as <-.
  - exact (effect_read ss _ P (keeps_password _ name) w pw w' Hs HP Hr).
Qed.

Definition describedUsers (l : list (string * list string)) (s : security) : Prop :=
  forall n, snd <$> sec_users s !! n = list_to_set <$> map_get n l.

Lemma queryUsers_effect ss client :
  effect ss (queryUsers client) (fun _ => True) (fun l s => describedUsers l s /\ NoDup l.*1).
Proof.
  intros w l w' _ _ Hr. change (queryUsers client w) with (admin_users client (w_aero w), w) in Hr. injection Hr as Hl <-.
  pose proof (admin_users_names _ _ _ Hl) as Hnd. split; [|done]. intros n. destruct (map_get n l) as [rs|] eqn:Hn.
  - apply (admin_users_ok _ _ _ Hl). exists rs. split; [by apply map_get_Some_in|done].
  - destruct (snd <$> sec_users (secOf w) !! n) as [X|] eqn:HX; [|done]. apply (admin_users_ok _ _ _ Hl) in HX as (rs & Hin & _).
    apply (map_get_Some n rs l Hnd) in Hin. congruence.
Qed.

Definition setUser (n pw : string) (rs : list string) (s : security) : security :=
  mkSecurity (sec_roles s) (<[n := (pw, list_to_set rs)]> (sec_users s)).

Lemma reconcileUser_effect ss client l u s0 :
  NoDup l.*1 -> snd <$> sec_users s0 !! user_Name u = list_to_set <$> map_get (user_Name u) l ->
  effect ss (reconcileUser client l u) (fun s => s = s0) (fun _ s =>
    exists pw, secretPassword ss (user_SecretName u) = Some pw /\ s = setUser (user_Name u) pw (user_Roles u) s0).
Proof.
  intros Hnd Hs. unfold reconcileUser.
  assert (map_get (user_Name u) (mapsCopy [] l) = map_get (user_Name u) l) as ->.
  { rewrite map_get_copy by done. by destruct (map_get _ l). }
  eapply effect_bind; [pose proof (keeps_password (agree w_secrets)); frame|apply effect_wrapping, getPassword_effect|].
  intros pw. apply effect_pre. intros s [Hpw ->]. destruct (map_get (user_Name u) l) as [cur|] eqn:Hget.
  - destruct (sec_users s0 !! user_Name u) as [[old X]|] eqn:Hu; [|done]. simpl in Hs. injection Hs as ->.
    eapply effect_bind; [|apply effect_wrapping, syncUserRoles_effect; exact Hu|].
    { pose proof (secrets_adminDo client). unfold syncUserRoles. frame. }
    intros []. apply effect_pre. intros s ->. apply effect_wrapping.
    eapply effect_weaken; [apply effect_adminDo|intros s Hs; exact Hs|]. intros [] s ->. exists pw. split; [done|]. simpl.
    rewrite (alter_insert_eq _ _ (old, list_to_set (user_Roles u))) by by rewrite lookup_insert_eq. by rewrite insert_insert_eq.
  - apply effect_wrapping. eapply effect_weaken; [apply effect_adminDo|intros s Hs'; exact Hs'|]. intros [] s ->. by exists pw.
Qed.

Lemma secrets_reconcileUser client l u : keeps (agree w_secrets) (reconcileUser client l u).
Proof.
  pose proof (secrets_adminDo client). pose proof (keeps_password (agree w_secrets)). unfold reconcileUser, syncUserRoles. frame.
Qed.

(** Every user of the spec has its password and exactly its roles, and no other user is
    left but the former admin while it is being renamed. *)
Definition users_ok (cluster : AerospikeCluster) (acl : AerospikeAccessControlSpec) (ss : gomap (gomap string)) (s : security) : Prop :=
  (forall u, u ∈ acl_Users acl -> exists pw, secretPassword ss (user_SecretName u) = Some pw /\
     sec_users s !! user_Name u = Some (pw, list_to_set (user_Roles u))) /\
  (forall n, is_Some (sec_users s !! n) -> n ∈ user_Name <$> acl_Users acl \/ isRenamedAdmin cluster n = true).

Lemma usersLoop_effect ss client acl l s0 :
  describedUsers l s0 -> NoDup l.*1 -> NoDup (user_Name <$> acl_Users acl) ->
  effect ss (forM_ (acl_Users acl) (reconcileUser client l)) (fun s => s = s0) (fun _ s =>
    (forall u, u ∈ acl_Users acl -> exists pw, secretPassword ss (user_SecretName u) = Some pw /\
       sec_users s !! user_Name u = Some (pw, list_to_set (user_Roles u))) /\
    (forall n, n ∉ user_Name <$> acl_Users acl -> sec_users s !! n = sec_users s0 !! n)).
Proof.
  intros Hd Hnd Hnames. eapply effect_weaken; [apply (effect_forM _ _ (fun pre s =>
    (forall u, u ∈ pre -> exists pw, secretPassword ss (user_SecretName u) = Some pw /\
       sec_users s !! user_Name u = Some (pw, list_to_set (user_Roles u))) /\
    (forall n, n ∉ user_Name <$> pre -> sec_users s !! n = sec_users s0 !! n)) (acl_Users acl))| |by intros [] s Hs].
  - intros u. apply secrets_reconcileUser.
  - intros pre u post Hsplit. apply effect_pre. intros s [H1 H2].
    assert (user_Name u ∉ user_Name <$> pre) as Hfresh.
    { rewrite Hsplit, fmap_app, fmap_cons in Hnames. apply NoDup_app in Hnames as (_ & Hn & _).
      intros Hin. apply (Hn _ Hin). left. }
    eapply effect_weaken; [apply (reconcileUser_effect _ _ _ _ s); [done|]|intros s' Hs'; exact Hs'|].
    + rewrite H2 by done. apply Hd.
    + intros [] s' (pw & Hpw & ->). simpl. split.
      * intros u' [Hr|Hr]%elem_of_app; [|apply list_elem_of_singleton in Hr as ->; exists pw; by rewrite lookup_insert_eq].
        destruct (H1 u' Hr) as (pw' & Hpw' & Hl). exists pw'. split; [done|]. rewrite lookup_insert_ne; [done|].
        intros Heq. apply Hfresh. rewrite Heq. by apply list_elem_of_fmap_2.
      * intros n Hn. rewrite fmap_app in Hn. rewrite lookup_insert_ne by set_solver. apply H2. set_solver.
  - intros s ->. split; [by intros u ?%elem_of_nil|done].
Qed.

(** The admin the controller connects as is a user of the spec. *)
Lemma connected_admin_in_spec cluster acl n :
  spec_AerospikeAccessControl (cl_Spec cluster) = Some acl -> isConnectedAdmin cluster n = true -> n ∈ user_Name <$> acl_Users acl.
Proof.
  intros Hacl Hc%bool_decide_eq_true. unfold adminUser in Hc. rewrite Hacl in Hc. simpl in Hc.
  destruct (findAdminFrom 0 (acl_Users acl)) as [i|]; [|done]. simpl in Hc.
  destruct (acl_Users acl !! i) as [u|] eqn:Hu; [|done]. injection Hc as <-. apply list_elem_of_fmap_2. by eapply list_elem_of_lookup_2.
Qed.

Lemma dropUsers_effect ss client cluster acl (l : list (string * list string)) s0 :
  spec_AerospikeAccessControl (cl_Spec cluster) = Some acl ->
  (forall n, is_Some (sec_users s0 !! n) -> n ∈ user_Name <$> acl_Users acl \/ n ∈ l.*1) ->
  effect ss (forM_ l (fun user =>
    if decide (user.1 ∈ user_Name <$> acl_Users acl) then mret ()
    else if isConnectedAdmin cluster user.1 then mret ()
    else if isRenamedAdmin cluster user.1 then record true EventACLSyncError
    else wrapping ("dropping user " +:+ user.1) (adminDo client (DropUser user.1)))) (fun s => s = s0) (fun _ s =>
    (forall n, n ∈ user_Name <$> acl_Users acl -> sec_users s !! n = sec_users s0 !! n) /\
    (forall n, is_Some (sec_users s !! n) -> n ∈ user_Name <$> acl_Users acl \/ isRenamedAdmin cluster n = true)).
Proof.
  intros Hacl Hall. eapply effect_weaken; [apply (effect_forM _ _ (fun pre s =>
    (forall n, n ∈ user_Name <$> acl_Users acl -> sec_users s !! n = sec_users s0 !! n) /\
    (forall n, is_Some (sec_users s !! n) -> is_Some (sec_users s0 !! n)) /\
    (forall n, n ∈ pre.*1 -> is_Some (sec_users s !! n) -> n ∈ user_Name <$> acl_Users acl \/ isRenamedAdmin cluster n = true)) l)| |].
  - intros user. pose proof (secrets_adminDo client). case_decide; frame.
  - intros pre [n rs] post _. apply effect_pre. intros s (H1 & H2 & H3). cbn [fst].
    assert (n ∈ user_Name <$> acl_Users acl \/ isRenamedAdmin cluster n = true ->
      (forall m, m ∈ user_Name <$> acl_Users acl -> sec_users s !! m = sec_users s0 !! m) /\
      (forall m, is_Some (sec_users s !! m) -> is_Some (sec_users s0 !! m)) /\
      (forall m, m ∈ (pre ++ [(n, rs)]).*1 -> is_Some (sec_users s !! m) -> m ∈ user_Name <$> acl_Users acl \/ isRenamedAdmin cluster m = true)) as Hkeep.
    { intros Hn. split_and!; [done..|]. intros m Hm Hs. rewrite fmap_app in Hm. apply elem_of_app in Hm as [Hm|Hm]; [by apply H3|].
      by apply list_elem_of_singleton in Hm as ->. }
    case_decide as Hin; [apply effect_ret; intros s' ->; apply Hkeep; by left|].
    destruct (isConnectedAdmin cluster n) eqn:Hadm; [by apply (connected_admin_in_spec _ acl) in Hadm|].
    destruct (isRenamedAdmin cluster n) eqn:Hren.
    { eapply effect_weaken; [apply effect_read|intros s' Hs'; exact Hs'|]; [frame|]. intros [] s' ->. apply Hkeep. by right. }
    apply effect_wrapping. eapply effect_weaken; [apply effect_adminDo|intros s' Hs'; exact Hs'|]. intros [] s' ->. simpl. split_and!.
    + intros m Hm. rewrite lookup_delete_ne; [by apply H1|]. intros <-. done.
    + intros m Hm. apply H2. destruct (decide (m = n)) as [->|Hne]; [by rewrite lookup_delete_eq in Hm; destruct Hm|].
      by rewrite lookup_delete_ne in Hm.
    + intros m Hm Hs. rewrite fmap_app in Hm. destruct (decide (m = n)) as [->|Hne]; [by rewrite lookup_delete_eq in Hs; destruct Hs|].
      rewrite lookup_delete_ne in Hs by done. apply H3; [set_solver|done].
  - intros s ->. split_and!; [done|done|]. by intros n ?%elem_of_nil.
  - intros [] s (H1 & H2 & H3). split; [done|]. intros n Hn. destruct (Hall n (H2 n Hn)) as [?|Hl]; [by left|by apply H3].
Qed.

Lemma reconcileUsers_effect ss cluster acl client :
  spec_AerospikeAccessControl (cl_Spec cluster) = Some acl -> NoDup (user_Name <$> acl_Users acl) ->
  effect ss (reconcileUsers cluster acl client) (fun _ => True) (fun _ => users_ok cluster acl ss).
Proof.
  intros Hacl Hnames. unfold reconcileUsers.
  eapply effect_bind; [pose proof (keeps_queryUsers (agree w_secrets) client); frame|apply effect_wrapping, queryUsers_effect|].
  intros l. apply effect_pre. intros s0 (Hd & Hnd).
  eapply effect_bind; [apply keeps_forM; intros u _; apply secrets_reconcileUser|by apply usersLoop_effect|].
  intros []. apply effect_pre. intros s1 (H1 & H2).
  eapply effect_weaken; [apply (dropUsers_effect _ _ _ _ _ s1); [done|]|intros s Hs; exact Hs|].
  - intros n Hn. destruct (decide (n ∈ user_Name <$> acl_Users acl)) as [?|Hni]; [by left|right].
    rewrite H2 in Hn by done. apply map_get_is_Some. specialize (Hd n). destruct Hn as [u Hu]. rewrite Hu in Hd.
    destruct (map_get n l); [by eexists|done].
  - intros [] s (H3 & H4). split; [|done]. intros u Hr. destruct (H1 u Hr) as (pw & Hpw & Hl). exists pw.
    split; [done|]. rewrite H3; [done|]. by apply list_elem_of_fmap_2.
Qed.

(** ** The whole synchronization *)

(** A command on users leaves the roles alone, whether it is accepted or not. *)
Lemma roles_adminDo client c :
  (forall s, sec_roles (exec c s) = sec_roles s) -> keeps (agree (fun w => sec_roles (secOf w))) (adminDo client c).
Proof.
  intros Hc w. unfold adminDo, agree, secOf. destruct (admin_do client c (w_aero w)) as [[e|[]] s] eqn:Hd; simpl.
  - by apply admin_do_any in Hd as [->| ->].
  - by apply admin_do_ok in Hd as ->.
Qed.

Lemma roles_reconcileUsers cluster acl client : keeps (agree (fun w => sec_roles (secOf w))) (reconcileUsers cluster acl client).
Proof.
  assert (forall n pw rs, keeps (agree (fun w => sec_roles (secOf w))) (adminDo client (CreateUser n pw rs))) by (intros; by apply roles_adminDo).
  assert (forall n, keeps (agree (fun w => sec_roles (secOf w))) (adminDo client (DropUser n))) by (intros; by apply roles_adminDo).
  assert (forall n rs, keeps (agree (fun w => sec_roles (secOf w))) (adminDo client (GrantRoles n rs))) by (intros; by apply roles_adminDo).
  assert (forall n rs, keeps (agree (fun w => sec_roles (secOf w))) (adminDo client (RevokeRoles n rs))) by (intros; by apply roles_adminDo).
  assert (forall n pw, keeps (agree (fun w => sec_roles (secOf w))) (adminDo client (ChangePassword n pw))) by (intros; by apply roles_adminDo).
  pose proof (keeps_password (agree (fun w => sec_roles (secOf w)))). pose proof (keeps_queryUsers (agree (fun w => sec_roles (secOf w))) client).
  unfold reconcileUsers, reconcileUser, syncUserRoles. frame.
Qed.

Lemma keeps_retryTransient R `{!Frame R} getClient fn :
  keeps R getClient -> (forall client, keeps R (fn client)) -> keeps R (retryOnTransientWithReconnect getClient fn).
Proof. intros Hg Hf. unfold retryOnTransientWithReconnect. frame. Qed.

Lemma secrets_reconcileRoles acl client : keeps (agree w_secrets) (reconcileRoles acl client).
Proof.
  pose proof (secrets_adminDo client). pose proof (secrets_reconcileRole client). pose proof (keeps_queryRoles (agree w_secrets) client).
  unfold reconcileRoles. frame.
Qed.

Lemma secrets_reconcileUsers cluster acl client : keeps (agree w_secrets) (reconcileUsers cluster acl client).
Proof.
  pose proof (secrets_adminDo client). pose proof (secrets_reconcileUser client). pose proof (keeps_queryUsers (agree w_secrets) client).
  unfold reconcileUsers. frame.
Qed.

Lemma effect_conj {A} ss (m : M A) (P I : security -> Prop) Q :
  effect ss m P Q -> effect ss m I (fun _ => I) -> effect ss m (fun s => P s /\ I s) (fun a s => Q a s /\ I s).
Proof. intros HQ HI w a w' Hs [HP Hi] Hr. split; [by eapply HQ|by eapply HI]. Qed.

Lemma syncAll_effect ss cluster acl :
  spec_AerospikeAccessControl (cl_Spec cluster) = Some acl -> NoDup (role_Name <$> acl_Roles acl) -> NoDup (user_Name <$> acl_Users acl) ->
  clean_roles acl ->
  effect ss (_ ← wrapping "ACL sync roles" (retryOnTransientWithReconnect (getAerospikeClientWithRetry cluster) (reconcileRoles acl));
             wrapping "ACL sync users" (retryOnTransientWithReconnect (getAerospikeClientWithRetry cluster) (reconcileUsers cluster acl)))
    (fun _ => True) (fun _ s => users_ok cluster acl ss s /\ roles_ok acl s).
Proof.
  intros Hacl Hr Hu Hc.
  pose proof (fun R HR => keeps_client R (Frame0 := HR) cluster maxRetries) as Hk.
  eapply effect_bind.
  - apply keeps_wrapping, keeps_retryTransient; [apply _|apply Hk, _|intros; apply secrets_reconcileRoles].
  - apply effect_wrapping, effect_retry; [apply Hk, _|intros; apply secrets_reconcileRoles|intros; by apply reconcileRoles_effect].
  - intros []. eapply effect_weaken; [apply effect_wrapping, (effect_conj _ _ (fun _ => True) (roles_ok acl))| |].
    + apply effect_retry; [apply Hk, _|intros; apply secrets_reconcileUsers|intros; by apply reconcileUsers_effect].
    + intros w [] w' _ [Hrole Hrest] Hrun.
      assert (agree (fun w => sec_roles (secOf w)) w w') as Ha.
      { refine (keeps_run _ _ _ _ _ _ Hrun). apply keeps_retryTransient; [apply _|apply Hk, _|intros; apply roles_reconcileUsers]. }
      unfold agree in Ha. split; intros x Hx; rewrite Ha in *; [by apply Hrole|by apply Hrest].
    + by intros s Hs.
    + by intros [] s Hs.
Qed.

(** C28: a synchronization that reports the spec as applied has made it so on the
    servers: every role of the spec exists with exactly its privileges and no other role
    does but the predefined ones; every user exists with the password of its secret and
    exactly its roles, and no other user does but a former admin that is being renamed;
    one that reports nothing applied has changed nothing *)
Theorem reconcileACL_establishes cluster acl w b w' :
  spec_AerospikeAccessControl (cl_Spec cluster) = Some acl -> NoDup (role_Name <$> acl_Roles acl) -> NoDup (user_Name <$> acl_Users acl) ->
  clean_roles acl -> reconcileACL cluster w = (inr b, w') ->
  if b then roles_ok acl (secOf w') /\ users_ok cluster acl (w_secrets w) (secOf w') else secOf w' = secOf w.
Proof.
  intros Hacl Hr Hu Hc Hrun. unfold reconcileACL in Hrun. rewrite Hacl in Hrun.
  apply bind_ok in Hrun as (pods & w1 & H1 & Hrun). apply wrapping_ok in H1.
  pose proof (keeps_run _ _ _ _ _ (keeps_listClusterPods (agree secOf) cluster) H1) as Hsec.
  pose proof (keeps_run _ _ _ _ _ (keeps_listClusterPods (agree w_secrets) cluster) H1) as Hss.
  destruct (existsb isPodReady pods); [|injection Hrun as <- <-; exact Hsec].
  apply bind_ok in Hrun as ([] & w2 & [= <-] & Hrun). apply bind_ok in Hrun as ([] & w3 & Hroles & Hrun).
  apply bind_ok in Hrun as ([] & w4 & Husers & Hrun). injection Hrun as <- <-.
  apply wrapping_ok, onError_ok in Hroles. apply wrapping_ok, onError_ok in Husers.
  destruct (syncAll_effect (w_secrets w) cluster acl Hacl Hr Hu Hc (w1 <| w_events ::= cons (mkEvent false EventACLSyncStarted) |>) () w4)
    as [Huo Hro]; [exact Hss|done| |by split].
  unfold mbind, M_bind, wrapping. by rewrite Hroles, Husers.
Qed.

(** ** What is never sent *)

(** [name] is the admin of a list of users: the first one with both admin roles. *)
Definition adminOf (users : list AerospikeUserSpec) (name : string) : Prop :=
  exists before u after, users = before ++ u :: after /\ user_Name u = name /\
    ("sys-admin" ∈ user_Roles u /\ "user-admin" ∈ user_Roles u) /\
    forall u', u' ∈ before -> ~ ("sys-admin" ∈ user_Roles u' /\ "user-admin" ∈ user_Roles u').

(** [name] was the admin of the spec that was applied last. *)
Definition formerAdmin (cluster : AerospikeCluster) (name : string) : Prop :=
  exists spec acl, st_AppliedSpec (cl_Status cluster) = Some spec /\ spec_AerospikeAccessControl spec = Some acl /\
    adminOf (acl_Users acl) name.

(** A user is dropped only when the spec does not have it, and the former admin only when
    the spec has no admin; a role only when the spec does not have it and it is not one the
    server predefines. *)
Definition permitted (cluster : AerospikeCluster) (acl : AerospikeAccessControlSpec) (a : action) : Prop :=
  match a with
  | AAdmin (DropUser n) => ~ (n ∈ user_Name <$> acl_Users acl) /\
                           (formerAdmin cluster n -> forall m, ~ adminOf (acl_Users acl) m)
  | AAdmin (DropRole n) => ~ (n ∈ role_Name <$> acl_Roles acl) /\
      ~ (n ∈ ["user-admin"; "sys-admin"; "data-admin"; "read"; "write"; "read-write"; "read-write-udf"; "truncate"])
  | AAdmin (CreateRole _ _ whitelist) => whitelist = []
  | AAdmin _ => True
  | _ => False
  end.

(** [FindAdminUser] finds the admin. *)
Lemma FindAdminUser_adminOf users name : (user_Name <$> FindAdminUser (Some users)) = Some name <-> adminOf users name.
Proof.
  rewrite fmap_Some. setoid_rewrite FindAdminUser_spec. split.
  - intros (u & (n & Hn & Hs & Hu & Hlt) & ->). exists (take n users), u, (drop (S n) users).
    split_and!; [by rewrite take_drop_middle|done|done|done|]. intros u' [i [Hi Hlen]%lookup_take_Some]%list_elem_of_lookup Hadm.
    specialize (Hlt i u' Hlen Hi). apply hasAdminRoles_spec in Hadm. congruence.
  - intros (before & u & after & -> & <- & [Hs Hu] & Hno). exists u. split; [|done]. exists (length before).
    split_and!; [by rewrite list_lookup_middle|done|done|]. intros i u' Hi Hl. rewrite lookup_app_l in Hl by done.
    apply not_true_iff_false. intros Hadm%hasAdminRoles_spec. apply (Hno u'); [by eapply list_elem_of_lookup_2|done].
Qed.

(** The former admin stays when the spec has an admin of another name. *)
Lemma isRenamedAdmin_former cluster acl n :
  spec_AerospikeAccessControl (cl_Spec cluster) = Some acl -> isRenamedAdmin cluster n = false ->
  isConnectedAdmin cluster n = false -> formerAdmin cluster n -> forall m, ~ adminOf (acl_Users acl) m.
Proof.
  intros Hacl Hren Hcon (spec & prev & Hspec & Hprev & Hn%FindAdminUser_adminOf) m Hm%FindAdminUser_adminOf.
  unfold isConnectedAdmin, isRenamedAdmin, previousAdmin, adminUser in *. rewrite Hacl in *. cbn [fmap option_fmap option_map] in *.
  rewrite Hspec in Hren. cbn [mbind option_bind] in Hren. rewrite Hprev in Hren. cbn [fmap option_fmap option_map] in Hren.
  destruct (FindAdminUser (Some (acl_Users prev))) as [p|]; [|done].
  destruct (FindAdminUser (Some (acl_Users acl))) as [a|]; [|done]. simpl in *.
  injection Hn as <-. injection Hm as <-. apply bool_decide_eq_false in Hren, Hcon. apply Hren. split; [done|congruence].
Qed.

Lemma does_adminDo (P : action -> Prop) client c : P (AAdmin c) -> keeps (does P) (adminDo client c).
Proof.
  intros HP. apply keeps_adminDo. intros w s. eexists [_]. split; [reflexivity|]. by repeat constructor.
Qed.

Lemma permitted_reconcileRoles cluster acl client : keeps (does (permitted cluster acl)) (reconcileRoles acl client).
Proof.
  pose proof (fun n ps => does_adminDo (permitted cluster acl) client (CreateRole n ps []) eq_refl).
  pose proof (fun n ps => does_adminDo (permitted cluster acl) client (GrantPrivileges n ps) I).
  pose proof (fun n ps => does_adminDo (permitted cluster acl) client (RevokePrivileges n ps) I).
  pose proof (keeps_queryRoles (does (permitted cluster acl)) client).
  unfold reconcileRoles, reconcileRole, parsedOrInvalid, syncRolePrivileges.
  apply keeps_bind; [frame|]. intros l. apply keeps_bind; [frame|]. intros []. apply keeps_forM. intros role _.
  case_decide as Hd; [|frame]. apply keeps_wrapping. by apply does_adminDo.
Qed.

Lemma permitted_reconcileUsers cluster acl client :
  spec_AerospikeAccessControl (cl_Spec cluster) = Some acl -> keeps (does (permitted cluster acl)) (reconcileUsers cluster acl client).
Proof.
  pose proof (fun n pw rs => does_adminDo (permitted cluster acl) client (CreateUser n pw rs) I).
  pose proof (fun n rs => does_adminDo (permitted cluster acl) client (GrantRoles n rs) I).
  pose proof (fun n rs => does_adminDo (permitted cluster acl) client (RevokeRoles n rs) I).
  pose proof (fun n pw => does_adminDo (permitted cluster acl) client (ChangePassword n pw) I).
  pose proof (keeps_queryUsers (does (permitted cluster acl)) client). pose proof (keeps_password (does (permitted cluster acl))).
  intros Hacl. unfold reconcileUsers, reconcileUser, syncUserRoles.
  apply keeps_bind; [frame|]. intros l. apply keeps_bind; [frame|]. intros []. apply keeps_forM. intros user _.
  case_decide as Hd; [frame|]. destruct (isConnectedAdmin cluster user.1) eqn:Hc; [frame|].
  destruct (isRenamedAdmin cluster user.1) eqn:Hr; [frame|]. apply keeps_wrapping. apply does_adminDo.
  split; [done|]. by eapply isRenamedAdmin_former.
Qed.

Lemma reconcileACL_permitted cluster acl :
  spec_AerospikeAccessControl (cl_Spec cluster) = Some acl -> keeps (does (permitted cluster acl)) (reconcileACL cluster).
Proof.
  intros Hacl. pose proof (fun R HR => keeps_client R (Frame0 := HR) cluster maxRetries) as Hk.
  assert (keeps (does (permitted cluster acl)) (retryOnTransientWithReconnect (getAerospikeClientWithRetry cluster) (reconcileRoles acl))).
  { apply keeps_retryTransient; [apply _|apply Hk, _|intros; apply permitted_reconcileRoles]. }
  assert (keeps (does (permitted cluster acl)) (retryOnTransientWithReconnect (getAerospikeClientWithRetry cluster) (reconcileUsers cluster acl))).
  { apply keeps_retryTransient; [apply _|apply Hk, _|intros; by apply permitted_reconcileUsers]. }
  pose proof (keeps_listClusterPods (does (permitted cluster acl))). unfold reconcileACL, aclCounted. rewrite Hacl. frame.
Qed.


(** The whitelists of the spec never reach the servers: a role is always created without one,
    and nothing else sets it. *)
Theorem role_whitelists_never_sent cluster acl w n ps whitelist :
  spec_AerospikeAccessControl (cl_Spec cluster) = Some acl ->
  AAdmin (CreateRole n ps whitelist) ∈ w_trace (snd (reconcileACL cluster w)) ->
  AAdmin (CreateRole n ps whitelist) ∈ w_trace w \/ whitelist = [].
Proof. intros Hacl Hin. exact (does_elem _ _ _ _ (reconcileACL_permitted cluster acl Hacl w) Hin). Qed.

End Effects.

(** ** A server that checks passwords *)

#[export] Instance colon_free_dec p : Decision (colon_free p).
Proof. unfold colon_free. apply _. Defined.

Definition acl_node : AeroNode := mkAeroNode "A1" None.

(** Logging in needs the password the server has for the user. *)
Definition acl_dial (creds : option (string * string)) (s : security) : goerr + list AeroNode :=
  match creds with
  | None => inr [acl_node]
  | Some (user, password) =>
      if decide ((fst <$> sec_users s !! user) = Some password) then inr [acl_node] else inl (Errorf "invalid credential")
  end.

Definition acl_env : Environment := {|
  env_go := sample_platform;
  aero_state := security;
  aero_dial _ _ := acl_dial;
  aero_request _ _ s := (inr [], s);
  pod_exec _ _ s := (inr "ok", s);
  sha256_json _ := "0123456789abcdef";
  retry_again := 3;
  scaled_value _ _ := inr 1;
  initScript := ""
|}.

Definition listedRoles (s : security) : list (string * list Privilege) :=
  (fun e => (e.1, elements e.2)) <$> map_to_list (sec_roles s).

Definition listedUsers (s : security) : list (string * list string) :=
  (fun e => (e.1, elements e.2.2)) <$> map_to_list (sec_users s).

#[local] Program Instance acl_admin : AdminClient (H := acl_env) := {|
  security_of := fun s : security => s;
  admin_roles _ s := if decide (Forall (fun e => Forall colon_free e.2) (listedRoles s)) then inr (listedRoles s) else inl (Errorf "corrupt");
  admin_users _ s := inr (listedUsers s);
  admin_do _ c s := (inr (), exec c s)
|}.
Next Obligation.
  intros client s l Hl. simpl in Hl. case_decide; [|done]. injection Hl as <-. unfold listedRoles. rewrite <- list_fmap_compose.
  apply NoDup_fst_map_to_list.
Qed.
Next Obligation.
  intros client s l Hl n X. simpl in Hl. case_decide; [|done]. injection Hl as <-. unfold listedRoles. split.
  - intros Hn. exists (elements X). split; [|by rewrite list_to_set_elements_L]. apply list_elem_of_fmap. exists (n, X).
    split; [done|by apply elem_of_map_to_list].
  - intros (ps & ([m Y] & [= -> ->] & Hin)%list_elem_of_fmap & ->). apply elem_of_map_to_list in Hin. by rewrite list_to_set_elements_L.
Qed.
Next Obligation.
  intros client s l n ps p Hl Hin Hp. simpl in Hl. case_decide as Hc; [|done]. injection Hl as <-. rewrite Forall_forall in Hc.
  specialize (Hc _ Hin). rewrite Forall_forall in Hc. by apply Hc.
Qed.
Next Obligation.
  intros client s l [= <-]. unfold listedUsers. rewrite <- list_fmap_compose. apply NoDup_fst_map_to_list.
Qed.
Next Obligation.
  intros client s l [= <-] n X. unfold listedUsers. split.
  - intros Hn. destruct (sec_users s !! n) as [[pw Y]|] eqn:Hu; [|done]. injection Hn as <-. exists (elements Y).
    split; [|by rewrite list_to_set_elements_L]. apply list_elem_of_fmap. exists (n, (pw, Y)). split; [done|by apply elem_of_map_to_list].
  - intros (rs & ([m [pw Y]] & [= -> ->] & Hin)%list_elem_of_fmap & ->). apply elem_of_map_to_list in Hin. rewrite Hin. simpl.
    by rewrite list_to_set_elements_L.
Qed.
Next Obligation. by intros client c s s' [= <-]. Qed.
Next Obligation. done. Qed.

Definition acl_spec : AerospikeAccessControlSpec :=
  mkAccessControl [mkRoleSpec "ops" ["read-write.test"; "truncate"] ["10.0.0.0/8"]]
    [{| user_Name := "admin"; user_SecretName := "s1"; user_Roles := ["sys-admin"; "user-admin"] |};
     {| user_Name := "app"; user_SecretName := "s2"; user_Roles := ["ops"; "read"] |}] None.

Definition acl_cluster : AerospikeCluster :=
  (example_cluster 1 None) <| cl_Spec ::= fun s => s <| spec_AerospikeAccessControl := Some acl_spec |> |>.

(** A server with the admin, a stale user, and a role with other privileges than the spec's. *)
Definition acl_server : security :=
  mkSecurity {[ "ops" := {[ mkPrivilege "write" "test" "" ]}; "old" := ∅; "read" := {[ mkPrivilege "read" "" "" ]} ]}
    {[ "admin" := ("adminpw", {[ "sys-admin"; "user-admin" ]}); "gone" := ("x", ∅) ]}.

(** [password] is the content of the admin's secret. *)
Definition acl_world (password : string) : World (H := acl_env) :=
  @mkWorld acl_env (Some acl_cluster) acl_cluster [sample_pod "demo-0-0" PodRunning true ""] [] [] [] [] [] [] [] [] [] [] [] [] []
    [("s1", [("password", password)]); ("s2", [("password", "apppw")])] acl_server ∅ true 0 [] [] [] ∅ [].

Lemma reconcileACL_establishes_witness :
  exists w', reconcileACL (H := acl_env) acl_cluster (acl_world "adminpw") = (inr true, w') /\
    roles_ok acl_spec (secOf (H := acl_env) w') /\
    users_ok acl_cluster acl_spec (w_secrets (acl_world "adminpw")) (secOf (H := acl_env) w').
Proof.
  exists (snd (reconcileACL (H := acl_env) acl_cluster (acl_world "adminpw"))).
  assert (fst (reconcileACL (H := acl_env) acl_cluster (acl_world "adminpw")) = inr true) as Hr by (by vm_compute).
  assert (reconcileACL (H := acl_env) acl_cluster (acl_world "adminpw") =
    (inr true, snd (reconcileACL (H := acl_env) acl_cluster (acl_world "adminpw")))) as Hrun.
  { rewrite <- Hr. by destruct (reconcileACL _ _). }
  split; [exact Hrun|].
  apply (reconcileACL_establishes (H := acl_env) acl_cluster acl_spec (acl_world "adminpw") true); [done| | | |exact Hrun].
  - apply (bool_decide_unpack _). by vm_compute.
  - apply (bool_decide_unpack _). by vm_compute.
  - intros role ps Hrole Hps p Hp. apply list_elem_of_singleton in Hrole as ->. vm_compute in Hps. injection Hps as <-.
    apply elem_of_cons in Hp as [->|Hp]; [by split|]. apply list_elem_of_singleton in Hp as ->. by split.
Defined.


(** Rotating the password of the admin the controller connects as locks it out: it logs in
    with the new password, which the server does not have yet, so no command is sent. *)
Theorem admin_rotation_locks_out :
  let w := acl_world "rotated" in
  let run := reconcileACL (H := acl_env) acl_cluster w in
  (exists e, fst run = inl e) /\ w_aero (snd run) = acl_server /\ w_trace (snd run) = [].
Proof. split; [eexists; by vm_compute|]. split; by vm_compute. Qed.
