(* ===== verification/PodTemplate.v ===== *)
(** * The pod template

    internal/podutil/pod.go and container.go, and the volumes of
    internal/storage/volume.go: the template of the pods of a rack, from the
    spec of the cluster and of the rack.

    The template takes the affinity of the pod settings by pointer, and the later
    steps write through that pointer: a [draft] therefore also holds what the
    affinity of the cluster has become, and [BuildPodTemplateSpec] returns the
    cluster with it.  The affinity of a rack's own pod settings is written to in
    the same way, but nothing reads it again. *)

From S2P Require Import Prelude GoValue Utils Api ConfigGen Json Aero Readiness Sizing Storage ConfigMaps Services.

(** ** Volumes (volume.go) *)

(** [buildVolumeMount]. *)
Definition buildVolumeMount (name path : string) (readOnly : bool) (subPath subPathExpr : string)
    (mountProp : option string) : VolumeMount :=
  mkVolumeMount name readOnly None path subPath mountProp subPathExpr.

(** [volumeForSpec]: no volume for a persistent one, which has a claim template. *)
Definition volumeForSpec (vol : VolumeSpec) : option Volume :=
  let src := vol_Source vol in
  match vsrc_EmptyDir src, vsrc_Secret src, vsrc_ConfigMap src, vsrc_HostPath src with
  | Some v, _, _, _ => Some (mkVolume (vol_Name vol) ("emptyDir", v))
  | None, Some v, _, _ => Some (mkVolume (vol_Name vol) ("secret", v))
  | None, None, Some v, _ => Some (mkVolume (vol_Name vol) ("configMap", v))
  | None, None, None, Some v => Some (mkVolume (vol_Name vol) ("hostPath", v))
  | None, None, None, None => None
  end.

Definition aerospikeMount (vol : VolumeSpec) : option VolumeMount :=
  (fun a => buildVolumeMount (vol_Name vol) (ava_Path a) (ava_ReadOnly a) (ava_SubPath a) (ava_SubPathExpr a)
              (ava_MountPropagation a)) <$> vol_Aerospike vol.

(** [BuildVolumes]. *)
Definition BuildVolumes (storageSpec : option AerospikeStorageSpec) : list Volume * list VolumeMount :=
  match storageSpec with
  | None => ([], [])
  | Some spec => (omap volumeForSpec (st_Volumes spec), omap aerospikeMount (st_Volumes spec))
  end.

Definition attachmentMount (vol : VolumeSpec) (att : VolumeAttachment) : VolumeMount :=
  buildVolumeMount (vol_Name vol) (vat_Path att) (vat_ReadOnly att) (vat_SubPath att) (vat_SubPathExpr att)
    (vat_MountPropagation att).

(** [VolumeMountsForContainer]. *)
Definition VolumeMountsForContainer (storageSpec : option AerospikeStorageSpec) (containerName : string)
    (isSidecar : bool) : list VolumeMount :=
  match storageSpec with
  | None => []
  | Some spec =>
      vol ← st_Volumes spec;
      attachmentMount vol <$>
        filter (fun att => vat_ContainerName att = containerName)
          (if isSidecar then vol_Sidecars vol else vol_InitContainers vol)
  end.

(** A claim template; [resource.MustParse] reads the size, which the webhook has checked. *)
Definition claimTemplate (vol : VolumeSpec) : option VolumeClaimTemplate :=
  (fun pv => mkVolumeClaimTemplate (vol_Name vol)
     (from_option om_Labels [] (pv_Metadata pv)) (from_option om_Annotations [] (pv_Metadata pv))
     (match pv_AccessModes pv with [] => ["ReadWriteOnce"] | modes => modes end)
     (volumeModeString (if decide (pv_VolumeMode pv = VolumeModeUnset) then PersistentVolumeFilesystem else pv_VolumeMode pv))
     (pv_Size pv) (if decide (pv_StorageClass pv = "") then None else Some (pv_StorageClass pv)) (pv_Selector pv))
  <$> vol_PersistentVolume vol.

(** [BuildVolumeClaimTemplates]. *)
Definition BuildVolumeClaimTemplates (storageSpec : option AerospikeStorageSpec) : list VolumeClaimTemplate :=
  match storageSpec with
  | None => []
  | Some spec => omap claimTemplate (st_Volumes spec)
  end.

(** ** Containers (container.go) *)

Definition InitContainerName := "aerospike-init".
Definition PreStopSleepSeconds : Z := 15.
Definition configMapVolumeName := "aerospike-config-map".
Definition aerospikeConfigVolumeName := "aerospike-config".
Definition configMapVolumeMountPath := "/configmap".
Definition aerospikeConfigPath := "/etc/aerospike".

Definition strings (l : list string) : any := AList (AString <$> l).

Definition containerPort (name : string) (port : Z) : any :=
  AMap [("name", AString name); ("containerPort", AInt KInt port); ("protocol", AString "TCP")].

(** A probe: its handler, delay, period, timeout and failure threshold. *)
Definition probeSpec (handler : string * any) (delay period timeout failures : Z) : any :=
  AMap [handler; ("initialDelaySeconds", AInt KInt delay); ("timeoutSeconds", AInt KInt timeout);
        ("periodSeconds", AInt KInt period); ("failureThreshold", AInt KInt failures)].

Definition execHandler (command : list string) : string * any := ("exec", AMap [("command", strings command)]).

Definition buildLivenessProbe : any :=
  probeSpec (execHandler ["/bin/sh"; "-c"; "/usr/bin/asinfo -v 'build' -h 127.0.0.1 -p " +:+ pretty ServicePort]) 30 30 5 5.

Definition buildReadinessProbe : any :=
  probeSpec (execHandler ["/bin/sh"; "-c"; "/usr/bin/asinfo -v 'statistics' -h 127.0.0.1 -p " +:+ pretty ServicePort
                        +:+ " 2>&1 | grep -q 'cluster_size'"]) 15 10 5 3.

(** [BuildAerospikeContainer]. *)
Definition BuildAerospikeContainer (cluster : AerospikeCluster) (volumeMounts : list VolumeMount) : Container :=
  let spec := spec_PodSpec (cl_Spec cluster) ≫= ps_AerospikeContainerSpec in
  mkContainer AerospikeContainerName (spec_Image (cl_Spec cluster)) ["/usr/bin/asd"; "--foreground"]
    [containerPort "service" ServicePort; containerPort "fabric" FabricPort;
     containerPort "heartbeat" HeartbeatPort; containerPort "info" InfoPort]
    [] (default emptyResources (spec ≫= acs_Resources)) volumeMounts (Some buildLivenessProbe) (Some buildReadinessProbe)
    (Some (AMap [("preStop", AMap [execHandler ["sleep"; pretty PreStopSleepSeconds]])]))
    (spec ≫= acs_SecurityContext) [].

Definition fieldRef (name path : string) : EnvVar :=
  mkEnvVar name "" (Some (AMap [("fieldRef", AMap [("fieldPath", AString path)])])).

(** [buildInitEnvVars]. *)
Definition buildInitEnvVars : list EnvVar :=
  [fieldRef "POD_IP" "status.podIP"; fieldRef "POD_NAME" "metadata.name"; fieldRef "NODE_IP" "status.hostIP"].

(** [buildInitVolumesEnv]: "method:path" for every volume of the server that has a method. *)
Definition initVolume (spec : AerospikeStorageSpec) (vol : VolumeSpec) : option string :=
  let method := ResolveInitMethod vol (Some spec) in
  if decide (method = InitMethodUnset \/ method = VolumeInitMethodNone) then None
  else (fun a => initMethodString method +:+ ":" +:+ ava_Path a) <$> vol_Aerospike vol.

Definition buildInitVolumesEnv (storageSpec : option AerospikeStorageSpec) : string :=
  match storageSpec with
  | None => ""
  | Some spec => join "," (omap (initVolume spec) (st_Volumes spec))
  end.

(** [buildWipeVolumesEnv]. *)
Definition wipeVolume (spec : AerospikeStorageSpec) (dirtyVolumes : list string) (vol : VolumeSpec) : option string :=
  let method := ResolveWipeMethod vol (Some spec) in
  if decide (vol_Name vol ∈ dirtyVolumes) then
    if decide (method = WipeMethodUnset \/ method = VolumeWipeMethodNone) then None
    else (fun a => wipeMethodString method +:+ ":" +:+ ava_Path a) <$> vol_Aerospike vol
  else None.

Definition buildWipeVolumesEnv (storageSpec : option AerospikeStorageSpec) (dirtyVolumes : list string) : string :=
  match storageSpec, dirtyVolumes with
  | Some spec, _ :: _ => join "," (omap (wipeVolume spec dirtyVolumes) (st_Volumes spec))
  | _, _ => ""
  end.

Definition envUnlessEmpty (name value : string) : list EnvVar :=
  if decide (value = "") then [] else [mkEnvVar name value None].

(** [BuildInitContainer]; the condition for an external service is that of the reader role. *)
Definition BuildInitContainer (cluster : AerospikeCluster) (storageSpec : option AerospikeStorageSpec)
    (volumeMounts : list VolumeMount) (dirtyVolumes : list string) : Container :=
  let initMounts := [mkVolumeMount configMapVolumeName true None configMapVolumeMountPath "" None "";
                     mkVolumeMount aerospikeConfigVolumeName false None aerospikeConfigPath "" None ""] ++ volumeMounts in
  let external :=
    if needsPodServiceRBAC cluster
    then [mkEnvVar "EXTERNAL_SERVICE_TYPE" (from_option ss_ServiceType "" (spec_PodService (cl_Spec cluster))) None;
          fieldRef "POD_NAMESPACE" "metadata.namespace"]
    else [] in
  mkContainer InitContainerName (spec_Image (cl_Spec cluster)) ["bash"; "/configmap/aerospike-init.sh"] []
    (buildInitEnvVars ++ external ++ envUnlessEmpty "WIPE_VOLUMES" (buildWipeVolumesEnv storageSpec dirtyVolumes)
       ++ envUnlessEmpty "INIT_VOLUMES" (buildInitVolumesEnv storageSpec))
    emptyResources initMounts None None None None [].

(** ** The exporter *)

(** [strings.ReplaceAll] of a single character. *)
Fixpoint replaceChar (c : ascii) (by_ : string) (s : string) : string :=
  match s with
  | "" => ""
  | String a s => if decide (a = c) then by_ +:+ replaceChar c by_ s else String a (replaceChar c by_ s)
  end.

Definition backslash : ascii := Ascii.ascii_of_nat 92.
Definition quote : ascii := Ascii.ascii_of_nat 34.

(** [escapeTOML]. *)
Definition escapeTOML (s : string) : string :=
  replaceChar quote (String backslash (String quote "")) (replaceChar backslash (String backslash (String backslash "")) s).

Definition labelPair (e : string * string) : string :=
  escapeTOML e.1 +:+ "=" +:+ String quote (escapeTOML e.2) +:+ String quote "".

Definition metricLabelsEnv (labels : gomap string) : list EnvVar :=
  match labels with
  | [] => []
  | _ => [mkEnvVar "METRIC_LABELS" (join ", " (labelPair <$> sortedEntries labels)) None]
  end.

(** The credentials of the administrator, when there is one. *)
Definition authEnv (acl : option AerospikeAccessControlSpec) : list EnvVar :=
  match FindAdminUser (acl_Users <$> acl) with
  | None => []
  | Some adminUser =>
      [mkEnvVar "AS_AUTH_USER" (user_Name adminUser) None;
       mkEnvVar "AS_AUTH_PASSWORD" ""
         (Some (AMap [("secretKeyRef", AMap [("name", AString (user_SecretName adminUser)); ("key", AString "password")])]));
       mkEnvVar "AS_AUTH_MODE" "internal" None]
  end.

(** [buildExporterSidecar]. *)
Definition buildExporterSidecar (monitoring : AerospikeMonitoringSpec) (acl : option AerospikeAccessControlSpec) : Container :=
  let metricsProbe := ("httpGet", AMap [("path", AString "/metrics"); ("port", AInt KInt (mon_Port monitoring))]) in
  mkContainer "aerospike-prometheus-exporter" (mon_ExporterImage monitoring) []
    [containerPort "metrics" (mon_Port monitoring)]
    ([mkEnvVar "AS_HOST" "127.0.0.1" None; mkEnvVar "AS_PORT" (pretty ServicePort) None] ++ authEnv acl
       ++ metricLabelsEnv (mon_MetricLabels monitoring) ++ mon_Env monitoring)
    (default emptyResources (mon_Resources monitoring)) []
    (Some (probeSpec metricsProbe 30 30 5 3)) (Some (probeSpec metricsProbe 10 10 5 3)) None None [].

(** ** Scheduling *)

Definition hostnameLabelKey := "kubernetes.io/hostname".
Definition NodeSelectorOpIn := "In".
Definition NodeSelectorOpNotIn := "NotIn".

(** The pod spec being built.  [dr_shared]: its affinity is the object of the cluster's
    pod settings, whose content is [dr_cluster]. *)
Record draft := mkDraft {
  dr_pod : PodSpec;
  dr_shared : bool;
  dr_cluster : option Affinity
}.

#[export] Instance draft_fields : Fields draft := fun r => mkDraft (dr_pod r) (dr_shared r) (dr_cluster r).

Definition updatePod (f : PodSpec -> PodSpec) (d : draft) : draft := d <| dr_pod ::= f |>.

(** [podSpec.Affinity = a], where [shared] tells whose object [a] is. *)
Definition pointAffinity (shared : bool) (a : option Affinity) (d : draft) : draft :=
  match a with
  | None => d
  | Some _ => d <| dr_pod ::= fun p => p <| psp_Affinity := a |> |> <| dr_shared := shared |>
  end.

(** A write through [podSpec.Affinity], which is allocated when it is nil. *)
Definition writeAffinity (f : Affinity -> Affinity) (d : draft) : draft :=
  let a := f (default emptyAffinity (psp_Affinity (dr_pod d))) in
  d <| dr_pod ::= fun p => p <| psp_Affinity := Some a |> |>
    <| dr_cluster ::= fun c => if dr_shared d then Some a else c |>.

(** [if len(v) > 0 { x = v }]. *)
Definition replaceList {A} (v x : list A) : list A := match v with [] => x | _ => v end.
Definition replaceText (v x : string) : string := if decide (v = "") then x else v.
Definition replacePtr {A} (v x : option A) : option A := match v with None => x | _ => v end.

(** [applyPodSpecSettings]. *)
Definition applyPodSpecSettings (spec : AerospikePodSpec) (d : draft) : draft :=
  updatePod (fun p => p
    <| psp_Tolerations ::= replaceList (ps_Tolerations spec) |>
    <| psp_NodeSelector ::= replaceList (ps_NodeSelector spec) |>
    <| psp_SecurityContext ::= replacePtr (ps_SecurityContext spec) |>
    <| psp_ServiceAccountName ::= replaceText (ps_ServiceAccountName spec) |>
    <| psp_DNSPolicy ::= replaceText (ps_DNSPolicy spec) |>
    <| psp_HostNetwork ::= orb (ps_HostNetwork spec) |>
    <| psp_ImagePullSecrets ::= replaceList (ps_ImagePullSecrets spec) |>
    <| psp_ReadinessGates ::= fun gates =>
         if decide (ps_ReadinessGateEnabled spec = Some true) then gates ++ [AerospikeReadinessGateConditionType] else gates |>
    <| psp_TopologySpreadConstraints ::= replaceList (ps_TopologySpreadConstraints spec) |>
    <| psp_PriorityClassName ::= replaceText (ps_PriorityClassName spec) |>)
  (pointAffinity true (ps_Affinity spec) d).

(** [applyRackPodSpecOverrides]. *)
Definition applyRackPodSpecOverrides (rackPod : RackPodSpec) (d : draft) : draft :=
  updatePod (fun p => p
    <| psp_Tolerations ::= replaceList (rps_Tolerations rackPod) |>
    <| psp_NodeSelector ::= replaceList (rps_NodeSelector rackPod) |>)
  (pointAffinity false (rps_Affinity rackPod) d).

(** [applyRackAffinity]. *)
Definition rackRequirement (key value : string) : list NodeSelectorRequirement :=
  if decide (value = "") then [] else [mkNodeSelectorRequirement key NodeSelectorOpIn [value]].

Definition rackTerms (rack : Rack) : list NodeSelectorRequirement :=
  rackRequirement "topology.kubernetes.io/zone" (rack_Zone rack) ++
  rackRequirement "topology.kubernetes.io/region" (rack_Region rack) ++
  rackRequirement hostnameLabelKey (rack_NodeName rack) ++
  rackRequirement "acko.io/rack" (rack_RackLabel rack).

Definition applyRackAffinity (rack : Rack) (d : draft) : draft :=
  match rackTerms rack with
  | [] => d
  | terms => writeAffinity (fun a => a <| aff_NodeAffinity := Some (mkNodeAffinity (Some [mkNodeSelectorTerm terms []]) []) |>) d
  end.

(** [applyK8sNodeBlockList]: the requirement joins every term of the node selector. *)
Definition blockTerms (blocked : NodeSelectorRequirement) (terms : list NodeSelectorTerm) : list NodeSelectorTerm :=
  match terms with
  | [] => [mkNodeSelectorTerm [blocked] []]
  | _ => (fun t => t <| nst_MatchExpressions ::= fun l => l ++ [blocked] |>) <$> terms
  end.

Definition blockNodes (blocked : NodeSelectorRequirement) (a : Affinity) : Affinity :=
  let node := default emptyNodeAffinity (aff_NodeAffinity a) in
  a <| aff_NodeAffinity := Some (node <| na_Required := Some (blockTerms blocked (default [] (na_Required node))) |>) |>.

Definition applyK8sNodeBlockList (blockList : list string) (d : draft) : draft :=
  match blockList with
  | [] => d
  | _ => writeAffinity (blockNodes (mkNodeSelectorRequirement hostnameLabelKey NodeSelectorOpNotIn blockList)) d
  end.

(** [shouldInjectAntiAffinity]. *)
Definition shouldInjectAntiAffinity (cluster : AerospikeCluster) : bool :=
  bool_decide (spec_PodSpec (cl_Spec cluster) ≫= ps_MultiPodPerHost = Some false).

(** [injectPodAntiAffinity]. *)
Definition antiAffinityTerm (clusterName : string) : PodAffinityTerm :=
  mkPodAffinityTerm (Some (mkLabelSelector (SelectorLabelsForCluster clusterName) [])) hostnameLabelKey [].

Definition injectPodAntiAffinity (clusterName : string) (d : draft) : draft :=
  writeAffinity (fun a => a <| aff_PodAntiAffinity ::= fun anti =>
    Some ((default (mkPodAntiAffinity [] []) anti) <| paa_Required ::= fun l => l ++ [antiAffinityTerm clusterName] |>) |>) d.

(** ** The template *)

Definition defaultTerminationGraceSec : Z := 60.

(** The storage of a rack: its own or the cluster's. *)
Definition effectiveStorage (cluster : AerospikeCluster) (rack : Rack) : option AerospikeStorageSpec :=
  match rack_Storage rack with Some s => Some s | None => spec_Storage (cl_Spec cluster) end.

Definition bandwidthAnnotations (cluster : AerospikeCluster) (annotations : gomap string) : gomap string :=
  match spec_BandwidthConfig (cl_Spec cluster) with
  | None => annotations
  | Some b =>
      let set key value m := if decide (value = "") then m else map_set key value m in
      set "kubernetes.io/egress-bandwidth" (bw_Egress b) (set "kubernetes.io/ingress-bandwidth" (bw_Ingress b) annotations)
  end.

Definition podMetadata (cluster : AerospikeCluster) : option AerospikeObjectMeta :=
  spec_PodSpec (cl_Spec cluster) ≫= ps_Metadata.

Definition templateLabels (cluster : AerospikeCluster) (rackID : Z) : gomap string :=
  mapsCopy (LabelsForRack (cl_Name cluster) rackID) (from_option om_Labels [] (podMetadata cluster)).

Definition templateAnnotations (cluster : AerospikeCluster) (configHash : string) : gomap string :=
  mapsCopy (bandwidthAnnotations cluster [(ConfigHashAnnotation, configHash)])
    (from_option om_Annotations [] (podMetadata cluster)).

(** A container of the user with the mounts the storage gives it. *)
Definition withMounts (storageSpec : option AerospikeStorageSpec) (isSidecar : bool) (c : Container) : Container :=
  c <| ct_VolumeMounts ::= fun l => l ++ VolumeMountsForContainer storageSpec (ct_Name c) isSidecar |>.

Definition userContainers (get : AerospikePodSpec -> list Container) (cluster : AerospikeCluster) : list Container :=
  from_option get [] (spec_PodSpec (cl_Spec cluster)).

Definition templateVolumes (storageSpec : option AerospikeStorageSpec) (configMapName : string) : list Volume :=
  (BuildVolumes storageSpec).1 ++
  [mkVolume configMapVolumeName ("configMap", AMap [("name", AString configMapName)]);
   mkVolume aerospikeConfigVolumeName ("emptyDir", AMap [])].

Definition serverMounts (storageSpec : option AerospikeStorageSpec) : list VolumeMount :=
  (BuildVolumes storageSpec).2 ++ [mkVolumeMount aerospikeConfigVolumeName false None aerospikeConfigPath "" None ""].

(** The pod spec before the settings of the cluster and of the rack. *)
Definition basePod (cluster : AerospikeCluster) (rack : Rack) (configMapName : string) : PodSpec :=
  let storageSpec := effectiveStorage cluster rack in
  let initContainer := BuildInitContainer cluster storageSpec (VolumeMountsForContainer storageSpec InitContainerName false) [] in
  let exporter := match spec_Monitoring (cl_Spec cluster) with
                  | Some m => if mon_Enabled m then [buildExporterSidecar m (spec_AerospikeAccessControl (cl_Spec cluster))] else []
                  | None => []
                  end in
  emptyPod
    <| psp_InitContainers := initContainer :: (withMounts storageSpec false <$> userContainers ps_InitContainers cluster) |>
    <| psp_Containers := BuildAerospikeContainer cluster (serverMounts storageSpec) ::
         exporter ++ (withMounts storageSpec true <$> userContainers ps_Sidecars cluster) |>
    <| psp_Volumes := templateVolumes storageSpec configMapName |>
    <| psp_TerminationGracePeriodSeconds :=
         Some (default defaultTerminationGraceSec (spec_PodSpec (cl_Spec cluster) ≫= ps_TerminationGracePeriodSeconds)) |>
    <| psp_AutomountServiceAccountToken := if needsPodServiceRBAC cluster then Some true else None |>.

(** The settings of the cluster. *)
Definition clusterDraft (cluster : AerospikeCluster) (p : PodSpec) : draft :=
  let spec := cl_Spec cluster in
  let d := mkDraft p false (spec_PodSpec spec ≫= ps_Affinity) in
  let d := from_option (fun ps => applyPodSpecSettings ps d) d (spec_PodSpec spec) in
  if shouldInjectAntiAffinity cluster then injectPodAntiAffinity (cl_Name cluster) d else d.

(** The settings of the rack. *)
Definition rackDraft (rack : Rack) (d : draft) : draft :=
  let d := applyRackAffinity rack d in
  from_option (fun rp => applyRackPodSpecOverrides rp d) d (rack_PodSpec rack).

(** The settings in the order in which they are applied. *)
Definition schedulePod (cluster : AerospikeCluster) (rack : Rack) (p : PodSpec) : draft :=
  applyK8sNodeBlockList (spec_K8sNodeBlockList (cl_Spec cluster)) (rackDraft rack (clusterDraft cluster p)).

(** The cluster with its pod settings pointing at this affinity. *)
Definition withAffinity (a : option Affinity) (cluster : AerospikeCluster) : AerospikeCluster :=
  cluster <| cl_Spec ::= fun s => s <| spec_PodSpec ::= fmap (fun ps => ps <| ps_Affinity := a |>) |> |>.

(** [BuildPodTemplateSpec]: the template, and what has become of the cluster. *)
Definition BuildPodTemplateSpec (cluster : AerospikeCluster) (rack : Rack) (rackID : Z)
    (configMapName configHash : string) : PodTemplateSpec * AerospikeCluster :=
  let d := schedulePod cluster rack (basePod cluster rack configMapName) in
  (mkPodTemplateSpec (templateLabels cluster rackID) (templateAnnotations cluster configHash) (dr_pod d),
   withAffinity (dr_cluster d) cluster).

(** ** What the scheduler makes of an affinity *)

Record node := mkNode { nd_Name : string; nd_Labels : gomap string }.

(** A requirement on labels; an operator the API does not know holds of nothing. *)
Definition requirementHolds (labels : gomap string) (r : NodeSelectorRequirement) : bool :=
  let v := map_get (nsr_Key r) labels in
  let compare f := match v ≫= atoi, nsr_Values r with
                   | Some x, [y] => from_option (f x) false (atoi y)
                   | _, _ => false
                   end in
  if decide (nsr_Operator r = "In") then from_option (fun x => bool_decide (x ∈ nsr_Values r)) false v
  else if decide (nsr_Operator r = "NotIn") then from_option (fun x => negb (bool_decide (x ∈ nsr_Values r))) true v
  else if decide (nsr_Operator r = "Exists") then bool_decide (is_Some v)
  else if decide (nsr_Operator r = "DoesNotExist") then bool_decide (v = None)
  else if decide (nsr_Operator r = "Gt") then compare (fun x y => y <? x)
  else if decide (nsr_Operator r = "Lt") then compare Z.ltb
  else false.

(** The requirements of a term are all to hold, and a term without any matches nothing. *)
Definition termMatches (n : node) (t : NodeSelectorTerm) : bool :=
  match nst_MatchExpressions t, nst_MatchFields t with
  | [], [] => false
  | exprs, fields => forallb (requirementHolds (nd_Labels n)) exprs &&
                     forallb (requirementHolds [("metadata.name", nd_Name n)]) fields
  end.

(** One of the terms has to match. *)
Definition admits (a : option Affinity) (n : node) : bool :=
  match (a ≫= aff_NodeAffinity) ≫= na_Required with
  | None => true
  | Some terms => existsb (termMatches n) terms
  end.

(** The affinity of the template of a rack. *)
Definition rackAffinity (cluster : AerospikeCluster) (rack : Rack) (configMapName configHash : string) : option Affinity :=
  psp_Affinity (tpl_Spec (BuildPodTemplateSpec cluster rack (rack_ID rack) configMapName configHash).1).

(** ** Blocked nodes *)

Lemma termMatches_all n t r :
  termMatches n t = true -> r ∈ nst_MatchExpressions t -> requirementHolds (nd_Labels n) r = true.
Proof.
  unfold termMatches. destruct (nst_MatchExpressions t) as [|e l]; [by intros _ ?%elem_of_nil|].
  intros Hm Hr. destruct (nst_MatchFields t); apply andb_true_iff in Hm as [Hm _]; rewrite forallb_forall in Hm;
    apply Hm; by apply list_elem_of_In.
Qed.

Lemma blockTerms_every blocked terms t : t ∈ blockTerms blocked terms -> blocked ∈ nst_MatchExpressions t.
Proof.
  unfold blockTerms. destruct terms as [|t0 terms].
  - intros ->%list_elem_of_singleton. by apply list_elem_of_singleton.
  - intros (t1 & -> & _)%list_elem_of_fmap. apply elem_of_app. right. by apply list_elem_of_singleton.
Qed.

(** C31: no pod of the cluster can be placed on a node of the block list, whatever other
    affinity the cluster, the rack or the pod settings of the rack ask for *)
Theorem blocked_nodes_avoided cluster rack configMapName configHash n host :
  map_get hostnameLabelKey (nd_Labels n) = Some host -> host ∈ spec_K8sNodeBlockList (cl_Spec cluster) ->
  admits (rackAffinity cluster rack configMapName configHash) n = false.
Proof.
  intros Hn Hin. change (rackAffinity _ _ _ _) with (psp_Affinity (dr_pod (schedulePod cluster rack (basePod cluster rack configMapName)))).
  unfold schedulePod, applyK8sNodeBlockList. destruct (spec_K8sNodeBlockList (cl_Spec cluster)) as [|b l]; [by apply elem_of_nil in Hin|].
  set (blocked := mkNodeSelectorRequirement _ _ _). cbn. apply not_true_iff_false.
  intros (t & Ht%list_elem_of_In & Hm)%existsb_exists. apply blockTerms_every in Ht. pose proof (termMatches_all n t blocked Hm Ht) as Hr.
  unfold requirementHolds in Hr. cbn [nsr_Key nsr_Operator nsr_Values blocked] in Hr. rewrite Hn in Hr.
  rewrite decide_False, decide_True in Hr by done. cbn in Hr. by rewrite bool_decide_true in Hr.
Qed.

(** ** Placement of racks *)

Definition requiredTerms (a : option Affinity) : option (list NodeSelectorTerm) := (a ≫= aff_NodeAffinity) ≫= na_Required.

Lemma override_without_affinity rack d :
  rack_PodSpec rack ≫= rps_Affinity = None ->
  psp_Affinity (dr_pod (rackDraft rack d)) = psp_Affinity (dr_pod (applyRackAffinity rack d)).
Proof.
  unfold rackDraft. destruct (rack_PodSpec rack) as [rp|]; [|done]. intros Hrp. cbn [from_option].
  unfold applyRackPodSpecOverrides. change (rps_Affinity rp = None) in Hrp. rewrite Hrp. done.
Qed.

Lemma blockList_terms l d terms :
  requiredTerms (psp_Affinity (dr_pod d)) = Some terms ->
  exists terms', requiredTerms (psp_Affinity (dr_pod (applyK8sNodeBlockList l d))) = Some terms' /\
    forall n t', t' ∈ terms' -> termMatches n t' = true ->
      exists rs : list NodeSelectorRequirement, (forall r, r ∈ rs -> requirementHolds (nd_Labels n) r = true) /\
        (terms = [] \/ exists t, t ∈ terms /\ forall r, r ∈ nst_MatchExpressions t -> r ∈ rs).
Proof.
  intros Ht. unfold applyK8sNodeBlockList. destruct l as [|b l].
  { exists terms. split; [done|]. intros n t Hin Hm. exists (nst_MatchExpressions t). split; [intros r; by apply termMatches_all|].
    right. by exists t. }
  set (blocked := mkNodeSelectorRequirement _ _ _). eexists. split; [done|]. unfold requiredTerms in Ht.
  destruct (psp_Affinity (dr_pod d)) as [a|]; [|done]. cbn in Ht. destruct (aff_NodeAffinity a) as [na|] eqn:Hna; [|done].
  cbn. rewrite Hna. cbn. cbn in Ht. rewrite Ht. cbn. intros n t' Hin Hm.
  exists (nst_MatchExpressions t'). split; [intros r; by apply termMatches_all|]. destruct terms as [|t0 terms]; [by left|]. right.
  apply list_elem_of_fmap in Hin as (t & -> & Hin). exists t. split; [done|]. intros r Hr. apply elem_of_app. by left.
Qed.

Lemma rack_terms_hold cluster rack configMapName configHash n r :
  rack_PodSpec rack ≫= rps_Affinity = None -> admits (rackAffinity cluster rack configMapName configHash) n = true ->
  r ∈ rackTerms rack -> requirementHolds (nd_Labels n) r = true.
Proof.
  intros Hrp. change (rackAffinity _ _ _ _) with (psp_Affinity (dr_pod (schedulePod cluster rack (basePod cluster rack configMapName)))).
  unfold schedulePod. set (d := clusterDraft _ _). intros Ha Hr.
  assert (exists ts, rackTerms rack = ts /\ ts <> [] /\
    requiredTerms (psp_Affinity (dr_pod (rackDraft rack d))) = Some [mkNodeSelectorTerm ts []]) as (ts & Hts & Hne & Hreq).
  { exists (rackTerms rack). split; [done|]. rewrite override_without_affinity by done. unfold applyRackAffinity.
    destruct (rackTerms rack) as [|t ts]; [by apply elem_of_nil in Hr|]. by split. }
  destruct (blockList_terms (spec_K8sNodeBlockList (cl_Spec cluster)) _ _ Hreq) as (terms' & Hreq' & Hall).
  unfold admits in Ha. fold (requiredTerms (psp_Affinity (dr_pod (applyK8sNodeBlockList (spec_K8sNodeBlockList (cl_Spec cluster)) (rackDraft rack d))))) in Ha.
  rewrite Hreq' in Ha. apply existsb_exists in Ha as (t' & Ht'%list_elem_of_In & Hm).
  destruct (Hall n t' Ht' Hm) as (rs & Hrs & [?|(t & ->%list_elem_of_singleton & Ht)]); [done|]. apply Hrs, Ht. cbn. by rewrite <- Hts.
Qed.

Lemma rackRequirement_holds labels key value :
  (forall r, r ∈ rackRequirement key value -> requirementHolds labels r = true) -> value <> "" -> map_get key labels = Some value.
Proof.
  intros Hr Hv. unfold rackRequirement in Hr. rewrite decide_False in Hr by done.
  specialize (Hr _ (proj2 (list_elem_of_singleton _ _) eq_refl)). unfold requirementHolds in Hr. cbn [nsr_Key nsr_Operator nsr_Values] in Hr.
  rewrite decide_True in Hr by done. destruct (map_get key labels) as [x|]; [|done]. cbn in Hr.
  apply bool_decide_eq_true in Hr as ->%list_elem_of_singleton. done.
Qed.

(** The pods of a rack go only to nodes of its zone and region, to its node and to
    nodes with its label, where the rack names them, unless its pod settings bring an
    affinity of their own. *)
Theorem rack_placement cluster rack configMapName configHash n :
  rack_PodSpec rack ≫= rps_Affinity = None -> admits (rackAffinity cluster rack configMapName configHash) n = true ->
  (rack_Zone rack <> "" -> map_get "topology.kubernetes.io/zone" (nd_Labels n) = Some (rack_Zone rack)) /\
  (rack_Region rack <> "" -> map_get "topology.kubernetes.io/region" (nd_Labels n) = Some (rack_Region rack)) /\
  (rack_NodeName rack <> "" -> map_get hostnameLabelKey (nd_Labels n) = Some (rack_NodeName rack)) /\
  (rack_RackLabel rack <> "" -> map_get "acko.io/rack" (nd_Labels n) = Some (rack_RackLabel rack)).
Proof.
  intros Hrp Ha. pose proof (fun r => rack_terms_hold cluster rack configMapName configHash n r Hrp Ha) as Hall.
  unfold rackTerms in Hall. setoid_rewrite elem_of_app in Hall. setoid_rewrite elem_of_app in Hall. setoid_rewrite elem_of_app in Hall.
  split_and!; apply rackRequirement_holds; intros r Hr; apply Hall; tauto.
Qed.

(** ** One pod per node *)

Lemma writeAffinity_get f d : psp_Affinity (dr_pod (writeAffinity f d)) = Some (f (default emptyAffinity (psp_Affinity (dr_pod d)))).
Proof. done. Qed.

(** The anti-affinity that is required of a pod. *)
Definition repels (a : option Affinity) : list PodAffinityTerm := from_option paa_Required [] (a ≫= aff_PodAntiAffinity).

Lemma repels_rackAffinity rack d : repels (psp_Affinity (dr_pod (applyRackAffinity rack d))) = repels (psp_Affinity (dr_pod d)).
Proof.
  unfold applyRackAffinity. destruct (rackTerms rack); [done|]. rewrite writeAffinity_get. unfold repels.
  by destruct (psp_Affinity (dr_pod d)).
Qed.

Lemma repels_blockList l d : repels (psp_Affinity (dr_pod (applyK8sNodeBlockList l d))) = repels (psp_Affinity (dr_pod d)).
Proof.
  unfold applyK8sNodeBlockList. destruct l; [done|]. rewrite writeAffinity_get. unfold repels.
  by destruct (psp_Affinity (dr_pod d)).
Qed.

(** When at most one pod is to run on a node, the pods of a rack repel every pod of
    the cluster, and carry the labels by which they are repelled themselves, unless the
    pod settings replace the affinity or those labels. *)
Theorem one_pod_per_node cluster rack configMapName configHash :
  spec_PodSpec (cl_Spec cluster) ≫= ps_MultiPodPerHost = Some false -> rack_PodSpec rack ≫= rps_Affinity = None ->
  map_wf (from_option om_Labels [] (podMetadata cluster)) ->
  (forall k, k ∈ map_keys (from_option om_Labels [] (podMetadata cluster)) -> k <> AppLabel /\ k <> InstanceLabel) ->
  let template := (BuildPodTemplateSpec cluster rack (rack_ID rack) configMapName configHash).1 in
  exists term sel, term ∈ repels (psp_Affinity (tpl_Spec template)) /\ pat_TopologyKey term = hostnameLabelKey /\
    pat_LabelSelector term = Some (mkLabelSelector sel []) /\ selector_matches sel (tpl_Labels template) = true.
Proof.
  intros Hm Hrp Hwf Hk template. exists (antiAffinityTerm (cl_Name cluster)), (SelectorLabelsForCluster (cl_Name cluster)).
  split_and!; [|done|done|].
  - change (psp_Affinity (tpl_Spec template)) with (psp_Affinity (dr_pod (schedulePod cluster rack (basePod cluster rack configMapName)))).
    unfold schedulePod. rewrite repels_blockList, override_without_affinity, repels_rackAffinity by done. unfold clusterDraft.
    assert (shouldInjectAntiAffinity cluster = true) as -> by (by apply bool_decide_eq_true).
    unfold injectPodAntiAffinity. rewrite writeAffinity_get. cbn. apply elem_of_app. right. by apply list_elem_of_singleton.
  - change (tpl_Labels template) with (templateLabels cluster (rack_ID rack)). unfold templateLabels.
    assert (forall k v, k = AppLabel \/ k = InstanceLabel -> map_get k (LabelsForRack (cl_Name cluster) (rack_ID rack)) = Some v ->
      map_get k (mapsCopy (LabelsForRack (cl_Name cluster) (rack_ID rack)) (from_option om_Labels [] (podMetadata cluster))) = Some v) as Hget.
    { intros k v Hkv Hv. rewrite map_get_copy by done. destruct (map_get k (from_option _ _ _)) eqn:Hu; [|done].
      assert (k ∈ map_keys (from_option om_Labels [] (podMetadata cluster))) as Hin by (apply map_get_is_Some; by eexists).
      apply Hk in Hin. naive_solver. }
    unfold selector_matches. cbn [forallb SelectorLabelsForCluster fst snd].
    rewrite (Hget AppLabel appName), (Hget InstanceLabel (cl_Name cluster)); [by rewrite !bool_decide_true|by right|done|by left|done].
Qed.

(** ** Mounts *)

(** There is a claim template for every persistent volume. *)
Lemma claimTemplate_names spec :
  vct_Name <$> BuildVolumeClaimTemplates (Some spec) = vol_Name <$> filter (fun v => is_Some (vol_PersistentVolume v)) (st_Volumes spec).
Proof.
  unfold BuildVolumeClaimTemplates. induction (st_Volumes spec) as [|v l IH]; [done|]. rewrite filter_cons. csimpl. unfold claimTemplate at 1.
  destruct (vol_PersistentVolume v) as [pv|]; csimpl.
  - by rewrite IH.
  - exact IH.
Qed.

(** A volume of the spec that names where its data comes from. *)
Definition sourced (vol : VolumeSpec) : Prop := is_Some (volumeForSpec vol) \/ is_Some (vol_PersistentVolume vol).

(** The volumes a pod of the StatefulSet has. *)
Definition providedVolumes (storageSpec : option AerospikeStorageSpec) (p : PodSpec) : list string :=
  (v_Name <$> psp_Volumes p) ++ (vct_Name <$> BuildVolumeClaimTemplates storageSpec).

(** The settings leave containers and volumes as they are. *)
Definition podParts (p : PodSpec) := (psp_InitContainers p, psp_Containers p, psp_Volumes p).

Lemma podParts_schedule cluster rack p : podParts (dr_pod (schedulePod cluster rack p)) = podParts p.
Proof.
  assert (forall f d, podParts (dr_pod (writeAffinity f d)) = podParts (dr_pod d)) as Hw by done.
  assert (forall b a d, podParts (dr_pod (pointAffinity b a d)) = podParts (dr_pod d)) as Hp by (by intros b [a|] d).
  unfold schedulePod.
  assert (forall l d, podParts (dr_pod (applyK8sNodeBlockList l d)) = podParts (dr_pod d)) as -> by (by intros [|] d).
  assert (forall d, podParts (dr_pod (rackDraft rack d)) = podParts (dr_pod d)) as ->.
  { intros d. unfold rackDraft. trans (podParts (dr_pod (applyRackAffinity rack d))).
    - destruct (rack_PodSpec rack) as [rp|]; [|done]. cbn [from_option]. exact (Hp false (rps_Affinity rp) _).
    - unfold applyRackAffinity. destruct (rackTerms rack); [done|apply Hw]. }
  unfold clusterDraft. trans (podParts (dr_pod (from_option (fun ps => applyPodSpecSettings ps (mkDraft p false (spec_PodSpec (cl_Spec cluster) ≫= ps_Affinity)))
    (mkDraft p false (spec_PodSpec (cl_Spec cluster) ≫= ps_Affinity)) (spec_PodSpec (cl_Spec cluster))))).
  { by destruct (shouldInjectAntiAffinity cluster). }
  destruct (spec_PodSpec (cl_Spec cluster)) as [ps|]; [|done]. cbn [from_option]. exact (Hp true (ps_Affinity ps) _).
Qed.

Lemma volumeForSpec_name vol v : volumeForSpec vol = Some v -> v_Name v = vol_Name vol.
Proof. unfold volumeForSpec. by repeat case_match; intros; simplify_eq/=. Qed.

Lemma sourced_provided spec vol p configMapName :
  psp_Volumes p = templateVolumes (Some spec) configMapName -> vol ∈ st_Volumes spec -> sourced vol ->
  vol_Name vol ∈ providedVolumes (Some spec) p.
Proof.
  intros Hp Hin Hsrc. unfold providedVolumes. rewrite Hp. unfold templateVolumes. rewrite fmap_app, !elem_of_app.
  destruct Hsrc as [[v Hv]|[pv Hpv]].
  - left. left. apply list_elem_of_fmap. exists v. split; [by rewrite (volumeForSpec_name _ _ Hv)|]. apply list_elem_of_omap. by exists vol.
  - right. unfold BuildVolumeClaimTemplates. apply list_elem_of_fmap.
    destruct (claimTemplate vol) as [t|] eqn:Ht; unfold claimTemplate in Ht; rewrite Hpv in Ht; [|done].
    exists t. split; [by injection Ht as <-|]. apply list_elem_of_omap. exists vol. split; [done|]. unfold claimTemplate. by rewrite Hpv.
Qed.

(** The mounts that the storage of a rack gives to its containers. *)
Definition storageMounts (storageSpec : option AerospikeStorageSpec) : list VolumeMount :=
  (BuildVolumes storageSpec).2 ++
  (spec ← option_list storageSpec; vol ← st_Volumes spec; attachmentMount vol <$> vol_Sidecars vol ++ vol_InitContainers vol).

Lemma containerMounts_storage storageSpec name b m :
  m ∈ VolumeMountsForContainer storageSpec name b -> m ∈ storageMounts storageSpec.
Proof.
  unfold VolumeMountsForContainer, storageMounts. destruct storageSpec as [spec|]; [|by intros ?%elem_of_nil].
  intros (vol & Hm & Hvol)%list_elem_of_bind. apply elem_of_app. right. cbn. rewrite app_nil_r. apply list_elem_of_bind. exists vol. split; [|done].
  apply list_elem_of_fmap in Hm as (att & -> & Hatt). apply list_elem_of_fmap. exists att. split; [done|].
  apply list_elem_of_filter in Hatt as [_ Hatt]. apply elem_of_app. destruct b; [by left|by right].
Qed.

Lemma storageMounts_provided storageSpec p configMapName m :
  psp_Volumes p = templateVolumes storageSpec configMapName ->
  (forall spec vol, storageSpec = Some spec -> vol ∈ st_Volumes spec -> sourced vol) ->
  m ∈ storageMounts storageSpec -> vm_Name m ∈ providedVolumes storageSpec p.
Proof.
  intros Hp Hsrc. unfold storageMounts. destruct storageSpec as [spec|]; [|by intros ?%elem_of_nil].
  intros [Hm|Hm]%elem_of_app.
  - apply list_elem_of_omap in Hm as (vol & Hvol & Hm). unfold aerospikeMount in Hm. destruct (vol_Aerospike vol) as [a|]; [|done].
    injection Hm as <-. cbn. apply (sourced_provided spec vol p configMapName); [done|done|by eapply Hsrc].
  - cbn in Hm. rewrite app_nil_r in Hm. apply list_elem_of_bind in Hm as (vol & Hm & Hvol). apply list_elem_of_fmap in Hm as (att & -> & _).
    apply (sourced_provided spec vol p configMapName); [done|done|by eapply Hsrc].
Qed.

(** Every mount of a container is one the user gave it, or it has its volume. *)
Lemma basePod_mounts cluster rack configMapName c m :
  let p := basePod cluster rack configMapName in
  c ∈ psp_InitContainers p ++ psp_Containers p -> m ∈ ct_VolumeMounts c ->
  m ∈ storageMounts (effectiveStorage cluster rack) \/ vm_Name m ∈ [configMapVolumeName; aerospikeConfigVolumeName] \/
  exists u, u ∈ userContainers ps_InitContainers cluster ++ userContainers ps_Sidecars cluster /\
    ct_Name u = ct_Name c /\ m ∈ ct_VolumeMounts u.
Proof.
  intros p Hc Hm. set (st := effectiveStorage cluster rack).
  assert (forall b (us : list Container), c ∈ withMounts st b <$> us -> m ∈ storageMounts st \/ exists u, u ∈ us /\ ct_Name u = ct_Name c /\ m ∈ ct_VolumeMounts u) as Huser.
  { intros b us (u & Heq & Hu)%list_elem_of_fmap. subst c. cbn in Hm. apply elem_of_app in Hm as [Hm|Hm]; [by right; exists u|].
    left. by eapply containerMounts_storage. }
  change (psp_InitContainers p) with (BuildInitContainer cluster st (VolumeMountsForContainer st InitContainerName false) [] ::
    (withMounts st false <$> userContainers ps_InitContainers cluster)) in Hc.
  change (psp_Containers p) with (BuildAerospikeContainer cluster (serverMounts st) ::
    (match spec_Monitoring (cl_Spec cluster) with
     | Some m => if mon_Enabled m then [buildExporterSidecar m (spec_AerospikeAccessControl (cl_Spec cluster))] else []
     | None => []
     end) ++ (withMounts st true <$> userContainers ps_Sidecars cluster)) in Hc.
  rewrite elem_of_app, !elem_of_cons, elem_of_app in Hc. destruct Hc as [[->|Hc]|[->|[Hc|Hc]]].
  - change (ct_VolumeMounts _) with ([mkVolumeMount configMapVolumeName true None configMapVolumeMountPath "" None "";
      mkVolumeMount aerospikeConfigVolumeName false None aerospikeConfigPath "" None ""] ++ VolumeMountsForContainer st InitContainerName false) in Hm.
    apply elem_of_app in Hm as [Hm|Hm]; [|left; by eapply containerMounts_storage].
    right. left. rewrite !elem_of_cons in Hm. destruct Hm as [->|[->|Hm]]; [by left|right; by left|by apply elem_of_nil in Hm].
  - destruct (Huser _ _ Hc) as [?|(u & Hu & ?)]; [by left|]. right. right. exists u. split; [|done]. apply elem_of_app. by left.
  - change (ct_VolumeMounts _) with (serverMounts st) in Hm. unfold serverMounts in Hm. apply elem_of_app in Hm as [Hm|Hm].
    + left. unfold storageMounts. apply elem_of_app. by left.
    + right. left. apply list_elem_of_singleton in Hm as ->. right. by left.
  - destruct (spec_Monitoring (cl_Spec cluster)) as [mo|]; [|by apply elem_of_nil in Hc]. destruct (mon_Enabled mo); [|by apply elem_of_nil in Hc].
    apply list_elem_of_singleton in Hc as ->. by apply elem_of_nil in Hm.
  - destruct (Huser _ _ Hc) as [?|(u & Hu & ?)]; [by left|]. right. right. exists u. split; [|done]. apply elem_of_app. by right.
Qed.

(** Where every volume of the storage has a source, no mount is left without its volume:
    each is of an inline volume or a claim template, or was given by the user. *)
Lemma mounts_resolve cluster rack rackID configMapName configHash c m :
  (forall spec vol, effectiveStorage cluster rack = Some spec -> vol ∈ st_Volumes spec -> sourced vol) ->
  let p := tpl_Spec (BuildPodTemplateSpec cluster rack rackID configMapName configHash).1 in
  c ∈ psp_InitContainers p ++ psp_Containers p -> m ∈ ct_VolumeMounts c ->
  vm_Name m ∈ providedVolumes (effectiveStorage cluster rack) p \/
  exists u, u ∈ userContainers ps_InitContainers cluster ++ userContainers ps_Sidecars cluster /\
    ct_Name u = ct_Name c /\ m ∈ ct_VolumeMounts u.
Proof.
  intros Hsrc p Hc Hm. change p with (dr_pod (schedulePod cluster rack (basePod cluster rack configMapName))) in *. clear p.
  pose proof (podParts_schedule cluster rack (basePod cluster rack configMapName)) as Hp. unfold podParts in Hp.
  set (p := dr_pod _) in *. injection Hp as Hi Hcs Hv. rewrite Hi, Hcs in Hc.
  assert (psp_Volumes p = templateVolumes (effectiveStorage cluster rack) configMapName) as Hvols by (by rewrite Hv).
  destruct (basePod_mounts cluster rack configMapName c m Hc Hm) as [Hs|[Hs|Hs]]; [left|left|by right].
  - by apply (storageMounts_provided _ _ configMapName).
  - unfold providedVolumes. rewrite Hvols. unfold templateVolumes. rewrite fmap_app, !elem_of_app. left. by right.
Qed.

(** ** Labels of the exporter

    The exporter reads METRIC_LABELS as the inside of an inline table of TOML, after
    Kubernetes has replaced the references $(NAME) in it.  Neither is part of this
    repository: [ExporterInput] asks of them that a text without $ is left alone, and
    what the TOML specification says of bare keys and basic strings. *)

(** One character beyond ASCII in UTF-8. *)
Definition between (lo hi : N) (a : ascii) : bool := bool_decide (lo <= N_of_ascii a <= hi)%N.
Definition tailByte : ascii -> bool := between 128 191.

Definition wideRune (r : string) : bool :=
  match r with
  | String a (String b "") => between 194 223 a && tailByte b
  | String a (String b (String c "")) =>
      (between 224 224 a && between 160 191 b || (between 225 236 a || between 238 239 a) && tailByte b ||
       between 237 237 a && between 128 159 b) && tailByte c
  | String a (String b (String c (String d ""))) =>
      (between 240 240 a && between 144 191 b || between 241 243 a && tailByte b ||
       between 244 244 a && between 128 143 b) && tailByte c && tailByte d
  | _ => false
  end.

(** Text in UTF-8. *)
Inductive utf8 : string -> Prop :=
| utf8_nil : utf8 ""
| utf8_ascii a s : (N_of_ascii a < 128)%N -> utf8 s -> utf8 (String a s)
| utf8_wide r s : wideRune r = true -> utf8 s -> utf8 (r +:+ s).

(** The characters of a bare key, and those a basic string may have as they are. *)
Definition bareChar (a : ascii) : Prop :=
  let n := N_of_ascii a in (48 <= n <= 57 \/ 65 <= n <= 90 \/ 97 <= n <= 122 \/ n = 95 \/ n = 45)%N.
Definition bareKey (k : string) : Prop := k <> "" /\ Forall bareChar (list_ascii_of_string k).
Definition plainChar (a : ascii) : Prop :=
  let n := N_of_ascii a in (n = 9 \/ 32 <= n <= 126)%N /\ a <> quote /\ a <> backslash.

(** [basicString src v]: between quotation marks, [src] stands for [v]. *)
Inductive basicString : string -> string -> Prop :=
| basic_nil : basicString "" ""
| basic_char a s v : plainChar a -> basicString s v -> basicString (String a s) (String a v)
| basic_escape a s v : a = quote \/ a = backslash -> basicString s v -> basicString (String backslash (String a s)) (String a v)
| basic_wide r s v : wideRune r = true -> basicString s v -> basicString (r +:+ s) (r +:+ v).

(** [inlinePairs text l]: the pairs key="value" of [l] with commas between them. *)
Inductive inlinePairs : string -> list (string * string) -> Prop :=
| inline_one k src v : bareKey k -> basicString src v ->
    inlinePairs (k +:+ "=" +:+ String quote (src +:+ String quote "")) [(k, v)]
| inline_more k src v text l : bareKey k -> basicString src v -> inlinePairs text l ->
    inlinePairs (k +:+ "=" +:+ String quote (src +:+ String quote (", " +:+ text))) ((k, v) :: l).

(** The value of a variable, and a reader of inline tables: it accepts those of the
    specification, whose keys are distinct. *)
Class ExporterInput := {
  expandEnv : string -> string;
  expandEnv_plain s : str_contains "$" s = false -> expandEnv s = s;
  readInline : string -> option (list (string * string));
  readInline_spec text l : inlinePairs text l -> NoDup l.*1 -> readInline text = Some l
}.

Lemma replaceChar_none c t s : str_contains c s = false -> replaceChar c t s = s.
Proof.
  induction s as [|a s IH]; [done|]. simpl. intros [Ha Hs]%orb_false_iff. apply bool_decide_eq_false in Ha.
  rewrite decide_False by done. by rewrite IH.
Qed.

Lemma escape_backslash s : escapeTOML (String backslash s) = String backslash (String backslash (escapeTOML s)).
Proof. done. Qed.

Lemma escape_quote s : escapeTOML (String quote s) = String backslash (String quote (escapeTOML s)).
Proof. done. Qed.

Lemma escape_other a s : a <> backslash -> a <> quote -> escapeTOML (String a s) = String a (escapeTOML s).
Proof. intros Hb Hq. unfold escapeTOML. cbn [replaceChar]. rewrite decide_False by done. cbn [replaceChar]. by rewrite decide_False. Qed.

Lemma escape_high r s :
  Forall (fun a => (128 <= N_of_ascii a)%N) (list_ascii_of_string r) -> escapeTOML (r +:+ s) = r +:+ escapeTOML s.
Proof.
  induction r as [|a r IH]; [done|]. simpl. intros [Ha Hr]%Forall_cons. rewrite !app_cons, escape_other, IH; [done|done|..];
    intros ->; vm_compute in Ha; by apply Ha.
Qed.

Lemma wideRune_high r : wideRune r = true -> Forall (fun a => (128 <= N_of_ascii a)%N) (list_ascii_of_string r).
Proof.
  unfold wideRune, tailByte, between. destruct r as [|a [|b [|c [|d [|]]]]]; try done; simpl;
    rewrite ?andb_true_iff, ?orb_true_iff, ?andb_true_iff, ?orb_true_iff, ?bool_decide_eq_true; intros Hr;
    repeat constructor; lia.
Qed.

Lemma existsb_app_str (P : ascii -> bool) r s :
  existsb P (list_ascii_of_string (r +:+ s)) =
  existsb P (list_ascii_of_string r) || existsb P (list_ascii_of_string s).
Proof. induction r as [|a r IH]; [done|]. rewrite app_cons. simpl. by rewrite IH, orb_assoc. Qed.

(** A value without control characters is written as a basic string that stands for it. *)
Lemma escape_basic v :
  utf8 v -> existsb (fun a => bool_decide (N_of_ascii a < 32 \/ N_of_ascii a = 127)%N) (list_ascii_of_string v) = false ->
  basicString (escapeTOML v) v.
Proof.
  induction 1 as [|a s Ha _ IH|r s Hr _ IH]; intros Hc.
  - constructor.
  - simpl in Hc. apply orb_false_iff in Hc as [Hn%bool_decide_eq_false Hc]. specialize (IH Hc).
    destruct (decide (a = backslash)) as [->|Hb]; [|destruct (decide (a = quote)) as [->|Hq]].
    + rewrite escape_backslash. apply basic_escape; [by right|done].
    + rewrite escape_quote. apply basic_escape; [by left|done].
    + rewrite escape_other by done. apply basic_char; [|done]. split; [right; lia|done].
  - rewrite escape_high by by apply wideRune_high. apply basic_wide; [done|]. apply IH.
    rewrite existsb_app_str in Hc. by apply orb_false_iff in Hc as [_ Hc].
Qed.

(** A bare key is not changed by the escapes. *)
Lemma bareChar_other a : bareChar a -> a <> backslash /\ a <> quote /\ a <> "="%char.
Proof. intros Ha. split_and!; intros ->; vm_compute in Ha; naive_solver. Qed.

Lemma escape_bare k : Forall bareChar (list_ascii_of_string k) -> escapeTOML k = k.
Proof.
  induction k as [|a k IH]; [done|]. simpl. intros [(Hb & Hq & _)%bareChar_other Hk]%Forall_cons.
  by rewrite escape_other, IH.
Qed.

Lemma labelPairs_inline l :
  l <> [] -> Forall (fun e => bareKey e.1 /\ basicString (escapeTOML e.2) e.2) l ->
  inlinePairs (join ", " (labelPair <$> l)) l.
Proof.
  induction l as [|[k v] l IH]; [done|]. intros _ [[Hk Hv] Hl]%Forall_cons. simpl in Hk, Hv.
  destruct l as [|e l].
  - change (join ", " (labelPair <$> [(k, v)])) with (labelPair (k, v)). unfold labelPair. cbn [fst snd].
    rewrite escape_bare by apply Hk. by apply inline_one.
  - change (join ", " (labelPair <$> (k, v) :: e :: l)) with (labelPair (k, v) +:+ ", " +:+ join ", " (labelPair <$> e :: l)).
    unfold labelPair at 1. cbn [fst snd]. rewrite escape_bare by apply Hk. rewrite !app_assoc_str. simpl. rewrite ?app_assoc_str.
    apply inline_more; [done|done|]. by apply IH.
Qed.

Lemma sortedEntries_keys {A} (m : gomap A) : map_wf m -> (sortedEntries m).*1 = sortedKeys m.
Proof.
  intros Hwf. unfold sortedEntries. assert (forall l : list string, (forall k, k ∈ l -> is_Some (map_get k m)) ->
    (omap (fun k => (fun v => (k, v)) <$> map_get k m) l).*1 = l) as Hl; [|apply Hl; intros k; apply elem_of_sortedKeys].
  induction l as [|k l IH]; intros Hin; [done|]. csimpl. destruct (Hin k) as [v Hv]; [left|]. rewrite Hv. csimpl. f_equal.
  apply IH. intros k' ?. apply Hin. by right.
Qed.

Lemma sortedEntries_elem {A} (m : gomap A) e : e ∈ sortedEntries m -> map_get e.1 m = Some e.2.
Proof.
  unfold sortedEntries. rewrite list_elem_of_omap. intros (k & _ & He).
  destruct (map_get k m) as [v|] eqn:Hv; [|done]. injection He as <-. exact Hv.
Qed.

Lemma contains_other c a s : c <> a -> str_contains c (String a s) = str_contains c s.
Proof. intros Hne. simpl. by rewrite bool_decide_false by congruence. Qed.

Lemma escape_contains c v : c <> backslash -> c <> quote -> str_contains c (escapeTOML v) = str_contains c v.
Proof.
  intros Hb Hq. induction v as [|a v IH]; [done|].
  destruct (decide (a = backslash)) as [->|Ha]; [|destruct (decide (a = quote)) as [->|Ha']].
  - by rewrite escape_backslash, !contains_other.
  - by rewrite escape_quote, !contains_other.
  - rewrite escape_other by done. simpl. by rewrite IH.
Qed.

Lemma labelPairs_contains c l :
  c <> backslash -> c <> quote -> c <> "="%char -> c <> ","%char -> c <> " "%char ->
  Forall (fun e => str_contains c e.1 = false /\ str_contains c e.2 = false) l ->
  str_contains c (join ", " (labelPair <$> l)) = false.
Proof.
  intros H1 H2 H3 H4 H5. assert (forall e, str_contains c e.1 = false -> str_contains c e.2 = false ->
    str_contains c (labelPair e) = false) as Hp.
  { intros e He1 He2. unfold labelPair. rewrite str_contains_app, escape_contains, He1 by done. simpl.
    rewrite !bool_decide_false by done. simpl. rewrite str_contains_app, escape_contains, He2 by done. simpl.
    by rewrite !bool_decide_false by done. }
  induction l as [|e l IH]; [done|]. intros [[He1 He2] Hl]%Forall_cons. destruct l as [|e' l]; [by apply Hp|].
  change (join ", " (labelPair <$> e :: e' :: l)) with (labelPair e +:+ ", " +:+ join ", " (labelPair <$> e' :: l)).
  rewrite str_contains_app, Hp by done. rewrite str_contains_app, IH by done. simpl. by rewrite !bool_decide_false by done.
Qed.

Lemma bareKey_contains c k : ~ bareChar c -> bareKey k -> str_contains c k = false.
Proof.
  intros Hc [_ Hk]. induction k as [|a k IH]; [done|]. simpl in *. apply Forall_cons in Hk as [Ha Hk]. rewrite IH by done.
  rewrite bool_decide_false; [done|]. by intros ->.
Qed.

(** A reader of TOML finds exactly the labels, sorted by key, in the variable. *)
Lemma metric_labels_read `{ExporterInput} labels :
  map_wf labels -> labels <> [] ->
  (forall k v, map_get k labels = Some v -> bareKey k /\ basicString (escapeTOML v) v /\ str_contains "$" v = false) ->
  exists text, metricLabelsEnv labels = [mkEnvVar "METRIC_LABELS" text None] /\
    readInline (expandEnv text) = Some (sortedEntries labels).
Proof.
  intros Hwf Hne Hl. exists (join ", " (labelPair <$> sortedEntries labels)). split; [by destruct labels|].
  assert (sortedKeys labels ≡ₚ map_keys labels) as Hp by (unfold sortedKeys; apply merge_sort_Permutation).
  rewrite expandEnv_plain.
  2: { apply labelPairs_contains; [done..|]. apply Forall_forall. intros [k v] He%sortedEntries_elem.
       destruct (Hl k v He) as (Hk & _ & Hd). split; [|exact Hd]. apply bareKey_contains; [|exact Hk].
       unfold bareChar. cbv zeta. vm_compute N_of_ascii. lia. }
  apply readInline_spec.
  - apply labelPairs_inline.
    + intros Hnil. pose proof (sortedEntries_keys labels Hwf) as Hk. rewrite Hnil in Hk. rewrite <- Hk in Hp.
      apply Permutation_nil in Hp. by destruct labels.
    + apply Forall_forall. intros [k v] He%sortedEntries_elem. by destruct (Hl k v He) as (? & ? & _).
  - rewrite (sortedEntries_keys labels Hwf), Hp. exact Hwf.
Qed.

(** *** A strict reader

    A function that satisfies [ExporterInput]: it refuses control characters, other
    escapes, keys that would need quotes, and keys that are repeated. *)

Fixpoint readBasic (s : string) : option (string * string) :=
  match s with
  | "" => None
  | String a s =>
      if decide (a = quote) then Some ("", s)
      else if decide (a = backslash) then
        match s with
        | "" => None
        | String b s =>
            if decide (b = quote \/ b = backslash) then '(v, rest) ← readBasic s; Some (String b v, rest) else None
        end
      else
        let n := N_of_ascii a in
        if decide (n = 9 \/ 32 <= n <= 126 \/ 128 <= n)%N then '(v, rest) ← readBasic s; Some (String a v, rest)
        else None
  end.

#[export] Instance bareKey_dec k : Decision (bareKey k).
Proof. unfold bareKey, bareChar. cbv zeta. apply _. Defined.

Fixpoint readPairs (fuel : nat) (s : string) : option (list (string * string)) :=
  match fuel with
  | O => None
  | S fuel =>
      '(k, r) ← split_first "=" s;
      if decide (bareKey k) then
        r ← cut_prefix (String quote "") r;
        '(v, rest) ← readBasic r;
        if decide (rest = "") then Some [(k, v)]
        else rest ← cut_prefix ", " rest; l ← readPairs fuel rest; Some ((k, v) :: l)
      else None
  end.

Lemma readBasic_spec src v rest : basicString src v -> readBasic (src +:+ String quote rest) = Some (v, rest).
Proof.
  induction 1 as [|a s v (Ha & Hq & Hb) _ IH|a s v Ha _ IH|r s v Hr _ IH].
  - done.
  - rewrite app_cons. simpl. rewrite !decide_False by done. rewrite decide_True by lia. by rewrite IH.
  - rewrite !app_cons. simpl. rewrite decide_True by done. by rewrite IH.
  - apply wideRune_high in Hr. induction r as [|a r IHr]; [exact IH|]. simpl in Hr. apply Forall_cons in Hr as [Ha Hr].
    rewrite !app_cons. simpl. rewrite decide_False by (intros ->; vm_compute in Ha; by apply Ha).
    rewrite decide_False by (intros ->; vm_compute in Ha; by apply Ha). rewrite decide_True by lia. by rewrite (IHr Hr).
Qed.

Lemma bareKey_no_equals k : bareKey k -> str_contains "=" k = false.
Proof. apply bareKey_contains. intros Hc. by apply bareChar_other in Hc as (_ & _ & ?). Qed.

Lemma readPairs_spec text l fuel : inlinePairs text l -> (length l <= fuel)%nat -> readPairs fuel text = Some l.
Proof.
  intros Hi. revert fuel. induction Hi as [k src v Hk Hv|k src v text l Hk Hv _ IH]; intros fuel Hf;
    (destruct fuel as [|fuel]; simpl in Hf; [lia|]); cbn [readPairs].
  all: change ("=" +:+ ?x) with (String "=" x); rewrite (proj2 (split_first_Some "=" _ _ _) (conj eq_refl (bareKey_no_equals k Hk))).
  all: cbn [mbind option_bind]; rewrite decide_True by done.
  all: change (String quote (?a +:+ ?b)) with (String quote "" +:+ (a +:+ b)); rewrite cut_prefix_app; cbn [mbind option_bind].
  all: rewrite (readBasic_spec _ _ _ Hv).
  - cbn [mbind option_bind]. by rewrite decide_True.
  - cbn [mbind option_bind]. rewrite decide_False by done. rewrite cut_prefix_app. cbn [mbind option_bind]. by rewrite IH by lia.
Qed.

Lemma inlinePairs_length text l : inlinePairs text l -> (length l <= String.length text)%nat.
Proof.
  induction 1 as [k src v|k src v text l _ _ _ IH]; rewrite !length_app_str; simpl; [lia|].
  rewrite length_app_str. simpl. rewrite ?length_app_str. lia.
Qed.

Definition readStrict (text : string) : option (list (string * string)) :=
  l ← readPairs (String.length text) text; if decide (NoDup l.*1) then Some l else None.

Lemma readStrict_spec text l : inlinePairs text l -> NoDup l.*1 -> readStrict text = Some l.
Proof.
  intros Hi Hnd. unfold readStrict. rewrite (readPairs_spec text l) by (done || by apply inlinePairs_length).
  cbn [mbind option_bind]. by rewrite decide_True.
Qed.

#[export] Instance strict_reader : ExporterInput := {|
  expandEnv s := s; expandEnv_plain _ _ := eq_refl; readInline := readStrict; readInline_spec := readStrict_spec
|}.

(** ** The account of the pods *)

(** The account the reader role is bound to is the one the pods run as. *)
Theorem pod_account cluster rack configMapName configHash :
  let p := tpl_Spec (BuildPodTemplateSpec cluster rack (rack_ID rack) configMapName configHash).1 in
  ServiceAccountName cluster = replaceText (psp_ServiceAccountName p) DefaultServiceAccountName.
Proof.
  intros p. change p with (dr_pod (schedulePod cluster rack (basePod cluster rack configMapName))).
  assert (forall f d, psp_ServiceAccountName (dr_pod (writeAffinity f d)) = psp_ServiceAccountName (dr_pod d)) as Hw by done.
  assert (forall b a d, psp_ServiceAccountName (dr_pod (pointAffinity b a d)) = psp_ServiceAccountName (dr_pod d)) as Hp by (by intros b [a|] d).
  unfold schedulePod. assert (forall l d, psp_ServiceAccountName (dr_pod (applyK8sNodeBlockList l d)) = psp_ServiceAccountName (dr_pod d)) as -> by (by intros [|] d).
  trans (replaceText (psp_ServiceAccountName (dr_pod (clusterDraft cluster (basePod cluster rack configMapName)))) DefaultServiceAccountName).
  - unfold clusterDraft. cbv zeta.
    assert (forall d, psp_ServiceAccountName (dr_pod (if shouldInjectAntiAffinity cluster then injectPodAntiAffinity (cl_Name cluster) d else d)) =
      psp_ServiceAccountName (dr_pod d)) as -> by (intros d; by destruct (shouldInjectAntiAffinity cluster)).
    unfold ServiceAccountName. destruct (spec_PodSpec (cl_Spec cluster)) as [ps|]; [|done]. cbn [from_option].
    change (psp_ServiceAccountName (dr_pod (applyPodSpecSettings ps ?d))) with
      (replaceText (ps_ServiceAccountName ps) (psp_ServiceAccountName (dr_pod (pointAffinity true (ps_Affinity ps) d)))).
    rewrite Hp. unfold replaceText. cbn. by repeat case_decide.
  - f_equal. unfold rackDraft. set (d := clusterDraft _ _). trans (psp_ServiceAccountName (dr_pod (applyRackAffinity rack d))).
    + unfold applyRackAffinity. by destruct (rackTerms rack).
    + destruct (rack_PodSpec rack) as [rp|]; [|done]. cbn [from_option]. exact (eq_sym (Hp false (rps_Affinity rp) _)).
Qed.

(** ** The affinity of the cluster as shared state *)

Lemma withAffinity_PodSpec a cluster :
  spec_PodSpec (cl_Spec (withAffinity a cluster)) = (fun ps => ps <| ps_Affinity := a |>) <$> spec_PodSpec (cl_Spec cluster).
Proof. done. Qed.

Lemma withAffinity_self cluster : withAffinity (spec_PodSpec (cl_Spec cluster) ≫= ps_Affinity) cluster = cluster.
Proof.
  assert (fmap (fun ps => ps <| ps_Affinity := spec_PodSpec (cl_Spec cluster) ≫= ps_Affinity |>) (spec_PodSpec (cl_Spec cluster)) =
    spec_PodSpec (cl_Spec cluster)) as Hps by (by destruct (spec_PodSpec (cl_Spec cluster)) as [[]|]).
  assert (forall x, x = spec_PodSpec (cl_Spec cluster) -> cluster <| cl_Spec ::= fun s => s <| spec_PodSpec := x |> |> = cluster) as Hself.
  { intros x ->. destruct cluster as [? ? ? ? ? ? ? ? spec ?]. by destruct spec. }
  exact (Hself _ Hps).
Qed.

(** Without an affinity in the pod settings, the writes stay in the template. *)
Lemma private_affinity cluster rack rackID configMapName configHash :
  spec_PodSpec (cl_Spec cluster) ≫= ps_Affinity = None ->
  (BuildPodTemplateSpec cluster rack rackID configMapName configHash).2 = cluster.
Proof.
  intros Ha. change ((BuildPodTemplateSpec cluster rack rackID configMapName configHash).2)
    with (withAffinity (dr_cluster (schedulePod cluster rack (basePod cluster rack configMapName))) cluster).
  enough (dr_cluster (schedulePod cluster rack (basePod cluster rack configMapName)) = None /\
          dr_shared (schedulePod cluster rack (basePod cluster rack configMapName)) = false) as [-> _].
  { rewrite <- Ha. apply withAffinity_self. }
  set (priv d := dr_cluster d = None /\ dr_shared d = false). change (priv (schedulePod cluster rack (basePod cluster rack configMapName))).
  assert (forall f d, priv d -> priv (writeAffinity f d)) as Hw by (intros f d [Hc Hs]; split; [cbn; by rewrite Hs|exact Hs]).
  assert (forall l d, priv d -> priv (applyK8sNodeBlockList l d)) as Hb by (intros [|] d Hd; [done|by apply Hw]).
  apply Hb. unfold rackDraft.
  assert (forall d, priv d -> priv (applyRackAffinity rack d)) as Hr by (intros d Hd; unfold applyRackAffinity; destruct (rackTerms rack); [done|by apply Hw]).
  assert (priv (clusterDraft cluster (basePod cluster rack configMapName))) as Hd.
  { unfold clusterDraft. destruct (spec_PodSpec (cl_Spec cluster)) as [ps|] eqn:Hps; cbn [mbind option_bind from_option] in *;
      (destruct (shouldInjectAntiAffinity cluster); [apply Hw|]); (split; [|]); unfold applyPodSpecSettings; rewrite ?Ha; done. }
  apply Hr in Hd. destruct (rack_PodSpec rack) as [rp|]; [|done]. cbn [from_option]. destruct Hd as [Hc Hs].
  unfold applyRackPodSpecOverrides. by destruct (rps_Affinity rp).
Qed.

Lemma required_clusterDraft cluster p ps a :
  spec_PodSpec (cl_Spec cluster) = Some ps -> ps_Affinity ps = Some a ->
  dr_shared (clusterDraft cluster p) = true /\
  requiredTerms (psp_Affinity (dr_pod (clusterDraft cluster p))) = requiredTerms (Some a).
Proof.
  intros Hps Ha. unfold clusterDraft. rewrite Hps. cbn [mbind option_bind from_option]. rewrite Ha.
  destruct (shouldInjectAntiAffinity cluster).
  - unfold injectPodAntiAffinity. rewrite writeAffinity_get. unfold applyPodSpecSettings. rewrite Ha. done.
  - unfold applyPodSpecSettings. rewrite Ha. done.
Qed.

(** When the pod settings have an affinity, the placement of a rack is written into it:
    the template of the rack itself requires the placement, and so does what is left in
    the settings. *)
Lemma placement_written cluster rack rackID configMapName configHash ps a :
  spec_PodSpec (cl_Spec cluster) = Some ps -> ps_Affinity ps = Some a -> rackTerms rack <> [] ->
  exists ps' a' t, spec_PodSpec (cl_Spec (BuildPodTemplateSpec cluster rack rackID configMapName configHash).2) = Some ps' /\
    ps_Affinity ps' = Some a' /\ requiredTerms (Some a') = Some [t] /\
    forall r, r ∈ rackTerms rack -> r ∈ nst_MatchExpressions t.
Proof.
  intros Hps Ha Hne. destruct (required_clusterDraft cluster (basePod cluster rack configMapName) ps a Hps Ha) as [Hs _].
  change ((BuildPodTemplateSpec cluster rack rackID configMapName configHash).2)
    with (withAffinity (dr_cluster (schedulePod cluster rack (basePod cluster rack configMapName))) cluster).
  rewrite withAffinity_PodSpec, Hps. cbn [fmap option_fmap option_map].
  unfold schedulePod. set (d := clusterDraft _ _) in *.
  assert (exists a1, dr_cluster (rackDraft rack d) = Some a1 /\
    (dr_shared (rackDraft rack d) = true -> psp_Affinity (dr_pod (rackDraft rack d)) = Some a1) /\
    requiredTerms (Some a1) = Some [mkNodeSelectorTerm (rackTerms rack) []]) as (a1 & Hc & Hsh & Hreq).
  { unfold rackDraft, applyRackAffinity. destruct (rackTerms rack) as [|r rs] eqn:Hrt; [done|].
    exists ((default emptyAffinity (psp_Affinity (dr_pod d)))
      <| aff_NodeAffinity := Some (mkNodeAffinity (Some [mkNodeSelectorTerm (r :: rs) []]) []) |>).
    destruct (rack_PodSpec rack) as [rp|]; cbn [from_option].
    - unfold applyRackPodSpecOverrides. destruct (rps_Affinity rp); cbn; rewrite ?Hs; by split_and!.
    - cbn. rewrite Hs. by split_and!. }
  unfold applyK8sNodeBlockList. destruct (spec_K8sNodeBlockList (cl_Spec cluster)) as [|b l].
  { eexists _, a1, _. split; [done|]. cbn [ps_Affinity]. split; [exact Hc|]. split; [exact Hreq|]. by intros r Hr. }
  set (blocked := mkNodeSelectorRequirement _ _ _). destruct (dr_shared (rackDraft rack d)) eqn:Hshared.
  - specialize (Hsh eq_refl). eexists _, (blockNodes blocked a1), _. split; [done|]. cbn [ps_Affinity].
    split; [unfold writeAffinity; cbn; by rewrite Hshared, Hsh|]. unfold requiredTerms in *. cbn in *.
    destruct (aff_NodeAffinity a1) as [na|]; [|done]. cbn in *. rewrite Hreq. cbn. split; [done|]. cbn. intros r Hr. apply elem_of_app. by left.
  - eexists _, a1, _. split; [done|]. cbn [ps_Affinity]. split; [unfold writeAffinity; cbn; by rewrite Hshared|].
    split; [exact Hreq|]. by intros r Hr.
Qed.

(** The template of a rack is built from the settings as the racks before it left them: a
    rack that names no place of its own is confined to the zone of the rack before it. *)
Theorem rack_zone_leaks cluster rack1 rack2 rackID cm1 hash1 cm2 hash2 n :
  is_Some (spec_PodSpec (cl_Spec cluster) ≫= ps_Affinity) -> rack_Zone rack1 <> "" ->
  rackTerms rack2 = [] -> rack_PodSpec rack2 ≫= rps_Affinity = None ->
  let cluster' := (BuildPodTemplateSpec cluster rack1 rackID cm1 hash1).2 in
  admits (rackAffinity cluster' rack2 cm2 hash2) n = true ->
  map_get "topology.kubernetes.io/zone" (nd_Labels n) = Some (rack_Zone rack1).
Proof.
  intros [a Ha] Hz Hr2 Hrp cluster' Hadm. destruct (spec_PodSpec (cl_Spec cluster)) as [ps|] eqn:Hps; [|done].
  assert (rackTerms rack1 <> []) as Hne by (unfold rackTerms, rackRequirement; rewrite decide_False by done; done).
  destruct (placement_written cluster rack1 rackID cm1 hash1 ps a Hps Ha Hne) as (ps' & a' & t & Hps' & Ha' & Hreq & Hin).
  fold cluster' in Hps'. change (rackAffinity cluster' rack2 cm2 hash2) with
    (psp_Affinity (dr_pod (schedulePod cluster' rack2 (basePod cluster' rack2 cm2)))) in Hadm.
  destruct (required_clusterDraft cluster' (basePod cluster' rack2 cm2) ps' a' Hps' Ha') as [_ Hd]. unfold schedulePod in Hadm.
  set (d := clusterDraft _ _) in *.
  assert (requiredTerms (psp_Affinity (dr_pod (rackDraft rack2 d))) = Some [t]) as Hreq2.
  { rewrite override_without_affinity by done. unfold applyRackAffinity. by rewrite Hr2, Hd. }
  destruct (blockList_terms (spec_K8sNodeBlockList (cl_Spec cluster')) _ _ Hreq2) as (terms' & Hreq' & Hall).
  unfold admits in Hadm. unfold requiredTerms in Hreq'. rewrite Hreq' in Hadm. apply existsb_exists in Hadm as (t' & Ht'%list_elem_of_In & Hm).
  destruct (Hall n t' Ht' Hm) as (rs & Hrs & [?|(t0 & ->%list_elem_of_singleton & Ht)]); [done|].
  apply rackRequirement_holds; [|done]. intros r Hr. apply Hrs, Ht, Hin. unfold rackTerms. apply elem_of_app. by left.
Qed.

(** ** Concrete templates *)

(** A cluster that keeps one pod per node and off one node. *)
Definition spread_cluster : AerospikeCluster :=
  (example_cluster 2 None) <| cl_Spec ::= fun s => s
    <| spec_K8sNodeBlockList := ["node-1"] |> <| spec_PodSpec := Some (emptyPodSpec <| ps_MultiPodPerHost := Some false |>) |> |>.

Definition zoned_rack : Rack := (plainRack 1) <| rack_Zone := "zone-a" |>.

Definition worker (name zone : string) : node :=
  mkNode name [(hostnameLabelKey, name); ("topology.kubernetes.io/zone", zone)].

Lemma blocked_nodes_avoided_witness :
  admits (rackAffinity spread_cluster zoned_rack "demo-1-config" "h1") (worker "node-1" "zone-a") = false /\
  admits (rackAffinity spread_cluster zoned_rack "demo-1-config" "h1") (worker "node-2" "zone-a") = true.
Proof.
  split; [|by vm_compute]. apply (blocked_nodes_avoided spread_cluster zoned_rack _ _ _ "node-1"); [done|by apply list_elem_of_singleton].
Defined.

Lemma rack_placement_witness : map_get "topology.kubernetes.io/zone" (nd_Labels (worker "node-2" "zone-a")) = Some "zone-a".
Proof.
  apply (rack_placement spread_cluster zoned_rack "demo-1-config" "h1" (worker "node-2" "zone-a")); [done|by vm_compute|done].
Defined.

Lemma one_pod_per_node_witness :
  let template := (BuildPodTemplateSpec spread_cluster zoned_rack 1 "demo-1-config" "h1").1 in
  exists term sel, term ∈ repels (psp_Affinity (tpl_Spec template)) /\ pat_TopologyKey term = hostnameLabelKey /\
    pat_LabelSelector term = Some (mkLabelSelector sel []) /\ selector_matches sel (tpl_Labels template) = true.
Proof.
  apply (one_pod_per_node spread_cluster zoned_rack "demo-1-config" "h1"); [done|done|constructor|by intros k ?%elem_of_nil].
Defined.

(** An affinity in the pod settings of a rack takes the place of everything said before: the
    zone of the rack and the anti-affinity of the cluster are gone from its template. *)
Theorem rack_affinity_drops_guards :
  let rack := zoned_rack <| rack_PodSpec := Some (mkRackPodSpec (Some emptyAffinity) [] []) |> in
  repels (rackAffinity spread_cluster zoned_rack "demo-1-config" "h1") = [antiAffinityTerm "demo"] /\
  repels (rackAffinity spread_cluster rack "demo-1-config" "h1") = [] /\
  admits (rackAffinity spread_cluster rack "demo-1-config" "h1") (worker "node-2" "zone-b") = true.
Proof. by vm_compute. Qed.
