(* ===== verification/Restart.v ===== *)
(** * Rolling restarts

    internal/controller/reconciler_restart.go and reconciler_warm_restart.go:
    which pods of a rack are out of date, when the next batch of them may be
    restarted, and how one pod is restarted.  [rackPods] is the list read at the
    start of a pass; patches made during the pass do not change it. *)

From S2P Require Import Prelude GoValue Utils ConfigDiff ConfigGen Api Metrics Events Kube Aero Sizing Readiness Status Storage DynamicConfig.

(** ** The budget of failed migration checks *)

Definition maxPodUnstableDuration : Z := 10 * minute.
Definition maxMigrationCheckFailures : Z := 5.
Definition migrationCheckFailureGrace : Z := maxPodUnstableDuration.
Definition migrationCheckStateTTL : Z := hour.
(** The rack id under which on-demand operations keep their budget. *)
Definition onDemandOperationRackID : Z := -1.

Definition migrationCheckKey (cluster : AerospikeCluster) (rackID : Z) : string :=
  cl_UID cluster +:+ "/" +:+ pretty rackID.

(** The updates of the map [migrationCheckFailures], as pure functions. *)
Definition sweepMigrationCheckState (t : Z) (m : gmap string migrationCheckState) : gmap string migrationCheckState :=
  filter (fun e => t - mcs_lastSeen e.2 <= migrationCheckStateTTL) m.

Definition nextCheckState (t : Z) (old : option migrationCheckState) : migrationCheckState :=
  let state := default (mkMcs 0 t t) old in mkMcs (mcs_failures state + 1) (mcs_firstSeen state) t.

Definition hatchOpens (t : Z) (state : migrationCheckState) : bool :=
  (maxMigrationCheckFailures <=? mcs_failures state) &&
  (migrationCheckFailureGrace <=? t - mcs_firstSeen state).

(** ** Which pods are stale *)

Record podHashComparison := mkHashes { configMismatch : bool; stale : bool; storageUnknown : bool }.

Definition comparePodHashes (pod : Pod) (desiredHash desiredPodSpecHash desiredStorageHash : string)
    : podHashComparison :=
  let currentHash := lookup_str ConfigHashAnnotation (pod_Annotations pod) in
  let currentPodSpecHash := lookup_str PodSpecHashAnnotation (pod_Annotations pod) in
  let currentStorageHash := lookup_str StorageHashAnnotation (pod_Annotations pod) in
  let configMismatch := negb (bool_decide (currentHash = desiredHash)) in
  let podSpecMismatch := negb (bool_decide (desiredPodSpecHash = "")) &&
                         negb (bool_decide (currentPodSpecHash = desiredPodSpecHash)) in
  let storageMismatch := negb (bool_decide (desiredStorageHash = "")) &&
                         negb (bool_decide (currentStorageHash = "")) &&
                         negb (bool_decide (currentStorageHash = desiredStorageHash)) in
  mkHashes configMismatch (configMismatch || podSpecMismatch || storageMismatch)
    (negb (bool_decide (desiredStorageHash = "")) && bool_decide (currentStorageHash = "")).

(** [rackRestartTarget]. *)
Record rackRestartTarget := mkTarget {
  t_configHash : string;
  t_podSpecHash : string;
  t_storageHash : string;
  t_replicas : Z;
  t_podManagementPolicy : PodManagementPolicy
}.

Definition phaseText (p : PodPhase) : string :=
  match p with
  | PodPending => "Pending" | PodRunning => "Running" | PodSucceeded => "Succeeded"
  | PodFailed => "Failed" | PodUnknown => "Unknown"
  end.

Definition targetStale (target : rackRestartTarget) (pod : Pod) : bool :=
  stale (comparePodHashes pod (t_configHash target) (t_podSpecHash target) (t_storageHash target)).

(** The loop of [restartInFlightReason]. *)
Fixpoint podInFlight (target : rackRestartTarget) (pods : list Pod) : option string :=
  match pods with
  | [] => None
  | pod :: pods =>
      if decide (is_Some (pod_DeletionTimestamp pod)) then
        Some ("pod " +:+ pod_Name pod +:+ " is still terminating")
      else if decide (t_configHash target = "") then podInFlight target pods
      else if targetStale target pod then podInFlight target pods
      else if negb (isPodReady pod) then
        Some ("pod " +:+ pod_Name pod +:+ " has been restarted but is not Ready yet (phase "
              +:+ phaseText (pod_Phase pod) +:+ ")")
      else podInFlight target pods
  end.

(** [restartInFlightReason]: no reason is the empty string of the source. *)
Definition restartInFlightReason (rackPods : list Pod) (target : rackRestartTarget) : option string :=
  match podInFlight target rackPods with
  | Some reason => Some reason
  | None =>
      if (0 <? t_replicas target) && negb (bool_decide (t_podManagementPolicy target = OrderedReadyPodManagement))
         && (Z.of_nat (length rackPods) <? t_replicas target)
      then Some ("only " +:+ pretty (Z.of_nat (length rackPods)) +:+ " of " +:+ pretty (t_replicas target)
                 +:+ " rack pods exist; a replacement has not been recreated yet")
      else None
  end.

(** The image of the Aerospike container, when the pod has one. *)
Definition imageChanged (pod : Pod) (desiredImage : string) : bool :=
  match map_get AerospikeContainerName (pod_Containers pod) with
  | Some image => negb (bool_decide (image = desiredImage))
  | None => false
  end.

(** [determineRestartReason]: image, then configuration, then pod spec. *)
Definition determineRestartReason (pod : Pod) (desiredImage desiredConfigHash desiredPodSpecHash : string)
    (isWarm : bool) : RestartReason :=
  if imageChanged pod desiredImage then RestartReasonImageChanged
  else if negb (bool_decide (lookup_str ConfigHashAnnotation (pod_Annotations pod) = desiredConfigHash)) then
    if isWarm then RestartReasonWarmRestart else RestartReasonConfigChanged
  else if negb (bool_decide (desiredPodSpecHash = "")) &&
          negb (bool_decide (lookup_str PodSpecHashAnnotation (pod_Annotations pod) = desiredPodSpecHash))
  then RestartReasonPodSpecChanged
  else RestartReasonConfigChanged.

(** [shouldWarmRestart]. *)
Definition shouldWarmRestart (restConfig : bool) (cluster : AerospikeCluster) (pod : Pod) (sts : StatefulSet) : bool :=
  let desiredPodSpecHash := lookup_str PodSpecHashAnnotation (tpl_Annotations (sts_Template sts)) in
  if negb restConfig then false
  else if negb (isPodReady pod) then false
  else if imageChanged pod (spec_Image (cl_Spec cluster)) then false
  else if negb (bool_decide (lookup_str PodSpecHashAnnotation (pod_Annotations pod) = desiredPodSpecHash))
          && negb (bool_decide (desiredPodSpecHash = ""))
  then false
  else true.

(** [getDirtyVolumes]: the volumes with a wipe method other than none. *)
Definition getDirtyVolumes (storageSpec : option AerospikeStorageSpec) : list string :=
  match storageSpec with
  | None => []
  | Some spec =>
      vol_Name <$> filter (fun vol =>
        ResolveWipeMethod vol storageSpec <> WipeMethodUnset /\
        ResolveWipeMethod vol storageSpec <> VolumeWipeMethodNone) (st_Volumes spec)
  end.

(** [filterUnrestarted]: [restartedSet] collects batch members that did not
    fail, until it has [restarted] elements. *)
Fixpoint restartedSet (failedPods : list string) (restarted : Z) (set : gset string) (batchPods : list Pod)
    : gset string :=
  match batchPods with
  | [] => set
  | pod :: batchPods =>
      let set := if decide (pod_Name pod ∈ failedPods) then set else {[pod_Name pod]} ∪ set in
      if restarted <=? Z.of_nat (size set) then set else restartedSet failedPods restarted set batchPods
  end.

Definition filterUnrestarted (allPending failedPods : list string) (restarted : Z) (batchPods : list Pod)
    : list string :=
  filter (fun name => name ∉ restartedSet failedPods restarted ∅ batchPods) allPending.

(** Descending ordinals. *)
Definition ordinalGe (p q : Pod) : Prop := podOrdinal (pod_Name q) <= podOrdinal (pod_Name p).

#[export] Instance ordinalGe_dec : RelDecision ordinalGe.
Proof. intros p q. unfold ordinalGe. apply _. Defined.

Section Restart.
Context `{Environment}.

(** [recordMigrationCheckFailure]: the sweep precedes the lookup. *)
Definition recordMigrationCheckFailure (cluster : AerospikeCluster) (rackID : Z) : M (Z * Z * bool) :=
  let key := migrationCheckKey cluster rackID in
  t ← now; failures ← gets w_failures;
  let swept := sweepMigrationCheckState t failures in
  let state := nextCheckState t (swept !! key) in
  _ ← modify (fun w => w <| w_failures := <[key := state]> swept |>);
  mret (mcs_failures state, t - mcs_firstSeen state, hatchOpens t state).

Definition clearMigrationCheckFailures (cluster : AerospikeCluster) (rackID : Z) : M () :=
  modify (fun w => w <| w_failures ::= delete (migrationCheckKey cluster rackID) |>).

(** ** Whether the next batch has to wait *)

Definition isBatchBlocked (cluster : AerospikeCluster) (rackID : Z) (rackPods : list Pod)
    (target : rackRestartTarget) : M bool :=
  match restartInFlightReason rackPods target with
  | Some _ => _ ← record false EventRollingRestartDeferred; mret true
  | None =>
      if isReadinessGateEnabled cluster then
        match anyPodGateUnsatisfied cluster rackPods with
        | Some _ => _ ← record true EventReadinessGateBlocking; mret true
        | None => mret false
        end
      else
        migrating ← try (checkMigrationInProgress cluster);
        match migrating with
        | inl _ =>
            '(_, _, hatchOpen) ← recordMigrationCheckFailure cluster rackID;
            if negb hatchOpen then _ ← record true EventMigrationCheckFailed; mret true
            else _ ← record true EventMigrationCheckUnavailable; mret false
        | inr m =>
            _ ← clearMigrationCheckFailures cluster rackID;
            if (m : bool) then _ ← record true EventRollingRestartDeferred; mret true
            else mret false
        end
  end.

(** [adoptStorageHash]: an annotation patch, not a restart. *)
Definition adoptStorageHash (pod : Pod) (hash : string) : M () :=
  patchPod (AStampPod (pod_Name pod) StorageHashAnnotation hash) (pod_Name pod)
    (fun p => p <| pod_Annotations ::= map_set StorageHashAnnotation hash |>).

(** [selectPodsToRestart]: the loop carries the selection, the number of ignored
    pods and whether some pod has another configuration hash. *)
Record Selection := mkSelection { sel_pods : list Pod; sel_ignored : Z; sel_configChanged : bool }.

Definition pendingOrFailed (pod : Pod) : bool :=
  bool_decide (pod_Phase pod = PodPending \/ pod_Phase pod = PodFailed).

Definition stuckUnstable (t : Z) (cluster : AerospikeCluster) (pod : Pod) : bool :=
  match st_Pods (cl_Status cluster) !! pod_Name pod ≫= ps_UnstableSince with
  | Some since => maxPodUnstableDuration <? t - since
  | None => false
  end.

Definition selectStep (cluster : AerospikeCluster) (desiredHash desiredPodSpecHash desiredStorageHash : string)
    (maxIgnorablePods : Z) (acc : Selection) (pod : Pod) : M Selection :=
  if pendingOrFailed pod && (sel_ignored acc <? maxIgnorablePods)
  then mret (mkSelection (sel_pods acc) (sel_ignored acc + 1) (sel_configChanged acc))
  else
    t ← now;
    if stuckUnstable t cluster pod then _ ← record true EventRestartFailed; mret acc
    else
      let hashes := comparePodHashes pod desiredHash desiredPodSpecHash desiredStorageHash in
      _ ← (if stale hashes then mret ()
           else if storageUnknown hashes then ignore (adoptStorageHash pod desiredStorageHash)
           else mret ());
      mret (mkSelection (if stale hashes then sel_pods acc ++ [pod] else sel_pods acc) (sel_ignored acc)
              (sel_configChanged acc || configMismatch hashes)).

Definition selectPodsToRestart (cluster : AerospikeCluster) (rackPods : list Pod)
    (desiredHash desiredPodSpecHash desiredStorageHash : string) (maxIgnorablePods : Z) : M (list Pod * bool) :=
  sel ← foldM (selectStep cluster desiredHash desiredPodSpecHash desiredStorageHash maxIgnorablePods)
          (mkSelection [] 0 false) rackPods;
  mret (sel_pods sel, sel_configChanged sel).

(** ** Restarting one pod *)

Definition recordPodRestartStatus (name : string) (reason : RestartReason) : M () :=
  t ← now;
  ignore (patchPodStatus name (fun ps => ps <| ps_LastRestartReason := Some reason |>
                                            <| ps_LastRestartTime := Some t |>)).

Definition markDirtyVolumes (name : string) (dirtyVols : list string) : M () :=
  patchPodStatus name (fun ps => ps <| ps_DirtyVolumes := dirtyVols |>).

Definition quiesceNodeBeforeDeletion (cluster : AerospikeCluster) (pod : Pod) : M () :=
  if negb (isPodReady pod) then mret ()
  else
    _ ← record false EventNodeQuiesceStarted;
    r ← try (quiesceNode pod cluster);
    match r with inl _ => record true EventNodeQuiesceFailed | inr _ => record false EventNodeQuiesced end.

Definition announceColdRestart (cluster : AerospikeCluster) : M () :=
  _ ← incCounter ColdRestartsTotal cluster; record false EventPodColdRestarted.

Definition coldRestartPod (cluster : AerospikeCluster) (pod : Pod) : M () :=
  let storageSpec := spec_Storage (cl_Spec cluster) in
  _ ← quiesceNodeBeforeDeletion cluster pod;
  _ ← (match getDirtyVolumes storageSpec with
       | [] => mret ()
       | dirtyVols => ignore (markDirtyVolumes (pod_Name pod) dirtyVols)
       end);
  _ ← (if decide ((storageSpec ≫= st_DeleteLocalStorageOnRestart) = Some true) then
         match ParsePodName (pod_Name pod) with
         | None => mret ()
         | Some (stsName, ordinal) =>
             r ← try (DeleteLocalPVCsForPod (cl_Name cluster) stsName ordinal storageSpec);
             match r with inl _ => record true EventLocalPVCDeleteFailed | inr _ => mret () end
         end
       else mret ());
  r ← try (deletePod (pod_Name pod));
  match r with
  | inl e => if IsNotFound e then announceColdRestart cluster else raise e
  | inr _ => announceColdRestart cluster
  end.

(** [warmRestartPod]: SIGUSR1 to the server process. *)
Definition warmRestartPod (pod : Pod) : M () :=
  hasConfig ← gets w_restConfig;
  if (hasConfig : bool) then
    _ ← wrapping "executing SIGUSR1" (execPod (pod_Name pod) ["kill"; "-USR1"; "1"]); mret ()
  else raise (Errorf "RestConfig not available for exec").

Definition restartPod (cluster : AerospikeCluster) (pod : Pod) (sts : StatefulSet) (desiredHash : string) : M () :=
  hasConfig ← gets w_restConfig;
  let isWarm := shouldWarmRestart hasConfig cluster pod sts in
  let desiredPodSpecHash := lookup_str PodSpecHashAnnotation (tpl_Annotations (sts_Template sts)) in
  _ ← recordPodRestartStatus (pod_Name pod)
        (determineRestartReason pod (spec_Image (cl_Spec cluster)) desiredHash desiredPodSpecHash isWarm);
  if negb isWarm then coldRestartPod cluster pod
  else
    r ← try (warmRestartPod pod);
    match r with
    | inl _ =>
        _ ← recordPodRestartStatus (pod_Name pod) RestartReasonConfigChanged;
        coldRestartPod cluster pod
    | inr _ =>
        _ ← wrapping "warm restart succeeded but config hash update failed" (updatePodConfigHash pod desiredHash);
        _ ← incCounter WarmRestartsTotal cluster;
        record false EventPodWarmRestarted
    end.

(** ** A batch *)

(** One iteration of the loop over the batch. *)
Definition batchStep (cluster : AerospikeCluster) (sts : StatefulSet) (desiredHash : string) (dynamicSet : list string)
    (acc : Z * list string) (pod : Pod) : M (Z * list string) :=
  let '(restarted, failedPods) := acc in
  if decide (pod_Name pod ∈ dynamicSet) then mret acc
  else
    r ← try (restartPod cluster pod sts desiredHash);
    match r with
    | inl _ => _ ← record true EventRestartFailed; mret (restarted, failedPods ++ [pod_Name pod])
    | inr _ => mret (restarted + 1, failedPods)
    end.

Definition reportDegraded (rb : option RollbackResult) : M () :=
  match rb with
  | Some rb => if HasFailures rb then setConfigDegraded (rb_FailedPods rb) else mret ()
  | None => mret ()
  end.

(** The first part of [restartPodBatch]: a two-phase update of the whole batch,
    when both configurations are given and a client can be created. *)
Definition attemptDynamic (cluster : AerospikeCluster) (batchPods : list Pod) (desiredHash : string)
    (oldConfig newConfig : option (gomap any)) : M bool :=
  match oldConfig, newConfig with
  | Some oldConfig, Some newConfig =>
      client ← try (getAerospikeClient cluster);
      match client with
      | inl _ => mret false
      | inr client =>
          '(allOk, _, rbResult) ←
            tryDynamicConfigUpdateBatch cluster batchPods oldConfig newConfig client desiredHash;
          if (allOk : bool) then mret true else _ ← reportDegraded rbResult; mret false
      end
  | _, _ => mret false
  end.

(** [restartPodBatch]: after a failed two-phase update no pod counts as
    dynamically updated, so the cross-pod rollback at the end has nothing to do. *)
Definition restartPodBatch (cluster : AerospikeCluster) (podsToRestart : list Pod) (sts : StatefulSet)
    (desiredHash : string) (batchSize : Z) (oldConfig newConfig : option (gomap any))
    : M (Z * list string * list Pod) :=
  let batchPods := take (Z.to_nat batchSize) podsToRestart in
  let dynamicUpdated : list podDynamicUpdate := [] in
  allOk ← attemptDynamic cluster batchPods desiredHash oldConfig newConfig;
  if (allOk : bool) then mret (Z.of_nat (length batchPods), [], batchPods)
  else
    '(restarted, failedPods) ←
      foldM (batchStep cluster sts desiredHash (du_podName <$> dynamicUpdated))
        (Z.of_nat (length dynamicUpdated), []) batchPods;
    _ ← (if negb (bool_decide (failedPods = [])) && negb (bool_decide (length dynamicUpdated = 0%nat)) then
           rb ← rollbackDynamicChangesBatch dynamicUpdated; reportDegraded (Some rb)
         else mret ());
    mret (restarted, failedPods, batchPods).

(** ** One pass over a rack *)

Definition listRackPods (cluster : AerospikeCluster) (rackID : Z) : M (list Pod) :=
  pods ← listPods (LabelsForRack (cl_Name cluster) rackID); mret (merge_sort ordinalGe pods).

Definition setPendingRestartPods (names : list string) : M () :=
  modify_mem (fun c => c <$ st_PendingRestartPods := names $>).

(** The part of [reconcileRollingRestart] after the selection of a non-empty
    list of pods: publish them, wait for the gates, restart a batch. *)
Definition restartSelected (cluster : AerospikeCluster) (rackID : Z) (sts : StatefulSet) (rackPods : list Pod)
    (target : rackRestartTarget) (podsToRestart : list Pod) (configChanged : bool) : M bool :=
  let pendingNames := pod_Name <$> podsToRestart in
  let batchSize := getRollingUpdateBatchSize cluster (statefulSetReplicas sts) in
  let oldConfig := st_AerospikeConfig (cl_Status cluster) in
  let newConfig := spec_AerospikeConfig (cl_Spec cluster) in
  _ ← record false EventRollingRestartStarted;
  _ ← setPendingRestartPods pendingNames;
  blocked ← isBatchBlocked cluster rackID rackPods target;
  if (blocked : bool) then mret true
  else
    '(restarted, failedPods, batchPods) ← restartPodBatch cluster podsToRestart sts (t_configHash target) batchSize
        (if configChanged then oldConfig else None) (if configChanged then newConfig else None);
    remaining ← (if bool_decide (failedPods <> []) || (0 <? restarted) then
                   let remaining := filterUnrestarted pendingNames failedPods restarted batchPods in
                   _ ← setPendingRestartPods remaining; mret remaining
                 else mret pendingNames);
    if bool_decide (failedPods <> []) && (restarted =? 0) then
      raise (Errorf ("all pod restart(s) in batch failed: " +:+ join ", " failedPods))
    else
      _ ← (if decide (remaining = []) then
             if 0 <? restarted then record false EventRollingRestartCompleted else mret ()
           else mret ());
      mret (0 <? restarted).

(** The hashes and the size the StatefulSet template asks for. *)
Definition targetOf (sts : StatefulSet) : rackRestartTarget :=
  let annotations := tpl_Annotations (sts_Template sts) in
  mkTarget (lookup_str ConfigHashAnnotation annotations) (lookup_str PodSpecHashAnnotation annotations)
    (lookup_str StorageHashAnnotation annotations) (statefulSetReplicas sts) (sts_PodManagementPolicy sts).

Definition reconcileRollingRestart (rack : Rack) : M bool :=
  cluster ← mem;
  found ← try (getSts (StatefulSetName (cl_Name cluster) (rack_ID rack)));
  match found with
  | inl e => if IsNotFound e then mret false else raise e
  | inr sts =>
      let target := targetOf sts in
      if decide (t_configHash target = "") then mret false
      else
        rackPods ← wrapping "listing rack pods for rolling restart" (listRackPods cluster (rack_ID rack));
        '(podsToRestart, configChanged) ← selectPodsToRestart cluster rackPods (t_configHash target)
            (t_podSpecHash target) (t_storageHash target) (getMaxIgnorablePods cluster (statefulSetReplicas sts));
        if decide (podsToRestart = []) then _ ← setPendingRestartPods []; mret false
        else restartSelected cluster (rack_ID rack) sts rackPods target podsToRestart configChanged
  end.

(** ** The escape hatch

    A history of migration checks, newest first, of any racks of any clusters.
    [checks evs w]: the operator is in world [w] after the history [evs] since it
    started; in between anything may happen that does not touch the budget. *)

Inductive checkEvent := CheckFailed (key : string) (t : Z) | CheckAnswered (key : string).

Definition eventKey (e : checkEvent) : string :=
  match e with CheckFailed key _ | CheckAnswered key => key end.

Inductive checks : list checkEvent -> World -> Prop :=
| checks_start w : w_failures w = ∅ -> checks [] w
| checks_other evs w w' : checks evs w -> w_failures w' = w_failures w -> checks evs w'
| checks_failed evs cluster rackID w :
    checks evs w ->
    checks (CheckFailed (migrationCheckKey cluster rackID) (w_now w) :: evs)
      (snd (recordMigrationCheckFailure cluster rackID w))
| checks_answered evs cluster rackID w :
    checks evs w ->
    checks (CheckAnswered (migrationCheckKey cluster rackID) :: evs)
      (snd (clearMigrationCheckFailures cluster rackID w)).

(** The history of one key. *)
Definition historyOf (key : string) (evs : list checkEvent) : list checkEvent :=
  filter (fun e => eventKey e = key) evs.

(** The newest events of the key are the failures at the times [ts]. *)
Definition recentFailures (key : string) (evs : list checkEvent) (ts : list Z) : Prop :=
  exists older, historyOf key evs = (CheckFailed key <$> ts) ++ older.

(** Times, newest first, with at most an hour between one and the next. *)
Fixpoint hourApart (ts : list Z) : Prop :=
  match ts with
  | t :: ((t' :: _) as older) => t - t' <= 60 * minute /\ hourApart older
  | _ => True
  end.

Definition budget_sound (evs : list checkEvent) (m : gmap string migrationCheckState) : Prop :=
  forall key st, m !! key = Some st -> exists ts,
    recentFailures key evs ts /\ Z.of_nat (length ts) = mcs_failures st /\
    last ts = Some (mcs_firstSeen st) /\ head ts = Some (mcs_lastSeen st) /\ hourApart ts.

Lemma budget_sound_other evs e m :
  (forall key st, m !! key = Some st -> key <> eventKey e) -> budget_sound evs m -> budget_sound (e :: evs) m.
Proof.
  intros Hne Hm key st Hst. destruct (Hm key st Hst) as (ts & [older Ho] & Hn & Hl).
  exists ts. split; [|done]. exists older. unfold historyOf in *.
  rewrite filter_cons_False; [done|]. intros Heq. by apply (Hne key st).
Qed.

Lemma budget_sound_sub evs m m' : m' ⊆ m -> budget_sound evs m -> budget_sound evs m'.
Proof. intros Hs Hm key st Hst. apply Hm. by eapply lookup_weaken. Qed.

Lemma last_cons_Some {A} (x y : A) l : last l = Some y -> last (x :: l) = Some y.
Proof. destruct l; [done|]. done. Qed.

Lemma budget_sound_failed evs key t m :
  budget_sound evs m ->
  budget_sound (CheckFailed key t :: evs)
    (<[key := nextCheckState t (sweepMigrationCheckState t m !! key)]> (sweepMigrationCheckState t m)).
Proof.
  intros Hm k st. assert (budget_sound evs (sweepMigrationCheckState t m)) as Hs.
  { eapply budget_sound_sub; [|exact Hm]. apply map_filter_subseteq. }
  destruct (decide (k = key)) as [->|Hk].
  - rewrite lookup_insert, decide_True by done. intros [= <-].
    destruct (sweepMigrationCheckState t m !! key) as [st|] eqn:Hst.
    + destruct (Hs key st Hst) as (ts & [older Ho] & Hn & Hl & Hh & Ha). exists (t :: ts). split_and!.
      * exists older. unfold historyOf in *. rewrite filter_cons_True by done. by rewrite Ho.
      * simpl. lia.
      * by apply last_cons_Some.
      * done.
      * apply map_lookup_filter_Some in Hst as [_ Hfresh]. simpl in Hfresh. destruct ts as [|t' ts]; [done|].
        injection Hh as ->. by split.
    + exists [t]. split_and!; [|done..].
      eexists. unfold historyOf. rewrite filter_cons_True by done. reflexivity.
  - rewrite lookup_insert_ne by done. intros Hst.
    destruct (Hs k st Hst) as (ts & [older Ho] & Hn & Hl). exists ts. split; [|done]. exists older.
    unfold historyOf in *. by rewrite filter_cons_False by (simpl; congruence).
Qed.

Lemma recordMigrationCheckFailure_eq cluster rackID w :
  let key := migrationCheckKey cluster rackID in
  let swept := sweepMigrationCheckState (w_now w) (w_failures w) in
  let state := nextCheckState (w_now w) (swept !! key) in
  recordMigrationCheckFailure cluster rackID w =
    (inr (mcs_failures state, w_now w - mcs_firstSeen state, hatchOpens (w_now w) state),
     w <| w_failures := <[key := state]> swept |>).
Proof. done. Qed.

(** Reachable budgets are sound, by induction on the history. *)
Lemma checks_sound evs w : checks evs w -> budget_sound evs (w_failures w).
Proof.
  induction 1 as [w Hw|evs w w' _ IH Hw|evs c r w _ IH|evs c r w _ IH].
  - rewrite Hw. intros key st Hst. by rewrite lookup_empty in Hst.
  - by rewrite Hw.
  - rewrite recordMigrationCheckFailure_eq. by apply budget_sound_failed.
  - simpl. apply budget_sound_other.
    + intros key st Hst ->. simpl in Hst. by rewrite lookup_delete, decide_True in Hst.
    + eapply budget_sound_sub; [|exact IH]. apply delete_subseteq.
Qed.

(** C10: over any history of migration checks, the escape hatch opens for a rack only
    after at least five failed checks of that rack, the present one included, with no
    answered check between them and none more than an hour after the one before, the
    first at least ten minutes ago *)
Theorem hatch_needs_persistent_failure evs cluster rackID w n elapsed w' :
  checks evs w ->
  recordMigrationCheckFailure cluster rackID w = (inr (n, elapsed, true), w') ->
  exists ts first,
    recentFailures (migrationCheckKey cluster rackID)
      (CheckFailed (migrationCheckKey cluster rackID) (w_now w) :: evs) ts /\
    Z.of_nat (length ts) = n /\ 5 <= n /\ head ts = Some (w_now w) /\ hourApart ts /\
    last ts = Some first /\ elapsed = w_now w - first /\ 10 * minute <= elapsed.
Proof.
  intros Hc. pose proof (checks_sound _ _ (checks_failed evs cluster rackID w Hc)) as Hs.
  rewrite recordMigrationCheckFailure_eq in *. intros [= <- <- Hopen _].
  destruct (Hs _ _ ltac:(by simpl; rewrite lookup_insert, decide_True)) as (ts & Hr & Hn & Hl & Hh & Ha).
  unfold hatchOpens in Hopen. apply andb_prop in Hopen as [H5 H10].
  apply Z.leb_le in H5, H10. exists ts. eexists. by split_and!.
Qed.

(** The hatch does open: a rack whose check keeps failing is not held forever. *)
Definition failAt (cluster : AerospikeCluster) (rackID : Z) (opened : bool) (t : Z) : M bool :=
  _ ← modify (fun w => w <| w_now := t |>);
  '(_, _, hatchOpen) ← recordMigrationCheckFailure cluster rackID; mret hatchOpen.

(** Successive times that are at most the lifetime of an entry apart. *)
Fixpoint paced (t : Z) (ts : list Z) : Prop :=
  match ts with [] => True | t' :: ts => t <= t' <= t + migrationCheckStateTTL /\ paced t' ts end.

Lemma sweep_keeps t m key st :
  m !! key = Some st -> t - mcs_lastSeen st <= migrationCheckStateTTL ->
  sweepMigrationCheckState t m !! key = Some st.
Proof. intros Hm Ht. by apply map_lookup_filter_Some. Qed.

Lemma failAt_next cluster rackID opened t w st :
  w_failures w !! migrationCheckKey cluster rackID = Some st ->
  t - mcs_lastSeen st <= migrationCheckStateTTL ->
  let st' := mkMcs (mcs_failures st + 1) (mcs_firstSeen st) t in
  exists w', failAt cluster rackID opened t w = (inr (hatchOpens t st'), w') /\
    w_failures w' !! migrationCheckKey cluster rackID = Some st'.
Proof.
  intros Hst Ht. unfold failAt, mbind, M_bind, modify. rewrite recordMigrationCheckFailure_eq. cbn -[sweepMigrationCheckState].
  rewrite (sweep_keeps t _ _ st) by done. eexists. split; [done|]. simpl. by rewrite lookup_insert, decide_True.
Qed.

Lemma failChecks_state cluster rackID ts : forall opened w st,
  w_failures w !! migrationCheckKey cluster rackID = Some st -> paced (mcs_lastSeen st) ts ->
  exists w', foldM (failAt cluster rackID) opened ts w =
    (inr (match last ts with
          | Some t => hatchOpens t (mkMcs (mcs_failures st + Z.of_nat (length ts)) (mcs_firstSeen st) t)
          | None => opened
          end), w').
Proof.
  induction ts as [|t ts IH]; intros opened w st Hst Hp; [by eexists|]. destruct Hp as [Ht Hp].
  destruct (failAt_next cluster rackID opened t w st Hst ltac:(lia)) as (w1 & Hrun & Hst1).
  cbn [foldM]. unfold mbind, M_bind at 1. rewrite Hrun.
  destruct (IH (hatchOpens t (mkMcs (mcs_failures st + 1) (mcs_firstSeen st) t)) w1 _ Hst1 Hp) as (w2 & Hrun2).
  exists w2. rewrite Hrun2. simpl mcs_failures. simpl mcs_firstSeen.
  destruct (last ts) as [t'|] eqn:Hl.
  - rewrite (last_cons_Some t t' ts Hl). by replace (mcs_failures st + 1 + Z.of_nat (length ts))
      with (mcs_failures st + Z.of_nat (length (t :: ts))) by (simpl; lia).
  - destruct ts; [done|]. by apply last_None in Hl.
Qed.

(** C11: a rack whose migration checks keep failing, at most an hour apart, is not
    blocked for ever: the check that is at least the fifth and ten minutes after the
    first opens the hatch *)
Theorem hatch_opens_eventually cluster rackID t0 ts t w :
  w_failures w !! migrationCheckKey cluster rackID = None ->
  paced t0 ts -> last ts = Some t ->
  maxMigrationCheckFailures <= 1 + Z.of_nat (length ts) -> 10 * minute <= t - t0 ->
  exists w', foldM (failAt cluster rackID) false (t0 :: ts) w = (inr true, w').
Proof.
  intros Hnone Hp Hl H5 H10. cbn [foldM]. unfold mbind, M_bind at 1, failAt at 1.
  unfold mbind, M_bind, modify. rewrite recordMigrationCheckFailure_eq. cbn -[sweepMigrationCheckState foldM Z.mul].
  assert (sweepMigrationCheckState t0 (w_failures w) !! migrationCheckKey cluster rackID = None) as ->.
  { apply map_lookup_filter_None. by left. }
  match goal with |- context [foldM _ ?o ts ?w1] =>
    destruct (failChecks_state cluster rackID ts o w1 (mkMcs 1 t0 t0)) as (w2 & Hrun) end.
  { simpl. by rewrite lookup_insert, decide_True. }
  { done. }
  exists w2. rewrite Hrun, Hl. do 2 f_equal. unfold hatchOpens. simpl mcs_failures. simpl mcs_firstSeen.
  apply andb_true_intro. split; apply Z.leb_le; [lia|exact H10].
Qed.

(** ** Selection *)

(** The loop without its effects, at time [t]. *)
Definition selectPure (t : Z) (cluster : AerospikeCluster) (d1 d2 d3 : string) (maxIgnorable : Z)
    (acc : Selection) (pod : Pod) : Selection :=
  let hashes := comparePodHashes pod d1 d2 d3 in
  if pendingOrFailed pod && (sel_ignored acc <? maxIgnorable)
  then mkSelection (sel_pods acc) (sel_ignored acc + 1) (sel_configChanged acc)
  else if stuckUnstable t cluster pod then acc
  else mkSelection (if stale hashes then sel_pods acc ++ [pod] else sel_pods acc) (sel_ignored acc)
         (sel_configChanged acc || configMismatch hashes).

Lemma ignore_ok {A} (m : M A) w : ignore m w = (inr (), snd (m w)).
Proof. done. Qed.

Lemma now_adoptStorageHash pod hash : keeps (agree w_now) (adoptStorageHash pod hash).
Proof. unfold adoptStorageHash. frame. Qed.

Lemma selectPods_pure cluster rackPods d1 d2 d3 mx w :
  let sel := foldl (selectPure (w_now w) cluster d1 d2 d3 mx) (mkSelection [] 0 false) rackPods in
  exists w', selectPodsToRestart cluster rackPods d1 d2 d3 mx w =
    (inr (sel_pods sel, sel_configChanged sel), w').
Proof.
  intros sel.
  destruct (foldM_pure (agree w_now) (selectStep cluster d1 d2 d3 mx)
    (selectPure (w_now w) cluster d1 d2 d3 mx) rackPods w) with (b := mkSelection [] 0 false) as (w' & Hrun & _).
  - intros b pod w1 Hw1. unfold selectStep, selectPure. destruct (_ && _); [by eexists|].
    unfold mbind, M_bind, now, gets. rewrite Hw1.
    destruct (stuckUnstable _ _ _); [by eexists|].
    destruct (stale _); [by eexists|]. destruct (storageUnknown _); [|by eexists].
    rewrite ignore_ok. eexists. split; [done|]. apply now_adoptStorageHash.
  - exists w'. unfold selectPodsToRestart, mbind, M_bind. by rewrite Hrun.
Qed.

Lemma configMismatch_stale pod d1 d2 d3 :
  configMismatch (comparePodHashes pod d1 d2 d3) = true -> stale (comparePodHashes pod d1 d2 d3) = true.
Proof. unfold comparePodHashes. simpl. by intros ->. Qed.

(** What the loop has established after a prefix of the pods. *)
Record selection_ok (t : Z) (cluster : AerospikeCluster) (d1 d2 d3 : string) (mx : Z) (pods : list Pod)
    (sel : Selection) : Prop := {
  so_sublist : sel_pods sel `sublist_of` pods;
  so_stale p : p ∈ sel_pods sel ->
    stale (comparePodHashes p d1 d2 d3) = true /\ stuckUnstable t cluster p = false;
  so_complete : exists ignored, Forall (fun p => pendingOrFailed p = true) ignored /\
    Z.of_nat (length ignored) = sel_ignored sel /\ sel_ignored sel <= Z.max 0 mx /\
    forall p, p ∈ pods -> stale (comparePodHashes p d1 d2 d3) = true ->
      p ∈ sel_pods sel \/ stuckUnstable t cluster p = true \/ p ∈ ignored;
  so_config : sel_configChanged sel = existsb (fun p => configMismatch (comparePodHashes p d1 d2 d3)) (sel_pods sel)
}.

Lemma selectPure_ok t cluster d1 d2 d3 mx pods :
  selection_ok t cluster d1 d2 d3 mx pods (foldl (selectPure t cluster d1 d2 d3 mx) (mkSelection [] 0 false) pods).
Proof.
  induction pods as [|pod pods IH] using rev_ind.
  { split; simpl; [constructor|by intros ? ?%not_elem_of_nil| |done].
    exists []. split_and!; [constructor|done|lia|]. by intros ? ?%not_elem_of_nil. }
  rewrite foldl_app. cbn [foldl].
  set (sel := foldl _ _ pods) in *. clearbody sel.
  destruct IH as [Hsub Hst (ign & Hign & Hn & Hmx & Hall) Hcc]. unfold selectPure.
  destruct (pendingOrFailed pod && _) eqn:Hpf.
  { apply andb_prop in Hpf as [Hpf Hlt]. apply Z.ltb_lt in Hlt. split; simpl; [by apply sublist_inserts_r|done| |done].
    exists (pod :: ign). split_and!; [by constructor|simpl; lia|lia|].
    intros p [Hp| ->%list_elem_of_singleton]%elem_of_app Hps; [|right; right; left].
    destruct (Hall p Hp Hps) as [?|[?|?]]; [by left|by right; left|right; right; by right]. }
  destruct (stuckUnstable t cluster pod) eqn:Hstuck.
  { split; [by apply sublist_inserts_r|done| |done]. exists ign. split_and!; [done..|].
    intros p [Hp| ->%list_elem_of_singleton]%elem_of_app Hps; [by apply Hall|by right; left]. }
  destruct (stale (comparePodHashes pod d1 d2 d3)) eqn:Hs; split; cbn [sel_pods sel_ignored sel_configChanged].
  - by apply sublist_app.
  - intros p [Hp| ->%list_elem_of_singleton]%elem_of_app; [by apply Hst|done].
  - exists ign. split_and!; [done..|]. intros p [Hp| ->%list_elem_of_singleton]%elem_of_app Hps.
    + destruct (Hall p Hp Hps) as [?|?]; [left; apply elem_of_app; by left|by right].
    + left. apply elem_of_app. right. by apply list_elem_of_singleton.
  - rewrite Hcc, existsb_app. simpl. by rewrite orb_false_r.
  - by apply sublist_inserts_r.
  - done.
  - exists ign. split_and!; [done..|]. intros p [Hp| ->%list_elem_of_singleton]%elem_of_app Hps; [by apply Hall|].
    congruence.
  - destruct (configMismatch _) eqn:Hc; [apply configMismatch_stale in Hc; congruence|].
    by rewrite Hcc, orb_false_r.
Qed.

(** The selection always succeeds and contains exactly the stale pods of the rack
    in order, except those stuck not ready for too long and at most the configured
    number of pending or failed ones; it reports a configuration change exactly when a
    selected pod has another hash. *)
Theorem selectPodsToRestart_spec cluster rackPods d1 d2 d3 mx w :
  exists pods configChanged w',
    selectPodsToRestart cluster rackPods d1 d2 d3 mx w = (inr (pods, configChanged), w') /\
    pods `sublist_of` rackPods /\
    (forall p, p ∈ pods ->
       stale (comparePodHashes p d1 d2 d3) = true /\ stuckUnstable (w_now w) cluster p = false) /\
    (exists ignored, Forall (fun p => pendingOrFailed p = true) ignored /\
       Z.of_nat (length ignored) <= Z.max 0 mx /\
       forall p, p ∈ rackPods -> stale (comparePodHashes p d1 d2 d3) = true ->
         p ∈ pods \/ stuckUnstable (w_now w) cluster p = true \/ p ∈ ignored) /\
    configChanged = existsb (fun p => configMismatch (comparePodHashes p d1 d2 d3)) pods.
Proof.
  destruct (selectPods_pure cluster rackPods d1 d2 d3 mx w) as (w' & Hrun). eexists _, _, w'.
  destruct (selectPure_ok (w_now w) cluster d1 d2 d3 mx rackPods) as [H1 H2 (ign & ? & ? & ? & ?) H4].
  split_and!; [exact Hrun|done|done| |done]. exists ign. split_and!; [done|lia|done].
Qed.

Lemma keeps_announceColdRestart R `{!Frame R} cluster : keeps R (announceColdRestart cluster).
Proof. unfold announceColdRestart. frame. Qed.

#[local] Hint Resolve keeps_announceColdRestart : frame.

(** ** What a pass may disrupt

    Deleting a pod or executing a command in it disrupts it. *)

Definition disrupts (a : action) : option string :=
  match a with ADeletePod n => Some n | AExec n _ => Some n | _ => None end.

Definition confined (names : list string) (a : action) : Prop :=
  forall n, disrupts a = Some n -> n ∈ names.

#[local] Instance confined_frameinfo names : FrameInfo (does (confined names)).
Proof. split; [apply _|]. intros. eexists [_]. split; [reflexivity|]. by repeat constructor. Qed.

Lemma confined_mono names names' a : names ⊆ names' -> confined names a -> confined names' a.
Proof. intros Hs Ha n Hn. by apply Hs, Ha. Qed.

Lemma confined_patchPodStatus names name f : keeps (does (confined names)) (patchPodStatus name f).
Proof. by apply does_patchPodStatus. Qed.

Lemma confined_recordPodRestartStatus names name r : keeps (does (confined names)) (recordPodRestartStatus name r).
Proof. pose proof (confined_patchPodStatus names). unfold recordPodRestartStatus. frame. Qed.

Lemma confined_exec names pod cmd : pod ∈ names -> keeps (does (confined names)) (execPod pod cmd).
Proof. intros Hp. apply does_execPod. by intros n [= <-]. Qed.

Lemma confined_DeleteLocalPVCsForPod names c s o st :
  keeps (does (confined names)) (DeleteLocalPVCsForPod c s o st).
Proof.
  unfold DeleteLocalPVCsForPod, GetLocalPVCsForPod, GetPVCsForStatefulSet, deleteClaim. frame. all: by intros ?.
Qed.

Lemma confined_coldRestartPod names cluster pod :
  pod_Name pod ∈ names -> keeps (does (confined names)) (coldRestartPod cluster pod).
Proof.
  intros Hp. pose proof (fun cmd => confined_exec names (pod_Name pod) cmd Hp).
  pose proof (confined_patchPodStatus names). pose proof (confined_DeleteLocalPVCsForPod names).
  unfold coldRestartPod, quiesceNodeBeforeDeletion, markDirtyVolumes. frame. by intros n [= <-].
Qed.

Lemma confined_restartPod names cluster pod sts hash :
  pod_Name pod ∈ names -> keeps (does (confined names)) (restartPod cluster pod sts hash).
Proof.
  intros Hp. pose proof (fun cmd => confined_exec names (pod_Name pod) cmd Hp).
  pose proof (confined_recordPodRestartStatus names). pose proof (confined_coldRestartPod names cluster pod Hp).
  unfold restartPod, warmRestartPod, updatePodConfigHash. frame. by intros ?.
Qed.

Lemma confined_setConfigDegraded names pods : keeps (does (confined names)) (setConfigDegraded pods).
Proof. unfold setConfigDegraded. frame. by intros ?. Qed.

Lemma confined_restartPodBatch cluster pods sts hash n oldConfig newConfig :
  keeps (does (confined (pod_Name <$> take (Z.to_nat n) pods)))
    (restartPodBatch cluster pods sts hash n oldConfig newConfig).
Proof.
  set (names := pod_Name <$> _).
  assert (forall cs ps o nw cl h, keeps (does (confined names)) (tryDynamicConfigUpdateBatch cs ps o nw cl h)) as Htry
    by (intros; by apply does_tryDynamicConfigUpdateBatch).
  pose proof (confined_setConfigDegraded names).
  unfold restartPodBatch, attemptDynamic, reportDegraded. cbv zeta. apply keeps_bind.
  { destruct oldConfig, newConfig; frame. }
  intros [|]; [frame|]. apply keeps_bind; [|intros [restarted failed]; frame].
  apply keeps_foldM. intros [r f] pod Hpod. unfold batchStep.
  pose proof (confined_restartPod names cluster pod sts hash (list_elem_of_fmap_2 pod_Name _ _ Hpod)). frame.
Qed.

Lemma confined_adoptStorageHash names pod hash : keeps (does (confined names)) (adoptStorageHash pod hash).
Proof. unfold adoptStorageHash. frame. by intros ?. Qed.

Lemma confined_selectPodsToRestart names cluster pods d1 d2 d3 mx :
  keeps (does (confined names)) (selectPodsToRestart cluster pods d1 d2 d3 mx).
Proof.
  pose proof (confined_adoptStorageHash names). unfold selectPodsToRestart, selectStep. frame.
Qed.

Lemma confined_isBatchBlocked names cluster rackID pods target :
  keeps (does (confined names)) (isBatchBlocked cluster rackID pods target).
Proof.
  unfold isBatchBlocked, checkMigrationInProgress, recordMigrationCheckFailure, clearMigrationCheckFailures. frame.
Qed.

(** ** The gate *)

(** The pass may go on: the readiness gates are satisfied or, without gates, the
    migration check answers no or has failed for long enough. *)
Definition mayProceed (cluster : AerospikeCluster) (rackID : Z) (rackPods : list Pod) (w : World) : Prop :=
  if isReadinessGateEnabled cluster then anyPodGateUnsatisfied cluster rackPods = None
  else match fst (checkMigrationInProgress cluster w) with
       | inr migrating => migrating = false
       | inl _ => hatchOpens (w_now w) (nextCheckState (w_now w)
           (sweepMigrationCheckState (w_now w) (w_failures w) !! migrationCheckKey cluster rackID)) = true
       end.

Lemma isBatchBlocked_false cluster rackID rackPods target w w' :
  isBatchBlocked cluster rackID rackPods target w = (inr false, w') ->
  restartInFlightReason rackPods target = None /\ mayProceed cluster rackID rackPods w.
Proof.
  unfold isBatchBlocked, mayProceed. destruct (restartInFlightReason rackPods target); [by intros [=]|].
  destruct (isReadinessGateEnabled cluster).
  { destruct (anyPodGateUnsatisfied cluster rackPods); [by intros [=]|done]. }
  unfold mbind, M_bind, try.
  pose proof (keeps_isMigrationInProgress (R := agree (fun w => (w_now w, w_failures w))) cluster w) as Hagree.
  unfold checkMigrationInProgress in *. destruct (isMigrationInProgress cluster w) as [[e|m] w1]; simpl in Hagree.
  - rewrite recordMigrationCheckFailure_eq. injection Hagree as -> ->.
    simpl. destruct (hatchOpens _ _) eqn:Hh; simpl; [|by intros [=]]. done.
  - simpl. by destruct m; simpl; [intros [=]|].
Qed.

(** No reason to wait means that every restarted pod is back. *)
Lemma podInFlight_None target rackPods :
  podInFlight target rackPods = None <->
  forall p, p ∈ rackPods -> pod_DeletionTimestamp p = None /\
    (t_configHash target <> "" -> targetStale target p = false -> isPodReady p = true).
Proof.
  induction rackPods as [|p pods IH]; simpl.
  { split; [by intros _ ? ?%not_elem_of_nil|done]. }
  destruct (decide (is_Some (pod_DeletionTimestamp p))) as [[t Ht]|Ht%eq_None_not_Some].
  { split; [done|]. intros Hall. destruct (Hall p ltac:(left)) as [? _]. congruence. }
  assert ((t_configHash target <> "" -> targetStale target p = false -> isPodReady p = true) ->
    (podInFlight target pods = None <-> forall q, q ∈ p :: pods -> pod_DeletionTimestamp q = None /\
      (t_configHash target <> "" -> targetStale target q = false -> isPodReady q = true))) as Hgo.
  { intros Hp. rewrite IH. split; [intros Hall q [->|Hq]%elem_of_cons; [done|by apply Hall]|].
    intros Hall q Hq. apply Hall. by right. }
  case_decide; [by apply Hgo|]. destruct (targetStale target p) eqn:Hs; [by apply Hgo|].
  destruct (isPodReady p) eqn:Hr; simpl; [by apply Hgo|]. split; [done|].
  intros Hall. destruct (Hall p ltac:(left)) as [_ Hp]. rewrite Hr in Hp. by discriminate Hp.
Qed.

Lemma restartInFlightReason_None rackPods target :
  restartInFlightReason rackPods target = None <->
  (forall p, p ∈ rackPods -> pod_DeletionTimestamp p = None /\
    (t_configHash target <> "" -> targetStale target p = false -> isPodReady p = true)) /\
  (t_podManagementPolicy target = OrderedReadyPodManagement \/ t_replicas target <= Z.of_nat (length rackPods)).
Proof.
  unfold restartInFlightReason. rewrite <- podInFlight_None.
  destruct (podInFlight target rackPods); [naive_solver|].
  destruct (Z.ltb_spec 0 (t_replicas target)); simpl; [|naive_solver lia].
  destruct (bool_decide_reflect (t_podManagementPolicy target = OrderedReadyPodManagement)); simpl; [naive_solver|].
  destruct (Z.ltb_spec (Z.of_nat (length rackPods)) (t_replicas target)); naive_solver lia.
Qed.

(** ** One pass *)

(** What a pass reads before it acts, apart from the objects it lists. *)
Definition observed (w : World) := (w_now w, w_failures w, w_aero w, w_restConfig w).

Lemma observed_selectPodsToRestart cluster pods d1 d2 d3 mx :
  keeps (agree observed) (selectPodsToRestart cluster pods d1 d2 d3 mx).
Proof. unfold selectPodsToRestart, selectStep, adoptStorageHash. frame. Qed.

Lemma getSts_ok name w sts w' : getSts name w = (inr sts, w') -> findSts name (w_sts w) = Some sts.
Proof.
  unfold getSts, mbind, M_bind, gets. pose proof (api_agree w_sts w) as Ha.
  destruct (api w) as [[e|[]] w1]; [by intros [=]|]. simpl in Ha. rewrite Ha.
  destruct (findSts name (w_sts w)); [by intros [= <- <-]|by intros [=]].
Qed.

Definition rackPodsOf (cluster : AerospikeCluster) (rackID : Z) (pods : list Pod) : list Pod :=
  merge_sort ordinalGe (filter (fun p =>
    selector_matches (LabelsForRack (cl_Name cluster) rackID) (pod_Labels p) = true) pods).

Lemma listRackPods_ok cluster rackID w pods w' :
  listRackPods cluster rackID w = (inr pods, w') -> pods = rackPodsOf cluster rackID (w_pods w).
Proof.
  unfold listRackPods, listPods, mbind, M_bind, gets. pose proof (api_agree w_pods w) as Ha.
  destruct (api w) as [[e|[]] w1]; [by intros [=]|]. simpl in Ha. simpl. rewrite Ha. by intros [= <- <-].
Qed.

(** A pass that disrupts pods: the batch it chose and why it was allowed. *)
Definition justified (cluster : AerospikeCluster) (rackID : Z) (batch : list Pod) (w : World) : Prop :=
  exists sts rackPods w1,
    findSts (StatefulSetName (cl_Name cluster) rackID) (w_sts w) = Some sts /\
    rackPods = rackPodsOf cluster rackID (w_pods w) /\
    batch `sublist_of` rackPods /\
    Z.of_nat (length batch) <= Z.max 0 (getRollingUpdateBatchSize cluster (statefulSetReplicas sts)) /\
    (forall p, p ∈ batch -> targetStale (targetOf sts) p = true) /\
    restartInFlightReason rackPods (targetOf sts) = None /\
    observed w1 = observed w /\ mayProceed cluster rackID rackPods w1.

(** The part of a pass after the selection. *)
Lemma restartPodBatch_justified cluster rackID sts rackPods pods cc oldConfig newConfig w w1 w2 w3 l :
  findSts (StatefulSetName (cl_Name cluster) rackID) (w_sts w) = Some sts ->
  rackPods = rackPodsOf cluster rackID (w_pods w) ->
  selection_ok (w_now w) cluster (t_configHash (targetOf sts)) (t_podSpecHash (targetOf sts))
    (t_storageHash (targetOf sts)) (getMaxIgnorablePods cluster (statefulSetReplicas sts)) rackPods
    (mkSelection pods l cc) ->
  observed w1 = observed w ->
  isBatchBlocked cluster rackID rackPods (targetOf sts) w1 = (inr false, w2) ->
  w3 = snd (restartPodBatch cluster pods sts (t_configHash (targetOf sts))
              (getRollingUpdateBatchSize cluster (statefulSetReplicas sts)) oldConfig newConfig w2) ->
  exists batch, justified cluster rackID batch w /\ does (confined (pod_Name <$> batch)) w2 w3.
Proof.
  intros Hsts Hrp [Hsub Hstale _ _] Hobs Hb ->. apply isBatchBlocked_false in Hb as [Hflight Hmay].
  set (n := getRollingUpdateBatchSize _ _). exists (take (Z.to_nat n) pods). split.
  - exists sts, rackPods, w1. split_and!; [done|done| | | |done|done|done].
    + etrans; [|exact Hsub]. apply sublist_take.
    + rewrite length_take. lia.
    + intros p Hp. apply (Hstale p). by eapply subseteq_take.
  - apply confined_restartPodBatch.
Qed.

(** A computation followed by one that may depend on its result and state. *)
(** The state after a prefix that did nothing but reads and adoptions. *)
Definition calm (w w' : World) : Prop := does (confined []) w w' /\ observed w' = observed w.

Lemma calm_trans w1 w2 w3 : calm w1 w2 -> calm w2 w3 -> calm w1 w3.
Proof. intros [? Ho] [? Ho']. split; [by trans w2|by rewrite Ho']. Qed.

Lemma calm_step {A} (m : M A) w w1 r w2 :
  calm w w1 -> keeps (does (confined [])) m -> keeps (agree observed) m -> m w1 = (r, w2) -> calm w w2.
Proof.
  intros Hc Hd Ho Hm. eapply calm_trans; [exact Hc|].
  split; [by eapply keeps_run|exact (keeps_run _ _ _ _ _ Ho Hm)].
Qed.

Definition batch_effect (cluster : AerospikeCluster) (rackID : Z) (w w' : World) : Prop :=
  exists batch, does (confined (pod_Name <$> batch)) w w' /\
    (batch = [] \/ justified cluster rackID batch w).

Lemma effect_none cluster rackID w w' : does (confined []) w w' -> batch_effect cluster rackID w w'.
Proof. intros Hd. exists []. by split; [|left]. Qed.

Lemma effect_batch cluster rackID batch w w2 w3 w4 :
  does (confined []) w w2 -> justified cluster rackID batch w ->
  does (confined (pod_Name <$> batch)) w2 w3 -> does (confined (pod_Name <$> batch)) w3 w4 ->
  batch_effect cluster rackID w w4.
Proof.
  intros H1 Hj H2 H3. exists batch. split; [|by right].
  trans w2; [|by trans w3]. eapply does_weaken; [|exact H1].
  intros a. apply confined_mono. apply list_subseteq_nil.
Qed.

Lemma selectPods_run cluster rackPods d1 d2 d3 mx w pods cc w' :
  selectPodsToRestart cluster rackPods d1 d2 d3 mx w = (inr (pods, cc), w') ->
  exists n, selection_ok (w_now w) cluster d1 d2 d3 mx rackPods (mkSelection pods n cc).
Proof.
  destruct (selectPods_pure cluster rackPods d1 d2 d3 mx w) as (w1 & ->). intros [= <- <- <-].
  pose proof (selectPure_ok (w_now w) cluster d1 d2 d3 mx rackPods) as Hok.
  destruct (foldl _ _ _) as [ps n c]. by exists n.
Qed.

Lemma does_setPending names l : keeps (does (confined names)) (setPendingRestartPods l).
Proof. unfold setPendingRestartPods. frame. Qed.

Lemma restartSelected_effect cluster rackID sts rackPods pods n cc w w1 :
  findSts (StatefulSetName (cl_Name cluster) rackID) (w_sts w) = Some sts ->
  rackPods = rackPodsOf cluster rackID (w_pods w) ->
  selection_ok (w_now w) cluster (t_configHash (targetOf sts)) (t_podSpecHash (targetOf sts))
    (t_storageHash (targetOf sts)) (getMaxIgnorablePods cluster (statefulSetReplicas sts)) rackPods
    (mkSelection pods n cc) ->
  calm w w1 ->
  batch_effect cluster rackID w (snd (restartSelected cluster rackID sts rackPods (targetOf sts) pods cc w1)).
Proof.
  intros Hsts Hrp Hsel Hc. unfold restartSelected. cbv zeta.
  apply bind_cases; intros ? wr Hr;
    assert (calm w wr) as Hcr by (eapply calm_step; [exact Hc| | |exact Hr]; frame); [apply effect_none, Hcr|].
  apply bind_cases; intros ? w2 Hp;
    assert (calm w w2) as Hc2 by (eapply calm_step; [exact Hcr| | |exact Hp]; unfold setPendingRestartPods; frame);
    [apply effect_none, Hc2|]. clear Hr Hp.
  apply bind_cases; intros blocked w3 Hb;
    pose proof (keeps_run _ _ _ _ _ (confined_isBatchBlocked [] cluster rackID rackPods (targetOf sts)) Hb) as Hd.
  { apply effect_none. trans w2; [apply Hc2|done]. }
  destruct blocked; [apply effect_none; trans w2; [apply Hc2|done]|].
  destruct (restartPodBatch_justified cluster rackID sts rackPods pods cc
    (if cc then st_AerospikeConfig (cl_Status cluster) else None)
    (if cc then spec_AerospikeConfig (cl_Spec cluster) else None) w w2 w3 _ n Hsts Hrp Hsel (proj2 Hc2) Hb eq_refl)
    as (batch & Hj & Hbatch).
  assert (does (confined []) w w3) as Hw3 by (trans w2; [apply Hc2|done]).
  apply bind_cases.
  { intros e w4 Hr. rewrite Hr in Hbatch. by eapply effect_batch. }
  intros [[restarted failed] bp] w4 Hr. rewrite Hr in Hbatch. eapply effect_batch; [exact Hw3|exact Hj|exact Hbatch|].
  pose proof (does_setPending (pod_Name <$> batch)).
  match goal with |- does _ _ (snd (?m w4)) => assert (keeps (does (confined (pod_Name <$> batch))) m) as Hk end;
    [frame|apply Hk].
Qed.

(** C1: whatever the outcome of a rolling-restart pass over a rack, every pod it deletes
    or signals is in one batch of stale pods of that rack, no larger than the batch
    size, chosen when no earlier restart was in flight and either the readiness gates or
    an answered migration check or the exhausted failure budget allowed it *)
Theorem rolling_restart_justified rack w :
  batch_effect (w_mem w) (rack_ID rack) w (snd (reconcileRollingRestart rack w)).
Proof.
  unfold reconcileRollingRestart. set (cluster := w_mem w).
  change (mem ≫= ?f) with (fun w => f (w_mem w) w). cbv beta. fold cluster.
  apply bind_try_cases. intros found wa Hget.
  assert (calm w wa) as Hca by (by eapply calm_step; [split| | |exact Hget]; frame).
  assert (w_pods wa = w_pods w) as Hpods by (by eapply (keeps_run (agree w_pods)); [|exact Hget]; frame).
  destruct found as [e|sts]; [destruct (IsNotFound e); by apply effect_none, Hca|].
  apply getSts_ok in Hget. cbv zeta. case_decide as Hhash; [by apply effect_none, Hca|].
  apply bind_cases; intros ? wb Hlist.
  all: assert (calm w wb) as Hcb by (eapply calm_step; [exact Hca| | |exact Hlist]; unfold listRackPods; frame).
  { apply effect_none, Hcb. }
  apply wrapping_ok, listRackPods_ok in Hlist. rewrite Hpods in Hlist.
  apply bind_cases; intros ? wc Hsel.
  all: assert (calm w wc) as Hcc by (eapply calm_step; [exact Hcb| | |exact Hsel];
    [apply confined_selectPodsToRestart|apply observed_selectPodsToRestart]).
  { apply effect_none, Hcc. }
  destruct a0 as [pods cc]. apply selectPods_run in Hsel as [n Hsel].
  destruct Hcb as [_ Hobs]. injection Hobs as Hnow _ _ _. rewrite Hnow in Hsel.
  case_decide; [by apply effect_none, Hcc|]. by eapply restartSelected_effect.
Qed.

(** ** Accounting of a batch *)

Lemma batchStep_nil cluster sts hash r f pod :
  batchStep cluster sts hash [] (r, f) pod =
    (res ← try (restartPod cluster pod sts hash);
     match res with
     | inl _ => _ ← record true EventRestartFailed; mret (r, f ++ [pod_Name pod])
     | inr _ => mret (r + 1, f)
     end).
Proof. unfold batchStep. case_decide as Hin; [by apply not_elem_of_nil in Hin|done]. Qed.

Lemma batch_fold cluster sts hash batch : forall r f w res w',
  foldM (batchStep cluster sts hash []) (r, f) batch w = (res, w') ->
  exists r' fs, res = inr (r', f ++ fs) /\ fs `sublist_of` (pod_Name <$> batch) /\
    r' + Z.of_nat (length fs) = r + Z.of_nat (length batch).
Proof.
  induction batch as [|pod batch IH]; intros r f w res w'; cbn [foldM].
  { intros [= <- <-]. exists r, []. rewrite app_nil_r. split_and!; [done|constructor|done]. }
  rewrite batchStep_nil. unfold mbind, M_bind, try. destruct (restartPod cluster pod sts hash w) as [[e|[]] w1]; simpl.
  - intros (r' & fs & -> & Hsub & Hn)%IH. exists r', (pod_Name pod :: fs).
    rewrite <- app_assoc. csimpl. split_and!; [done|by constructor|lia].
  - intros (r' & fs & -> & Hsub & Hn)%IH. exists r', fs. csimpl. split_and!; [done|by constructor|lia].
Qed.

Lemma restartPodBatch_counts cluster pods sts hash n oldConfig newConfig w restarted failed batch w' :
  restartPodBatch cluster pods sts hash n oldConfig newConfig w = (inr (restarted, failed, batch), w') ->
  batch = take (Z.to_nat n) pods /\ failed `sublist_of` (pod_Name <$> batch) /\
  restarted + Z.of_nat (length failed) = Z.of_nat (length batch).
Proof.
  unfold restartPodBatch. unfold mbind at 1, M_bind at 1. cbv zeta.
  destruct (attemptDynamic _ _ _ _ _ w) as [[e|[]] w1]; [by intros [=]| |].
  { intros [= <- <- <- _]. split_and!; [done|apply sublist_nil_l|simpl; lia]. }
  cbn [fmap list_fmap length]. unfold mbind, M_bind.
  destruct (foldM _ _ _ w1) as [res w2] eqn:Hf. apply batch_fold in Hf as (r' & fs & -> & Hsub & Hn).
  rewrite (bool_decide_true (0%nat = 0%nat)), andb_false_r by done. intros [= <- <- <- _]. split_and!; [done|done|].
  simpl in Hn |- *. lia.
Qed.

(** Collecting the restarted names stops early only when nothing is left to collect. *)
Lemma restartedSet_spec failed batch : forall restarted (set : gset string),
  NoDup (pod_Name <$> batch) -> (forall p, p ∈ batch -> pod_Name p ∉ set) ->
  restarted = Z.of_nat (size set + length (filter (fun p => pod_Name p ∉ failed) batch)) ->
  forall name, name ∈ restartedSet failed restarted set batch <->
    name ∈ set \/ ((name ∉ failed) /\ name ∈ (pod_Name <$> batch)).
Proof.
  induction batch as [|pod batch IH]; intros restarted set Hnd Hdis Hr name; cbn [restartedSet].
  { rewrite fmap_nil, elem_of_nil. naive_solver. }
  rewrite fmap_cons in Hnd |- *. apply NoDup_cons in Hnd as [Hp Hnd]. rewrite elem_of_cons.
  set (set' := if decide _ then _ else _).
  assert (forall x, x ∈ set' <-> x ∈ set \/ ((x ∉ failed) /\ x = pod_Name pod)) as Hset'
    by (intros x; unfold set'; case_decide; set_solver).
  assert (restarted = Z.of_nat (size set' + length (filter (fun p => pod_Name p ∉ failed) batch))) as Hr'.
  { rewrite Hr. unfold set'. case_decide.
    - rewrite filter_cons_False by tauto. done.
    - rewrite filter_cons_True by done. rewrite size_union, size_singleton; [simpl; lia|].
      specialize (Hdis pod ltac:(left)). set_solver. }
  assert (forall p, p ∈ batch -> pod_Name p ∉ set') as Hdis'.
  { intros p Hin. rewrite Hset'. intros [Hx|[_ Hx]]; [by apply (Hdis p); [right|]|].
    apply Hp. rewrite <- Hx. by apply list_elem_of_fmap_2. }
  destruct (Z.leb_spec restarted (Z.of_nat (size set'))).
  - assert (filter (fun p => pod_Name p ∉ failed) batch = []) as Hnil by (apply length_zero_iff_nil; lia).
    rewrite Hset'. split; [naive_solver|]. intros [?|[Hnf [?|Hin]]]; [by left|by right|].
    exfalso. apply list_elem_of_fmap in Hin as (p & -> & Hin).
    assert (p ∈ filter (fun p => pod_Name p ∉ failed) batch) as Hx by (by apply list_elem_of_filter).
    rewrite Hnil in Hx. by apply elem_of_nil in Hx.
  - rewrite (IH restarted set' Hnd Hdis' Hr'), Hset'. naive_solver.
Qed.

Lemma filter_in_sublist {A} `{EqDecision A} (k l : list A) :
  k `sublist_of` l -> NoDup l -> filter (fun x => x ∈ k) l = k.
Proof.
  induction 1 as [|x k l Hs IH|x k l Hs IH]; intros Hnd; [done| |]; apply NoDup_cons in Hnd as [Hx Hnd].
  - rewrite filter_cons_True by left. f_equal. trans (filter (fun y => y ∈ k) l); [|by apply IH].
    apply list_filter_ext_in. intros y Hy. rewrite elem_of_cons. naive_solver.
  - rewrite filter_cons_False; [by apply IH|]. intros Hin. apply Hx. by eapply sublist_subseteq.
Qed.

Lemma length_filter_complement (batch : list Pod) (failed : list string) :
  NoDup (pod_Name <$> batch) -> failed `sublist_of` (pod_Name <$> batch) ->
  (length (filter (fun p => pod_Name p ∉ failed) batch) + length failed = length batch)%nat.
Proof.
  intros Hnd Hsub.
  assert (length failed = length (filter (fun p => pod_Name p ∈ failed) batch)) as ->.
  { trans (length (filter (fun x => x ∈ failed) (pod_Name <$> batch))); [by rewrite filter_in_sublist|].
    clear. induction batch as [|p batch IH]; [done|]. csimpl. destruct (decide (pod_Name p ∈ failed)).
    - rewrite !filter_cons_True by done. simpl. by rewrite IH.
    - by rewrite !filter_cons_False. }
  clear. induction batch as [|p batch IH]; [done|].
  destruct (decide (pod_Name p ∈ failed)).
  - rewrite filter_cons_False, filter_cons_True by (simpl; tauto). simpl. lia.
  - rewrite filter_cons_True, filter_cons_False by (simpl; tauto). simpl. lia.
Qed.

(** After a batch, every member was restarted or failed, and the pods still pending
    are exactly the failed ones followed by those beyond the batch. *)
Theorem restart_batch_pending cluster pods sts hash n oldConfig newConfig w restarted failed batch w' :
  NoDup (pod_Name <$> pods) ->
  restartPodBatch cluster pods sts hash n oldConfig newConfig w = (inr (restarted, failed, batch), w') ->
  restarted + Z.of_nat (length failed) = Z.of_nat (length batch) /\
  filterUnrestarted (pod_Name <$> pods) failed restarted batch =
    failed ++ (pod_Name <$> drop (Z.to_nat n) pods).
Proof.
  intros Hnd (-> & Hsub & Hn)%restartPodBatch_counts. split; [done|].
  rewrite <- (take_drop (Z.to_nat n) pods) in Hnd |- * at 1.
  rewrite fmap_app in Hnd |- *. apply NoDup_app in Hnd as (Hnd1 & Hdis & Hnd2).
  set (batch := take _ _) in *. unfold filterUnrestarted. rewrite filter_app.
  pose proof (length_filter_complement batch failed Hnd1 Hsub) as Hlen.
  assert (forall name, name ∈ restartedSet failed restarted ∅ batch <->
    name ∈ (∅ : gset string) \/ ((name ∉ failed) /\ name ∈ (pod_Name <$> batch))) as Hset.
  { apply restartedSet_spec; [done|set_solver|]. rewrite size_empty. lia. }
  f_equal.
  - trans (filter (fun name => name ∈ failed) (pod_Name <$> batch)); [|by apply filter_in_sublist].
    apply list_filter_ext_in. intros name Hname. rewrite Hset. destruct (decide (name ∈ failed)); set_solver.
  - trans (filter (fun name : string => True) (pod_Name <$> drop (Z.to_nat n) pods)).
    + apply list_filter_ext_in. intros name Hname. rewrite Hset. split; [done|]. intros _ [Hx|[_ Hx]]; [set_solver|].
      by apply (Hdis name).
    + clear. induction (pod_Name <$> _) as [|x l IH]; [done|]. by rewrite filter_cons_True, IH.
Qed.

(** ** A restarted pod makes progress *)

Lemma update_pod_elem name f l q :
  q ∈ update_pod name f l -> exists p, p ∈ l /\ q = (if decide (pod_Name p = name) then f p else p).
Proof. intros (p & -> & Hp)%list_elem_of_fmap. by exists p. Qed.

Lemma deletePod_ok name w w' : deletePod name w = (inr (), w') ->
  w_pods w' = update_pod name (fun p => p <| pod_DeletionTimestamp ::= fun d => Some (default (w_now w) d) |>) (w_pods w).
Proof.
  unfold deletePod, mbind, M_bind, gets, now.
  pose proof (api_agree (fun w => (w_pods w, w_now w)) w) as Ha.
  destruct (api w) as [[e|[]] w1]; [by intros [=]|]. simpl in Ha. injection Ha as <- <-. simpl.
  destruct (existsb _ _); [|by intros [=]]. simpl. by intros [= <-].
Qed.

Lemma patchPod_ok a name f w w' : patchPod a name f w = (inr (), w') -> w_pods w' = update_pod name f (w_pods w).
Proof.
  unfold patchPod, mbind, M_bind, gets.
  pose proof (api_agree w_pods w) as Ha. destruct (api w) as [[e|[]] w1]; [by intros [=]|]. simpl in *.
  rewrite <- Ha. destruct (existsb _ _); [|by intros [=]]. simpl. by intros [= <-].
Qed.

(** The pods of this name are terminating or carry the hash. *)
Definition restarted_pod (name hash : string) (pods : list Pod) : Prop := forall p, p ∈ pods ->
  pod_Name p = name ->
  is_Some (pod_DeletionTimestamp p) \/ lookup_str ConfigHashAnnotation (pod_Annotations p) = hash.

Lemma deletePod_progress name hash w w' :
  deletePod name w = (inr (), w') -> restarted_pod name hash (w_pods w').
Proof.
  intros ->%deletePod_ok q (p & _ & ->)%update_pod_elem Hq. left.
  case_decide; [simpl; eauto|]. congruence.
Qed.

(** An API call of the pass may be answered with not found. *)
Definition reportedGone (w : World) : Prop := exists e, Some e ∈ w_faults w /\ IsNotFound e = true.

Lemma deletePod_gone name hash w e w' :
  deletePod name w = (inl e, w') -> IsNotFound e = true ->
  restarted_pod name hash (w_pods w') \/ reportedGone w.
Proof.
  unfold deletePod, mbind, M_bind, gets, now.
  pose proof (api_agree w_pods w) as Ha. unfold api in *.
  destruct (w_faults w) as [|[f|] fs] eqn:Hf; simpl in *.
  2: { intros [= -> <-] He. right. exists e. rewrite Hf. by split; [left|]. }
  all: destruct (existsb _ _) eqn:Hx; [by intros [=]|]; intros [= _ <-] _; left;
    intros p Hp Hn; exfalso; apply not_true_iff_false in Hx; apply Hx, existsb_exists;
    exists p; split; [by apply list_elem_of_In|by apply bool_decide_eq_true].
Qed.

Lemma reportedGone_mono w w1 : consumes w w1 -> reportedGone w1 -> reportedGone w.
Proof.
  intros [l Hl] (e & He & Hn). exists e. split; [|done]. rewrite Hl. set_solver.
Qed.

Lemma coldRestartPod_progress cluster pod hash w w' :
  coldRestartPod cluster pod w = (inr (), w') ->
  restarted_pod (pod_Name pod) hash (w_pods w') \/ reportedGone w.
Proof.
  unfold coldRestartPod. unfold mbind at 1, M_bind at 1.
  destruct (quiesceNodeBeforeDeletion _ _ w) as [[?|?] w1] eqn:H1; [by intros [=]|].
  unfold mbind at 1, M_bind at 1. set (mark := match getDirtyVolumes _ with [] => _ | _ => _ end).
  destruct (mark w1) as [[?|?] w2] eqn:H2; [by intros [=]|].
  unfold mbind at 1, M_bind at 1. match goal with |- context [(if ?d then ?a else ?b) w2] => set (local := if d then a else b) end.
  destruct (local w2) as [[?|?] w3] eqn:H3; [by intros [=]|].
  assert (consumes w w3) as Hc.
  { trans w1; [|trans w2]; (eapply keeps_run; [|eassumption]);
      [unfold quiesceNodeBeforeDeletion, quiesceNode, execAsinfoVerb, getPasswordFromSecret
      |unfold mark, markDirtyVolumes, patchPodStatus
      |unfold local, DeleteLocalPVCsForPod, GetLocalPVCsForPod, GetPVCsForStatefulSet, deleteClaim]; frame. }
  clear mark local H1 H2 H3.
  unfold mbind, M_bind, try. destruct (deletePod (pod_Name pod) w3) as [[e|[]] w4] eqn:Hdel.
  - destruct (IsNotFound e) eqn:He; [|by intros [=]]. intros Hr.
    pose proof (keeps_run (agree w_pods) _ _ _ _ (keeps_announceColdRestart (agree w_pods) cluster) Hr) as Hp. unfold agree in Hp. rewrite Hp.
    destruct (deletePod_gone _ hash _ _ _ Hdel He) as [?|?]; [by left|right; by eapply reportedGone_mono].
  - intros Hr. left. pose proof (keeps_run (agree w_pods) _ _ _ _ (keeps_announceColdRestart (agree w_pods) cluster) Hr) as Hp.
    unfold agree in Hp. rewrite Hp. by eapply deletePod_progress.
Qed.

Lemma recordPodRestartStatus_consumes name reason : keeps consumes (recordPodRestartStatus name reason).
Proof. unfold recordPodRestartStatus, patchPodStatus. frame. Qed.

(** A restart that reports success leaves the pod terminating or stamped with the
    desired hash, unless the API server answered a call with not found. *)
Theorem restartPod_progress cluster pod sts hash w w' :
  restartPod cluster pod sts hash w = (inr (), w') ->
  restarted_pod (pod_Name pod) hash (w_pods w') \/ reportedGone w.
Proof.
  unfold restartPod. unfold mbind at 1, M_bind at 1. cbn [gets]. cbv zeta.
  unfold mbind at 1, M_bind at 1. destruct (recordPodRestartStatus _ _ _) as [[?|?] w1] eqn:H1; [by intros [=]|].
  apply (keeps_run consumes) in H1; [|apply recordPodRestartStatus_consumes].
  destruct (negb _); [intros [?|?]%(coldRestartPod_progress _ _ hash); [by left|right; by eapply reportedGone_mono]|].
  unfold mbind at 1, M_bind at 1, try. destruct (warmRestartPod pod w1) as [[e|[]] w2] eqn:H2.
  - apply (keeps_run consumes) in H2; [|unfold warmRestartPod; frame].
    unfold mbind, M_bind. destruct (recordPodRestartStatus _ _ _) as [[?|?] w3] eqn:H3; [by intros [=]|].
    apply (keeps_run consumes) in H3; [|apply recordPodRestartStatus_consumes].
    intros [?|?]%(coldRestartPod_progress _ _ hash); [by left|right].
    eapply reportedGone_mono; [|done]. by trans w1; [|trans w2].
  - unfold mbind, M_bind. destruct (wrapping _ _ w2) as [[?|[]] w3] eqn:Hs; [by intros [=]|].
    apply wrapping_ok in Hs. apply patchPod_ok in Hs. intros Hr. left.
    injection Hr as <-. change (w_pods _) with (w_pods w3). rewrite Hs. intros q (p & _ & ->)%update_pod_elem Hq. right.
    case_decide; [|congruence]. unfold lookup_str. simpl. by rewrite map_get_set_eq.
Qed.

(** ** Storage changes and warm restarts

    A pod that is stale only because its storage hash differs qualifies for a
    warm restart.  The signal does not change its volumes and the storage hash is
    not stamped: the pod is as stale as before and will be selected again. *)

Lemma shouldWarmRestart_storage cluster pod sts :
  isPodReady pod = true -> imageChanged pod (spec_Image (cl_Spec cluster)) = false ->
  lookup_str PodSpecHashAnnotation (pod_Annotations pod) = t_podSpecHash (targetOf sts) ->
  shouldWarmRestart true cluster pod sts = true.
Proof.
  intros Hready Himg Hps. unfold shouldWarmRestart. rewrite Hready, Himg. simpl negb. cbv iota.
  change (lookup_str PodSpecHashAnnotation (tpl_Annotations (sts_Template sts))) with (t_podSpecHash (targetOf sts)).
  by rewrite Hps, bool_decide_true.
Qed.

Lemma comparePodHashes_stamp pod d1 d2 d3 :
  lookup_str ConfigHashAnnotation (pod_Annotations pod) = d1 ->
  comparePodHashes (pod <| pod_Annotations ::= map_set ConfigHashAnnotation d1 |>) d1 d2 d3 =
  comparePodHashes pod d1 d2 d3.
Proof.
  intros Hch. unfold comparePodHashes, lookup_str in *. simpl pod_Annotations.
  rewrite map_get_set_eq, !map_get_set_ne by done. by rewrite <- Hch.
Qed.

Lemma recordPodRestartStatus_run name reason w : exists w1,
  recordPodRestartStatus name reason w = (inr (), w1) /\ w_pods w1 = w_pods w /\ w_restConfig w1 = w_restConfig w.
Proof.
  assert (keeps (agree (fun w => (w_pods w, w_restConfig w))) (recordPodRestartStatus name reason)) as Hk
    by (unfold recordPodRestartStatus, patchPodStatus; frame).
  eexists. split; [reflexivity|]. specialize (Hk w). by injection Hk.
Qed.

Lemma warmRestartPod_run pod w :
  w_restConfig w = true ->
  (forall s, exists out s', pod_exec (pod_Name pod) ["kill"; "-USR1"; "1"] s = (inr out, s')) ->
  exists w1, warmRestartPod pod w = (inr (), w1) /\
    AExec (pod_Name pod) ["kill"; "-USR1"; "1"] ∈ w_trace w1 /\ w_pods w1 = w_pods w.
Proof.
  intros Hrc Hexec. unfold warmRestartPod, mbind, M_bind, gets, wrapping, execPod. rewrite Hrc.
  destruct (Hexec (w_aero w)) as (out & s' & ->). eexists. split; [reflexivity|]. split; [left|done].
Qed.

(** A warm restart that succeeds sent the signal and stamped the hash. *)
Lemma warm_restart_run cluster pod sts hash w w' :
  w_restConfig w = true -> shouldWarmRestart true cluster pod sts = true ->
  (forall s, exists out s', pod_exec (pod_Name pod) ["kill"; "-USR1"; "1"] s = (inr out, s')) ->
  restartPod cluster pod sts hash w = (inr (), w') ->
  AExec (pod_Name pod) ["kill"; "-USR1"; "1"] ∈ w_trace w' /\
  w_pods w' = update_pod (pod_Name pod)
    (fun p => p <| pod_Annotations ::= map_set ConfigHashAnnotation hash |>) (w_pods w).
Proof.
  intros Hrc Hwarm Hexec. unfold restartPod. change (gets w_restConfig ≫= ?f) with (fun w => f (w_restConfig w) w).
  cbv beta zeta. rewrite Hrc, Hwarm. set (reason := determineRestartReason _ _ _ _ _).
  destruct (recordPodRestartStatus_run (pod_Name pod) reason w) as (w1 & Hrec & Hp1 & Hrc1).
  unfold mbind at 1, M_bind at 1. rewrite Hrec.
  destruct (warmRestartPod_run pod w1) as (w2 & Hw2 & Htr & Hp2); [congruence|done|].
  unfold mbind, M_bind, try. cbn [negb]. cbv beta iota. rewrite Hw2. destruct (wrapping _ _ w2) as [[?|[]] w3] eqn:Hs; [by intros [=]|].
  apply wrapping_ok in Hs. intros [= <-]. split.
  - assert (does anyAction w2 w3) as Hd23 by (eapply keeps_run; [|exact Hs]; unfold updatePodConfigHash; frame; done).
    exact (does_grow _ _ _ Hd23 Htr).
  - apply patchPod_ok in Hs. change (w_pods w3 = update_pod (pod_Name pod)
      (fun p => p <| pod_Annotations ::= map_set ConfigHashAnnotation hash |>) (w_pods w)). by rewrite Hs, Hp2, Hp1.
Qed.

(** A pod that is stale only by its storage hash is warm-restarted, which leaves it
    exactly as stale as it was. *)
Theorem storage_change_warm_restarts_forever cluster pod sts w w' :
  w_restConfig w = true -> isPodReady pod = true ->
  imageChanged pod (spec_Image (cl_Spec cluster)) = false ->
  lookup_str ConfigHashAnnotation (pod_Annotations pod) = t_configHash (targetOf sts) ->
  lookup_str PodSpecHashAnnotation (pod_Annotations pod) = t_podSpecHash (targetOf sts) ->
  (forall s, exists out s', pod_exec (pod_Name pod) ["kill"; "-USR1"; "1"] s = (inr out, s')) ->
  pod ∈ w_pods w ->
  restartPod cluster pod sts (t_configHash (targetOf sts)) w = (inr (), w') ->
  AExec (pod_Name pod) ["kill"; "-USR1"; "1"] ∈ w_trace w' /\
  exists pod', pod' ∈ w_pods w' /\ pod_Name pod' = pod_Name pod /\
    pod_DeletionTimestamp pod' = pod_DeletionTimestamp pod /\ isPodReady pod' = true /\
    comparePodHashes pod' (t_configHash (targetOf sts)) (t_podSpecHash (targetOf sts)) (t_storageHash (targetOf sts)) =
    comparePodHashes pod (t_configHash (targetOf sts)) (t_podSpecHash (targetOf sts)) (t_storageHash (targetOf sts)).
Proof.
  intros Hrc Hready Himg Hch Hps Hexec Hin Hrun.
  apply warm_restart_run in Hrun as (Htr & Hpods); [|done|by apply shouldWarmRestart_storage|done].
  split; [done|].
  exists (pod <| pod_Annotations ::= map_set ConfigHashAnnotation (t_configHash (targetOf sts)) |>).
  split_and!; [|done|done|done|].
  - rewrite Hpods. unfold update_pod. apply list_elem_of_fmap. exists pod. by rewrite decide_True.
  - apply comparePodHashes_stamp. done.
Qed.

End Restart.

#[export] Hint Resolve keeps_announceColdRestart : frame.

(** ** Concrete runs *)

Definition quiet_world (pods : list Pod) : World (H := sample_env) :=
  sample_world (example_cluster 2 None) pods [sample_sts "demo-1" 2 "h2"] (mkStub [] [] [] []).

(** The world after failed checks of rack 1 at the given times, newest first. *)
Fixpoint after_failures (ts : list Z) : World (H := sample_env) :=
  match ts with
  | [] => quiet_world []
  | t :: ts => snd (recordMigrationCheckFailure (H := sample_env) (example_cluster 2 None) 1
                      ((after_failures ts) <| w_now := t |>))
  end.

Lemma checks_later evs (w : World (H := sample_env)) t :
  checks (H := sample_env) evs w -> checks (H := sample_env) evs (w <| w_now := t |>).
Proof. intros Hw. by eapply checks_other. Qed.

Lemma checks_after_failures ts :
  checks (H := sample_env) (CheckFailed (migrationCheckKey (example_cluster 2 None) 1) <$> ts) (after_failures ts).
Proof.
  induction ts as [|t ts IH]; [by apply checks_start|].
  refine (checks_failed (H := sample_env) (CheckFailed (migrationCheckKey (example_cluster 2 None) 1) <$> ts)
    (example_cluster 2 None) 1 ((after_failures ts) <| w_now := t |>) _). by apply checks_later.
Qed.

(** Four failures, and a fifth after ten minutes. *)
Lemma hatch_needs_persistent_failure_witness :
  exists ts first,
    recentFailures (migrationCheckKey (example_cluster 2 None) 1)
      (CheckFailed (migrationCheckKey (example_cluster 2 None) 1) <$>
        [600 * second; 450 * second; 300 * second; 150 * second; 0]) ts /\
    Z.of_nat (length ts) = 5 /\ 5 <= 5 /\ head ts = Some (600 * second) /\ hourApart ts /\
    last ts = Some first /\ 600 * second = 600 * second - first /\ 10 * minute <= 600 * second.
Proof.
  set (w := (after_failures [450 * second; 300 * second; 150 * second; 0]) <| w_now := 600 * second |>).
  set (run := recordMigrationCheckFailure (H := sample_env) (example_cluster 2 None) 1 w).
  assert (fst run = inr (5, 600 * second, true)) as Hfst by (by vm_compute).
  destruct run as [r w'] eqn:Hrun. simpl in Hfst. subst r.
  exact (hatch_needs_persistent_failure (H := sample_env) _ (example_cluster 2 None) 1 w 5 (600 * second) w'
    (checks_later _ _ _ (checks_after_failures [450 * second; 300 * second; 150 * second; 0])) Hrun).
Defined.

Lemma hatch_opens_eventually_witness :
  exists w', foldM (failAt (H := sample_env) (example_cluster 2 None) 1) false
    [0; 150 * second; 300 * second; 450 * second; 600 * second] (quiet_world []) = (inr true, w').
Proof.
  apply (hatch_opens_eventually (H := sample_env) (example_cluster 2 None) 1 0
    [150 * second; 300 * second; 450 * second; 600 * second] (600 * second)).
  - done.
  - cbn [paced]. unfold migrationCheckStateTTL, hour, minute, second. lia.
  - done.
  - done.
  - done.
Defined.

(** A pod with all three hashes. *)
Definition stamped_pod (name config podSpec storage : string) : Pod :=
  (sample_pod name PodRunning true config) <| pod_Annotations :=
    [(ConfigHashAnnotation, config); (PodSpecHashAnnotation, podSpec); (StorageHashAnnotation, storage)] |>.

Definition stamped_sts (config podSpec storage : string) : StatefulSet :=
  (sample_sts "demo-1" 2 config) <| sts_Template := mkPodTemplateSpec []
    [(ConfigHashAnnotation, config); (PodSpecHashAnnotation, podSpec); (StorageHashAnnotation, storage)] emptyPod |>.

(** The pod to delete first is gone: its deletion is refused, the second is not attempted. *)
Lemma restart_batch_pending_witness :
  let pods := [stamped_pod "demo-1-1" "h1" "p1" "s1"; stamped_pod "demo-1-0" "h1" "p1" "s1"] in
  let w := (quiet_world pods) <| w_restConfig := false |> <| w_faults := [None; None; Some (Errorf "refused")] |> in
  0 + Z.of_nat (length ["demo-1-1"]) = 1 /\
  filterUnrestarted ["demo-1-1"; "demo-1-0"] ["demo-1-1"] 0 [stamped_pod "demo-1-1" "h1" "p1" "s1"] =
    ["demo-1-1"; "demo-1-0"] /\
  fst (restartPodBatch (H := sample_env) (example_cluster 2 None) pods (stamped_sts "h2" "p2" "s1") "h2" 1 None None w) =
    inr (0, ["demo-1-1"], [stamped_pod "demo-1-1" "h1" "p1" "s1"]).
Proof.
  intros pods w.
  set (run := restartPodBatch (H := sample_env) (example_cluster 2 None) pods (stamped_sts "h2" "p2" "s1") "h2" 1 None None w).
  assert (fst run = inr (0, ["demo-1-1"], [stamped_pod "demo-1-1" "h1" "p1" "s1"])) as Hfst by (by vm_compute).
  destruct run as [r w'] eqn:Hrun. simpl in Hfst. subst r.
  destruct (restart_batch_pending (H := sample_env) _ pods _ _ _ _ _ w _ _ _ w'
    ltac:(apply (bool_decide_unpack _); by vm_compute) Hrun) as [H1 H2].
  split_and!; [exact H1|exact H2|done].
Defined.

(** A warm restart of a pod with the old configuration. *)
Lemma restartPod_progress_witness :
  let pod := stamped_pod "demo-1-1" "h1" "p1" "s1" in
  exists w', restartPod (H := sample_env) (example_cluster 2 None) pod (stamped_sts "h2" "p1" "s1") "h2"
      (quiet_world [pod]) = (inr (), w') /\
    (restarted_pod "demo-1-1" "h2" (w_pods w') \/ reportedGone (quiet_world [pod])).
Proof.
  intros pod. set (run := restartPod (H := sample_env) _ _ _ _ _).
  assert (fst run = inr ()) as Hfst by (by vm_compute).
  destruct run as [r w'] eqn:Hrun. simpl in Hfst. subst r. exists w'. split; [done|].
  exact (restartPod_progress (H := sample_env) (example_cluster 2 None) pod (stamped_sts "h2" "p1" "s1") "h2"
    (quiet_world [pod]) w' Hrun).
Defined.

(** Only the storage hash differs. *)
Lemma storage_change_warm_restarts_forever_witness :
  let pod := stamped_pod "demo-1-1" "h1" "p1" "s1" in
  let sts := stamped_sts "h1" "p1" "s2" in
  targetStale (targetOf sts) pod = true /\
  exists w', AExec "demo-1-1" ["kill"; "-USR1"; "1"] ∈ w_trace (H := sample_env) w' /\
  exists pod', pod' ∈ w_pods w' /\ pod_Name pod' = pod_Name pod /\
    pod_DeletionTimestamp pod' = pod_DeletionTimestamp pod /\ isPodReady pod' = true /\
    comparePodHashes pod' "h1" "p1" "s2" = comparePodHashes pod "h1" "p1" "s2".
Proof.
  intros pod sts. split; [done|].
  set (run := restartPod (H := sample_env) (example_cluster 2 None) pod sts "h1" (quiet_world [pod])).
  assert (fst run = inr ()) as Hfst by (by vm_compute).
  destruct run as [r w'] eqn:Hrun. simpl in Hfst. subst r. exists w'.
  apply (storage_change_warm_restarts_forever (H := sample_env) (example_cluster 2 None) pod sts (quiet_world [pod]) w');
    try done; [|left]. intros s. by exists "ok", s.
Defined.
