(* ===== verification/Operations.v ===== *)
(** * On-demand operations

    internal/controller/reconciler_operations.go: warm and cold restarts requested
    in [spec.operations].  The pods are restarted in batches; the pods already
    attempted are kept in [status.operationStatus], and a batch waits until the
    pods restarted before it are back. *)

From S2P Require Import Prelude GoValue Utils ConfigDiff Api ConfigGen Events Kube Aero Sizing Readiness Status Breaker Storage DynamicConfig Restart.

(** A lookup in the map from names to pods: a later pod replaces an earlier one. *)
Definition podNamed (name : string) (pods : list Pod) : option Pod :=
  snd <$> list_find (fun p => pod_Name p = name) (reverse pods).

(** [filterPodsByNames]. *)
Definition filterPodsByNames (allPods : list Pod) (names : list string) : list Pod :=
  match names with
  | [] => allPods
  | _ => omap (fun name => podNamed name allPods) names
  end.

(** A pod of the operation that has been attempted, successfully or not. *)
Definition resolved (st : OperationStatus) (pod : Pod) : bool :=
  bool_decide (pod_Name pod ∈ os_CompletedPods st) || bool_decide (pod_Name pod ∈ os_FailedPods st).

Definition outstanding (st : OperationStatus) (pods : list Pod) : list Pod :=
  filter (fun p => resolved st p = false) pods.

(** [finalizeOperationPhase]: the status with its terminal phase, if it has one. *)
Definition finalizeOperationPhase (st : OperationStatus) (pods : list Pod) : OperationStatus * bool :=
  match outstanding st pods with
  | _ :: _ => (st, false)
  | [] => (st <| os_Phase := match os_FailedPods st with [] => PhaseCompleted | _ => PhaseError end |>, true)
  end.

(** [operationRestartInFlightReason]: the first restarted pod, by name, that is not back. *)
Fixpoint firstNotBack (pods : list Pod) (names : list string) : option string :=
  match names with
  | [] => None
  | name :: names =>
      match podNamed name pods with
      | None => Some ("pod " +:+ name +:+ " was restarted but has not been recreated yet")
      | Some pod =>
          if decide (is_Some (pod_DeletionTimestamp pod)) then Some ("pod " +:+ name +:+ " is still terminating")
          else if negb (isPodReady pod) then
            Some ("pod " +:+ name +:+ " has been restarted but is not Ready yet (phase " +:+ phaseText (pod_Phase pod) +:+ ")")
          else firstNotBack pods names
      end
  end.

Definition operationRestartInFlightReason (pods : list Pod) (completedSet : list string) : option string :=
  firstNotBack pods (merge_sort String.le (remove_dups completedSet)).

(** The zero value [rackRestartTarget{}]; with no replicas the policy is not read. *)
Definition zeroTarget : rackRestartTarget := mkTarget "" "" "" 0 ParallelPodManagement.

Section Operations.
Context `{Environment}.

(** [getOperationTargetPods]. *)
Definition getOperationTargetPods (cluster : AerospikeCluster) (podList : list string) : M (list Pod) :=
  allPods ← listClusterPods cluster; mret (filterPodsByNames allPods podList).

(** [persistOperationStatus]. *)
Definition persistOperationStatus (st : OperationStatus) : M () :=
  _ ← refetchCluster; patchStatus (fun s => s <| st_OperationStatus := Some st |>).

(** [operationBatchBlocked]. *)
Definition operationBatchBlocked (cluster : AerospikeCluster) (pods : list Pod) (st : OperationStatus) : M bool :=
  match outstanding st pods with
  | [] => mret false
  | _ =>
      match operationRestartInFlightReason pods (os_CompletedPods st) with
      | Some _ => _ ← record false EventOperation; mret true
      | None => isBatchBlocked cluster onDemandOperationRackID pods zeroTarget
      end
  end.

(** The restart of one pod and its bookkeeping. *)
Definition operatePod (cluster : AerospikeCluster) (kind : OperationKind) (pod : Pod) : M () :=
  match kind with
  | OperationWarmRestart =>
      _ ← warmRestartPod pod; recordPodRestartStatus (pod_Name pod) RestartReasonWarmRestart
  | OperationPodRestart =>
      _ ← coldRestartPod cluster pod; recordPodRestartStatus (pod_Name pod) RestartReasonManualRestart
  | OperationOther k => raise (Errorf ("unsupported operation kind " +:+ k))
  end.

(** The loop over the target pods: it ends when the batch is full. *)
Fixpoint operationLoop (cluster : AerospikeCluster) (kind : OperationKind) (batchSize : Z)
    (st : OperationStatus) (processed : Z) (pods : list Pod) : M OperationStatus :=
  match pods with
  | [] => mret st
  | pod :: pods =>
      if resolved st pod then operationLoop cluster kind batchSize st processed pods
      else if batchSize <=? processed then mret st
      else
        r ← try (operatePod cluster kind pod);
        let st := match r with
                  | inl _ => st <| os_FailedPods ::= fun l => l ++ [pod_Name pod] |>
                  | inr _ => st <| os_CompletedPods ::= fun l => l ++ [pod_Name pod] |>
                  end in
        operationLoop cluster kind batchSize st (processed + 1) pods
  end.

(** The status of the operation so far: what was recorded for the same id. *)
Definition priorStatus (cluster : AerospikeCluster) (op : OperationSpec) : OperationStatus :=
  match st_OperationStatus (cl_Status cluster) with
  | Some st =>
      if decide (os_ID st = op_ID op)
      then mkOperationStatus (op_ID op) (op_Kind op) PhaseInProgress (os_CompletedPods st) (os_FailedPods st)
      else mkOperationStatus (op_ID op) (op_Kind op) PhaseInProgress [] []
  | None => mkOperationStatus (op_ID op) (op_Kind op) PhaseInProgress [] []
  end.

(** The operation has ended in an earlier reconcile. *)
Definition operationEnded (cluster : AerospikeCluster) (op : OperationSpec) : bool :=
  match st_OperationStatus (cl_Status cluster) with
  | Some st => bool_decide (os_ID st = op_ID op /\ (os_Phase st = PhaseCompleted \/ os_Phase st = PhaseError))
  | None => false
  end.

(** A status write: a conflict asks for another reconcile. *)
Definition persistOr (st : OperationStatus) (k : M bool) : M bool :=
  r ← try (persistOperationStatus st);
  match r with
  | inl e => if IsConflict e then mret true else raise e
  | inr _ => k
  end.

Definition runOperation (cluster : AerospikeCluster) (op : OperationSpec) (pods : list Pod) : M bool :=
  let st := priorStatus cluster op in
  let batchSize := getRollingUpdateBatchSize cluster (i32 (Z.of_nat (length pods))) in
  blocked ← operationBatchBlocked cluster pods st;
  if (blocked : bool) then mret true
  else
    st ← operationLoop cluster (op_Kind op) batchSize st 0 pods;
    let '(st, allDone) := finalizeOperationPhase st pods in
    persistOr st (_ ← record false EventOperation; mret (negb allDone)).

(** [reconcileOperations]: whether an operation is still in progress. *)
Definition reconcileOperations (cluster : AerospikeCluster) : M bool :=
  match spec_Operations (cl_Spec cluster) with
  | [] => mret false
  | op :: _ =>
      if operationEnded cluster op then mret false
      else
        pods ← getOperationTargetPods cluster (op_PodList op);
        if (negb (bool_decide (op_PodList op = [])) && bool_decide (length pods = 0%nat)) then
          _ ← record true EventOperation;
          persistOr (mkOperationStatus (op_ID op) (op_Kind op) PhaseError [] []) (mret false)
        else runOperation cluster op pods
  end.

(** ** One batch *)

(** [attempts budget st st' pods names]: from status [st], the pods [names] were attempted
    and [st'] records how each went. *)
Record attempts (budget : Z) (st st' : OperationStatus) (pods : list Pod) (names : list string) : Prop := {
  att_bound : Z.of_nat (length names) <= Z.max 0 budget;
  att_fresh : forall n, n ∈ names -> n ∈ pod_Name <$> outstanding st pods;
  att_once : NoDup names;
  att_recorded : exists succeeded failed, names ≡ₚ succeeded ++ failed /\
    os_CompletedPods st' = os_CompletedPods st ++ succeeded /\ os_FailedPods st' = os_FailedPods st ++ failed;
  att_same : os_ID st' = os_ID st /\ os_Kind st' = os_Kind st /\ os_Phase st' = os_Phase st;
  att_full : Z.of_nat (length names) < budget -> outstanding st' pods = []
}.

Lemma resolved_spec st pod :
  resolved st pod = true <-> pod_Name pod ∈ os_CompletedPods st ++ os_FailedPods st.
Proof. unfold resolved. rewrite orb_true_iff, !bool_decide_eq_true, elem_of_app. done. Qed.

Lemma attempts_nil budget st pods :
  outstanding st pods = [] \/ budget <= 0 -> attempts budget st st pods [].
Proof.
  intros Ho. split; simpl; [lia|by intros ? ?%elem_of_nil|constructor| |done|].
  - exists [], []. by rewrite !app_nil_r.
  - destruct Ho; [done|lia].
Qed.

(** The first pod is already resolved. *)
Lemma attempts_skip budget st st' pod pods names :
  resolved st pod = true -> attempts budget st st' pods names -> attempts budget st st' (pod :: pods) names.
Proof.
  intros Hr [H1 H2 H3 H4 H5 H6].
  assert (outstanding st (pod :: pods) = outstanding st pods) as Ho
    by (unfold outstanding; by rewrite filter_cons, decide_False by congruence).
  split; [done|by rewrite Ho|done..|]. intros Hlt. unfold outstanding. rewrite filter_cons, decide_False; [by apply H6|].
  apply not_false_iff_true, resolved_spec. apply resolved_spec in Hr.
  destruct H4 as (s & f & _ & -> & ->). set_solver.
Qed.

(** The first pod is attempted; [mid] records the outcome. *)
Lemma attempts_cons budget st mid st' pod pods names (ok : bool) :
  resolved st pod = false -> 0 < budget ->
  mid = (if ok then st <| os_CompletedPods ::= fun l => l ++ [pod_Name pod] |>
         else st <| os_FailedPods ::= fun l => l ++ [pod_Name pod] |>) ->
  attempts (budget - 1) mid st' pods names -> attempts budget st st' (pod :: pods) (pod_Name pod :: names).
Proof.
  intros Hr Hb Hmid [H1 H2 H3 H4 H5 H6].
  assert (forall x, resolved mid x = true <-> resolved st x = true \/ pod_Name x = pod_Name pod) as Hres.
  { intros x. rewrite !resolved_spec, Hmid. destruct ok; simpl; set_solver. }
  assert (forall n, n ∈ names -> n <> pod_Name pod /\ n ∈ pod_Name <$> outstanding st pods) as Hnew.
  { intros n (x & -> & [Hx Hin]%list_elem_of_filter)%H2%list_elem_of_fmap.
    apply not_true_iff_false in Hx. rewrite Hres in Hx. split; [naive_solver|].
    apply list_elem_of_fmap. exists x. split; [done|]. apply list_elem_of_filter. split; [|done].
    apply not_true_iff_false. naive_solver. }
  split.
  - simpl length. lia.
  - intros n Hn. unfold outstanding. rewrite filter_cons, decide_True by done. rewrite fmap_cons.
    apply elem_of_cons in Hn as [->|Hn]; [left|right]. by apply Hnew.
  - constructor; [|done]. intros Hin. by destruct (Hnew _ Hin).
  - destruct H4 as (s & f & Hp & Hs & Hf). rewrite Hmid in Hs, Hf. destruct ok; simpl in Hs, Hf.
    + exists (pod_Name pod :: s), f. rewrite Hs, Hf, Hp, <- app_assoc. done.
    + exists s, (pod_Name pod :: f). rewrite Hs, Hf, Hp, <- app_assoc. split; [apply Permutation_middle|done].
  - rewrite Hmid in H5. by destruct ok.
  - simpl length. intros Hlt. unfold outstanding. rewrite filter_cons, decide_False; [apply H6; lia|].
    apply not_false_iff_true, resolved_spec. destruct H4 as (s & f & _ & -> & ->).
    assert (resolved mid pod = true) as Hm%resolved_spec by (apply Hres; by right). set_solver.
Qed.

Lemma confined_warm names pod : pod_Name pod ∈ names -> keeps (does (confined names)) (warmRestartPod pod).
Proof.
  intros Hp. pose proof (fun cmd => confined_exec names (pod_Name pod) cmd Hp). unfold warmRestartPod. frame.
Qed.

Lemma confined_operatePod names cluster kind pod :
  pod_Name pod ∈ names -> keeps (does (confined names)) (operatePod cluster kind pod).
Proof.
  intros Hp. pose proof (confined_warm names pod Hp). pose proof (confined_coldRestartPod names cluster pod Hp).
  pose proof (confined_recordPodRestartStatus names). unfold operatePod. frame.
Qed.

Lemma operationLoop_spec cluster kind batchSize pods : forall st processed w,
  exists st' names, fst (operationLoop cluster kind batchSize st processed pods w) = inr st' /\
    attempts (batchSize - processed) st st' pods names /\
    does (confined names) w (snd (operationLoop cluster kind batchSize st processed pods w)).
Proof.
  induction pods as [|pod pods IH]; intros st processed w.
  { exists st, []. split; [done|]. split; [by apply attempts_nil; left|apply does_pre]. }
  cbn [operationLoop]. destruct (resolved st pod) eqn:Hr.
  { destruct (IH st processed w) as (st' & names & Hrun & Hatt & Hd). exists st', names.
    split; [done|]. split; [by apply attempts_skip|done]. }
  destruct (Z.leb_spec batchSize processed).
  { exists st, []. split; [done|]. split; [apply attempts_nil; right; lia|apply does_pre]. }
  unfold mbind, M_bind, try. destruct (operatePod cluster kind pod w) as [r w1] eqn:Hop. cbv zeta.
  set (mid := match r with inl _ => _ | inr _ => _ end).
  destruct (IH mid (processed + 1) w1) as (st' & names & Hrun & Hatt & Hd). exists st', (pod_Name pod :: names).
  split; [done|]. split.
  - apply (attempts_cons _ _ mid _ _ _ _ (match r with inr _ => true | inl _ => false end)); [done|lia| |].
    + unfold mid. by destruct r.
    + by replace (batchSize - processed - 1) with (batchSize - (processed + 1)) by lia.
  - trans w1.
    + eapply keeps_run; [|exact Hop]. apply confined_operatePod. left.
    + eapply does_weaken; [|exact Hd]. intros a. apply confined_mono. set_solver.
Qed.

(** ** What an operation may disrupt *)

(** The pods the operation is about. *)
Definition targetPods (cluster : AerospikeCluster) (op : OperationSpec) (w : World) : list Pod :=
  filterPodsByNames (filter (fun p =>
    selector_matches (SelectorLabelsForCluster (cl_Name cluster)) (pod_Labels p) = true) (w_pods w)) (op_PodList op).

(** A pod restarted by the operation is present, not terminating and ready. *)
Definition isBack (pods : list Pod) (name : string) : Prop :=
  exists p, podNamed name pods = Some p /\ pod_DeletionTimestamp p = None /\ isPodReady p = true.

Lemma firstNotBack_None pods names : firstNotBack pods names = None <-> Forall (isBack pods) names.
Proof.
  unfold isBack. induction names as [|n names IH]; simpl; [by split; [constructor|]|]. rewrite Forall_cons, <- IH.
  destruct (podNamed n pods) as [p|]; [|split; [done|by intros [(? & [=] & _) _]]].
  case_decide as Hd; [split; [done|intros [(? & [= <-] & Hn & _) _]; rewrite Hn in Hd; by destruct Hd]|].
  apply eq_None_not_Some in Hd. destruct (isPodReady p) eqn:Hr; simpl.
  - split; [intros Hf; split; [by exists p|done]|by intros [_ ?]].
  - split; [done|intros [(? & [= <-] & _ & Hn) _]; congruence].
Qed.

Lemma inFlight_None pods completed :
  operationRestartInFlightReason pods completed = None <-> Forall (isBack pods) completed.
Proof.
  unfold operationRestartInFlightReason. rewrite firstNotBack_None, merge_sort_Permutation, !Forall_forall.
  by setoid_rewrite elem_of_remove_dups.
Qed.

Lemma targetPods_ok cluster op w pods w' :
  getOperationTargetPods cluster (op_PodList op) w = (inr pods, w') -> pods = targetPods cluster op w.
Proof.
  unfold getOperationTargetPods, listClusterPods, listPods, targetPods, mbind, M_bind, gets.
  pose proof (api_agree w_pods w) as Ha. destruct (api w) as [[e|[]] w1]; [by intros [=]|]. simpl in *.
  rewrite Ha. by intros [= <- <-].
Qed.

Lemma confined_persistOr names st k :
  keeps (does (confined names)) k -> keeps (does (confined names)) (persistOr st k).
Proof. intros Hk. unfold persistOr, persistOperationStatus. frame. by intros ?. Qed.

(** Why a batch of an operation was allowed. *)
Record operation_allowed (cluster : AerospikeCluster) (op : OperationSpec) (names : list string) (w : World) : Prop := {
  oa_open : operationEnded cluster op = false;
  oa_bound : Z.of_nat (length names) <=
    Z.max 0 (getRollingUpdateBatchSize cluster (i32 (Z.of_nat (length (targetPods cluster op w)))));
  oa_fresh : forall n, n ∈ names -> n ∈ pod_Name <$> outstanding (priorStatus cluster op) (targetPods cluster op w);
  oa_once : NoDup names;
  oa_back : forall n, n ∈ os_CompletedPods (priorStatus cluster op) -> isBack (targetPods cluster op w) n;
  oa_stable : forall p, p ∈ targetPods cluster op w -> pod_DeletionTimestamp p = None;
  oa_gate : exists w1, observed w1 = observed w /\
    mayProceed cluster onDemandOperationRackID (targetPods cluster op w) w1
}.

Lemma runOperation_effect cluster op w w1 :
  operationEnded cluster op = false -> observed w1 = observed w ->
  exists names, does (confined names) w1 (snd (runOperation cluster op (targetPods cluster op w) w1)) /\
    (names = [] \/ operation_allowed cluster op names w).
Proof.
  intros Hopen Hobs. unfold runOperation. set (pods := targetPods cluster op w). set (st := priorStatus cluster op).
  unfold mbind at 1, M_bind at 1.
  assert (keeps (does (confined [])) (operationBatchBlocked cluster pods st)) as Hgate.
  { pose proof (confined_isBatchBlocked [] cluster onDemandOperationRackID). unfold operationBatchBlocked.
    destruct (outstanding st pods); frame. }
  destruct (operationBatchBlocked cluster pods st w1) as [[e|[|]] w2] eqn:Hb; specialize (Hgate w1);
    rewrite Hb in Hgate; simpl in Hgate; [exists []; by split; [|left]..|].
  set (batch := getRollingUpdateBatchSize _ _).
  destruct (operationLoop_spec cluster (op_Kind op) batch pods st 0 w2) as (st' & names & Hrun & Hatt & Hd).
  unfold mbind at 1, M_bind at 1. destruct (operationLoop _ _ _ _ _ _ w2) as [r w3]. simpl in Hrun, Hd. subst r.
  destruct (finalizeOperationPhase st' pods) as [fin allDone].
  exists names. split.
  { trans w2; [eapply does_weaken; [|exact Hgate]; intros a; apply confined_mono; set_solver|].
    trans w3; [done|]. apply confined_persistOr. frame. }
  destruct names as [|n names]; [by left|]. right. destruct Hatt as [H1 H2 H3 _ _ _].
  unfold operationBatchBlocked in Hb. destruct (outstanding st pods) as [|x l] eqn:Ho.
  { exfalso. assert (n ∈ n :: names) as Hn%H2 by left. by apply elem_of_nil in Hn. }
  destruct (operationRestartInFlightReason pods (os_CompletedPods st)) eqn:Hf; [by injection Hb|].
  apply isBatchBlocked_false in Hb as [Hin Hmay]. apply restartInFlightReason_None in Hin as [Hin _].
  apply inFlight_None in Hf. rewrite Forall_forall in Hf. split; [done| |by fold pods st; rewrite Ho|done|done| |].
  - by rewrite Z.sub_0_r in H1.
  - intros p Hp. by apply Hin.
  - by exists w1.
Qed.


(** ** Progress *)

Definition hasCluster (w : World) : Prop := is_Some (w_cluster w).

#[local] Instance hasCluster_frame : Frame (pres hasCluster).
Proof. split; [apply _|intros w ? _ Hw; exact Hw|intros w ? Hw; exact Hw..|intros w ? _ Hw; exact Hw]. Qed.
#[local] Instance hasCluster_frameinfo : FrameInfo (pres hasCluster).
Proof. split; [apply _|]; intros w ? ? ? Hw; exact Hw. Qed.
#[local] Instance hasCluster_frameio : FrameIO (pres hasCluster).
Proof. split; [apply _|]; intros w ? ? ? Hw; exact Hw. Qed.

Lemma hasCluster_patchStatus f : keeps (pres hasCluster) (patchStatus f).
Proof.
  apply keeps_bind; [frame|]. intros _ w Hw. unfold mbind, M_bind, gets.
  destruct (w_cluster w); [|done]. by eexists.
Qed.

Lemma hasCluster_patchPodStatus name f : keeps (pres hasCluster) (patchPodStatus name f).
Proof. pose proof hasCluster_patchStatus. unfold patchPodStatus. frame. Qed.

Lemma hasCluster_operatePod cluster kind pod : keeps (pres hasCluster) (operatePod cluster kind pod).
Proof.
  pose proof hasCluster_patchPodStatus.
  unfold operatePod, coldRestartPod, warmRestartPod, quiesceNodeBeforeDeletion, recordPodRestartStatus, markDirtyVolumes,
    DeleteLocalPVCsForPod, GetLocalPVCsForPod, GetPVCsForStatefulSet, deleteClaim. frame.
Qed.

Lemma consumes_operatePod cluster kind pod : keeps consumes (operatePod cluster kind pod).
Proof.
  unfold operatePod, coldRestartPod, warmRestartPod, quiesceNodeBeforeDeletion, recordPodRestartStatus, markDirtyVolumes,
    DeleteLocalPVCsForPod, GetLocalPVCsForPod, GetPVCsForStatefulSet, deleteClaim, patchPodStatus. frame.
Qed.

Lemma keeps_operationLoop R `{!Frame R} cluster kind batchSize pods :
  (forall pod, keeps R (operatePod cluster kind pod)) ->
  forall st processed, keeps R (operationLoop cluster kind batchSize st processed pods).
Proof. intros Hop. induction pods as [|pod pods IH]; intros st processed; cbn [operationLoop]; frame. Qed.

(** *** The restarts themselves *)

(** The request that restarts pod [n]: SIGUSR1 to its server for a warm restart, its
    deletion for a pod restart.  No request stands for another kind. *)
Definition restarting (kind : OperationKind) (n : string) (a : action) : Prop :=
  match kind with
  | OperationWarmRestart => a = AExec n ["kill"; "-USR1"; "1"]
  | OperationPodRestart => a = ADeletePod n
  | OperationOther _ => False
  end.

(** Between two worlds each pod of [names] was restarted. *)
Definition restarted (kind : OperationKind) (names : list string) (w w' : World) : Prop :=
  exists l, w_trace w' = l ++ w_trace w /\ forall n, n ∈ names -> exists a, a ∈ l /\ restarting kind n a.

(** What the restarts depend on: the pods there are and the access to their shells. *)
Definition premises (w : World) := (pod_Name <$> w_pods w, w_restConfig w).

Definition grows : relation World := does (fun _ => True).

Lemma restarted_nil kind w w' : grows w w' -> restarted kind [] w w'.
Proof. intros (l & Hl & _). exists l. split; [done|]. by intros n ?%elem_of_nil. Qed.

Lemma restarted_cons kind n names w w1 w' :
  restarted kind [n] w w1 -> restarted kind names w1 w' -> restarted kind (n :: names) w w'.
Proof.
  intros (l1 & H1 & Hn) (l2 & H2 & Hns). exists (l2 ++ l1). split; [by rewrite H2, H1, app_assoc|].
  intros m [->|Hm]%elem_of_cons.
  - destruct (Hn n) as (a & Ha & ?); [by left|]. exists a. set_solver.
  - destruct (Hns m Hm) as (a & Ha & ?). exists a. set_solver.
Qed.

Lemma restarted_around kind names w w1 w2 w' :
  grows w w1 -> restarted kind names w1 w2 -> grows w2 w' -> restarted kind names w w'.
Proof.
  intros (l1 & H1 & _) (l & Hl & Hn) (l2 & H2 & _). exists (l2 ++ l ++ l1).
  split; [by rewrite H2, Hl, H1, <- !app_assoc|]. intros m Hm. destruct (Hn m Hm) as (a & Ha & ?). exists a. set_solver.
Qed.

Lemma update_pod_names name f l : (forall p, pod_Name (f p) = pod_Name p) -> pod_Name <$> update_pod name f l = pod_Name <$> l.
Proof.
  intros Hf. unfold update_pod. rewrite <- list_fmap_compose. apply list_fmap_ext. intros i p _. simpl. by case_decide.
Qed.

Lemma premises_deletePod name : keeps (agree premises) (deletePod name).
Proof.
  unfold deletePod. frame. apply keeps_modify. intros w. unfold agree, premises. simpl. by rewrite update_pod_names.
Qed.

#[local] Hint Resolve premises_deletePod : frame.

Lemma premises_operatePod cluster kind pod : keeps (agree premises) (operatePod cluster kind pod).
Proof.
  unfold operatePod, coldRestartPod, warmRestartPod, quiesceNodeBeforeDeletion, recordPodRestartStatus, markDirtyVolumes,
    DeleteLocalPVCsForPod, GetLocalPVCsForPod, GetPVCsForStatefulSet, deleteClaim, patchPodStatus. frame.
Qed.

Lemma grows_recordPodRestartStatus name reason : keeps grows (recordPodRestartStatus name reason).
Proof. unfold grows, recordPodRestartStatus, patchPodStatus. by frame. Qed.

Lemma grows_operatePod cluster kind pod : keeps grows (operatePod cluster kind pod).
Proof.
  intros w. eapply does_weaken; [done|]. apply (confined_operatePod [pod_Name pod]). by left.
Qed.

(** A best-effort step: it ends without an error, leaves the premises alone and only
    adds to the trace. *)
Definition bestEffort (m : M ()) : Prop := forall w, w_faults w = [] ->
  exists w', m w = (inr (), w') /\ w_faults w' = [] /\ premises w' = premises w /\ grows w w'.

Lemma bestEffort_intro m :
  (forall w, fst (m w) = inr ()) -> keeps consumes m -> keeps (agree premises) m -> keeps grows m -> bestEffort m.
Proof.
  intros Hok Hc Hp Hg w Hf. specialize (Hok w). specialize (Hc w). specialize (Hp w). specialize (Hg w).
  destruct (m w) as [r w']. simpl in *. subst r. unfold consumes in Hc. rewrite Hf in Hc.
  exists w'. split_and!; [done|by apply suffix_nil_inv in Hc|done|done].
Qed.

(** A restart after a best-effort step. *)
Lemma bestEffort_then kind names m k w :
  bestEffort m -> w_faults w = [] ->
  (forall w1, w_faults w1 = [] -> premises w1 = premises w ->
     exists w', k w1 = (inr (), w') /\ restarted kind names w1 w') ->
  exists w', (m ≫= fun _ => k) w = (inr (), w') /\ restarted kind names w w'.
Proof.
  intros Hm (w1 & Hrun & Hf & Hp & Hg)%Hm Hk. destruct (Hk w1 Hf Hp) as (w' & Hk' & Hr). exists w'.
  unfold mbind, M_bind. rewrite Hrun. split; [done|]. eapply restarted_around; [done..|reflexivity].
Qed.

Lemma try_record {A} (m : M A) (f : A -> M ()) warning e w :
  (forall a w, fst (f a w) = inr ()) -> fst ((r ← try m; match r with inl _ => record warning e | inr a => f a end) w) = inr ().
Proof. intros Hf. unfold mbind, M_bind, try. by destruct (m w) as [[?|?] ?]. Qed.

Lemma bestEffort_quiesce cluster pod : bestEffort (quiesceNodeBeforeDeletion cluster pod).
Proof.
  apply bestEffort_intro; [|unfold grows, quiesceNodeBeforeDeletion; by frame..].
  intros w. unfold quiesceNodeBeforeDeletion. destruct (negb _); [done|].
  unfold mbind at 1, M_bind at 1. simpl. by apply try_record.
Qed.

Lemma bestEffort_ret : bestEffort (mret ()).
Proof. intros w Hw. by exists w. Qed.

Lemma bestEffort_dirty cluster pod :
  bestEffort (match getDirtyVolumes (spec_Storage (cl_Spec cluster)) with
              | [] => mret ()
              | dirtyVols => ignore (markDirtyVolumes (pod_Name pod) dirtyVols)
              end).
Proof.
  destruct (getDirtyVolumes _); [apply bestEffort_ret|].
  apply bestEffort_intro; [intros w; by rewrite ignore_ok|unfold grows, markDirtyVolumes, patchPodStatus; by frame..].
Qed.

Lemma bestEffort_localClaims cluster pod :
  bestEffort (if decide ((spec_Storage (cl_Spec cluster) ≫= st_DeleteLocalStorageOnRestart) = Some true) then
     match ParsePodName (pod_Name pod) with
     | None => mret ()
     | Some (stsName, ordinal) =>
         r ← try (DeleteLocalPVCsForPod (cl_Name cluster) stsName ordinal (spec_Storage (cl_Spec cluster)));
         match r with inl _ => record true EventLocalPVCDeleteFailed | inr _ => mret () end
     end
   else mret ()).
Proof.
  case_decide; [|apply bestEffort_ret]. destruct (ParsePodName _) as [[stsName ordinal]|]; [|apply bestEffort_ret].
  apply bestEffort_intro; [intros w; by apply (try_record _ (fun _ => mret ()))|..].
  all: unfold grows, DeleteLocalPVCsForPod, GetLocalPVCsForPod, GetPVCsForStatefulSet, deleteClaim; by frame.
Qed.

Lemma deletePod_run name w :
  w_faults w = [] -> name ∈ pod_Name <$> w_pods w ->
  exists w', deletePod name w = (inr (), w') /\ w_trace w' = ADeletePod name :: w_trace w.
Proof.
  intros Hf (p & -> & Hp)%list_elem_of_fmap. unfold deletePod, mbind, M_bind, api, gets, now. rewrite Hf.
  assert (existsb (fun q => bool_decide (pod_Name q = pod_Name p)) (w_pods w) = true) as ->
    by (apply existsb_exists; exists p; split; [by apply list_elem_of_In|by apply bool_decide_eq_true]).
  by eexists.
Qed.

(** A pod that is there is deleted, and nothing else ends the restart with an error. *)
Lemma coldRestartPod_deletes cluster pod w :
  w_faults w = [] -> pod_Name pod ∈ pod_Name <$> w_pods w ->
  exists w', coldRestartPod cluster pod w = (inr (), w') /\ restarted OperationPodRestart [pod_Name pod] w w'.
Proof.
  intros Hf Hin. unfold coldRestartPod. cbv zeta.
  apply bestEffort_then; [apply bestEffort_quiesce|done|]. intros w1 Hf1 Hp1.
  apply bestEffort_then; [apply bestEffort_dirty|done|]. intros w2 Hf2 Hp2.
  apply bestEffort_then; [apply bestEffort_localClaims|done|]. intros w3 Hf3 Hp3.
  injection Hp1 as Hn1 _. injection Hp2 as Hn2 _. injection Hp3 as Hn3 _.
  destruct (deletePod_run (pod_Name pod) w3) as (w4 & Hd & Ht); [done|congruence|].
  unfold mbind at 1, M_bind at 1, try. rewrite Hd. eexists. split; [reflexivity|].
  exists [ADeletePod (pod_Name pod)]. split; [exact Ht|]. intros n ->%list_elem_of_singleton.
  exists (ADeletePod (pod_Name pod)). split; [by left|done].
Qed.

(** What a restart of a pod that is there does when the API server answers. *)
Lemma operatePod_restarts cluster kind pod w r w' :
  w_faults w = [] -> pod_Name pod ∈ pod_Name <$> w_pods w -> operatePod cluster kind pod w = (r, w') ->
  match r with
  | inr _ => restarted kind [pod_Name pod] w w'
  | inl _ => match kind with
             | OperationPodRestart => False
             | OperationWarmRestart => w_restConfig w = true -> restarted kind [pod_Name pod] w w'
             | OperationOther _ => True
             end
  end.
Proof.
  intros Hf Hin. destruct kind as [| |k]; unfold operatePod; [| |by intros [= <- <-]].
  - unfold warmRestartPod, wrapping. unfold mbind, M_bind, gets. destruct (w_restConfig w); [|by intros [= <- <-]].
    assert (forall w1, w_trace w1 = AExec (pod_Name pod) ["kill"; "-USR1"; "1"] :: w_trace w ->
      restarted OperationWarmRestart [pod_Name pod] w w1) as Hexec.
    { intros w1 Ht. exists [AExec (pod_Name pod) ["kill"; "-USR1"; "1"]]. split; [exact Ht|].
      intros n ->%list_elem_of_singleton. eexists. split; [by left|done]. }
    unfold execPod. destruct (pod_exec _ _ _) as [[e|out] s]; simpl; [intros [= <- <-] _; by apply Hexec|].
    destruct (recordPodRestartStatus_run (pod_Name pod) RestartReasonWarmRestart
      (w <| w_aero := s |> <| w_trace ::= cons (AExec (pod_Name pod) ["kill"; "-USR1"; "1"]) |>)) as (w1 & Hr & _).
    rewrite Hr. intros [= <- <-]. eapply (restarted_around _ _ w w);
      [reflexivity| |eapply keeps_run; [apply grows_recordPodRestartStatus|exact Hr]]. by apply Hexec.
  - destruct (coldRestartPod_deletes cluster pod w Hf Hin) as (w1 & Hc & Hr1). unfold mbind, M_bind. rewrite Hc.
    destruct (recordPodRestartStatus_run (pod_Name pod) RestartReasonManualRestart w1) as (w2 & Hr2 & _).
    rewrite Hr2. intros [= <- <-]. eapply restarted_around; [reflexivity|exact Hr1|].
    eapply keeps_run; [apply grows_recordPodRestartStatus|exact Hr2].
Qed.

(** The pods a batch adds to [st] as completed were restarted between the two worlds.  Those
    it adds as failed are none for a pod restart; for a warm restart they were signalled too,
    unless the operator has no access to the pods. *)
Definition batchRestarts (kind : OperationKind) (st st' : OperationStatus) (w w' : World) : Prop :=
  exists succeeded failed : list string,
    os_CompletedPods st' = os_CompletedPods st ++ succeeded /\ os_FailedPods st' = os_FailedPods st ++ failed /\
    restarted kind succeeded w w' /\
    (kind = OperationPodRestart -> failed = []) /\
    (kind = OperationWarmRestart -> w_restConfig w = true -> restarted kind failed w w').

Lemma batchRestarts_around kind st st' w w1 w2 w' :
  grows w w1 -> w_restConfig w1 = w_restConfig w -> batchRestarts kind st st' w1 w2 -> grows w2 w' ->
  batchRestarts kind st st' w w'.
Proof.
  intros Hg Hrc (s & f & H1 & H2 & H3 & H4 & H5) Hg'. exists s, f. rewrite Hrc in H5.
  split_and!; [done|done|by eapply restarted_around|done|]. intros Hk Hc. eapply restarted_around; eauto.
Qed.

Lemma operationLoop_restarts cluster kind batchSize pods : forall st processed w st' w',
  w_faults w = [] -> (forall p, p ∈ pods -> pod_Name p ∈ pod_Name <$> w_pods w) ->
  operationLoop cluster kind batchSize st processed pods w = (inr st', w') -> batchRestarts kind st st' w w'.
Proof.
  assert (forall st w, batchRestarts kind st st w w) as Hnone.
  { intros st w. exists [], []. rewrite !app_nil_r. split_and!; try done; intros; by apply restarted_nil. }
  induction pods as [|pod pods IH]; intros st processed w st' w' Hf Hin; cbn [operationLoop].
  { by intros [= <- <-]. }
  assert (forall p, p ∈ pods -> pod_Name p ∈ pod_Name <$> w_pods w) as Hin' by (intros p Hp; apply Hin; by right).
  destruct (resolved st pod); [by apply IH|]. destruct (batchSize <=? processed); [by intros [= <- <-]|].
  intros (r & w1 & Hop & Hrun)%bind_try_ok.
  pose proof (keeps_run _ _ _ _ _ (consumes_operatePod cluster kind pod) Hop) as Hc. unfold consumes in Hc.
  rewrite Hf in Hc. apply suffix_nil_inv in Hc.
  pose proof (keeps_run _ _ _ _ _ (premises_operatePod cluster kind pod) Hop) as Hp. injection Hp as Hn Hrc.
  pose proof (keeps_run _ _ _ _ _ (grows_operatePod cluster kind pod) Hop) as Hg.
  apply operatePod_restarts in Hop; [|done|apply Hin; by left].
  apply IH in Hrun as (s & f & H1 & H2 & H3 & H4 & H5); [|done|by rewrite Hn]. rewrite Hrc in H5.
  destruct r as [e|[]]; simpl in H1, H2.
  - exists s, (pod_Name pod :: f). rewrite H1, H2, <- app_assoc. split_and!; [done|done| | |].
    + eapply restarted_around; [done|exact H3|reflexivity].
    + intros ->. done.
    + intros -> Hc'. eapply restarted_cons; [by apply Hop|by apply H5].
  - exists (pod_Name pod :: s), f. rewrite H1, H2, <- app_assoc. split_and!; [done|done|by eapply restarted_cons|done|].
    intros Hk Hc'. eapply restarted_around; [done|by apply H5|reflexivity].
Qed.

(** A status write in a run without failures. *)
Lemma persist_ok st w :
  w_faults w = [] -> hasCluster w ->
  exists w' c, persistOperationStatus st w = (inr (), w') /\ w_faults w' = [] /\
    w_cluster w' = Some c /\ st_OperationStatus (cl_Status c) = Some st /\ grows w w'.
Proof.
  intros Hf [c Hc]. unfold persistOperationStatus, refetchCluster, patchStatus, mbind, M_bind, api, gets, raise, mret, M_ret.
  rewrite Hf, Hc. simpl. rewrite Hf, Hc. do 2 eexists. split; [reflexivity|]. split_and!; [done..|].
  eexists [_]. split; [reflexivity|by repeat constructor].
Qed.

Lemma premises_operationBatchBlocked cluster pods st : keeps (agree premises) (operationBatchBlocked cluster pods st).
Proof.
  unfold operationBatchBlocked, isBatchBlocked, checkMigrationInProgress, recordMigrationCheckFailure, clearMigrationCheckFailures.
  destruct (outstanding st pods); frame.
Qed.

Lemma grows_operationBatchBlocked cluster pods st : keeps grows (operationBatchBlocked cluster pods st).
Proof.
  unfold grows, operationBatchBlocked, isBatchBlocked, checkMigrationInProgress, recordMigrationCheckFailure, clearMigrationCheckFailures.
  destruct (outstanding st pods); by frame.
Qed.

Lemma targetPods_sub cluster op w p : p ∈ targetPods cluster op w -> p ∈ w_pods w.
Proof.
  unfold targetPods. set (l := filter _ _). assert (forall q, q ∈ l -> q ∈ w_pods w) as Hl by (by intros q [_ ?]%list_elem_of_filter).
  unfold filterPodsByNames. destruct (op_PodList op) as [|n ns]; [apply Hl|].
  intros (m & _ & Hp)%list_elem_of_omap. apply Hl. unfold podNamed in Hp. destruct (list_find _ _) as [[i q]|] eqn:Hf; [|done].
  injection Hp as ->. apply list_find_Some in Hf as (Hi & _). apply list_elem_of_lookup_2 in Hi. by apply elem_of_reverse.
Qed.

(** The status after a batch, with the terminal phase when every target is resolved. *)
Definition finished_as (st : OperationStatus) (pods : list Pod) : OperationStatus :=
  (finalizeOperationPhase st pods).1.

Lemma outstanding_count st st' pods names budget :
  NoDup (pod_Name <$> pods) -> attempts budget st st' pods names ->
  length (outstanding st pods) = (length names + length (outstanding st' pods))%nat.
Proof.
  intros Hnd [_ Hfresh Honce (s & f & Hp & Hs & Hf) _ _].
  assert (forall p, p ∈ pods -> resolved st' p = true <-> resolved st p = true \/ pod_Name p ∈ names) as Hres.
  { intros p _. rewrite !resolved_spec, Hs, Hf. rewrite Hp. set_solver. }
  assert (pod_Name <$> filter (fun p => pod_Name p ∈ names) (outstanding st pods) ≡ₚ names) as Hsel.
  { apply NoDup_Permutation; [|done|].
    - unfold outstanding. rewrite list_filter_filter. eapply sublist_NoDup; [exact Hnd|]. apply fmap_sublist, sublist_filter.
    - intros n. rewrite list_elem_of_fmap. setoid_rewrite list_elem_of_filter. split; [by intros (p & -> & Hn & _)|].
      intros Hn. destruct (proj1 (list_elem_of_fmap _ _ _) (Hfresh _ Hn)) as (p & -> & Hin). by exists p. }
  apply Permutation_length in Hsel. rewrite length_fmap in Hsel. rewrite <- Hsel.
  assert (outstanding st' pods = filter (fun p => ~ (pod_Name p ∈ names)) (outstanding st pods)) as ->.
  { unfold outstanding. rewrite list_filter_filter. apply list_filter_ext_in. intros p Hin.
    rewrite <- !not_true_iff_false, Hres by done. tauto. }
  clear Hfresh Hsel. induction (outstanding st pods) as [|p l IH]; [done|]. rewrite !filter_cons.
  repeat case_decide; simpl; try tauto; rewrite IH; lia.
Qed.

Lemma attempts_NoDup budget st st' pods names :
  attempts budget st st' pods names -> NoDup (os_CompletedPods st ++ os_FailedPods st) ->
  NoDup (os_CompletedPods st' ++ os_FailedPods st').
Proof.
  intros [_ Hfresh Honce (s & f & Hp & -> & ->) _ _] Hnd.
  assert ((os_CompletedPods st ++ s) ++ os_FailedPods st ++ f ≡ₚ (os_CompletedPods st ++ os_FailedPods st) ++ names) as ->
    by (rewrite Hp; solve_Permutation).
  apply NoDup_app. split; [done|]. split; [|done]. intros n Hn Hin%Hfresh.
  apply list_elem_of_fmap in Hin as (p & -> & [Hr _]%list_elem_of_filter).
  apply not_true_iff_false in Hr. apply Hr. by apply resolved_spec.
Qed.


(** An operation is held back for ever by a pod it restarted and that then left the cluster,
    for instance through a scale-down: while a target is outstanding, every reconcile
    reports the operation in progress and does nothing, and the webhook refuses to change the
    operations of such a cluster. *)
Theorem vanished_pod_wedges_operation cluster op ops w name :
  spec_Operations (cl_Spec cluster) = op :: ops -> operationEnded cluster op = false ->
  let pods := targetPods cluster op w in
  outstanding (priorStatus cluster op) pods <> [] ->
  name ∈ os_CompletedPods (priorStatus cluster op) -> (forall p, p ∈ pods -> pod_Name p <> name) ->
  let '(r, w') := reconcileOperations cluster w in
  w_trace w' = w_trace w /\ w_cluster w' = w_cluster w /\ (w_faults w = [] -> r = inr true).
Proof.
  intros Hops Hend pods Ho Hname Habs. unfold reconcileOperations. rewrite Hops, Hend.
  assert (exists reason, operationRestartInFlightReason pods (os_CompletedPods (priorStatus cluster op)) = Some reason)
    as [reason Hreason].
  { destruct (operationRestartInFlightReason pods _) eqn:Hr; [by eexists|]. apply inFlight_None in Hr.
    rewrite Forall_forall in Hr. destruct (Hr _ Hname) as (p & Hp & _). unfold podNamed in Hp.
    destruct (list_find _ _) as [[i q]|] eqn:Hf; [|done]. injection Hp as ->.
    apply list_find_Some in Hf as (Hi & Hq & _). apply list_elem_of_lookup_2 in Hi; rewrite elem_of_reverse in Hi. exfalso. exact (Habs p Hi Hq). }
  unfold mbind at 1, M_bind at 1.
  assert (keeps (agree (fun w => (w_trace w, w_cluster w))) (getOperationTargetPods cluster (op_PodList op))) as Hk
    by (unfold getOperationTargetPods, listClusterPods; frame).
  assert (w_faults w = [] -> exists p, fst (getOperationTargetPods cluster (op_PodList op) w) = inr p) as Hok.
  { intros Hf. unfold getOperationTargetPods, listClusterPods, listPods, mbind, M_bind, api. rewrite Hf. by eexists. }
  specialize (Hk w). destruct (getOperationTargetPods cluster (op_PodList op) w) as [[e|pods'] w1] eqn:Hp;
    injection Hk as Ht Hc; simpl in Hok; [split_and!; [done..|by intros [? [=]]%Hok]|].
  apply targetPods_ok in Hp. fold pods in Hp. subst pods'.
  assert (negb (bool_decide (op_PodList op = [])) && bool_decide (length pods = 0%nat) = false) as ->
    by (apply andb_false_iff; right; apply bool_decide_eq_false; intros Hz%length_zero_iff_nil; by rewrite Hz in Ho).
  unfold runOperation, operationBatchBlocked, mbind, M_bind. destruct (outstanding _ pods); [done|]. by rewrite Hreason.
Qed.

End Operations.

(** ** Instances *)

Definition operation_cluster (completed : list string) : AerospikeCluster :=
  ((example_cluster 2 None)
     <| cl_Spec ::= fun s => s <| spec_Operations := [mkOperationSpec OperationPodRestart "op-1" []] |> |>)
  <$ st_OperationStatus := Some (mkOperationStatus "op-1" OperationPodRestart PhaseInProgress completed []) $>.

Definition operation_world (completed : list string) (pods : list Pod) : World (H := sample_env) :=
  sample_world (operation_cluster completed) pods []
    (mkStub [mkAeroNode "n1" None] [("n1", "migrate_partitions_remaining=0")] [] []).


(** Pod demo-1-2 was restarted and then removed by a scale-down to two pods. *)
Lemma vanished_pod_wedges_operation_witness :
  let pods := [sample_pod "demo-1-0" PodRunning true "h"; sample_pod "demo-1-1" PodRunning true "h"] in
  let cluster := operation_cluster ["demo-1-2"] in
  let w := operation_world ["demo-1-2"] pods in
  let '(r, w') := reconcileOperations (H := sample_env) cluster w in
  w_trace w' = w_trace w /\ w_cluster w' = w_cluster w /\ (w_faults w = [] -> r = inr true).
Proof.
  intros pods cluster w.
  apply (vanished_pod_wedges_operation (H := sample_env) cluster (mkOperationSpec OperationPodRestart "op-1" []) [] w "demo-1-2");
    [done|by vm_compute|by vm_compute|by left|].
  assert (targetPods (H := sample_env) cluster (mkOperationSpec OperationPodRestart "op-1" []) w = pods) as -> by (by vm_compute).
  intros p Hp. repeat (apply elem_of_cons in Hp as [->|Hp]; [done|]). by apply elem_of_nil in Hp.
Defined.
