(* ===== verification/Scaling.v ===== *)
(** * Racks: StatefulSets, scale-down, reclamation and teardown

    internal/controller/reconciler_statefulset.go and reconciler_cleanup.go.
    Removing pods is guarded three ways: a migration check that fails closed, a
    readiness check of the pods that stay, and a batch size.  Building the pod
    template of a rack changes the cluster in memory (see PodTemplate.v), and the
    hash that is stamped on it is that of the changed cluster. *)

From S2P Require Import Prelude GoValue Utils ConfigDiff Api Metrics ConfigGen Json Events Kube Aero Sizing Readiness Status Breaker Storage DynamicConfig PodTemplate Restart.

(** ** Hashes *)

Section Scaling.
Context `{Environment}.

(** [computePodSpecHash]: the fields of the struct in its order. *)
Definition podSpecHashInput (cluster : AerospikeCluster) (rack : Rack) : any :=
  let spec := cl_Spec cluster in
  AMap ([("image", AString (spec_Image spec))]
        ++ optionalField "podSpec" (pointer marshalPodSpec (spec_PodSpec spec))
        ++ optionalField "monitoring" (pointer marshalMonitoring (spec_Monitoring spec))
        ++ optionalField "podService" (pointer marshalServiceSpec (spec_PodService spec))
        ++ optionalField "aerospikeNetworkPolicy" (pointer marshalNetworkPolicy (spec_AerospikeNetworkPolicy spec))
        ++ optionalField "k8sNodeBlockList" (stringList (spec_K8sNodeBlockList spec))
        ++ [("rackID", AInt KInt (rack_ID rack)); ("preStopSleepSec", AInt KInt PreStopSleepSeconds)]).

Definition computePodSpecHash (cluster : AerospikeCluster) (rack : Rack) : string :=
  ShortSHA256 (podSpecHashInput cluster rack).

Definition computeStorageHash (cluster : AerospikeCluster) (rack : Rack) : string :=
  ShortSHA256 (AMap (optionalField "storage" (pointer marshalStorage (effectiveStorage cluster rack)))).

(** The claim templates, with the labels by which claims are found. *)
Definition rackClaimTemplates (cluster : AerospikeCluster) (rack : Rack) : list VolumeClaimTemplate :=
  (fun t => t <| vct_Labels ::= fun l => mapsCopy l (LabelsForCluster (cl_Name cluster)) |>)
    <$> BuildVolumeClaimTemplates (effectiveStorage cluster rack).

(** [buildStatefulSet]: identity and status fields are assigned by the server. *)
Definition buildStatefulSet (cluster : AerospikeCluster) (name : string) (replicas : Z)
    (podTemplate : PodTemplateSpec) (pvcTemplates : list VolumeClaimTemplate) : StatefulSet :=
  mkStatefulSet name "" (LabelsForCluster (cl_Name cluster)) 1 None (Some replicas)
    (default ParallelPodManagement (spec_PodSpec (cl_Spec cluster) ≫= ps_PodManagementPolicy))
    podTemplate pvcTemplates 0 0.

(** ** Guards *)

(** [checkScaleDownReadiness]: whether the scale-down has to wait. *)
Definition remainingReady (targetReplicas : Z) (rackPods : list Pod) : list Pod :=
  filter (fun p => podOrdinal (pod_Name p) < targetReplicas /\ isPodReady p = true) rackPods.

Definition checkScaleDownReadiness (cluster : AerospikeCluster) (rackID targetReplicas : Z) : M bool :=
  rackPods ← wrapping "listing rack pods for scale-down readiness check" (listRackPods cluster rackID);
  if Z.of_nat (length (remainingReady targetReplicas rackPods)) <? targetReplicas
  then _ ← record true EventScaleDownDeferred; mret true
  else mret false.

(** The guards of [reclaimOrphanedRackPVCs] that need no request. *)
Definition reclaimGuard (sts : StatefulSet) (rackSize : Z) (storageSpec : option AerospikeStorageSpec) : option Z :=
  if negb (HasCascadeDeletePVCs storageSpec) then None
  else match sts_Replicas sts with
  | None => None
  | Some currentReplicas =>
      if currentReplicas <? 1 then None
      else if currentReplicas <? rackSize then None
      else if negb (sts_ObservedGeneration sts =? sts_Generation sts) then None
      else if negb (sts_StatusReplicas sts =? currentReplicas) then None
      else Some currentReplicas
  end.

(** The check of the listed pods. *)
Definition podsBelow (currentReplicas : Z) (rackPods : list Pod) : bool :=
  (Z.of_nat (length rackPods) =? currentReplicas) &&
  forallb (fun p => match rackPodOrdinal (pod_Name p) with
                    | Some ordinal => ordinal <? currentReplicas
                    | None => false
                    end) rackPods.

(** [reclaimOrphanedRackPVCs]: errors are reported as events only. *)
Definition reclaimOrphanedRackPVCs (cluster : AerospikeCluster) (rackID : Z) (sts : StatefulSet) (rackSize : Z)
    (storageSpec : option AerospikeStorageSpec) : M () :=
  match reclaimGuard sts rackSize storageSpec with
  | None => mret ()
  | Some currentReplicas =>
      listed ← try (listRackPods cluster rackID);
      match listed with
      | inl _ => mret ()
      | inr rackPods =>
          if negb (podsBelow currentReplicas rackPods) then mret ()
          else
            r ← try (DeleteOrphanedCascadeDeletePVCs sts (cl_Name cluster) currentReplicas storageSpec);
            match r with
            | inl _ | inr (_, Some _) => record true EventPVCCleanupFailed
            | inr (deleted, None) => if 0 <? deleted then record false EventPVCCleanedUp else mret ()
            end
      end
  end.

(** ** The pod template *)

(** The template with the two hashes stamped on it, and the cluster the hashes are of. *)
Definition rackTemplate (cluster : AerospikeCluster) (rack : Rack) (hash : string) : PodTemplateSpec * AerospikeCluster :=
  let '(podTemplate, cluster) :=
    BuildPodTemplateSpec cluster rack (rack_ID rack) (ConfigMapName (cl_Name cluster) (rack_ID rack)) hash in
  (podTemplate <| tpl_Annotations ::= fun a =>
     map_set StorageHashAnnotation (computeStorageHash cluster rack)
       (map_set PodSpecHashAnnotation (computePodSpecHash cluster rack) a) |>, cluster).

Definition needsUpdate (cluster : AerospikeCluster) (rack : Rack) (hash : string) (rackSize : Z)
    (existing : StatefulSet) : bool :=
  let annotations := tpl_Annotations (sts_Template existing) in
  negb (statefulSetReplicas existing =? rackSize)
  || negb (bool_decide (lookup_str ConfigHashAnnotation annotations = hash))
  || negb (bool_decide (lookup_str PodSpecHashAnnotation annotations = computePodSpecHash cluster rack))
  || negb (bool_decide (lookup_str StorageHashAnnotation annotations = computeStorageHash cluster rack)).

(** The migration gate of a scale-down: whether it is deferred. *)
Definition scaleDownMigrationGate (cluster : AerospikeCluster) (rackID : Z) : M bool :=
  migrating ← try (checkMigrationInProgress cluster);
  match migrating with
  | inl _ => _ ← record true EventScaleDownDeferred; mret true
  | inr true =>
      _ ← record true EventScaleDownDeferred;
      _ ← incCounter ScaleDownDeferralsTotal cluster;
      _ ← setPhaseTolerant PhaseWaitingForMigration
            ("Scale-down deferred for rack " +:+ pretty rackID +:+ ": data migration in progress");
      mret true
  | inr false => mret false
  end.

(** The patch at the end of [reconcileStatefulSet]. *)
Definition patchRack (podTemplate : PodTemplateSpec) (existing : StatefulSet) (targetReplicas : Z) : M bool :=
  _ ← wrapping ("patching StatefulSet " +:+ sts_Name existing)
        (patchSts (sts_Name existing) targetReplicas (Some podTemplate));
  _ ← record false EventStatefulSetUpdated;
  _ ← (if statefulSetReplicas existing =? targetReplicas then mret () else record false EventRackScaled);
  mret false.

(** [reconcileStatefulSet] once the template is built. *)
Definition applyStatefulSet (cluster : AerospikeCluster) (rack : Rack) (hash : string) (rackSize : Z)
    (podTemplate : PodTemplateSpec) : M bool :=
  let stsName := StatefulSetName (cl_Name cluster) (rack_ID rack) in
  found ← try (getSts stsName);
  match found with
  | inl e =>
      if IsNotFound e then
        _ ← wrapping ("creating StatefulSet " +:+ stsName)
              (createSts (buildStatefulSet cluster stsName rackSize podTemplate (rackClaimTemplates cluster rack)));
        _ ← record false EventStatefulSetCreated;
        mret false
      else raise (wrapErr ("getting StatefulSet " +:+ stsName) e)
  | inr existing =>
      let oldReplicas := statefulSetReplicas existing in
      _ ← reclaimOrphanedRackPVCs cluster (rack_ID rack) existing rackSize (effectiveStorage cluster rack);
      if negb (needsUpdate cluster rack hash rackSize existing) then mret false
      else if negb (rackSize <? oldReplicas) then patchRack podTemplate existing rackSize
      else
        blocked ← scaleDownMigrationGate cluster (rack_ID rack);
        if (blocked : bool) then mret true
        else
          let batchSize := getScaleDownBatchSize cluster (oldReplicas - rackSize) in
          let targetReplicas := Z.max (i32 (oldReplicas - batchSize)) rackSize in
          deferred ← checkScaleDownReadiness cluster (rack_ID rack) targetReplicas;
          if (deferred : bool) then mret true
          else patchRack podTemplate existing targetReplicas
  end.

(** [reconcileStatefulSet]: whether a scale-down was deferred. *)
Definition reconcileStatefulSet (rack : Rack) (hash : string) (rackSize : Z) : M bool :=
  cluster ← mem;
  let '(podTemplate, cluster) := rackTemplate cluster rack hash in
  _ ← modify_mem (fun _ => cluster);
  applyStatefulSet cluster rack hash rackSize podTemplate.

(** ** Removed racks *)

Definition listClusterStatefulSets (cluster : AerospikeCluster) : M (list StatefulSet) :=
  listSts (SelectorLabelsForCluster (cl_Name cluster)).

(** [drainRemovedRack]: one batch towards zero; whether the rack is at zero. *)
Definition drainRemovedRack (cluster : AerospikeCluster) (sts : StatefulSet) (rackID : Z) : M bool :=
  let currentReplicas := statefulSetReplicas sts in
  if currentReplicas <=? 0 then mret true
  else
    let batchSize := getScaleDownBatchSize cluster currentReplicas in
    let targetReplicas := Z.max (i32 (currentReplicas - batchSize)) 0 in
    deferred ← checkScaleDownReadiness cluster rackID targetReplicas;
    if (deferred : bool) then mret false
    else
      listed ← try (listRackPods cluster rackID);
      match listed with
      | inl _ => mret false
      | inr rackPods =>
          _ ← forM_ rackPods (fun p => if targetReplicas <=? podOrdinal (pod_Name p)
                                       then quiesceNodeBeforeDeletion cluster p else mret ());
          _ ← wrapping ("scaling down removed rack StatefulSet " +:+ sts_Name sts)
                (patchSts (sts_Name sts) targetReplicas None);
          _ ← record false EventRackScaled;
          mret false
      end.

(** The racks that have left the spec; a name without a numeric suffix is not ours. *)
Definition removedRackID (cluster : AerospikeCluster) (currentRacks : list Rack) (sts : StatefulSet) : option Z :=
  if decide (sts_Name sts ∈ ((fun r => StatefulSetName (cl_Name cluster) (rack_ID r)) <$> currentRacks)) then None
  else atoi (default (sts_Name sts) (cut_prefix (cl_Name cluster +:+ "-") (sts_Name sts))).

Definition undrained (sts : StatefulSet) : bool :=
  bool_decide (sts_DeletionTimestamp sts = None) && (0 <? statefulSetReplicas sts).

Fixpoint collectRemoved (cluster : AerospikeCluster) (currentRacks : list Rack) (l : list StatefulSet)
    : M (list (StatefulSet * Z)) :=
  match l with
  | [] => mret []
  | sts :: l =>
      match removedRackID cluster currentRacks sts with
      | None => collectRemoved cluster currentRacks l
      | Some rackID =>
          _ ← clearMigrationCheckFailures cluster rackID;
          rest ← collectRemoved cluster currentRacks l;
          mret ((sts, rackID) :: rest)
      end
  end.

(** The migration gate, once per pass: whether racks that need draining are held. *)
Definition teardownMigrationGate (cluster : AerospikeCluster) (needsDrain : bool) : M bool :=
  if negb needsDrain then mret false
  else
    migrating ← try (checkMigrationInProgress cluster);
    match migrating with
    | inl _ => _ ← record true EventScaleDownDeferred; mret true
    | inr true =>
        _ ← record true EventScaleDownDeferred;
        _ ← incCounter ScaleDownDeferralsTotal cluster;
        _ ← setPhaseTolerant PhaseWaitingForMigration "Rack teardown deferred: data migration in progress";
        mret true
    | inr false => mret false
    end.

(** Steps 1 to 3: delete the StatefulSet, wait for the pods, clean up. *)
Definition deleteRack (cluster : AerospikeCluster) (sts : StatefulSet) (rackID : Z) : M () :=
  _ ← (if decide (sts_DeletionTimestamp sts = None) then
         r ← try (deleteSts (sts_Name sts));
         match r with inl e => if IsNotFound e then mret () else raise e | inr _ => mret () end
       else mret ());
  listed ← try (listRackPods cluster rackID);
  match listed with
  | inr [] =>
      r ← try (DeleteCascadeDeletePVCs (cl_Name cluster) (sts_Name sts) (spec_Storage (cl_Spec cluster)));
      _ ← (match r with inl _ => record true EventPVCCleanupFailed | inr _ => mret () end);
      let cmName := ConfigMapName (cl_Name cluster) rackID in
      got ← try (getConfigMap cmName);
      match got with inr _ => ignore (deleteConfigMap cmName) | inl _ => mret () end
  | _ => mret ()
  end.

Definition teardownStep (cluster : AerospikeCluster) (migrationBlocked : bool) (deferred : bool)
    (rr : StatefulSet * Z) : M bool :=
  let '(sts, rackID) := rr in
  if undrained sts then
    if migrationBlocked then mret true
    else
      drained ← drainRemovedRack cluster sts rackID;
      if (drained : bool) then _ ← deleteRack cluster sts rackID; mret deferred else mret true
  else _ ← deleteRack cluster sts rackID; mret deferred.

(** [cleanupRemovedRacks]: whether the teardown needs another pass. *)
Definition cleanupRemovedRacks (currentRacks : list Rack) : M bool :=
  cluster ← mem;
  stsList ← listClusterStatefulSets cluster;
  removedRacks ← collectRemoved cluster currentRacks stsList;
  match removedRacks with
  | [] => mret false
  | _ =>
      migrationBlocked ← teardownMigrationGate cluster (existsb (fun rr => undrained rr.1) removedRacks);
      foldM (teardownStep cluster migrationBlocked) false removedRacks
  end.

(** [detectScaling]: up and down, over all racks. *)
Fixpoint detectScaling (cluster : AerospikeCluster) (racks : list (Rack * Z)) : M (bool * bool) :=
  match racks with
  | [] => mret (false, false)
  | (rack, desired) :: racks =>
      found ← try (getSts (StatefulSetName (cl_Name cluster) (rack_ID rack)));
      match found with
      | inl e => if IsNotFound e then '(_, down) ← detectScaling cluster racks; mret (true, down) else raise e
      | inr existing =>
          '(up, down) ← detectScaling cluster racks;
          let old := statefulSetReplicas existing in
          mret ((old <? desired) || up, (desired <? old) || down)
      end
  end.

(** ** Deletion of the cluster *)

(** [handleDeletion]. *)
Definition deleteClusterClaims (cluster : AerospikeCluster) (errs : list goerr) (sts : StatefulSet) : M (list goerr) :=
  r ← try (DeleteCascadeDeletePVCs (cl_Name cluster) (sts_Name sts) (spec_Storage (cl_Spec cluster)));
  match r with
  | inl e => if IsNotFound e then mret errs
             else _ ← record true EventPVCCleanupFailed; mret (errs ++ [wrapErr ("statefulset " +:+ sts_Name sts) e])
  | inr _ => mret errs
  end.

Definition handleDeletion : M Result :=
  cluster ← mem;
  if decide (StorageFinalizer ∉ cl_Finalizers cluster) then mret finished
  else
    _ ← record false EventClusterDeletionStarted;
    _ ← setPhaseTolerant PhaseDeleting "Cluster is being deleted";
    _ ← (match spec_Storage (cl_Spec cluster) with
         | None => mret ()
         | Some _ =>
             stsList ← listClusterStatefulSets cluster;
             errs ← foldM (deleteClusterClaims cluster) [] stsList;
             match errs with
             | [] => mret ()
             | e :: _ => raise (mkErr (err_kind e) "failed to delete cascade PVCs")
             end
         end);
    latest ← refetchCluster;
    _ ← record false EventFinalizerRemoved;
    r ← try (updateCluster (latest <| cl_Finalizers ::= filter (fun f => f <> StorageFinalizer) |>));
    match r with
    | inl e => if IsConflict e then mret requeue else raise e
    | inr _ => mret finished
    end.

(** ** Reclamation is safe *)

(** When the claims of a rack may be reclaimed: the StatefulSet is settled at a
    size that is positive and not below the desired one, and every pod of the
    rack has an ordinal below it. *)
Record settledAt (cluster : AerospikeCluster) (rackID rackSize : Z) (sts : StatefulSet) (pods : list Pod) (n : Z) : Prop := {
  sa_replicas : sts_Replicas sts = Some n;
  sa_positive : 1 <= n;
  sa_size : rackSize <= n;
  sa_generation : sts_ObservedGeneration sts = sts_Generation sts;
  sa_status : sts_StatusReplicas sts = n;
  sa_count : Z.of_nat (length (rackPodsOf cluster rackID pods)) = n;
  sa_below p : p ∈ rackPodsOf cluster rackID pods -> exists o, rackPodOrdinal (pod_Name p) = Some o /\ o < n
}.

Lemma reclaimGuard_Some sts rackSize storageSpec n :
  reclaimGuard sts rackSize storageSpec = Some n ->
  sts_Replicas sts = Some n /\ 1 <= n /\ rackSize <= n /\
  sts_ObservedGeneration sts = sts_Generation sts /\ sts_StatusReplicas sts = n.
Proof.
  unfold reclaimGuard. destruct (HasCascadeDeletePVCs storageSpec); [|done]. simpl.
  destruct (sts_Replicas sts) as [r|]; [|done].
  destruct (Z.ltb_spec r 1); [done|]. destruct (Z.ltb_spec r rackSize); [done|].
  destruct (Z.eqb_spec (sts_ObservedGeneration sts) (sts_Generation sts)); [|done].
  destruct (Z.eqb_spec (sts_StatusReplicas sts) r); [|done]. simpl. intros [= <-]. done.
Qed.

Lemma podsBelow_true n pods :
  podsBelow n pods = true ->
  Z.of_nat (length pods) = n /\ forall p, p ∈ pods -> exists o, rackPodOrdinal (pod_Name p) = Some o /\ o < n.
Proof.
  unfold podsBelow. intros [Hn%Z.eqb_eq Hall]%andb_prop. split; [done|]. intros p Hp.
  rewrite forallb_forall in Hall. specialize (Hall p (proj1 (list_elem_of_In _ _) Hp)). simpl in Hall.
  destruct (rackPodOrdinal (pod_Name p)) as [o|]; [|done]. exists o. split; [done|]. by apply Z.ltb_lt.
Qed.

Lemma does_refl P w : does P w w.
Proof. reflexivity. Qed.

Lemma does_noaction P w w' : w_trace w' = w_trace w -> does P w w'.
Proof. intros Ht. exists []. by rewrite Ht. Qed.

(** C3: claims are reclaimed only when the StatefulSet is settled at a positive size not
    below the desired one with exactly the pods of that size, and only orphaned cascade-
    delete claims of that StatefulSet *)
Theorem reclaimOrphanedRackPVCs_safe cluster rackID sts rackSize storageSpec w :
  does (fun a => exists pvc n, a = ADeletePVC (pvc_Name pvc) /\ pvc ∈ w_pvcs w /\
                   settledAt cluster rackID rackSize sts (w_pods w) n /\
                   reclaimable sts (cl_Name cluster) n storageSpec pvc)
    w (snd (reclaimOrphanedRackPVCs cluster rackID sts rackSize storageSpec w)).
Proof.
  unfold reclaimOrphanedRackPVCs. destruct (reclaimGuard _ _ _) as [n|] eqn:Hg; [|apply does_refl].
  apply reclaimGuard_Some in Hg as (Hr & Hpos & Hsize & Hgen & Hst).
  apply bind_try_cases. intros listed w1 Hl.
  assert (w_trace w1 = w_trace w /\ w_pvcs w1 = w_pvcs w) as [Ht1 Hp1].
  { assert (keeps (agree (fun w => (w_trace w, w_pvcs w))) (listRackPods cluster rackID)) as Hk
      by (unfold listRackPods; frame).
    specialize (Hk w). rewrite Hl in Hk. by injection Hk. }
  destruct listed as [e|rackPods]; [by apply does_noaction|]. apply listRackPods_ok in Hl.
  destruct (podsBelow n rackPods) eqn:Hpb; [|by apply does_noaction]. cbn [negb].
  apply podsBelow_true in Hpb as [Hlen Hbelow]. apply bind_try_cases. intros res w2 Hdel.
  trans w1; [by apply does_noaction|]. trans w2.
  - pose proof (reclaim_only_reclaimable sts (cl_Name cluster) n storageSpec w1) as Hd. rewrite Hdel in Hd.
    eapply does_weaken; [|exact Hd]. intros a (pvc & Hin & -> & Hrec). exists pvc, n.
    rewrite <- Hp1. split_and!; [done|done| |done]. subst rackPods. by split.
  - apply does_noaction. destruct res as [e|[d [e|]]]; [done|done|]. by destruct (0 <? d).
Qed.

(** ** Scale-down is safe *)

(** Why a rack may shrink from [old] to [n] replicas in a pass that starts in
    [w]: the batch size was respected, the migration check answered no, and the
    pods that stay are ready. *)
Definition shrinkJustified (cluster : AerospikeCluster) (rackID rackSize old n : Z) (w : World) : Prop :=
  let batch := getScaleDownBatchSize cluster (old - rackSize) in
  n = Z.max (i32 (old - batch)) rackSize /\
  (exists w1, observed w1 = observed w /\ fst (checkMigrationInProgress cluster w1) = inr false) /\
  n <= Z.of_nat (length (remainingReady n (rackPodsOf cluster rackID (w_pods w)))).

(** The writes a pass over a rack may make. *)
Definition rackAction (stsName : string) (rackSize : Z) (resize : Z -> Prop) (a : action) : Prop :=
  match a with
  | APatchSts name n => name = stsName /\ resize n
  | ACreateSts name n => name = stsName /\ n = rackSize
  | ADeletePod _ | AExec _ _ | ADeleteSts _ | ADeleteConfigMap _ | AUpdateCluster => False
  | _ => True
  end.

Definition resizeOK (cluster : AerospikeCluster) (rackID rackSize : Z) (w : World) (n : Z) : Prop :=
  exists existing, findSts (StatefulSetName (cl_Name cluster) rackID) (w_sts w) = Some existing /\
    rackSize <= n /\
    (n < statefulSetReplicas existing ->
       shrinkJustified cluster rackID rackSize (statefulSetReplicas existing) n w).

#[local] Instance rackAction_frameinfo name size R : FrameInfo (does (rackAction name size R)).
Proof. split; [apply _|]. intros. eexists [_]. split; [reflexivity|]. by repeat constructor. Qed.

Section RackPass.
Variables (name : string) (size : Z) (R : Z -> Prop).
Abbreviation allowed := (does (rackAction name size R)).

Lemma allowed_setPhase phase reason : keeps allowed (setPhase phase reason).
Proof. unfold setPhase. frame. all: done. Qed.

Lemma allowed_gate cluster rackID : keeps allowed (scaleDownMigrationGate cluster rackID).
Proof.
  pose proof allowed_setPhase. unfold scaleDownMigrationGate, setPhaseTolerant, checkMigrationInProgress. frame.
Qed.

Lemma allowed_readiness cluster rackID n : keeps allowed (checkScaleDownReadiness cluster rackID n).
Proof. unfold checkScaleDownReadiness, listRackPods. frame. Qed.

Lemma allowed_reclaim cluster rackID sts rackSize storageSpec :
  keeps allowed (reclaimOrphanedRackPVCs cluster rackID sts rackSize storageSpec).
Proof.
  unfold reclaimOrphanedRackPVCs, listRackPods, DeleteOrphanedCascadeDeletePVCs, ownedOrphanCandidates, deleteOrphan.
  frame. all: done.
Qed.

Lemma allowed_patchRack podTemplate existing n :
  sts_Name existing = name -> R n -> keeps allowed (patchRack podTemplate existing n).
Proof. intros Hn HR. unfold patchRack. frame. by split. Qed.

End RackPass.

(** The parts of the world that the gates read. *)
Definition gateView (w : World) := (observed w, w_pods w).

Lemma gateView_reclaim cluster rackID sts rackSize storageSpec :
  keeps (agree gateView) (reclaimOrphanedRackPVCs cluster rackID sts rackSize storageSpec).
Proof.
  unfold reclaimOrphanedRackPVCs, listRackPods, DeleteOrphanedCascadeDeletePVCs, ownedOrphanCandidates, deleteOrphan.
  frame.
Qed.

Lemma findSts_name name l sts : findSts name l = Some sts -> sts_Name sts = name.
Proof.
  unfold findSts. destruct (list_find _ l) as [[i s]|] eqn:Hf; [|done]. intros [= <-].
  by apply list_find_Some in Hf as (_ & ? & _).
Qed.

Lemma gate_open cluster rackID w w' :
  scaleDownMigrationGate cluster rackID w = (inr false, w') ->
  fst (checkMigrationInProgress cluster w) = inr false /\ w_pods w' = w_pods w.
Proof.
  unfold scaleDownMigrationGate, mbind, M_bind, try.
  assert (keeps (agree w_pods) (checkMigrationInProgress cluster)) as Hk
    by (unfold checkMigrationInProgress; frame). specialize (Hk w).
  destruct (checkMigrationInProgress cluster w) as [[e|[]] w1]; simpl in *; [done| |by intros [= <-]].
  destruct (setPhaseTolerant _ _ _) as [[?|?] ?]; by intros [=].
Qed.

Lemma readiness_passed cluster rackID n w w' :
  checkScaleDownReadiness cluster rackID n w = (inr false, w') ->
  n <= Z.of_nat (length (remainingReady n (rackPodsOf cluster rackID (w_pods w)))).
Proof.
  unfold checkScaleDownReadiness, mbind, M_bind. destruct (wrapping _ _ w) as [[e|pods] w1] eqn:Hl; [done|].
  apply wrapping_ok, listRackPods_ok in Hl as ->.
  match goal with |- context [?a <? ?b] => destruct (Z.ltb_spec a b) end; [by intros [=]|done].
Qed.

(** A pass that creates or patches only what it may. *)
Definition rackEffect (cluster : AerospikeCluster) (rackID rackSize : Z) (w w' : World) : Prop :=
  does (rackAction (StatefulSetName (cl_Name cluster) rackID) rackSize
          (resizeOK cluster rackID rackSize w)) w w'.

(** The scale-down branch. *)
Lemma scaleDown_effect cluster rack podTemplate rackSize existing w w1 :
  findSts (StatefulSetName (cl_Name cluster) (rack_ID rack)) (w_sts w) = Some existing ->
  gateView w1 = gateView w -> rackEffect cluster (rack_ID rack) rackSize w w1 ->
  rackEffect cluster (rack_ID rack) rackSize w (snd ((
    blocked ← scaleDownMigrationGate cluster (rack_ID rack);
    if (blocked : bool) then mret true
    else
      let batchSize := getScaleDownBatchSize cluster (statefulSetReplicas existing - rackSize) in
      let targetReplicas := Z.max (i32 (statefulSetReplicas existing - batchSize)) rackSize in
      deferred ← checkScaleDownReadiness cluster (rack_ID rack) targetReplicas;
      if (deferred : bool) then mret true
      else patchRack podTemplate existing targetReplicas) w1)).
Proof.
  intros Hsts Hview Hw1. unfold rackEffect in *. set (P := does _) in *.
  apply bind_cases; intros ? w2 Hg.
  all: assert (P w w2) as Hw2 by (trans w1; [exact Hw1|]; eapply keeps_run; [apply allowed_gate|exact Hg]).
  { exact Hw2. }
  destruct a; [exact Hw2|]. apply gate_open in Hg as [Hmig Hpods]. cbv zeta.
  set (n := Z.max _ _). apply bind_cases; intros ? w3 Hr.
  all: assert (P w w3) as Hw3 by (trans w2; [exact Hw2|]; eapply keeps_run; [apply allowed_readiness|exact Hr]).
  { exact Hw3. }
  destruct a; [exact Hw3|]. apply readiness_passed in Hr. pose proof (f_equal fst Hview) as Hobs. pose proof (f_equal snd Hview) as Hp. cbn in Hobs, Hp.
  trans w3; [exact Hw3|]. apply allowed_patchRack; [by eapply findSts_name|].
  exists existing. split; [done|]. split; [unfold n; lia|]. intros _. split; [done|].
  split; [by exists w1|]. by rewrite Hpods, Hp in Hr.
Qed.

Lemma applyStatefulSet_effect cluster rack hash rackSize podTemplate w :
  rackEffect cluster (rack_ID rack) rackSize w (snd (applyStatefulSet cluster rack hash rackSize podTemplate w)).
Proof.
  unfold applyStatefulSet. cbv zeta. apply bind_try_cases. intros found w1 Hget.
  assert (rackEffect cluster (rack_ID rack) rackSize w w1) as Hw1
    by (unfold rackEffect; eapply keeps_run; [|exact Hget]; frame).
  assert (gateView w1 = gateView w) as Hv1 by (by eapply (keeps_run (agree gateView)); [|exact Hget]; frame).
  destruct found as [e|existing].
  { destruct (IsNotFound e); [|exact Hw1].
    unfold rackEffect in *. trans w1; [exact Hw1|]. match goal with |- does ?P _ (snd (?m w1)) => assert (keeps (does P) m) as Hk end; [|apply Hk].
    frame. by split. }
  apply getSts_ok in Hget.
  apply bind_cases; intros ? w2 Hrec.
  all: assert (rackEffect cluster (rack_ID rack) rackSize w w2) as Hw2
    by (unfold rackEffect in *; trans w1; [exact Hw1|]; eapply keeps_run; [apply allowed_reclaim|exact Hrec]).
  { exact Hw2. }
  assert (gateView w2 = gateView w) as Hv2.
  { rewrite <- Hv1. exact (keeps_run _ _ _ _ _ (gateView_reclaim _ _ _ _ _) Hrec). }
  destruct (negb (needsUpdate _ _ _ _ _)); [exact Hw2|].
  destruct (Z.ltb_spec rackSize (statefulSetReplicas existing)) as [Hlt|Hge]; cbn [negb].
  - by apply scaleDown_effect.
  - unfold rackEffect in *. trans w2; [exact Hw2|]. apply allowed_patchRack; [by eapply findSts_name|].
    exists existing. split; [done|]. split; [done|]. lia.
Qed.

(** Building the template leaves everything but the affinity of the cluster. *)
Lemma rackTemplate_cluster cluster rack hash : exists a, (rackTemplate cluster rack hash).2 = withAffinity a cluster.
Proof. by eexists. Qed.

Lemma reconcileStatefulSet_eq rack hash rackSize w :
  let '(podTemplate, cluster) := rackTemplate (w_mem w) rack hash in
  reconcileStatefulSet rack hash rackSize w =
    applyStatefulSet cluster rack hash rackSize podTemplate (w <| w_mem ::= fun _ => cluster |>).
Proof. unfold reconcileStatefulSet. change (mem ≫= ?f) with (fun w => f (w_mem w) w). cbv beta. by destruct (rackTemplate _ _ _). Qed.

(** C2: a pass over a rack deletes no pod, creates the rack StatefulSet at its size
    only, and lowers its replicas only by one batch, never below the desired size, after
    the migration check answered no and while the pods that stay are ready *)
Theorem reconcileStatefulSet_safe rack hash rackSize w :
  rackEffect (w_mem w) (rack_ID rack) rackSize w (snd (reconcileStatefulSet rack hash rackSize w)).
Proof.
  pose proof (reconcileStatefulSet_eq rack hash rackSize w) as Heq. destruct (rackTemplate_cluster (w_mem w) rack hash) as [a Ha].
  destruct (rackTemplate (w_mem w) rack hash) as [podTemplate cluster]. cbn [snd] in Ha. subst cluster. rewrite Heq.
  exact (applyStatefulSet_effect (withAffinity a (w_mem w)) rack hash rackSize podTemplate (w <| w_mem ::= fun _ => withAffinity a (w_mem w) |>)).
Qed.

(** ** Removed racks are drained first *)

(** A StatefulSet of the cluster whose rack is no rack of the spec any more. *)
Definition leftSpec (cluster : AerospikeCluster) (currentRacks : list Rack) (sts : StatefulSet) (rackID : Z) : Prop :=
  clusterLabelled (cl_Name cluster) (sts_Labels sts) /\
  (forall rack, rack ∈ currentRacks -> sts_Name sts <> cl_Name cluster +:+ "-" +:+ pretty (rack_ID rack)) /\
  exists suffix, atoi suffix = Some rackID /\
    (sts_Name sts = cl_Name cluster +:+ "-" +:+ suffix \/ sts_Name sts = suffix).

(** Such a StatefulSet whose rack has no pods left. *)
Definition emptied (cluster : AerospikeCluster) (currentRacks : list Rack) (stss : list StatefulSet)
    (pods : list Pod) (sts : StatefulSet) (rackID : Z) : Prop :=
  sts ∈ stss /\ leftSpec cluster currentRacks sts rackID /\ rackPodsOf cluster rackID pods = [].

(** A cascade-delete claim of such a rack, by its name. *)
Definition abandonedClaim (cluster : AerospikeCluster) (currentRacks : list Rack) (stss : list StatefulSet)
    (pods : list Pod) (name : string) : Prop :=
  exists sts rackID, emptied cluster currentRacks stss pods sts rackID /\
    cascadeClaim (spec_Storage (cl_Spec cluster)) (sts_Name sts) name.

(** The writes of a teardown pass over the StatefulSets [stss], [pods] and claims [pvcs]. *)
Definition teardownAction (cluster : AerospikeCluster) (currentRacks : list Rack) (stss : list StatefulSet)
    (pods : list Pod) (pvcs : list PersistentVolumeClaim) (migrationIdle : Prop) (a : action) : Prop :=
  match a with
  | ADeleteSts name => exists sts rackID, sts ∈ stss /\ leftSpec cluster currentRacks sts rackID /\
      sts_Name sts = name /\ statefulSetReplicas sts <= 0
  | APatchSts name n => exists sts rackID, sts ∈ stss /\ leftSpec cluster currentRacks sts rackID /\
      sts_Name sts = name /\ 0 < statefulSetReplicas sts /\
      n = Z.max (i32 (statefulSetReplicas sts - getScaleDownBatchSize cluster (statefulSetReplicas sts))) 0 /\
      migrationIdle
  | ADeletePVC name => abandonedClaim cluster currentRacks stss pods name /\
      exists pvc, pvc ∈ pvcs /\ pvc_Name pvc = name /\
        (clusterLabelled (cl_Name cluster) (pvc_Labels pvc) \/
         forall q, q ∈ pvcs -> clusterLabelled (cl_Name cluster) (pvc_Labels q) ->
           abandonedClaim cluster currentRacks stss pods (pvc_Name q))
  | ADeleteConfigMap name => exists sts rackID, emptied cluster currentRacks stss pods sts rackID /\
      name = cl_Name cluster +:+ "-" +:+ pretty rackID +:+ "-config"
  | ADeletePod _ | ACreateSts _ _ => False
  | _ => True
  end.

(** The claims [pvcs], less some whose names satisfy [D]. *)
Definition claimsLeft (pvcs : list PersistentVolumeClaim) (D : string -> Prop) (w : World) : Prop :=
  (forall q, q ∈ w_pvcs w -> q ∈ pvcs) /\ forall q, q ∈ pvcs -> q ∈ w_pvcs w \/ D (pvc_Name q).

(** Writes satisfying [P] that leave the pods alone, and of the claims all but those in [D]. *)
Definition beside (pods : list Pod) (pvcs : list PersistentVolumeClaim) (D : string -> Prop) (P : action -> Prop)
    (w w' : World) : Prop :=
  w_pods w = pods /\ claimsLeft pvcs D w -> does P w w' /\ w_pods w' = pods /\ claimsLeft pvcs D w'.

#[export] Instance beside_pre pods pvcs D P : PreOrder (beside pods pvcs D P).
Proof.
  split; [by intros w Hw|]. intros w1 w2 w3 H12 H23 Hw1. destruct (H12 Hw1) as [Hd Hw2].
  destruct (H23 Hw2) as [Hd' Hw3]. split; [by trans w2|done].
Qed.

#[local] Instance beside_frame pods pvcs D P : Frame (beside pods pvcs D P).
Proof. split; [apply _|intros w ? _ Hw|intros w ? Hw..|intros w ? _ Hw]; (split; [by exists []|exact Hw]). Qed.

Lemma beside_of pods pvcs D P {A} (m : M A) :
  keeps (does P) m -> keeps (agree (fun w => (w_pods w, w_pvcs w))) m -> keeps (beside pods pvcs D P) m.
Proof.
  intros Hd Ha w [Hw Hl]. pose proof (Ha w) as H1. injection H1 as Hp Hc. split; [apply Hd|].
  unfold claimsLeft. by rewrite Hp, Hc.
Qed.

Lemma beside_spends pods pvcs D P w w' :
  spends D P w w' -> w_pods w' = w_pods w -> beside pods pvcs D P w w'.
Proof.
  intros (Hd & Hs & Hl) Hp [Hw [Hsub Hleft]]. split; [done|]. split; [congruence|]. split; [auto|].
  intros q Hq. destruct (Hleft q Hq) as [Hq'|]; [by apply Hl|by right].
Qed.

Lemma removedRackID_left cluster currentRacks sts rackID :
  removedRackID cluster currentRacks sts = Some rackID -> clusterLabelled (cl_Name cluster) (sts_Labels sts) ->
  leftSpec cluster currentRacks sts rackID.
Proof.
  unfold removedRackID. case_decide as Hcur; [done|]. intros Hid Hlab. split; [done|]. split.
  - intros rack Hrack Hn. apply Hcur. rewrite Hn. by apply (list_elem_of_fmap_2 (fun r => StatefulSetName (cl_Name cluster) (rack_ID r))).
  - destruct (cut_prefix _ _) as [suffix|] eqn:Hcut; simpl in Hid; [|exists (sts_Name sts); auto].
    exists suffix. split; [done|left]. apply cut_prefix_Some in Hcut. by rewrite Hcut, app_assoc_str.
Qed.

Section Teardown.
Variables (cluster : AerospikeCluster) (currentRacks : list Rack) (stss : list StatefulSet) (pods : list Pod).
Variables (pvcs : list PersistentVolumeClaim) (migrationIdle : Prop).
Abbreviation P := (teardownAction cluster currentRacks stss pods pvcs migrationIdle).
Abbreviation D := (abandonedClaim cluster currentRacks stss pods).
Abbreviation R := (beside pods pvcs D P).

#[local] Instance teardown_frameio : FrameIO (does P).
Proof.
  split; [split; [apply _|]|]; intros; eexists [_]; (split; [reflexivity|]); apply Forall_singleton; exact I.
Qed.

Lemma removed_elem l removed w w' :
  collectRemoved cluster currentRacks l w = (inr removed, w') ->
  forall sts rackID, (sts, rackID) ∈ removed -> sts ∈ l /\ removedRackID cluster currentRacks sts = Some rackID.
Proof.
  revert removed w w'. induction l as [|s l IH]; intros removed w w'; cbn [collectRemoved].
  { intros [= <- <-] ? ? ?%not_elem_of_nil. done. }
  destruct (removedRackID cluster currentRacks s) as [id|] eqn:Hid.
  - unfold mbind, M_bind. destruct (clearMigrationCheckFailures _ _ w) as [[?|?] w1]; [done|].
    destruct (collectRemoved _ _ l w1) as [[?|rest] w2] eqn:Hrest; [done|].
    intros [= <- <-] sts rackID [[= -> ->]|Hin]%elem_of_cons; [split; [left|done]|].
    destruct (IH _ _ _ Hrest _ _ Hin) as [? ?]. split; [by right|done].
  - intros Hrest sts rackID Hin. destruct (IH _ _ _ Hrest _ _ Hin) as [? ?]. split; [by right|done].
Qed.

Lemma teardown_claims sts rackID :
  emptied cluster currentRacks stss pods sts rackID ->
  keeps R (DeleteCascadeDeletePVCs (cl_Name cluster) (sts_Name sts) (spec_Storage (cl_Spec cluster))).
Proof.
  intros Hem w Hw. pose proof Hw as [_ [Hsub Hleft]].
  assert (forall n, cascadeClaim (spec_Storage (cl_Spec cluster)) (sts_Name sts) n -> D n) as HD
    by (intros n Hn; by exists sts, rackID).
  apply beside_spends; [| |done].
  - destruct (cascade_spends (cl_Name cluster) (sts_Name sts) (spec_Storage (cl_Spec cluster)) P w) as (Hd & Hs & Hl).
    { intros pvc Hin Hc Hlab. split; [by apply HD|]. exists pvc. split_and!; [by apply Hsub|done|].
      destruct Hlab as [Hlab|Hnone]; [by left|right]. intros q Hq Hql. by destruct (Hleft q Hq) as [Hqw%Hnone|]. }
    split_and!; [done..|]. intros q Hq. destruct (Hl q Hq); [by left|right; by apply HD].
  - match goal with |- w_pods (snd (?m w)) = _ => cut (keeps (agree w_pods) m); [intros Hk; apply Hk|] end.
    unfold DeleteCascadeDeletePVCs, GetPVCsForStatefulSet, deleteClaim. frame.
Qed.

Lemma teardown_cleanup sts rackID :
  emptied cluster currentRacks stss pods sts rackID ->
  keeps R (r ← try (DeleteCascadeDeletePVCs (cl_Name cluster) (sts_Name sts) (spec_Storage (cl_Spec cluster)));
           _ ← (match r with inl _ => record true EventPVCCleanupFailed | inr _ => mret () end);
           let cmName := ConfigMapName (cl_Name cluster) rackID in
           got ← try (getConfigMap cmName);
           match got with inr _ => ignore (deleteConfigMap cmName) | inl _ => mret () end).
Proof.
  intros Hem. apply keeps_bind; [by eapply keeps_try, teardown_claims|]. intros r.
  cbv zeta. apply beside_of; frame. by exists sts, rackID.
Qed.

Lemma teardown_deleteRack sts rackID :
  sts ∈ stss -> leftSpec cluster currentRacks sts rackID ->
  (sts_DeletionTimestamp sts = None -> statefulSetReplicas sts <= 0) ->
  keeps R (deleteRack cluster sts rackID).
Proof.
  intros Hin Hid Hdrained. unfold deleteRack. apply keeps_bind.
  { apply beside_of; frame. all: exists sts, rackID; split_and!; auto. }
  intros _ w Hw. apply bind_try_cases. intros listed w1 Hl.
  assert (R w w1) as H1 by (by eapply keeps_run; [|exact Hl]; apply beside_of; unfold listRackPods; frame).
  destruct (H1 Hw) as [Hd1 Hw1]. destruct listed as [e|[|p ps]]; [by split| |by split].
  apply listRackPods_ok in Hl. rewrite (proj1 Hw) in Hl.
  destruct (teardown_cleanup sts rackID (conj Hin (conj Hid (eq_sym Hl))) w1 Hw1) as [Hd2 Hw2].
  split; [by trans w1|exact Hw2].
Qed.

Lemma drainRemovedRack_done sts rackID w w' :
  drainRemovedRack cluster sts rackID w = (inr true, w') -> statefulSetReplicas sts <= 0.
Proof.
  unfold drainRemovedRack. destruct (Z.leb_spec (statefulSetReplicas sts) 0); [done|].
  unfold mbind, M_bind, try. destruct (checkScaleDownReadiness _ _ _ w) as [[?|[]] w1]; [done|done|].
  destruct (listRackPods _ _ w1) as [[?|ps] w2]; [done|]. destruct (forM_ _ _ w2) as [[?|?] w3]; [done|].
  destruct (wrapping _ _ w3) as [[?|?] w4]; [done|]. by intros [=].
Qed.

Lemma teardown_drain sts rackID :
  sts ∈ stss -> leftSpec cluster currentRacks sts rackID -> migrationIdle ->
  keeps R (drainRemovedRack cluster sts rackID).
Proof.
  intros Hin Hid Hidle. unfold drainRemovedRack. destruct (Z.leb_spec (statefulSetReplicas sts) 0); [frame|].
  unfold checkScaleDownReadiness, listRackPods, quiesceNodeBeforeDeletion. cbv zeta.
  apply beside_of; frame. all: try (by intros; apply keeps_execPod, _).
  exists sts, rackID. by split_and!.
Qed.

Lemma teardown_step blocked deferred sts rackID :
  sts ∈ stss -> leftSpec cluster currentRacks sts rackID -> (blocked = false -> undrained sts = true -> migrationIdle) ->
  keeps R (teardownStep cluster blocked deferred (sts, rackID)).
Proof.
  intros Hin Hid Hidle. unfold teardownStep. destruct (undrained sts) eqn:Hu.
  - destruct blocked; [frame|]. intros w Hw. apply bind_cases; intros ? w1 Hd;
      pose proof (keeps_run R _ _ _ _ (teardown_drain sts rackID Hin Hid (Hidle eq_refl eq_refl)) Hd Hw) as [H1 Hw1]; [by split|].
    destruct a; [|by split]. apply drainRemovedRack_done in Hd.
    assert (keeps R (_ ← deleteRack cluster sts rackID; mret deferred)) as Hk.
    { apply keeps_bind; [by apply teardown_deleteRack|]. frame. }
    destruct (Hk w1 Hw1) as [H2 Hw2]. split; [by trans w1|done].
  - apply keeps_bind; [|frame]. apply teardown_deleteRack; [done..|]. intros Hdt.
    unfold undrained in Hu. rewrite bool_decide_true in Hu by done. simpl in Hu. by apply Z.ltb_ge in Hu.
Qed.

Lemma teardown_list : keeps R (listClusterStatefulSets cluster).
Proof. unfold listClusterStatefulSets. apply beside_of; frame. Qed.

Lemma teardown_collect l : keeps R (collectRemoved cluster currentRacks l).
Proof.
  induction l as [|s l IH]; cbn [collectRemoved]; [frame|].
  destruct (removedRackID cluster currentRacks s); [|done].
  apply keeps_bind; [unfold clearMigrationCheckFailures; apply beside_of; frame|]. intros _. frame.
Qed.

Lemma teardown_gate needsDrain : keeps R (teardownMigrationGate cluster needsDrain).
Proof.
  unfold teardownMigrationGate, setPhaseTolerant, setPhase, checkMigrationInProgress.
  apply beside_of; frame. all: done.
Qed.

End Teardown.

Lemma aero_collect cluster currentRacks l : keeps (agree w_aero) (collectRemoved cluster currentRacks l).
Proof.
  induction l as [|s l IH]; cbn [collectRemoved]; [frame|].
  destruct (removedRackID cluster currentRacks s); [|done]. unfold clearMigrationCheckFailures. frame.
Qed.

Lemma clusterSts_ok cluster w l w' :
  listClusterStatefulSets cluster w = (inr l, w') ->
  forall s, s ∈ l -> s ∈ w_sts w /\ clusterLabelled (cl_Name cluster) (sts_Labels s).
Proof.
  unfold listClusterStatefulSets, listSts, mbind, M_bind, gets. pose proof (api_agree w_sts w) as Ha.
  destruct (api w) as [[e|[]] w1]; [done|]. simpl in *. rewrite Ha. intros [= <- _] s [Hs Hin]%list_elem_of_filter.
  split; [done|]. revert Hs. unfold clusterLabelled. rewrite !andb_true_iff, !bool_decide_eq_true. naive_solver.
Qed.

Lemma teardownGate_open cluster needsDrain w w' :
  teardownMigrationGate cluster needsDrain w = (inr false, w') -> needsDrain = true ->
  fst (checkMigrationInProgress cluster w) = inr false.
Proof.
  unfold teardownMigrationGate. intros Hg ->. revert Hg. simpl. unfold mbind, M_bind, try.
  destruct (checkMigrationInProgress cluster w) as [[e|[]] w1]; simpl; [done| |done].
  destruct (setPhaseTolerant _ _ _) as [[?|?] ?]; by intros [=].
Qed.

Lemma existsb_elem {A} (f : A -> bool) l x : x ∈ l -> f x = true -> existsb f l = true.
Proof. intros Hx Hf. apply existsb_exists. exists x. by rewrite <- list_elem_of_In. Qed.

(** Whether the migration check answered no on the cluster as it was. *)
Definition answeredIdle (cluster : AerospikeCluster) (w : World) : Prop :=
  exists w1, w_aero w1 = w_aero w /\ fst (checkMigrationInProgress cluster w1) = inr false.

(** C4: tearing down racks that left the spec deletes a StatefulSet of such a rack only
    at zero replicas, lowers its replicas one batch at a time and only after the
    migration check answered no, and deletes, of a rack without pods, only its own
    ConfigMap and the cascade-delete claims of its own StatefulSet, by name; a deleted
    claim carries the labels of the cluster, unless no claim does or all that do are
    such claims themselves (the fallback of the code to unlabelled claims); it creates
    no StatefulSet and deletes no pod *)
Theorem cleanupRemovedRacks_drains currentRacks w :
  does (teardownAction (w_mem w) currentRacks (w_sts w) (w_pods w) (w_pvcs w) (answeredIdle (w_mem w) w))
    w (snd (cleanupRemovedRacks currentRacks w)).
Proof.
  unfold cleanupRemovedRacks. set (cluster := w_mem w).
  change (mem ≫= ?f) with (fun w => f (w_mem w) w). cbv beta. fold cluster.
  set (idle := answeredIdle cluster w). set (P := teardownAction _ _ _ _ _ _).
  set (R := beside (w_pods w) (w_pvcs w) (abandonedClaim cluster currentRacks (w_sts w) (w_pods w)) P).
  assert (forall w1 w2, R w w1 -> R w1 w2 -> R w w2) as Htrans by (intros w1 w2 ? ?; by trans w1).
  match goal with |- does _ _ ?w' => cut (R w w'); [intros Hr; refine (proj1 (Hr (conj eq_refl (conj (fun _ H => H) (fun _ H => or_introl H)))))|] end.
  apply bind_cases; intros ? w1 Hl.
  all: assert (R w w1) as H1 by exact (keeps_run _ _ _ _ _ (teardown_list cluster currentRacks (w_sts w) (w_pods w) (w_pvcs w) idle) Hl).
  { exact H1. }
  assert (w_aero w1 = w_aero w) as Ha1 by exact (keeps_run (agree w_aero) _ _ _ _ (keeps_listSts _) Hl).
  pose proof (clusterSts_ok _ _ _ _ Hl) as Hsub. rename a into stsList.
  apply bind_cases; intros ? w2 Hc.
  all: assert (R w w2) as H2 by (eapply Htrans; [exact H1|];
    exact (keeps_run _ _ _ _ _ (teardown_collect cluster currentRacks (w_sts w) (w_pods w) (w_pvcs w) idle stsList) Hc)).
  { exact H2. }
  assert (w_aero w2 = w_aero w) as Ha2 by (rewrite <- Ha1; exact (keeps_run _ _ _ _ _ (aero_collect _ _ _) Hc)).
  pose proof (removed_elem cluster currentRacks stsList _ _ _ Hc) as Helem. rename a into removed.
  destruct removed as [|rr removed']; [exact H2|]. set (removed := rr :: removed') in *. clearbody removed.
  apply bind_cases; intros ? w3 Hg.
  all: assert (R w w3) as H3 by (eapply Htrans; [exact H2|];
    exact (keeps_run _ _ _ _ _ (teardown_gate cluster currentRacks (w_sts w) (w_pods w) (w_pvcs w) idle _) Hg)).
  { exact H3. }
  eapply Htrans; [exact H3|]. apply keeps_foldM. intros deferred [sts rackID] Hin.
  destruct (Helem sts rackID Hin) as [[Hs Hlab]%Hsub Hid].
  apply teardown_step; [done|by apply removedRackID_left|].
  intros -> Hu. exists w2. split; [done|]. eapply teardownGate_open; [exact Hg|].
  by eapply existsb_elem; [exact Hin|].
Qed.

(** ** Convergence *)

Lemma sts_reclaim cluster rackID sts rackSize storageSpec :
  keeps (agree w_sts) (reclaimOrphanedRackPVCs cluster rackID sts rackSize storageSpec).
Proof.
  unfold reclaimOrphanedRackPVCs, listRackPods, DeleteOrphanedCascadeDeletePVCs, ownedOrphanCandidates, deleteOrphan.
  frame.
Qed.

Lemma findSts_cons name s l :
  findSts name (s :: l) = if decide (sts_Name s = name) then Some s else findSts name l.
Proof.
  unfold findSts. cbn [list_find]. case_decide; [done|]. by destruct (list_find _ l) as [[]|].
Qed.

Lemma findSts_fmap name (f : StatefulSet -> StatefulSet) l :
  (forall s, sts_Name (f s) = sts_Name s) -> findSts name (f <$> l) = f <$> findSts name l.
Proof.
  intros Hf. induction l as [|s l IH]; [done|]. rewrite fmap_cons, !findSts_cons, Hf.
  case_decide; [done|exact IH].
Qed.

Lemma patchSts_ok name replicas template w w' sts :
  patchSts name replicas (Some template) w = (inr (), w') -> findSts name (w_sts w) = Some sts ->
  findSts name (w_sts w') = Some (sts <| sts_Replicas := Some replicas |> <| sts_Template := template |>
                                      <| sts_Generation ::= Z.add 1 |>).
Proof.
  unfold patchSts, mbind, M_bind, gets. pose proof (api_agree w_sts w) as Ha.
  destruct (api w) as [[e|[]] w1]; [done|]. simpl in Ha. rewrite Ha. intros Hp Hsts. rewrite Hsts in Hp.
  injection Hp as <-. simpl. rewrite Ha. rewrite findSts_fmap by (intros s; by case_decide).
  rewrite Hsts. simpl. by rewrite decide_True by (by eapply findSts_name).
Qed.

(** The settings of the user's pods leave the config hash alone. *)
Definition hash_free (cluster : AerospikeCluster) : Prop :=
  let annotations := from_option om_Annotations [] (podMetadata cluster) in
  map_wf annotations /\ map_get ConfigHashAnnotation annotations = None.

Lemma template_hash cluster hash :
  map_wf (from_option om_Annotations [] (podMetadata cluster)) ->
  lookup_str ConfigHashAnnotation (templateAnnotations cluster hash) =
    default hash (map_get ConfigHashAnnotation (from_option om_Annotations [] (podMetadata cluster))).
Proof.
  intros Hwf. unfold lookup_str, templateAnnotations. rewrite map_get_copy by done.
  destruct (map_get ConfigHashAnnotation (from_option _ _ _)); [done|]. unfold bandwidthAnnotations.
  destruct (spec_BandwidthConfig _) as [b|]; [|done]. by repeat case_decide.
Qed.

Lemma rackTemplate_hashes cluster rack hash key :
  lookup_str key (tpl_Annotations (rackTemplate cluster rack hash).1) =
    if decide (key = StorageHashAnnotation) then computeStorageHash (rackTemplate cluster rack hash).2 rack
    else if decide (key = PodSpecHashAnnotation) then computePodSpecHash (rackTemplate cluster rack hash).2 rack
    else lookup_str key (templateAnnotations cluster hash).
Proof.
  change (tpl_Annotations (rackTemplate cluster rack hash).1) with
    (map_set StorageHashAnnotation (computeStorageHash (rackTemplate cluster rack hash).2 rack)
      (map_set PodSpecHashAnnotation (computePodSpecHash (rackTemplate cluster rack hash).2 rack) (templateAnnotations cluster hash))).
  unfold lookup_str. rewrite !map_get_set. by repeat case_decide.
Qed.

Lemma rackTemplate_current cluster rack hash size sts :
  hash_free cluster -> statefulSetReplicas sts = size -> sts_Template sts = (rackTemplate cluster rack hash).1 ->
  needsUpdate (rackTemplate cluster rack hash).2 rack hash size sts = false.
Proof.
  intros [Hwf Hfree] Hs Ht. unfold needsUpdate. rewrite Ht, Hs, Z.eqb_refl, !rackTemplate_hashes.
  rewrite (decide_False (P := ConfigHashAnnotation = StorageHashAnnotation)), (decide_False (P := ConfigHashAnnotation = PodSpecHashAnnotation)),
    (decide_False (P := PodSpecHashAnnotation = StorageHashAnnotation)), !decide_True by done.
  rewrite template_hash, Hfree by done. cbn. by rewrite !bool_decide_true.
Qed.

Lemma reclaim_total cluster rackID sts rackSize storageSpec w :
  fst (reclaimOrphanedRackPVCs cluster rackID sts rackSize storageSpec w) = inr ().
Proof.
  unfold reclaimOrphanedRackPVCs. destruct (reclaimGuard _ _ _); [|done]. unfold mbind, M_bind, try.
  destruct (listRackPods cluster rackID w) as [[e|pods] w1]; [done|]. destruct (negb _); [done|].
  destruct (DeleteOrphanedCascadeDeletePVCs _ _ _ _ w1) as [[e|[d [e|]]] w2]; [done|done|]. by destruct (0 <? d).
Qed.

Lemma getSts_mem stsName w f : fst (getSts stsName (w <| w_mem ::= f |>)) = fst (getSts stsName w).
Proof.
  unfold getSts, mbind, M_bind, gets, api. change (w_faults (w <| w_mem ::= f |>)) with (w_faults w).
  destruct (w_faults w) as [|[e|] fs]; [|done|].
  - change (fst (match findSts stsName (w_sts w) with None => raise (notFound stsName) | Some s => mret s end (w <| w_mem ::= f |>)) =
      fst (match findSts stsName (w_sts w) with None => raise (notFound stsName) | Some s => mret s end w)).
    by destruct (findSts stsName (w_sts w)).
  - change (fst (match findSts stsName (w_sts w) with None => raise (notFound stsName) | Some s => mret s end (w <| w_mem ::= f |> <| w_faults := fs |>)) =
      fst (match findSts stsName (w_sts w) with None => raise (notFound stsName) | Some s => mret s end (w <| w_faults := fs |>))).
    by destruct (findSts stsName (w_sts w)).
Qed.

(** The StatefulSet a pass creates for a rack that had none. *)
Lemma reconcileStatefulSet_created rack hash rackSize w sts :
  let name := StatefulSetName (cl_Name (w_mem w)) (rack_ID rack) in
  findSts name (w_sts w) = None ->
  findSts name (w_sts (snd (reconcileStatefulSet rack hash rackSize w))) = Some sts ->
  sts_Template sts = (rackTemplate (w_mem w) rack hash).1 /\
  sts_VolumeClaimTemplates sts = rackClaimTemplates (w_mem w) rack /\ sts_Replicas sts = Some rackSize.
Proof.
  intros name Hnone. pose proof (reconcileStatefulSet_eq rack hash rackSize w) as Heq.
  destruct (rackTemplate_cluster (w_mem w) rack hash) as [a Ha].
  destruct (rackTemplate (w_mem w) rack hash) as [podTemplate cluster]. cbn [fst snd] in *. subst cluster. rewrite Heq. clear Heq.
  set (w0 := w <| w_mem ::= _ |>). assert (findSts name (w_sts w0) = None) as Hw0 by exact Hnone. clearbody w0.
  unfold applyStatefulSet. change (StatefulSetName (cl_Name (withAffinity a (w_mem w))) (rack_ID rack)) with name. cbv zeta.
  apply bind_try_cases. intros found w1 Hget.
  assert (w_sts w1 = w_sts w0) as Hs1 by exact (keeps_run (agree w_sts) _ _ _ _ (keeps_getSts _) Hget).
  destruct found as [e|existing]; [|apply getSts_ok in Hget; congruence].
  destruct (IsNotFound e); [|simpl; rewrite Hs1; congruence].
  unfold mbind at 1, M_bind at 1, wrapping, createSts, mbind at 1, M_bind at 1.
  pose proof (api_agree w_sts w1) as Ha. destruct (api w1) as [[e'|[]] w2]; simpl in Ha; [simpl; rewrite Ha, Hs1; congruence|].
  simpl. rewrite Ha, Hs1. unfold findSts. rewrite list_find_app_r.
  - simpl. rewrite decide_True by done. intros [= <-]. done.
  - unfold findSts in Hw0. destruct (list_find _ (w_sts w0)); [done|]. done.
Qed.

(** The handler on a StatefulSet that exists and does not have to shrink. *)
Lemma reconcileStatefulSet_found rack hash rackSize w existing :
  fst (getSts (StatefulSetName (cl_Name (w_mem w)) (rack_ID rack)) w) = inr existing ->
  statefulSetReplicas existing <= rackSize ->
  exists w2, w_sts w2 = w_sts w /\ reconcileStatefulSet rack hash rackSize w =
    (if negb (needsUpdate (rackTemplate (w_mem w) rack hash).2 rack hash rackSize existing) then mret false
     else patchRack (rackTemplate (w_mem w) rack hash).1 existing rackSize) w2.
Proof.
  intros Hget Hle. pose proof (reconcileStatefulSet_eq rack hash rackSize w) as Heq.
  destruct (rackTemplate_cluster (w_mem w) rack hash) as [a Ha].
  destruct (rackTemplate (w_mem w) rack hash) as [podTemplate cluster]. cbn [fst snd] in *. subst cluster. rewrite Heq. clear Heq.
  set (cluster := withAffinity a (w_mem w)). set (w0 := w <| w_mem ::= fun _ => cluster |>).
  assert (fst (getSts (StatefulSetName (cl_Name cluster) (rack_ID rack)) w0) = inr existing) as Hget0.
  { exact (eq_trans (getSts_mem _ w (fun _ => cluster)) Hget). }
  unfold applyStatefulSet. cbv zeta.
  pose proof (keeps_getSts (R := agree w_sts) (StatefulSetName (cl_Name cluster) (rack_ID rack)) w0) as Hk.
  unfold mbind at 1, M_bind at 1, try. destruct (getSts _ w0) as [r w1]. simpl in Hget0, Hk. subst r.
  unfold mbind at 1, M_bind at 1.
  pose proof (reclaim_total cluster (rack_ID rack) existing rackSize (effectiveStorage cluster rack) w1) as Ht.
  pose proof (sts_reclaim cluster (rack_ID rack) existing rackSize (effectiveStorage cluster rack) w1) as Hs.
  destruct (reclaimOrphanedRackPVCs _ _ _ _ _ w1) as [r w2]. simpl in Ht, Hs. subst r. exists w2.
  split; [by rewrite Hs|]. destruct (negb (needsUpdate _ _ _ _ _)); [done|].
  destruct (Z.ltb_spec rackSize (statefulSetReplicas existing)); [lia|done].
Qed.

Lemma needsUpdate_size cluster rack hash rackSize sts :
  needsUpdate cluster rack hash rackSize sts = false -> statefulSetReplicas sts = rackSize.
Proof. unfold needsUpdate. rewrite !orb_false_iff, !negb_false_iff. intros [[[Hs%Z.eqb_eq _] _] _]. exact Hs. Qed.

Lemma needsUpdate_hashes cluster rack hash rackSize sts :
  needsUpdate cluster rack hash rackSize sts = false ->
  lookup_str ConfigHashAnnotation (tpl_Annotations (sts_Template sts)) = hash /\
  lookup_str PodSpecHashAnnotation (tpl_Annotations (sts_Template sts)) = computePodSpecHash cluster rack /\
  lookup_str StorageHashAnnotation (tpl_Annotations (sts_Template sts)) = computeStorageHash cluster rack.
Proof.
  unfold needsUpdate. rewrite !orb_false_iff, !negb_false_iff, !bool_decide_eq_true. naive_solver.
Qed.

(** C12: a pass over a rack that has a StatefulSet and is not shrinking leaves it at the
    desired size, with the config, pod-spec and storage hashes of the desired template
    in its annotations and a template that needs no further update, its claim templates
    untouched; the annotations the user gives the pods must leave the config hash alone *)
Theorem reconcileStatefulSet_converges rack hash rackSize w existing w' :
  let stsName := StatefulSetName (cl_Name (w_mem w)) (rack_ID rack) in
  hash_free (w_mem w) -> fst (getSts stsName w) = inr existing -> statefulSetReplicas existing <= rackSize ->
  reconcileStatefulSet rack hash rackSize w = (inr false, w') ->
  exists sts, findSts stsName (w_sts w') = Some sts /\ statefulSetReplicas sts = rackSize /\
    (let annotations := tpl_Annotations (sts_Template sts) in
     lookup_str ConfigHashAnnotation annotations = hash /\
     lookup_str PodSpecHashAnnotation annotations = computePodSpecHash (rackTemplate (w_mem w) rack hash).2 rack /\
     lookup_str StorageHashAnnotation annotations = computeStorageHash (rackTemplate (w_mem w) rack hash).2 rack) /\
    needsUpdate (rackTemplate (w_mem w) rack hash).2 rack hash rackSize sts = false /\
    sts_VolumeClaimTemplates sts = sts_VolumeClaimTemplates existing.
Proof.
  intros stsName Hh Hget Hle Hrun.
  destruct (reconcileStatefulSet_found rack hash rackSize w existing Hget Hle) as (w2 & Hw2 & Heq).
  rewrite Heq in Hrun. clear Heq.
  assert (findSts stsName (w_sts w2) = Some existing) as Hsts.
  { rewrite Hw2. destruct (getSts stsName w) as [r w1] eqn:Hg. simpl in Hget. subst r. by eapply getSts_ok. }
  destruct (needsUpdate _ rack hash rackSize existing) eqn:Hn; cbn [negb] in Hrun.
  - unfold patchRack in Hrun. unfold mbind at 1, M_bind at 1 in Hrun.
    destruct (wrapping _ _ w2) as [[e|[]] w3] eqn:Hp; [done|]. apply wrapping_ok in Hp.
    rewrite (findSts_name _ _ _ Hsts) in Hp.
    assert (w_sts w' = w_sts w3) as Hw'.
    { eapply (keeps_run (agree w_sts)); [|exact Hrun]. frame. }
    eexists. split; [rewrite Hw'; by eapply patchSts_ok|].
    assert (forall sts, statefulSetReplicas sts = rackSize -> sts_Template sts = (rackTemplate (w_mem w) rack hash).1 ->
      needsUpdate (rackTemplate (w_mem w) rack hash).2 rack hash rackSize sts = false) as Hcur
      by (intros; by apply rackTemplate_current).
    split; [done|]. split; [eapply (needsUpdate_hashes _ _ _ rackSize), Hcur; done|]. split; [by apply Hcur|done].
  - injection Hrun as <-. exists existing. pose proof (needsUpdate_hashes _ _ _ _ _ Hn) as (H1 & H2 & H3).
    split; [done|]. split; [by apply (needsUpdate_size _ _ _ _ _ Hn)|]. by split_and!.
Qed.

(** An annotation of the user's pods that takes the place of the config hash: the template that
    was just written is out of date, in every pass. *)
Theorem overridden_hash_never_settles cluster rack hash size sts v :
  map_wf (from_option om_Annotations [] (podMetadata cluster)) ->
  map_get ConfigHashAnnotation (from_option om_Annotations [] (podMetadata cluster)) = Some v -> v <> hash ->
  sts_Template sts = (rackTemplate cluster rack hash).1 ->
  needsUpdate (rackTemplate cluster rack hash).2 rack hash size sts = true.
Proof.
  intros Hwf Hv Hne Ht. unfold needsUpdate. rewrite Ht, rackTemplate_hashes, decide_False, decide_False by done.
  rewrite template_hash, Hv by done. cbn. rewrite bool_decide_false by done. cbn. by rewrite orb_true_r.
Qed.

(** ** Edits of a rack's placement

    The pod-spec hash sees nothing of a rack but its ID: a change of its zone,
    region, node, label or pod settings, all of which are rendered into the pod
    template, is not noticed. *)

Lemma needsUpdate_rack cluster rack rack' hash size sts :
  rack_ID rack' = rack_ID rack -> rack_Storage rack' = rack_Storage rack ->
  needsUpdate cluster rack' hash size sts = needsUpdate cluster rack hash size sts.
Proof.
  intros Hid Hst. unfold needsUpdate, computePodSpecHash, podSpecHashInput, computeStorageHash, effectiveStorage.
  by rewrite Hid, Hst.
Qed.

(** Editing zone, region, node name, label or pod settings of a rack leaves its
    StatefulSet as it was, when the pod settings of the cluster have no affinity. *)
Theorem rack_placement_edit_ignored rack rack' hash rackSize w existing :
  spec_PodSpec (cl_Spec (w_mem w)) ≫= ps_Affinity = None ->
  fst (getSts (StatefulSetName (cl_Name (w_mem w)) (rack_ID rack)) w) = inr existing ->
  needsUpdate (w_mem w) rack hash rackSize existing = false ->
  rack_ID rack' = rack_ID rack -> rack_Storage rack' = rack_Storage rack ->
  let '(r, w') := reconcileStatefulSet rack' hash rackSize w in
  r = inr false /\ w_sts w' = w_sts w.
Proof.
  intros Ha Hget Hn Hid Hst.
  assert (statefulSetReplicas existing <= rackSize) as Hle.
  { unfold needsUpdate in Hn. apply orb_false_iff in Hn as [Hn _]. apply orb_false_iff in Hn as [Hn _].
    apply orb_false_iff in Hn as [Hn _]. apply negb_false_iff, Z.eqb_eq in Hn. lia. }
  rewrite <- Hid in Hget.
  destruct (reconcileStatefulSet_found rack' hash rackSize w existing Hget Hle) as (w2 & Hw2 & ->).
  assert ((rackTemplate (w_mem w) rack' hash).2 = w_mem w) as -> by (by apply (private_affinity (w_mem w) rack' (rack_ID rack') (ConfigMapName (cl_Name (w_mem w)) (rack_ID rack')) hash)).
  by rewrite (needsUpdate_rack _ rack) , Hn.
Qed.

End Scaling.

(** ** Concrete runs *)

Definition scaling_world (replicas : Z) (hash : string) : World (H := sample_env) :=
  sample_world (example_cluster 2 None) [] [sample_sts "demo-1" replicas hash] (mkStub [] [] [] []).

(** A scale-up from one to two replicas. *)
Lemma reconcileStatefulSet_converges_witness :
  exists sts w', findSts "demo-1" (w_sts (H := sample_env) w') = Some sts /\ statefulSetReplicas sts = 2 /\
    needsUpdate (H := sample_env) (example_cluster 2 None) (plainRack 1) "h2" 2 sts = false /\
    claimNames sts = ["data"].
Proof.
  destruct (reconcileStatefulSet (H := sample_env) (plainRack 1) "h2" 2 (scaling_world 1 "h1"))
    as [r w'] eqn:Hrun.
  assert (r = inr false) as -> by (apply (f_equal fst) in Hrun; simpl in Hrun; rewrite <- Hrun; by vm_compute).
  destruct (reconcileStatefulSet_converges (H := sample_env) (plainRack 1) "h2" 2
    (scaling_world 1 "h1") (sample_sts "demo-1" 1 "h1") w') as (sts & Hsts & Hr & _ & Hn & Hc); [by repeat constructor|done|done|exact Hrun|].
  exists sts, w'. split_and!; [exact Hsts|exact Hr|exact Hn|]. unfold claimNames. by rewrite Hc.
Defined.

(** The zone of an up-to-date rack is edited. *)
Lemma rack_placement_edit_ignored_witness :
  let existing := (sample_sts "demo-1" 2 "h1") <| sts_Template := (rackTemplate (H := sample_env)
    (example_cluster 2 None) (plainRack 1) "h1").1 |> in
  let w := (scaling_world 2 "h1") <| w_sts := [existing] |> in
  let rack' := (plainRack 1) <| rack_Zone := "zone-b" |> in
  (rackTemplate (H := sample_env) (example_cluster 2 None) rack' "h1").1 <> sts_Template existing /\
  let '(r, w') := reconcileStatefulSet (H := sample_env) rack' "h1" 2 w in
  r = inr false /\ w_sts w' = w_sts w.
Proof.
  intros existing w rack'. split; [by vm_compute|].
  apply (rack_placement_edit_ignored (H := sample_env) (plainRack 1) rack' "h1" 2 w existing);
    [done|by vm_compute|by vm_compute|done|done].
Defined.

(** *** Two racks of a cluster with an affinity of its own *)

(** The pod settings prefer some nodes; only the first rack names a zone. *)
Definition zoned_cluster : AerospikeCluster :=
  let preference := AMap [("weight", AInt KInt 1)] in
  (example_cluster 2 None) <| cl_Spec ::= fun s => s <| spec_PodSpec :=
    Some (emptyPodSpec <| ps_Affinity := Some (emptyAffinity <| aff_NodeAffinity := Some (mkNodeAffinity None [preference]) |>) |>) |> |>.

Definition requiredOf (w : World (H := sample_env)) (name : string) : option (list NodeSelectorTerm) :=
  sts ← findSts name (w_sts w); requiredTerms (psp_Affinity (tpl_Spec (sts_Template sts))).

(** The StatefulSet of the second rack is created with the zone of the first; had the racks been
    taken in the other order, it would be free. *)
Theorem second_rack_confined :
  let zoned := (plainRack 1) <| rack_Zone := "zone-a" |> in
  let w := sample_world zoned_cluster [] [] (mkStub [] [] [] []) in
  let pass rack w := snd (reconcileStatefulSet (H := sample_env) rack "h1" 1 w) in
  let confined := mkNodeSelectorTerm [mkNodeSelectorRequirement "topology.kubernetes.io/zone" "In" ["zone-a"]] [] in
  requiredOf (pass (plainRack 2) (pass zoned w)) "demo-2" = Some [confined] /\
  requiredOf (pass zoned (pass (plainRack 2) w)) "demo-2" = None.
Proof. split; by vm_compute. Qed.
