(* ===== verification/Webhook.v ===== *)
(** * The admission webhook of AerospikeCluster

    api/v1alpha1/aerospikecluster_webhook.go: the defaults filled in on admission,
    the validation of a cluster, and the changes an update may not make.  The
    rules about configuration maps are in ConfigRules.  The theorems connect
    admission with the controller: what the reconcilers rely on holds of every
    admitted cluster. *)

From S2P Require Import Prelude GoValue Utils Api ConfigGen ConfigRules Events Kube Sizing DynamicConfig ConfigMaps PDB ACL PodTemplate Scaling.
From Stdlib Require Import SpecFloat.

(** ** Defaulting *)

Definition DefaultServicePort : Z := 3000.
Definition DefaultFabricPort : Z := 3001.
Definition DefaultHeartbeatPort : Z := 3002.
Definition DefaultExporterImage : string := "aerospike/aerospike-prometheus-exporter:1.16.1".
Definition DefaultExporterPort : Z := 9145.
Definition defaultProtoFdMax : Z := 15000.
Definition defaultScrapeInterval : string := "30s".
Definition DNSClusterFirstWithHostNet : string := "ClusterFirstWithHostNet".

Definition getOrCreateMapSection (m : gomap any) (key : string) : res (gomap any) :=
  match map_get key m with
  | Some (AMap existingMap) => Ok existingMap
  | Some _ => Err ("config key " +:+ key +:+ " is not a map")
  | None => Ok []
  end.

(** [if _, exists := section[k]; !exists { section[k] = v }] *)
Definition setDefault (section : gomap any) (d : string * any) : gomap any :=
  if map_has d.1 section then section else map_set d.1 d.2 section.

(** A sub-section completed with its defaults. *)
Definition defaultSection (m : gomap any) (key : string) (defs : gomap any) : res (gomap any) :=
  section ← getOrCreateMapSection m key;
  Ok (map_set key (AMap (foldl setDefault section defs)) m).

Definition defaultServiceConfig (clusterName : string) (config : gomap any) : res (gomap any) :=
  defaultSection config "service"
    [("cluster-name", AString clusterName); ("proto-fd-max", AInt KInt defaultProtoFdMax)].

Definition networkDefaults : list (string * gomap any) :=
  [("service", [("port", AInt KInt DefaultServicePort)]);
   ("heartbeat", [("port", AInt KInt DefaultHeartbeatPort); ("mode", AString defaultHeartbeatMode)]);
   ("fabric", [("port", AInt KInt DefaultFabricPort)])].

Fixpoint defaultSections (defs : list (string * gomap any)) (m : gomap any) : res (gomap any) :=
  match defs with
  | [] => Ok m
  | (name, d) :: defs => m ← defaultSection m name d; defaultSections defs m
  end.

Definition defaultNetworkConfig (config : gomap any) : res (gomap any) :=
  networkSection ← getOrCreateMapSection config "network";
  networkSection ← defaultSections networkDefaults networkSection;
  Ok (map_set "network" (AMap networkSection) config).

Definition defaultMonitoring (m : AerospikeMonitoringSpec) : AerospikeMonitoringSpec :=
  if negb (mon_Enabled m) then m
  else
    let m := if decide (mon_ExporterImage m = "") then m <| mon_ExporterImage := DefaultExporterImage |> else m in
    let m := if decide (mon_Port m = 0) then m <| mon_Port := DefaultExporterPort |> else m in
    match mon_ServiceMonitor m with
    | Some sm => if sm_Enabled sm && bool_decide (sm_Interval sm = "")
                 then m <| mon_ServiceMonitor := Some (sm <| sm_Interval := defaultScrapeInterval |>) |> else m
    | None => m
    end.

Definition defaultHostNetwork (p : AerospikePodSpec) : AerospikePodSpec :=
  if negb (ps_HostNetwork p) then p
  else
    let p := if decide (ps_MultiPodPerHost p = None) then p <| ps_MultiPodPerHost := Some false |> else p in
    if decide (ps_DNSPolicy p = "") then p <| ps_DNSPolicy := DNSClusterFirstWithHostNet |> else p.

Definition Default (cluster : AerospikeCluster) : res AerospikeCluster :=
  let config := default [] (spec_AerospikeConfig (cl_Spec cluster)) in
  config ← defaultServiceConfig (cl_Name cluster) config;
  config ← defaultNetworkConfig config;
  Ok (cluster <| cl_Spec ::= fun s => s
        <| spec_AerospikeConfig := Some config |>
        <| spec_Monitoring ::= fmap defaultMonitoring |>
        <| spec_PodSpec ::= fmap defaultHostNetwork |> |>).

(** ** What the checks call *)

(** [resource.ParseQuantity] and the label validators of apimachinery: functions of
    libraries that are not part of the repository. *)
Class Validators := {
  ParseQuantity : string -> option Quantity;
  IsQualifiedName : string -> list string;
  IsValidLabelValue : string -> list string
}.

(** [metav1.OwnerReference]. *)
Record OwnerReference := mkOwnerReference { or_Kind : string; or_Name : string; or_UID : string }.

(** The notices of a value that may be absent. *)
Definition onSome {A} (f : A -> list notice) (o : option A) : list notice := from_option f [] o.

(** Each name of the list that occurs before. *)
Fixpoint duplicates (field : string) (seen names : list string) : list notice :=
  match names with
  | [] => []
  | n :: names => (if decide (n ∈ seen) then [Duplicate field n] else []) ++ duplicates field (n :: seen) names
  end.

(** ** Size and image *)

Definition maxCEClusterSize : Z := 8.

(** The size comes from the template. *)
Definition sizeDeferred (spec : AerospikeClusterSpec) : bool :=
  bool_decide (spec_Size spec = 0 /\ spec_TemplateRef spec <> None).

Definition validateSizeAndImage (spec : AerospikeClusterSpec) : list notice * list notice :=
  let size := spec_Size spec in
  let image := spec_Image spec in
  let sizeErrors :=
    (if maxCEClusterSize <? size then [OutOfRange "spec.size" (AInt KInt32 size)] else []) ++
    (if bool_decide (size = 0 /\ spec_TemplateRef spec = None) then [Missing "spec.size"] else []) in
  let missing := if bool_decide (image = "" /\ spec_TemplateRef spec = None) then [Empty "spec.image"] else [] in
  if decide (image = "") then (sizeErrors ++ missing, [])
  else
    let tag := imageTag image in
    let old := if decide (tag = "" \/ tag = "latest") then []
               else match parseMajorVersion image with
                    | Some major => if major <? minCEMajorVersion then [OldVersion image major] else []
                    | None => []
                    end in
    let warnings := if decide (tag = "") then [Advice "spec.image" "no tag"]
                    else if decide (tag = "latest") then [Advice "spec.image" "latest tag"] else [] in
    (sizeErrors ++ missing ++ enterpriseImage "spec.image" image ++ old, warnings).

(** ** Access control *)

Definition aerospikeCEBuiltinRoles : list string :=
  ["user-admin"; "sys-admin"; "data-admin"; "read"; "write"; "read-write"; "read-write-udf"; "truncate"].
Definition aerospikeGlobalOnlyPrivileges : list string := ["sys-admin"; "user-admin"; "data-admin"].

Definition validatePrivilegeScope (roleName privStr scope : string) : list notice :=
  match split_on "." scope with
  | [ns] => if decide (ns = "") then [Invalid roleName privStr] else []
  | [ns; set] => if decide (ns = "") then [Invalid roleName privStr]
                 else if decide (set = "") then [Invalid roleName privStr] else []
  | _ => [Invalid roleName privStr]
  end.

(** [strings.TrimSpace(s) == ""]: nothing but space runes, of up to three bytes. *)
Fixpoint onlySpace (s : string) : bool :=
  match s with
  | "" => true
  | String a s1 =>
      (bool_decide (String a "" ∈ spaceRunes) && onlySpace s1) ||
      match s1 with
      | "" => false
      | String b s2 =>
          (bool_decide (String a (String b "") ∈ spaceRunes) && onlySpace s2) ||
          match s2 with
          | "" => false
          | String c s3 => bool_decide (String a (String b (String c "")) ∈ spaceRunes) && onlySpace s3
          end
      end
  end.

(** [strings.TrimSpace(privStr) != privStr] is space at an edge. *)
Definition validatePrivilege (roleName privStr : string) : list notice :=
  if onlySpace privStr then [Empty roleName]
  else if hasEdgeSpace privStr then [Invalid roleName privStr]
  else
    let '(code, scope) := match split_first "." privStr with
                          | Some (code, scope) => (code, Some scope)
                          | None => (privStr, None)
                          end in
    if negb (bool_decide (code ∈ aerospikeCEBuiltinRoles)) then [Invalid roleName privStr]
    else match scope with
         | None => []
         | Some scope => if decide (code ∈ aerospikeGlobalOnlyPrivileges) then [Invalid roleName privStr]
                         else validatePrivilegeScope roleName privStr scope
         end.

(** Roles without a name are reported and not remembered. *)
Fixpoint validateRoleNames (seen : list string) (i : nat) (names : list string) : list notice :=
  match names with
  | [] => []
  | n :: names =>
      if decide (n = "") then Empty (indexed "accessControl.roles" i) :: validateRoleNames seen (S i) names
      else (if decide (n ∈ seen) then [Duplicate "accessControl.roles" n] else []) ++
           validateRoleNames (n :: seen) (S i) names
  end.

Definition validateUserRole (definedRoles : list string) (user : AerospikeUserSpec) (i : nat) (roleName : string)
    : list notice :=
  if decide (roleName = "") then [Empty (indexed (user_Name user) i)]
  else if decide (roleName ∈ aerospikeCEBuiltinRoles \/ roleName ∈ definedRoles) then []
  else [Undefined (user_Name user) roleName].

Definition validateAccessControl (acl : AerospikeAccessControlSpec) : list notice :=
  let users := acl_Users acl in
  let roleNames := role_Name <$> acl_Roles acl in
  duplicates "accessControl.users" [] (user_Name <$> users) ++
  (user ← users; if decide (user_SecretName user = "") then [Missing (user_Name user)] else []) ++
  (if existsb hasAdminRoles users then [] else [Missing "aerospikeAccessControl.admin"]) ++
  validateRoleNames [] 0 roleNames ++
  (user ← users; eachIndexed (validateUserRole roleNames user) (user_Roles user)) ++
  (role ← acl_Roles acl; privStr ← role_Privileges role; validatePrivilege (role_Name role) privStr).

(** ** Racks, budgets, batches and operations *)

Definition validateIntOrString (val : option IntOrString) (fieldName : string) (minValue : Z) : list notice :=
  match val with
  | None => []
  | Some (IntVal v) => if v <? minValue then [OutOfRange fieldName (AInt KInt32 v)] else []
  | Some (StrVal s) =>
      match cut_suffix s "%" with
      | None => [Invalid fieldName s]
      | Some numStr =>
          match atoi numStr with
          | None => [Invalid fieldName s]
          | Some num => if (num <? minValue) || (100 <? num) then [OutOfRange fieldName (AInt KInt num)] else []
          end
      end
  end.

(** One rack, with the IDs and labels of the racks before it. *)
Definition validateRack (rackIDs : list Z) (rackLabels : list string) (rack : Rack) : list notice * list notice :=
  let '(cfgErrors, cfgWarnings) := from_option validateAerospikeConfig ([], []) (rack_AerospikeConfig rack) in
  ((if rack_ID rack <=? 0 then [OutOfRange "rackConfig.racks.id" (AInt KInt (rack_ID rack))] else []) ++
   (if decide (rack_ID rack ∈ rackIDs) then [Duplicate "rackConfig.racks.id" (pretty (rack_ID rack))] else []) ++
   (if decide (rack_RackLabel rack <> "" /\ rack_RackLabel rack ∈ rackLabels)
    then [Duplicate "rackConfig.racks.rackLabel" (rack_RackLabel rack)] else []) ++
   (InRack (rack_ID rack) <$> cfgErrors), cfgWarnings).

Fixpoint validateRacks (rackIDs : list Z) (rackLabels : list string) (racks : list Rack) : list notice * list notice :=
  match racks with
  | [] => ([], [])
  | rack :: racks =>
      let '(errors, warnings) := validateRack rackIDs rackLabels rack in
      let '(errors', warnings') := validateRacks (rack_ID rack :: rackIDs) (rack_RackLabel rack :: rackLabels) racks in
      (errors ++ errors', warnings ++ warnings')
  end.

Definition validateRackConfig (rackConfig : RackConfig) : list notice * list notice :=
  let '(errors, warnings) := validateRacks [] [] (rc_Racks rackConfig) in
  (errors ++
   validateIntOrString (rc_ScaleDownBatchSize rackConfig) "rackConfig.scaleDownBatchSize" 1 ++
   validateIntOrString (rc_MaxIgnorablePods rackConfig) "rackConfig.maxIgnorablePods" 0 ++
   validateIntOrString (rc_RollingUpdateBatchSize rackConfig) "rackConfig.rollingUpdateBatchSize" 1,
   warnings).

(** Each rack gets a pod. *)
Definition validateRackCount (spec : AerospikeClusterSpec) (rackConfig : RackConfig) : list notice :=
  let numRacks := Z.of_nat (length (rc_Racks rackConfig)) in
  if (0 <? numRacks) && negb (sizeDeferred spec) && (spec_Size spec <? numRacks)
  then [ExceedsSize "rackConfig.racks" numRacks (spec_Size spec)] else [].

Definition maxUnavailableErrors (mu : IntOrString) (field : string) (size : Z) : list notice :=
  match mu with
  | IntVal v => if (0 <? size) && (size <=? v) then [NoBudget field mu] else []
  | StrVal s =>
      match cut_suffix s "%" with
      | None => []
      | Some numStr =>
          match atoi numStr with
          | Some num => if 100 <=? num then [NoBudget field mu] else []
          | None => []
          end
      end
  end.

Definition validateMaxUnavailable (spec : AerospikeClusterSpec) : list notice :=
  if sizeDeferred spec then []
  else onSome (fun mu => maxUnavailableErrors mu "spec.maxUnavailable" (spec_Size spec)) (spec_MaxUnavailable spec).

Definition validateRackMaxUnavailable (spec : AerospikeClusterSpec) : list notice :=
  match spec_RackConfig spec with
  | None => []
  | Some rackConfig =>
      let racks := rc_Racks rackConfig in
      if bool_decide (racks = []) || sizeDeferred spec then []
      else
        let numRacks := i32 (Z.of_nat (length racks)) in
        let baseSize := Z.quot (spec_Size spec) numRacks in
        let remainder := Z.rem (spec_Size spec) numRacks in
        eachIndexed (fun i rack =>
          onSome (fun mu =>
            let rackSize := if i32 (Z.of_nat i) <? remainder then i32 (baseSize + 1) else baseSize in
            maxUnavailableErrors mu ("spec.rackConfig.racks[id=" +:+ pretty (rack_ID rack) +:+ "].maxUnavailable") rackSize)
          (rack_MaxUnavailable rack)) racks
  end.

Fixpoint validateOperationIDs (seenIDs : list string) (ops : list OperationSpec) : list notice :=
  match ops with
  | [] => []
  | op :: ops =>
      (if (String.length (op_ID op) <? 1)%nat || (20 <? String.length (op_ID op))%nat
       then [Invalid "operations.id" (op_ID op)] else []) ++
      (if decide (op_ID op ∈ seenIDs) then [Duplicate "operations.id" (op_ID op)] else []) ++
      validateOperationIDs (op_ID op :: seenIDs) ops
  end.

Definition validateOperations (ops : list OperationSpec) : list notice :=
  (if (1 <? length ops)%nat then [TooMany "operations" (length ops)] else []) ++ validateOperationIDs [] ops.

Definition validateBatchSize (spec : AerospikeClusterSpec) : list notice :=
  if sizeDeferred spec then []
  else match spec_RollingUpdateBatchSize spec with
       | Some bs => if spec_Size spec <? bs then [Advice "rollingUpdateBatchSize" "greater than the cluster size"] else []
       | None => []
       end.

Definition validateRackBatchSize (spec : AerospikeClusterSpec) : list notice :=
  match rackConfig ← spec_RackConfig spec; rc_RollingUpdateBatchSize rackConfig with
  | Some (StrVal s) =>
      if sizeDeferred spec then []
      else match numStr ← cut_suffix s "%"; atoi numStr with
           | Some num => if decide (Z.quot (i64 (spec_Size spec * num)) 100 = 0)
                         then [Advice "rackConfig.rollingUpdateBatchSize" "resolves to 0 pods"] else []
           | None => []
           end
  | _ => []
  end.

(** ** Storage *)

Definition hasVolumeForPath (storage : option AerospikeStorageSpec) (path : string) : bool :=
  existsb (fun vol => bool_decide (ava_Path <$> vol_Aerospike vol = Some path)) (from_option st_Volumes [] storage).

(** One list of attachments: [subPath] and [subPathExpr] are exclusive, and no
    container is named twice or is in [others]. *)
Fixpoint attachmentErrors (field : string) (others seen : list string) (l : list VolumeAttachment) : list notice :=
  match l with
  | [] => []
  | a :: l =>
      (if decide (vat_SubPath a <> "" /\ vat_SubPathExpr a <> "") then [Conflict field "subPath"] else []) ++
      (if decide (vat_ContainerName a ∈ seen) then [Duplicate field (vat_ContainerName a)] else []) ++
      (if decide (vat_ContainerName a ∈ others) then [Duplicate field (vat_ContainerName a)] else []) ++
      attachmentErrors field others (vat_ContainerName a :: seen) l
  end.

Definition validateVolumeAttachments (vol : VolumeSpec) : list notice :=
  attachmentErrors "sidecars" [] [] (vol_Sidecars vol) ++
  attachmentErrors "initContainers" (vat_ContainerName <$> vol_Sidecars vol) [] (vol_InitContainers vol).

(** How many sources a volume has. *)
Definition sourceCount (src : VolumeSource) : nat :=
  let count {A} (o : option A) := match o with Some _ => 1%nat | None => 0%nat end in
  (count (vsrc_PersistentVolume src) + count (vsrc_EmptyDir src) + count (vsrc_Secret src) +
   count (vsrc_ConfigMap src) + count (vsrc_HostPath src))%nat.

Section Storage.
Context `{Validators}.

Definition validateVolumeSize (field : string) (pv : PersistentVolumeSpec) : list notice :=
  if decide (pv_Size pv = "") then [Empty field]
  else match ParseQuantity (pv_Size pv) with
       | None => [Invalid field (pv_Size pv)]
       | Some qty => if q_Nano qty <=? 0 then [Invalid field (pv_Size pv)] else []
       end.

Definition validateVolume (index : nat) (vol : VolumeSpec) : list notice * list notice :=
  let field := indexed "storage.volumes" index in
  let n := sourceCount (vol_Source vol) in
  ((if decide (n = 0%nat) then [Missing field] else if (1 <? n)%nat then [TooMany field n] else []) ++
   onSome (validateVolumeSize field) (vol_PersistentVolume vol) ++
   onSome (fun a => if bool_decide (ava_Path a <> "") && negb (has_prefix "/" (ava_Path a))
                    then [Invalid field (ava_Path a)] else []) (vol_Aerospike vol) ++
   onSome (fun a => if decide (ava_SubPath a <> "" /\ ava_SubPathExpr a <> "")
                    then [Conflict field "aerospike.subPath"] else []) (vol_Aerospike vol) ++
   validateVolumeAttachments vol,
   onSome (fun _ => [Advice field "hostPath"]) (vsrc_HostPath (vol_Source vol)) ++
   (if bool_decide (vol_CascadeDelete vol = Some true) && negb (bool_decide (is_Some (vol_PersistentVolume vol)))
    then [Advice field "cascadeDelete has no effect"] else [])).

Definition validateStorage (storage : AerospikeStorageSpec) : list notice * list notice :=
  let vols := imap validateVolume (st_Volumes storage) in
  (duplicates "storage.volumes" [] (vol_Name <$> st_Volumes storage) ++ concat vols.*1 ++
   (if decide (st_DeleteLocalStorageOnRestart storage = Some true /\ st_LocalStorageClasses storage = [])
    then [Missing "storage.localStorageClasses"] else []),
   concat vols.*2 ++
   (if decide (st_LocalStorageClasses storage <> [] /\ st_DeleteLocalStorageOnRestart storage = None)
    then [Advice "storage.localStorageClasses" "local PVCs will not be deleted"] else [])).

Definition validateRackStorage (rackConfig : option RackConfig) : list notice * list notice :=
  let racks := from_option rc_Racks [] rackConfig in
  let per (side : list notice * list notice -> list notice) :=
    rack ← racks; onSome (fun s => InRack (rack_ID rack) <$> side (validateStorage s)) (rack_Storage rack) in
  (per fst, per snd).

End Storage.

(** ** Pods and monitoring *)

Definition builtinPodContainerNames : list string := ["aerospike-server"; "aerospike-init"].

(** One list of containers; a reserved name is reported and not remembered. *)
Fixpoint containerNameErrors (field : string) (others seen : list string) (names : list string) : list notice :=
  match names with
  | [] => []
  | n :: names =>
      if decide (n ∈ builtinPodContainerNames) then Conflict field n :: containerNameErrors field others seen names
      else (if decide (n ∈ seen) then [Duplicate field n] else []) ++
           (if decide (n ∈ others) then [Duplicate field n] else []) ++
           containerNameErrors field others (n :: seen) names
  end.

Definition validatePodSpecContainerNames (podSpec : AerospikePodSpec) : list notice :=
  let sidecars := ct_Name <$> ps_Sidecars podSpec in
  containerNameErrors "podSpec.sidecars" [] [] sidecars ++
  containerNameErrors "podSpec.initContainers" (filter (fun n => ~ (n ∈ builtinPodContainerNames)) sidecars) []
    (ct_Name <$> ps_InitContainers podSpec).

Definition hostNetworkWarnings (podSpec : AerospikePodSpec) : list notice :=
  if negb (ps_HostNetwork podSpec) then []
  else (if decide (ps_MultiPodPerHost podSpec = Some true) then [Advice "podSpec.multiPodPerHost" "port conflicts"] else []) ++
       (if decide (ps_DNSPolicy podSpec <> "" /\ ps_DNSPolicy podSpec <> DNSClusterFirstWithHostNet)
        then [Advice "podSpec.dnsPolicy" "DNS resolution"] else []).

Definition aerospikeReservedPorts : list (Z * string) :=
  [(3000, "service"); (3001, "fabric"); (3002, "heartbeat"); (3003, "info")].

(** The bytes of the expression [^[A-Za-z0-9_-]+$] for a TOML bare key. *)
Definition metricLabelKey (key : string) : bool :=
  bool_decide (key <> "") &&
  forallb (fun a => let n := N_of_ascii a in
    bool_decide (48 <= n <= 57 \/ 65 <= n <= 90 \/ 97 <= n <= 122 \/ n = 95 \/ n = 45)%N) (list_ascii_of_string key).

(** A control character in a label value: below 0x20, or DEL. *)
Definition hasControlByte (s : string) : bool :=
  existsb (fun a => bool_decide (N_of_ascii a < 32 \/ N_of_ascii a = 127)%N) (list_ascii_of_string s).

Fixpoint span_digits (s : string) : string * string :=
  match s with
  | String a t => if is_digit a then let '(ds, rest) := span_digits t in (String a ds, rest) else ("", s)
  | "" => ("", "")
  end.

(** The optional groups of [prometheusDurationRe], in order, up to the end. *)
Fixpoint durationGroups (units : list string) (s : string) : bool :=
  match units with
  | [] => bool_decide (s = "")
  | unit :: units =>
      durationGroups units s ||
      let '(ds, rest) := span_digits s in
      bool_decide (ds <> "") && match cut_prefix unit rest with Some rest => durationGroups units rest | None => false end
  end.

Definition prometheusDuration (s : string) : bool :=
  bool_decide (s = "0") || durationGroups ["y"; "w"; "d"; "h"; "m"; "s"; "ms"] s.

(** A rule group decoded from JSON: an object, or null. *)
Definition validateCustomRule (i : nat) (raw : any) : list notice :=
  let field := indexed "monitoring.prometheusRule.customRules" i in
  match (match raw with AMap m => Some m | ANil => Some [] | _ => None end) with
  | None => [WrongType field raw]
  | Some ruleGroup =>
      (match map_get "name" ruleGroup with
       | None => [Missing (dotted field "name")]
       | Some (AString nameStr) => if decide (nameStr = "") then [Empty (dotted field "name")] else []
       | Some name => [WrongType (dotted field "name") name]
       end) ++
      (match map_get "rules" ruleGroup with
       | None => [Missing (dotted field "rules")]
       | Some (AList rulesArr) => if decide (length rulesArr = 0%nat) then [Empty (dotted field "rules")] else []
       | Some rules => [WrongType (dotted field "rules") rules]
       end)
  end.

Section Monitoring.
Context `{Validators}.

Definition validateLabels (labels : gomap string) (fieldPath : string) : list notice :=
  kv ← labels;
  ((fun _ => Invalid fieldPath kv.1) <$> IsQualifiedName kv.1) ++
  ((fun _ => Invalid fieldPath kv.2) <$> IsValidLabelValue kv.2).

Definition validateMonitoring (m : AerospikeMonitoringSpec) : list notice * list notice :=
  let port := mon_Port m in
  let image := mon_ExporterImage m in
  ((if (port <? 1) || (65535 <? port) then [OutOfRange "monitoring.port" (AInt KInt32 port)] else []) ++
   (Conflict "monitoring.port" <$> (filter (fun r => r.1 = port) aerospikeReservedPorts).*2) ++
   (if decide (image = "") then [Empty "monitoring.exporterImage"] else []) ++
   onSome (fun sm => if sm_Enabled sm && bool_decide (sm_Interval sm <> "") && negb (prometheusDuration (sm_Interval sm))
                     then [Invalid "monitoring.serviceMonitor.interval" (sm_Interval sm)] else []) (mon_ServiceMonitor m) ++
   (kv ← mon_MetricLabels m;
    (if metricLabelKey kv.1 then [] else [Invalid "monitoring.metricLabels" kv.1]) ++
    (if hasControlByte kv.2 then [Invalid "monitoring.metricLabels" kv.2] else [])) ++
   onSome (fun pr => eachIndexed validateCustomRule (pr_CustomRules pr)) (mon_PrometheusRule m) ++
   onSome (fun sm => validateLabels (sm_Labels sm) "monitoring.serviceMonitor.labels") (mon_ServiceMonitor m) ++
   onSome (fun pr => validateLabels (pr_Labels pr) "monitoring.prometheusRule.labels") (mon_PrometheusRule m),
   if decide (imageTag image <> "")
   then if decide (imageTag image = "latest") then [Advice "monitoring.exporterImage" "latest tag"] else []
   else if decide (image <> "") then [Advice "monitoring.exporterImage" "no tag"] else []).

(** Monitoring switched on is validated; switched off, its sub-features are warned about. *)
Definition checkMonitoring (m : AerospikeMonitoringSpec) : list notice * list notice :=
  if mon_Enabled m then validateMonitoring m
  else ([],
        onSome (fun sm => if sm_Enabled sm then [Advice "monitoring.serviceMonitor" "not created"] else []) (mon_ServiceMonitor m) ++
        onSome (fun pr => if pr_Enabled pr then [Advice "monitoring.prometheusRule" "not created"] else []) (mon_PrometheusRule m)).

End Monitoring.

(** ** Ports, replication factors and the work directory *)

Definition operatorFixedNetworkPorts : list (string * Z) :=
  [("service", DefaultServicePort); ("heartbeat", DefaultHeartbeatPort); ("fabric", DefaultFabricPort)].

Section Config.
Context `{GoPlatform}.

Definition extractPort (sub : string) (raw : any) : notice + Z :=
  match raw with
  | AInt KInt x => inr x
  | AInt KInt64 x => inr (i64 x)
  | AFloat64 x => inr (int64_of_float x)
  | _ => inl (WrongType ("aerospikeConfig.network." +:+ sub +:+ ".port") raw)
  end.

(** The port configured in one sub-section: nothing, an error, or a port in range. *)
Definition configuredPort (netCfg : gomap any) (sub : string) : option (notice + Z) :=
  subCfg ← as_map (map_index sub netCfg);
  raw ← map_get "port" subCfg;
  Some (match extractPort sub raw with
        | inl e => inl e
        | inr port => if (port <? 1) || (65535 <? port)
                      then inl (OutOfRange ("aerospikeConfig.network." +:+ sub +:+ ".port") (AInt KInt port)) else inr port
        end).

(** The entries [ports] collects, and the errors met on the way. *)
Definition portEntries (netCfg : gomap any) : list (string * Z) :=
  omap (fun sub => match configuredPort netCfg sub with Some (inr p) => Some (sub, p) | _ => None end)
    tlsNetworkSubsections.

Definition portErrors (netCfg : gomap any) : list notice :=
  omap (fun sub => match configuredPort netCfg sub with Some (inl e) => Some e | _ => None end) tlsNetworkSubsections.

(** Pairs [i < j] with the same port. *)
Fixpoint portConflicts (ports : list (string * Z)) : list notice :=
  match ports with
  | [] => []
  | p :: ports => (Conflict p.1 <$> (filter (fun q => q.2 = p.2) ports).*1) ++ portConflicts ports
  end.

Definition validateNetworkPortUniqueness (config : gomap any) : list notice :=
  match as_map (map_index "network" config) with
  | None => []
  | Some netCfg =>
      let ports := portEntries netCfg in
      portErrors netCfg ++
      (p ← ports; Conflict p.1 <$> (filter (fun r => r.1 = p.2 /\ r.2 <> p.1) aerospikeReservedPorts).*2) ++
      portConflicts ports ++
      (p ← ports; Conflict p.1 <$> (filter (fun f => f.1 = p.1 /\ f.2 <> p.2) operatorFixedNetworkPorts).*1)
  end.

(** The replication factor as an int: every integer type, and a float64 that is whole. *)
Definition replicationFactorInt (rf : any) : option Z :=
  match rf with
  | AInt KInt v | AInt KInt32 v | AInt KInt64 v => Some v
  | AFloat64 v => if negb (SFeqb v (float64_of_Z (int64_of_float v))) || SFltb v (float64_of_Z 0) then None
                  else Some (int64_of_float v)
  | _ => None
  end.

Definition validateNamespaceFactor (spec : AerospikeClusterSpec) (ns : any) : list notice :=
  match nsMap ← as_map ns; rf ← map_get "replication-factor" nsMap; Some (nsMap, rf) with
  | None => []
  | Some (nsMap, rf) =>
      let nsName := default "" (as_string (map_index "name" nsMap)) in
      match replicationFactorInt rf with
      | None => [WrongType nsName rf]
      | Some rfInt =>
          if rfInt <? 1 then [OutOfRange nsName rf]
          else if sizeDeferred spec then []
          else if spec_Size spec <? rfInt then [ExceedsSize nsName rfInt (spec_Size spec)] else []
      end
  end.

Definition validateReplicationFactor (spec : AerospikeClusterSpec) : list notice :=
  match config ← spec_AerospikeConfig spec; as_list (map_index "namespaces" config) with
  | None => []
  | Some nsList => ns ← nsList; validateNamespaceFactor spec ns
  end.

Definition validateWorkDirectory (spec : AerospikeClusterSpec) : list notice :=
  if decide (val_SkipWorkDirValidate <$> spec_ValidationPolicy spec = Some true) then []
  else match config ← spec_AerospikeConfig spec; svcCfg ← as_map (map_index "service" config);
             as_string (map_index "work-directory" svcCfg) with
       | Some workDir =>
           if decide (workDir <> "" /\ hasVolumeForPath (spec_Storage spec) workDir = false)
           then [Advice "work-directory" "no persistent volume"] else []
       | None => []
       end.

(** ** Overrides and the whole resource *)

Definition validateOverrides (overrides : AerospikeClusterTemplateSpec) : list notice :=
  (if decide (tp_Image overrides = "") then [] else enterpriseImage "spec.overrides.image" (tp_Image overrides)) ++
  onSome (fun size => if (size <? 1) || (maxCEClusterSize <? size)
                      then [OutOfRange "spec.overrides.size" (AInt KInt32 size)] else []) (tp_Size overrides) ++
  onSome (fun ac =>
    onSome (fun nd => validateTemplateConfigBannedKeys "spec.overrides.aerospikeConfig.namespaceDefaults" nd true)
      (tac_NamespaceDefaults ac) ++
    onSome (fun svc => validateTemplateConfigBannedKeys "spec.overrides.aerospikeConfig.service" svc false)
      (tac_Service ac)) (tp_AerospikeConfig overrides).

Context `{Validators}.

(** The errors and the warnings of [validate]. *)
Definition validateErrors (spec : AerospikeClusterSpec) : list notice :=
  (validateSizeAndImage spec).1 ++
  onSome configErrors (spec_AerospikeConfig spec) ++
  onSome validateAccessControl (spec_AerospikeAccessControl spec) ++
  onSome validatePodSpecContainerNames (spec_PodSpec spec) ++
  onSome (fun rc => (validateRackConfig rc).1 ++ validateRackCount spec rc) (spec_RackConfig spec) ++
  onSome (fst ∘ checkMonitoring) (spec_Monitoring spec) ++
  onSome (fst ∘ validateStorage) (spec_Storage spec) ++
  (validateRackStorage (spec_RackConfig spec)).1 ++
  onSome validateNetworkPortUniqueness (spec_AerospikeConfig spec) ++
  validateReplicationFactor spec ++
  validateIntOrString (spec_MaxUnavailable spec) "maxUnavailable" 0 ++
  validateMaxUnavailable spec ++
  validateRackMaxUnavailable spec ++
  validateOperations (spec_Operations spec) ++
  (if decide (spec_Overrides spec <> None /\ spec_TemplateRef spec = None) then [Conflict "spec.overrides" "templateRef"] else []) ++
  onSome validateOverrides (spec_Overrides spec).

Definition validateWarnings (spec : AerospikeClusterSpec) : list notice :=
  (validateSizeAndImage spec).2 ++
  onSome (snd ∘ validateAerospikeConfig) (spec_AerospikeConfig spec) ++
  onSome hostNetworkWarnings (spec_PodSpec spec) ++
  onSome (snd ∘ validateRackConfig) (spec_RackConfig spec) ++
  onSome (snd ∘ checkMonitoring) (spec_Monitoring spec) ++
  onSome (snd ∘ validateStorage) (spec_Storage spec) ++
  (validateRackStorage (spec_RackConfig spec)).2 ++
  validateWorkDirectory spec ++ validateBatchSize spec ++ validateRackBatchSize spec.

(** [validate]: the warnings, and the errors when there are any. *)
Definition validate (cluster : AerospikeCluster) : list notice * option (list notice) :=
  (validateWarnings (cl_Spec cluster),
   match validateErrors (cl_Spec cluster) with [] => None | errs => Some errs end).

(** *** Checks against the API server *)

Definition serviceMonitorName (cluster : AerospikeCluster) : string := cl_Name cluster +:+ "-monitor".

(** The reader answers a Get by name with the owners of the ServiceMonitor. *)
Definition validateServiceMonitorUniqueness (reader : option (string -> goerr + list OwnerReference))
    (cluster : AerospikeCluster) : list notice :=
  match reader, spec_Monitoring (cl_Spec cluster) with
  | Some get, Some m =>
      if mon_Enabled m && bool_decide (sm_Enabled <$> mon_ServiceMonitor m = Some true) then
        match get (serviceMonitorName cluster) with
        | inl err => if IsNotFound err || IsNoMatchError err || IsForbidden err then []
                     else [Invalid "serviceMonitor" (serviceMonitorName cluster)]
        | inr refs => if existsb (fun ref => bool_decide (or_UID ref = cl_UID cluster)) refs then []
                      else [Conflict "serviceMonitor" (serviceMonitorName cluster)]
        end
      else []
  | _, _ => []
  end.

(** The verdict of an admission request: warnings, and the reasons of a rejection. *)
Definition verdict : Type := list notice * option (list notice).
Definition reject (errs : list notice) : verdict := ([], Some errs).
Definition admitted (v : verdict) : Prop := v.2 = None.

Definition validateWithCtx (reader : option (string -> goerr + list OwnerReference)) (cluster : AerospikeCluster) : verdict :=
  let '(warnings, err) := validate cluster in
  match err with
  | Some errs => (warnings, Some errs)
  | None => (warnings, match validateServiceMonitorUniqueness reader cluster with [] => None | errs => Some errs end)
  end.

Definition ValidateCreate (reader : option (string -> goerr + list OwnerReference)) (cluster : AerospikeCluster) : verdict :=
  validateWithCtx reader cluster.

Definition ValidateDelete (cluster : AerospikeCluster) : verdict := ([], None).

(** ** Updates *)

Definition pvBackedVolumes (storage : option AerospikeStorageSpec) : gomap PersistentVolumeSpec :=
  foldl (fun out vol => match vol_PersistentVolume vol with Some pv => map_set (vol_Name vol) pv out | None => out end)
    [] (from_option st_Volumes [] storage).

(** [reflect.DeepEqual] on label selectors and metadata; a nil and an empty map are one. *)
Definition labelSelectorEqual (a b : LabelSelector) : bool :=
  mapsEqual (ls_MatchLabels a) (ls_MatchLabels b) &&
  deepEqual (AList (ls_MatchExpressions a)) (AList (ls_MatchExpressions b)).
Definition objectMetaEqual (a b : AerospikeObjectMeta) : bool :=
  mapsEqual (om_Annotations a) (om_Annotations b) && mapsEqual (om_Labels a) (om_Labels b).
Definition pointerEqual {A} (eq : A -> A -> bool) (a b : option A) : bool :=
  match a, b with Some a, Some b => eq a b | None, None => true | _, _ => false end.

Definition sizeEqual (a b : string) : bool :=
  bool_decide (a = b) ||
  match ParseQuantity a, ParseQuantity b with
  | Some aq, Some bq => bool_decide (q_Nano aq = q_Nano bq)
  | _, _ => false
  end.

Definition persistentVolumeSpecsEqual (a b : PersistentVolumeSpec) : bool :=
  sizeEqual (pv_Size a) (pv_Size b) &&
  bool_decide (pv_StorageClass a = pv_StorageClass b) && bool_decide (pv_VolumeMode a = pv_VolumeMode b) &&
  bool_decide (pv_AccessModes a = pv_AccessModes b) &&
  pointerEqual labelSelectorEqual (pv_Selector a) (pv_Selector b) &&
  pointerEqual objectMetaEqual (pv_Metadata a) (pv_Metadata b).

(** The first difference, in the order of the names. *)
Definition comparePVVolumes (field : string) (oldStorage newStorage : option AerospikeStorageSpec) : option notice :=
  let oldPVs := pvBackedVolumes oldStorage in
  let newPVs := pvBackedVolumes newStorage in
  let changed := filter (fun name =>
    pointerEqual persistentVolumeSpecsEqual (map_get name oldPVs) (map_get name newPVs) = false) (sortedKeys newPVs) in
  let removed := filter (fun name => map_get name newPVs = None) (sortedKeys oldPVs) in
  Conflict field <$> head (changed ++ removed).

Definition racksByID (rackConfig : option RackConfig) (id : Z) : option Rack :=
  last (filter (fun r => rack_ID r = id) (from_option rc_Racks [] rackConfig)).

(** Racks on both sides, by ID; which difference is reported first is up to the map. *)
Definition validateStorageImmutability (oldSpec spec : AerospikeClusterSpec) : option notice :=
  match comparePVVolumes "spec.storage" (spec_Storage oldSpec) (spec_Storage spec) with
  | Some e => Some e
  | None =>
      head (omap (fun id =>
        oldRack ← racksByID (spec_RackConfig oldSpec) id;
        newRack ← racksByID (spec_RackConfig spec) id;
        comparePVVolumes ("spec.rackConfig.racks[id=" +:+ pretty id +:+ "].storage") (rack_Storage oldRack) (rack_Storage newRack))
        (rack_ID <$> from_option rc_Racks [] (spec_RackConfig spec)))
  end.

Definition effectiveRackIDs (rackConfig : option RackConfig) : list Z :=
  match rackConfig with
  | None => [0]
  | Some rc => if decide (rc_Racks rc = []) then [0] else rack_ID <$> rc_Racks rc
  end.

(** The operation an in-progress one must stay. *)
Definition operationsEqual (a b : list OperationSpec) : bool := bool_decide (a = b).

Definition ValidateUpdate (reader : option (string -> goerr + list OwnerReference)) (oldCluster cluster : AerospikeCluster) : verdict :=
  let oldSpec := cl_Spec oldCluster in
  let spec := cl_Spec cluster in
  if negb (bool_decide (spec_TemplateRef oldSpec = spec_TemplateRef spec)) then reject [Conflict "spec.templateRef" "immutable"]
  else match validateStorageImmutability oldSpec spec with
  | Some e => reject [e]
  | None =>
      if bool_decide (os_Phase <$> st_OperationStatus (cl_Status oldCluster) = Some PhaseInProgress) &&
         negb (operationsEqual (spec_Operations oldSpec) (spec_Operations spec))
      then reject [Conflict "spec.operations" "InProgress"]
      else
        let oldIDs := effectiveRackIDs (spec_RackConfig oldSpec) in
        let newIDs := effectiveRackIDs (spec_RackConfig spec) in
        let removedIDs := filter (fun id => ~ (id ∈ newIDs)) oldIDs in
        let addedIDs := filter (fun id => ~ (id ∈ oldIDs)) newIDs in
        if negb (bool_decide (removedIDs = [])) && negb (bool_decide (addedIDs = []))
        then reject [Conflict "spec.rackConfig.racks" "added and removed"]
        else validateWithCtx reader cluster
  end.

End Config.

(** ** Defaulting: theorems *)

(** The value at a path of keys. *)
Fixpoint path_get (path : list string) (v : any) : option any :=
  match path with
  | [] => Some v
  | k :: path => m ← as_map v; v' ← map_get k m; path_get path v'
  end.

(** Every value of [a] that is not itself a map is found in [b] at the same place. *)
Definition extends_config (a b : gomap any) : Prop :=
  forall path v, path_get path (AMap a) = Some v -> as_map v = None -> path_get path (AMap b) = Some v.

Lemma extends_config_refl a : extends_config a a.
Proof. by intros path v ? ?. Qed.

Lemma extends_config_trans a b c : extends_config a b -> extends_config b c -> extends_config a c.
Proof. intros Hab Hbc path v Hp Hv. auto. Qed.

Lemma extends_set_new k v m : map_get k m = None -> extends_config m (map_set k v m).
Proof.
  intros Hk [|k' path] u; simpl; [by intros [= <-]|]. rewrite map_get_set. case_decide; subst; [by rewrite Hk|done].
Qed.

Lemma extends_set_sub k s s' m :
  map_get k m = Some (AMap s) -> extends_config s s' -> extends_config m (map_set k (AMap s') m).
Proof.
  intros Hk Hs [|k' path] u; simpl; [by intros [= <-]|]. rewrite map_get_set. case_decide; subst; [|done].
  rewrite Hk. simpl. apply Hs.
Qed.

Lemma extends_setDefault s d : extends_config s (setDefault s d).
Proof.
  unfold setDefault. destruct (map_has d.1 s) eqn:Hh; [apply extends_config_refl|]. apply extends_set_new.
  apply not_true_iff_false in Hh. rewrite map_has_true in Hh. by apply eq_None_not_Some.
Qed.

Lemma extends_setDefaults defs s : extends_config s (foldl setDefault s defs).
Proof.
  revert s. induction defs as [|d defs IH]; intros s; simpl; [apply extends_config_refl|].
  eapply extends_config_trans; [apply extends_setDefault|apply IH].
Qed.

(** A section that has all its defaults. *)
Definition complete (m : gomap any) (key : string) (defs : gomap any) : Prop :=
  exists s, map_get key m = Some (AMap s) /\ Forall (fun d => is_Some (map_get d.1 s)) defs.

Lemma setDefaults_present defs s : Forall (fun d => is_Some (map_get d.1 s)) defs -> foldl setDefault s defs = s.
Proof.
  induction 1 as [|d defs Hd _ IH]; [done|]. simpl. unfold setDefault at 2. apply map_has_true in Hd. by rewrite Hd.
Qed.

Lemma setDefaults_complete defs s k :
  is_Some (map_get k s) \/ k ∈ map_keys defs -> is_Some (map_get k (foldl setDefault s defs)).
Proof.
  revert s. induction defs as [|d defs IH]; intros s; simpl; [by intros [?|?%elem_of_nil]|].
  intros Hk. apply IH. unfold setDefault. destruct (map_has d.1 s) eqn:Hh.
  - apply map_has_true in Hh. destruct Hk as [?|Hk]; [by left|].
    apply elem_of_cons in Hk as [->|?]; [by left|by right].
  - rewrite map_get_set. destruct Hk as [?|[->|?]%elem_of_cons]; [|left; by rewrite decide_True|by right].
    left. by case_decide.
Qed.

Lemma getOrCreate_ok m key s : getOrCreateMapSection m key = Ok s ->
  map_get key m = Some (AMap s) \/ map_get key m = None /\ s = [].
Proof. unfold getOrCreateMapSection. destruct (map_get key m) as [[]|]; naive_solver. Qed.

Lemma defaultSection_ok m key defs m' : defaultSection m key defs = Ok m' ->
  extends_config m m' /\ complete m' key defs /\ forall k, k <> key -> map_get k m' = map_get k m.
Proof.
  unfold defaultSection. destruct (getOrCreateMapSection m key) as [s|] eqn:Hs; [|done]. intros [= <-]. split_and!.
  - apply getOrCreate_ok in Hs as [Hs|[Hs ->]]; [|by apply extends_set_new].
    by apply (extends_set_sub _ s), extends_setDefaults.
  - eexists. rewrite map_get_set_eq. split; [done|]. apply Forall_forall. intros d Hd.
    apply setDefaults_complete. right. apply list_elem_of_fmap. by exists d.
  - intros k Hk. by rewrite map_get_set_ne.
Qed.

Lemma defaultSection_complete m key defs : complete m key defs -> defaultSection m key defs = Ok m.
Proof.
  intros (s & Hs & Hd). unfold defaultSection, getOrCreateMapSection. rewrite Hs. simpl.
  by rewrite setDefaults_present, map_set_id.
Qed.

Lemma complete_other m m' key key' defs :
  key <> key' -> (forall k, k <> key' -> map_get k m' = map_get k m) -> complete m key defs -> complete m' key defs.
Proof. intros Hne Hk (s & Hs & Hd). exists s. by rewrite Hk. Qed.

Lemma defaultSections_ok defs m m' :
  NoDup defs.*1 -> defaultSections defs m = Ok m' ->
  extends_config m m' /\ Forall (fun d => complete m' d.1 d.2) defs /\
  forall k, ~ (k ∈ defs.*1) -> map_get k m' = map_get k m.
Proof.
  revert m. induction defs as [|[name d] defs IH]; intros m Hnd; simpl.
  { intros [= ->]. split; [apply extends_config_refl|done]. }
  csimpl in Hnd. apply NoDup_cons in Hnd as [Hn Hnd].
  destruct (defaultSection m name d) as [m1|] eqn:H1; [|done]. intros H2.
  destruct (defaultSection_ok _ _ _ _ H1) as (He1 & Hc1 & Hk1), (IH m1 Hnd H2) as (He2 & Hc2 & Hk2).
  split_and!; [by eapply extends_config_trans| |].
  - constructor; [|done]. destruct Hc1 as (s & Hs & Hd). exists s. simpl. by rewrite Hk2.
  - csimpl. intros k [Hne Hk]%not_elem_of_cons. by rewrite Hk2, Hk1.
Qed.

Lemma defaultSections_complete defs m :
  Forall (fun d => complete m d.1 d.2) defs -> defaultSections defs m = Ok m.
Proof. induction 1 as [|[name d] defs Hd _ IH]; simpl; [done|].
  rewrite defaultSection_complete by done. exact IH.
Qed.

Lemma networkDefaults_NoDup : NoDup networkDefaults.*1.
Proof. vm_compute. repeat constructor; set_solver. Qed.

Lemma defaultNetworkConfig_ok c c' : defaultNetworkConfig c = Ok c' ->
  extends_config c c' /\ (forall k, k <> "network" -> map_get k c' = map_get k c) /\
  exists net, map_get "network" c' = Some (AMap net) /\ Forall (fun d => complete net d.1 d.2) networkDefaults.
Proof.
  unfold defaultNetworkConfig. destruct (getOrCreateMapSection c "network") as [net|] eqn:Hn; [|done]. cbn [mbind res_bind].
  destruct (defaultSections networkDefaults net) as [net'|] eqn:Hd; [|done]. intros [= <-].
  destruct (defaultSections_ok _ _ _ networkDefaults_NoDup Hd) as (He & Hc & _). split_and!.
  - apply getOrCreate_ok in Hn as [Hn|[Hn ->]]; [by eapply extends_set_sub|by apply extends_set_new].
  - intros k Hk. by rewrite map_get_set_ne.
  - exists net'. by rewrite map_get_set_eq.
Qed.

Lemma defaultNetworkConfig_complete c net :
  map_get "network" c = Some (AMap net) -> Forall (fun d => complete net d.1 d.2) networkDefaults ->
  defaultNetworkConfig c = Ok c.
Proof.
  intros Hnet Hsub. unfold defaultNetworkConfig, getOrCreateMapSection. rewrite Hnet. cbn [mbind res_bind].
  rewrite defaultSections_complete by done. cbn [mbind res_bind]. by rewrite map_set_id.
Qed.

Lemma defaultMonitoring_idem m : defaultMonitoring (defaultMonitoring m) = defaultMonitoring m.
Proof.
  destruct m as [en img port rs env ml sm pr]. destruct en; [|done].
  assert (forall img port sm, defaultMonitoring (mkMonitoringSpec true img port rs env ml sm pr) =
    mkMonitoringSpec true (if decide (img = "") then DefaultExporterImage else img)
      (if decide (port = 0) then DefaultExporterPort else port) rs env ml
      ((fun sm => if sm_Enabled sm && bool_decide (sm_Interval sm = "")
                  then sm <| sm_Interval := defaultScrapeInterval |> else sm) <$> sm) pr) as Hd.
  { intros img' port' [[[] smi sml]|]; unfold defaultMonitoring; simpl; repeat case_decide; simpl;
      try done; by case_bool_decide. }
  rewrite !Hd. f_equal; [by repeat case_decide..|].
  destruct sm as [[[] smi sml]|]; simpl; [|done..]. by case_bool_decide; simpl; rewrite ?bool_decide_false.
Qed.

Lemma defaultHostNetwork_idem p : defaultHostNetwork (defaultHostNetwork p) = defaultHostNetwork p.
Proof.
  destruct p. unfold defaultHostNetwork. simpl. destruct ps_HostNetwork; [|done]. simpl.
  destruct ps_MultiPodPerHost; simpl; repeat (case_decide; simpl; try done).
Qed.

Lemma Default_config c c' : Default c = Ok c' ->
  exists config1 config2,
    defaultServiceConfig (cl_Name c) (default [] (spec_AerospikeConfig (cl_Spec c))) = Ok config1 /\
    defaultNetworkConfig config1 = Ok config2 /\ spec_AerospikeConfig (cl_Spec c') = Some config2 /\
    c' = (c <| cl_Spec ::= fun s => s <| spec_AerospikeConfig := Some config2 |>
            <| spec_Monitoring ::= fmap defaultMonitoring |> <| spec_PodSpec ::= fmap defaultHostNetwork |> |>).
Proof.
  unfold Default. destruct (defaultServiceConfig _ _) as [config1|] eqn:H1; [|done].
  cbn [mbind res_bind]. destruct (defaultNetworkConfig config1) as [config2|] eqn:H2; [|done].
  intros [= <-]. exists config1, config2. done.
Qed.

(** The three fields are independent, and each default is idempotent. *)
Lemma defaultSpec_idem c config :
  let f s := s <| spec_AerospikeConfig := Some config |> <| spec_Monitoring ::= fmap defaultMonitoring |>
               <| spec_PodSpec ::= fmap defaultHostNetwork |> in
  c <| cl_Spec ::= f |> <| cl_Spec ::= f |> = c <| cl_Spec ::= f |>.
Proof.
  set (A s := s <| spec_AerospikeConfig := Some config |>).
  set (M s := s <| spec_Monitoring ::= fmap defaultMonitoring |>).
  set (P s := s <| spec_PodSpec ::= fmap defaultHostNetwork |>).
  intros f. change f with (fun s => P (M (A s))).
  assert (forall s, A (M s) = M (A s)) as HAM by by intros [].
  assert (forall s, A (P s) = P (A s)) as HAP by by intros [].
  assert (forall s, M (P s) = P (M s)) as HMP by by intros [].
  assert (forall s, A (A s) = A s) as HA by by intros [].
  assert (forall s, M (M s) = M s) as HM.
  { intros []. unfold M, update, expand, AerospikeClusterSpec_fields. f_equal. simpl.
    destruct spec_Monitoring as [m|]; simpl; [|done]. by rewrite defaultMonitoring_idem. }
  assert (forall s, P (P s) = P s) as HP.
  { intros []. unfold P, update, expand, AerospikeClusterSpec_fields. f_equal. simpl.
    destruct spec_PodSpec as [m|]; simpl; [|done]. by rewrite defaultHostNetwork_idem. }
  destruct c as [? ? ? ? ? ? ? ? s ?]. unfold update. cbn -[A M P]. f_equal.
  by rewrite HAP, HMP, HP, HAM, HM, HA.
Qed.

(** Defaulting keeps every value the user gave, supplies a service section with
    cluster name and descriptor limit and network sections with ports and heartbeat
    mode, and applied to its own result changes nothing. *)
Theorem Default_spec c c' :
  Default c = Ok c' ->
  Default c' = Ok c' /\
  exists config, spec_AerospikeConfig (cl_Spec c') = Some config /\
    extends_config (default [] (spec_AerospikeConfig (cl_Spec c))) config /\
    complete config "service" [("cluster-name", ANil); ("proto-fd-max", ANil)] /\
    exists net, map_get "network" config = Some (AMap net) /\
      complete net "service" [("port", ANil)] /\ complete net "heartbeat" [("port", ANil); ("mode", ANil)] /\
      complete net "fabric" [("port", ANil)].
Proof.
  intros (c1 & c2 & H1 & H2 & Hc & Hc')%Default_config.
  destruct (defaultSection_ok _ _ _ _ H1) as (He1 & Hs1 & _), (defaultNetworkConfig_ok _ _ H2) as (He2 & Hk2 & net & Hnet & Hsub).
  assert (complete c2 "service" [("cluster-name", AString (cl_Name c)); ("proto-fd-max", AInt KInt defaultProtoFdMax)]) as Hs2.
  { by eapply (complete_other c1 c2 "service" "network"). }
  split.
  - unfold Default. replace (cl_Name c') with (cl_Name c) by by rewrite Hc'. rewrite Hc. cbn [default].
    unfold defaultServiceConfig. rewrite defaultSection_complete by done. cbn [mbind res_bind].
    rewrite (defaultNetworkConfig_complete _ net) by done. cbn [mbind res_bind]. f_equal.
    rewrite Hc'. apply defaultSpec_idem.
  - exists c2. split; [done|]. split; [by eapply extends_config_trans|].
    assert (forall m k d d', complete m k d -> d.*1 = d'.*1 -> complete m k d') as Hkeys.
    { intros m k d d' (s & Hs & Hd) Heq. exists s. split; [done|]. rewrite <- (Forall_fmap fst (fun n => is_Some (map_get n s))).
      rewrite <- Heq. by apply Forall_fmap. }
    split; [by eapply Hkeys|]. exists net. split; [done|]. unfold networkDefaults in Hsub.
    apply Forall_cons in Hsub as [Ha Hsub]. apply Forall_cons in Hsub as [Hb Hsub]. apply Forall_cons in Hsub as [Hd _].
    split_and!; by eapply Hkeys.
Qed.

(** ** Admission: theorems *)

Section Admission.
Context `{Environment, Validators}.

Lemma admitted_errors reader cluster : admitted (validateWithCtx reader cluster) -> validateErrors (cl_Spec cluster) = [].
Proof. unfold admitted, validateWithCtx, validate. by destruct (validateErrors (cl_Spec cluster)). Qed.

Lemma onSome_nil {A} (f : A -> list notice) o a : onSome f o = [] -> o = Some a -> f a = [].
Proof. by intros Hf ->. Qed.

(** The parts of an admitted spec. *)
Record accepted_spec (spec : AerospikeClusterSpec) : Prop := {
  as_size : (validateSizeAndImage spec).1 = [];
  as_config : forall c, spec_AerospikeConfig spec = Some c -> ce_config c;
  as_acl : forall acl, spec_AerospikeAccessControl spec = Some acl -> validateAccessControl acl = [];
  as_racks : forall rc, spec_RackConfig spec = Some rc -> (validateRackConfig rc).1 = [] /\ validateRackCount spec rc = [];
  as_storage : forall s, spec_Storage spec = Some s -> (validateStorage s).1 = [];
  as_monitoring : forall m, spec_Monitoring spec = Some m -> (checkMonitoring m).1 = [];
  as_rackStorage : (validateRackStorage (spec_RackConfig spec)).1 = [];
  as_ports : forall c, spec_AerospikeConfig spec = Some c -> validateNetworkPortUniqueness c = [];
  as_budget : validateIntOrString (spec_MaxUnavailable spec) "maxUnavailable" 0 = [] /\ validateMaxUnavailable spec = [];
  as_rackBudgets : validateRackMaxUnavailable spec = [];
  as_operations : validateOperations (spec_Operations spec) = [];
  as_overrides : forall o, spec_Overrides spec = Some o -> validateOverrides o = []
}.

Lemma admitted_spec reader cluster : admitted (validateWithCtx reader cluster) -> accepted_spec (cl_Spec cluster).
Proof.
  intros Ha%admitted_errors. unfold validateErrors in Ha. rewrite !app_nil in Ha.
  destruct Ha as (Hs & Hc & Hacl & _ & Hr & Hmo & Hst & Hrst & Hp & _ & Hmu & Hmu' & Hrm & Hop & _ & Hov).
  split; try done.
  - intros c Hcc. apply configErrors_nil. by eapply onSome_nil.
  - intros acl Hacl'. by eapply (onSome_nil validateAccessControl).
  - intros rc Hrc. apply app_nil. exact (onSome_nil _ _ _ Hr Hrc).
  - intros s Hs'. exact (onSome_nil _ _ _ Hst Hs').
  - intros m Hm. exact (onSome_nil _ _ _ Hmo Hm).
  - intros c Hcc. exact (onSome_nil _ _ _ Hp Hcc).
  - intros o Ho. exact (onSome_nil _ _ _ Hov Ho).
Qed.

(** Every rack: a positive ID of its own, and an accepted configuration. *)
Lemma validateRacks_nil ids labels racks :
  (validateRacks ids labels racks).1 = [] ->
  Forall (fun r => 0 < rack_ID r /\ ~ (rack_ID r ∈ ids) /\ forall c, rack_AerospikeConfig r = Some c -> ce_config c) racks /\
  NoDup (rack_ID <$> racks).
Proof.
  revert ids labels. induction racks as [|r racks IH]; intros ids labels; [by split; [|apply NoDup_nil_2]|].
  cbn [validateRacks]. unfold validateRack.
  destruct (from_option validateAerospikeConfig ([], []) (rack_AerospikeConfig r)) as [ce cw] eqn:Hc.
  specialize (IH (rack_ID r :: ids) (rack_RackLabel r :: labels)).
  destruct (validateRacks _ _ racks) as [e w]. cbn [fst] in *. rewrite !app_nil.
  intros [(Hpos & Hdup & _ & Hcfg) He]. destruct (IH He) as [Hall Hnd].
  destruct (Z.leb_spec (rack_ID r) 0); [done|]. destruct (decide (rack_ID r ∈ ids)); [done|].
  split.
  - constructor.
    + split_and!; [done..|]. intros c Hr. rewrite Hr in Hc. apply fmap_nil_iff in Hcfg as ->.
      apply configErrors_nil. unfold configErrors. simpl in Hc. by rewrite Hc.
    + eapply Forall_impl; [exact Hall|]. intros r' (? & Hn & ?). split_and!; [done| |done].
      intros Hin. apply Hn. by right.
  - csimpl. apply NoDup_cons. split; [|done]. intros (r' & Heq & Hr')%list_elem_of_fmap.
    rewrite Forall_forall in Hall. destruct (Hall r' Hr') as (_ & Hn & _). apply Hn. rewrite <- Heq. by left.
Qed.

Lemma accepted_racks spec rc :
  accepted_spec spec -> spec_RackConfig spec = Some rc ->
  Forall (fun r => 0 < rack_ID r /\ forall c, rack_AerospikeConfig r = Some c -> ce_config c) (rc_Racks rc) /\
  NoDup (rack_ID <$> rc_Racks rc).
Proof.
  intros Ha Hrc. destruct (as_racks _ Ha rc Hrc) as [Hr _]. unfold validateRackConfig in Hr.
  pose proof (validateRacks_nil [] [] (rc_Racks rc)) as Hv. destruct (validateRacks [] [] (rc_Racks rc)) as [e w].
  cbn [fst] in *. apply app_nil in Hr as [-> _]. destruct (Hv eq_refl) as [Hall Hnd]. split; [|done].
  eapply Forall_impl; [exact Hall|]. by intros r (? & _ & ?).
Qed.

(** The racks of the controller: those of the spec, or the default one. *)
Lemma getRacks_cases cluster :
  (exists rc, spec_RackConfig (cl_Spec cluster) = Some rc /\ rc_Racks rc <> [] /\ getRacks cluster = rc_Racks rc) \/
  getRacks cluster = [plainRack 0] /\
    (spec_RackConfig (cl_Spec cluster) = None \/ exists rc, spec_RackConfig (cl_Spec cluster) = Some rc /\ rc_Racks rc = []).
Proof.
  unfold getRacks. destruct (spec_RackConfig (cl_Spec cluster)) as [rc|]; [|by right; auto].
  destruct (rc_Racks rc) as [|r rs] eqn:Hr; [right; split; [done|]; right; by exists rc|left; exists rc; by rewrite Hr].
Qed.

Lemma accepted_rack_config cluster rack c :
  accepted_spec (cl_Spec cluster) -> rack ∈ getRacks cluster -> rack_AerospikeConfig rack = Some c -> ce_config c.
Proof.
  intros Ha Hin Hc. destruct (getRacks_cases cluster) as [(rc & Hrc & _ & Hg)|[Hg _]]; rewrite Hg in Hin.
  - destruct (accepted_racks _ rc Ha Hrc) as [Hall _]. rewrite Forall_forall in Hall. by apply (Hall rack).
  - apply list_elem_of_singleton in Hin as ->. done.
Qed.

Lemma ce_minimalConfig name : ce_config (minimalConfig name).
Proof. apply configErrors_nil. unfold minimalConfig. reflexivity. Qed.

(** What a rack runs with, when both sides are accepted. *)
Lemma effective_ce cluster rack :
  accepted_spec (cl_Spec cluster) -> rack ∈ getRacks cluster ->
  (forall c, rack_AerospikeConfig rack = Some c -> config_wf c) ->
  ce_config (default (minimalConfig (cl_Name cluster)) (getEffectiveConfig cluster rack)).
Proof.
  intros Ha Hin Hwf. unfold getEffectiveConfig.
  destruct (spec_AerospikeConfig (cl_Spec cluster)) as [c|] eqn:Hc, (rack_AerospikeConfig rack) as [o|] eqn:Ho; simpl.
  - apply ce_config_merge; [by apply Hwf|by apply (as_config _ Ha)|by eapply accepted_rack_config].
  - by apply (as_config _ Ha).
  - by eapply accepted_rack_config.
  - apply ce_minimalConfig.
Qed.

Lemma effective_named cluster rack :
  (forall c, rack_AerospikeConfig rack = Some c -> config_wf c) ->
  (forall c, spec_AerospikeConfig (cl_Spec cluster) = Some c \/ rack_AerospikeConfig rack = Some c -> named_namespaces c) ->
  named_namespaces (default (minimalConfig (cl_Name cluster)) (getEffectiveConfig cluster rack)).
Proof.
  intros Hwf Hn. unfold getEffectiveConfig.
  destruct (spec_AerospikeConfig (cl_Spec cluster)) as [c|] eqn:Hc, (rack_AerospikeConfig rack) as [o|] eqn:Ho; simpl; auto.
  - apply named_namespaces_merge; [by eapply any_wf_map_wf, Hwf|by auto..].
  - by intros l [=].
Qed.

(** C16: every rack of an admitted cluster runs a Community Edition configuration, also
    after its override is merged in, and its aerospike.conf can be rendered whenever the
    namespaces are named by non-empty strings *)
Theorem admitted_config_renders reader cluster rack :
  admitted (validateWithCtx reader cluster) -> rack ∈ getRacks cluster ->
  (forall c, rack_AerospikeConfig rack = Some c -> config_wf c) ->
  ce_config (default (minimalConfig (cl_Name cluster)) (getEffectiveConfig cluster rack)) /\
  ((forall c, spec_AerospikeConfig (cl_Spec cluster) = Some c \/ rack_AerospikeConfig rack = Some c -> named_namespaces c) ->
   is_ok (rackConfText cluster (getEffectiveConfig cluster rack)) = true).
Proof.
  intros Ha%admitted_spec Hin Hwf. pose proof (effective_ce _ _ Ha Hin Hwf) as Hce. split; [done|].
  intros Hn. unfold rackConfText, renderedConfig. apply ce_config_renders; [done|]. by apply effective_named.
Qed.

(** *** Racks and budgets *)

Lemma accepted_size spec : accepted_spec spec -> sizeDeferred spec = false -> 0 <= spec_Size spec -> 1 <= spec_Size spec <= 8.
Proof.
  intros Ha Hd Hs. pose proof (as_size _ Ha) as Hv. unfold validateSizeAndImage in Hv.
  assert ((if maxCEClusterSize <? spec_Size spec then [OutOfRange "spec.size" (AInt KInt32 (spec_Size spec))] else []) = [] /\
          (if bool_decide (spec_Size spec = 0 /\ spec_TemplateRef spec = None) then [Missing "spec.size"] else []) = []) as [H8 Hz0].
  { case_decide; cbn [fst] in Hv; rewrite !app_nil in Hv; naive_solver. }
  unfold maxCEClusterSize in H8. destruct (Z.ltb_spec 8 (spec_Size spec)); [done|].
  unfold sizeDeferred in Hd. apply bool_decide_eq_false in Hd. case_bool_decide as Hz; [done|].
  destruct (decide (spec_Size spec = 0)); [|lia]. destruct (spec_TemplateRef spec); naive_solver.
Qed.

Lemma accepted_rack_count cluster :
  accepted_spec (cl_Spec cluster) -> sizeDeferred (cl_Spec cluster) = false -> 1 <= spec_Size (cl_Spec cluster) ->
  Z.of_nat (length (getRacks cluster)) <= spec_Size (cl_Spec cluster).
Proof.
  intros Ha Hd Hs. destruct (getRacks_cases cluster) as [(rc & Hrc & Hne & ->)|[-> _]]; [|simpl; lia].
  destruct (as_racks _ Ha rc Hrc) as [_ Hc]. unfold validateRackCount in Hc. rewrite Hd in Hc. simpl in Hc.
  destruct (Z.ltb_spec 0 (Z.of_nat (length (rc_Racks rc)))); simpl in Hc.
  - destruct (Z.ltb_spec (spec_Size (cl_Spec cluster)) (Z.of_nat (length (rc_Racks rc)))); [done|lia].
  - lia.
Qed.

Lemma rack_sizes_pos cluster i :
  1 <= spec_Size (cl_Spec cluster) <= 8 -> Z.of_nat (length (getRacks cluster)) <= spec_Size (cl_Spec cluster) ->
  (i < length (getRacks cluster))%nat -> 1 <= getRackSize cluster (getRacks cluster) (Z.of_nat i).
Proof.
  intros Hs Hn Hi. unfold getRackSize. rewrite !(i32_small (Z.of_nat _)) by lia.
  set (n := Z.of_nat (length (getRacks cluster))) in *. assert (0 < n) by lia.
  rewrite Z.quot_div_nonneg, Z.rem_mod_nonneg by lia.
  assert (1 <= spec_Size (cl_Spec cluster) / n) by (apply Z.div_le_lower_bound; lia).
  assert (spec_Size (cl_Spec cluster) / n <= 8) by (apply Z.div_le_upper_bound; nia).
  case_match; [|lia]. rewrite i32_small; lia.
Qed.

(** A disruption budget for [n] pods: fewer of them, or less than all in percent. *)
Definition budgetBelow (n : Z) (mu : IntOrString) : Prop :=
  match mu with
  | IntVal v => v < n
  | StrVal s => forall digits p, s = digits +:+ "%" -> atoi digits = Some p -> p < 100
  end.

Lemma maxUnavailableErrors_nil mu field size :
  maxUnavailableErrors mu field size = [] -> 0 < size -> budgetBelow size mu.
Proof.
  destruct mu as [v|s]; simpl.
  - destruct (Z.ltb_spec 0 size), (Z.leb_spec size v); simpl; try done; lia.
  - intros Hn _ digits p -> Hp. rewrite cut_suffix_app, Hp in Hn. by destruct (Z.leb_spec 100 p).
Qed.

(** The pod count the webhook holds a rack's budget against is the controller's. *)
Lemma accepted_rack_budget cluster i rack mu :
  accepted_spec (cl_Spec cluster) -> sizeDeferred (cl_Spec cluster) = false ->
  getRacks cluster !! i = Some rack -> rack_MaxUnavailable rack = Some mu ->
  0 < getRackSize cluster (getRacks cluster) (Z.of_nat i) ->
  budgetBelow (getRackSize cluster (getRacks cluster) (Z.of_nat i)) mu.
Proof.
  intros Ha Hd Hi Hv Hpos. destruct (getRacks_cases cluster) as [(rc & Hrc & Hne & Hg)|[Hg _]]; rewrite Hg in *.
  2: { destruct i as [|[]]; simpl in Hi; by simplify_eq/=. }
  pose proof (as_rackBudgets _ Ha) as Hb. unfold validateRackMaxUnavailable in Hb. rewrite Hrc, Hd in Hb.
  rewrite bool_decide_false in Hb by done. cbn [orb] in Hb. unfold eachIndexed in Hb.
  apply concat_nil_Forall in Hb. rewrite Forall_lookup in Hb. specialize (Hb i). rewrite list_lookup_imap, Hi in Hb.
  specialize (Hb _ eq_refl). cbn beta in Hb. rewrite Hv in Hb. cbn [onSome from_option] in Hb.
  change (if i32 (Z.of_nat i) <? _ then _ else _) with (getRackSize cluster (rc_Racks rc) (Z.of_nat i)) in Hb.
  by eapply maxUnavailableErrors_nil.
Qed.


(** C20: when the size is not left to a template and no rack has a budget of its own, an
    admitted maxUnavailable reaches the cluster-wide disruption budget as it was
    written: the clamp of the controller does not change it *)
Theorem admitted_budget_exact reader cluster mu :
  admitted (validateWithCtx reader cluster) -> sizeDeferred (cl_Spec cluster) = false -> 0 <= spec_Size (cl_Spec cluster) ->
  spec_MaxUnavailable (cl_Spec cluster) = Some mu -> Forall (fun r => rack_MaxUnavailable r = None) (getRacks cluster) ->
  pol_MaxUnavailable (clusterPDBPolicy cluster (getRacks cluster)) = Some mu.
Proof.
  intros Ha%admitted_spec Hd Hnn Hmu Hnone. pose proof (accepted_size _ Ha Hd Hnn) as Hs.
  assert (forall dmu size, clusterPDBPolicy cluster (getRacks cluster) = resolvePDBPolicy (Some mu) dmu size ->
    size = spec_Size (cl_Spec cluster) -> pol_MaxUnavailable (clusterPDBPolicy cluster (getRacks cluster)) = Some mu) as Hr.
  { intros dmu size -> ->. unfold resolvePDBPolicy. destruct mu as [v|s]; [|done].
    destruct (as_budget _ Ha) as [Hlo Hhi]. unfold validateMaxUnavailable in Hhi. rewrite Hmu, Hd in Hhi. rewrite Hmu in Hlo.
    simpl in Hlo, Hhi. destruct (Z.ltb_spec v 0); [done|]. destruct (Z.ltb_spec 0 (spec_Size (cl_Spec cluster))); [|lia].
    destruct (Z.leb_spec (spec_Size (cl_Spec cluster)) v); [done|].
    rewrite (i32_small (spec_Size (cl_Spec cluster) - 1)) by lia.
    destruct (Z.ltb_spec (spec_Size (cl_Spec cluster) - 1) v); [lia|]. rewrite andb_false_r.
    destruct (Z.ltb_spec v 0); [lia|done]. }
  eapply Hr; [|done]. unfold clusterPDBPolicy. rewrite Hmu. f_equal.
  destruct (getRacks cluster) as [|r rs]; [done|]. apply Forall_cons in Hnone as [-> _]. by destruct rs.
Qed.

(** *** Access control *)

Lemma duplicates_nil field seen names :
  duplicates field seen names = [] <-> NoDup names /\ Forall (fun n => ~ (n ∈ seen)) names.
Proof.
  revert seen. induction names as [|n names IH]; intros seen; simpl; [by split; [split; [apply NoDup_nil_2|]|]|].
  rewrite app_nil, IH, NoDup_cons, Forall_cons, !Forall_forall. setoid_rewrite elem_of_cons.
  destruct (decide (n ∈ seen)); [naive_solver|]. split.
  - intros [_ [Hnd Hs]]. split_and!; [|done|done|naive_solver]. intros Hn. apply (Hs n Hn). by left.
  - intros [[Hn Hnd] [_ Hs]]. split; [done|]. split; [done|]. intros x Hx [->|Hin]; naive_solver.
Qed.

Lemma roleNames_nil seen i names :
  validateRoleNames seen i names = [] ->
  NoDup names /\ Forall (fun n => n <> "" /\ ~ (n ∈ seen)) names.
Proof.
  revert seen i. induction names as [|n names IH]; intros seen i; simpl; [by split; [apply NoDup_nil_2|]|].
  case_decide as Hn; [done|]. rewrite app_nil. case_decide as Hin; [by intros [[=] _]|]. intros [_ Hr].
  destruct (IH _ _ Hr) as [Hnd Hall]. rewrite NoDup_cons, Forall_cons, !Forall_forall in *. setoid_rewrite elem_of_cons in Hall.
  split_and!; [|done..|]; [|naive_solver]. intros Hx. destruct (Hall n Hx) as [_ Hs]. naive_solver.
Qed.

(** The roles the Community Edition comes with; the first five can be limited to a
    namespace or to a set, the others hold for the whole cluster. *)
Definition scopedRoles : list string := ["read"; "write"; "read-write"; "read-write-udf"; "truncate"].
Definition globalRoles : list string := ["data-admin"; "sys-admin"; "user-admin"].
Definition predefinedRole (r : string) : Prop := r ∈ scopedRoles \/ r ∈ globalRoles.

(** The name of a namespace or of a set in a privilege. *)
Definition scopePart (s : string) : Prop := s <> "" /\ str_contains "." s = false.

(** A privilege the server accepts: a role, with a scope of one or two parts where it may have one. *)
Inductive well_formed_privilege : string -> Prop :=
| priv_global code : predefinedRole code -> well_formed_privilege code
| priv_namespace code ns :
    code ∈ scopedRoles -> scopePart ns -> well_formed_privilege (code +:+ "." +:+ ns)
| priv_set code ns set :
    code ∈ scopedRoles -> scopePart ns -> scopePart set -> well_formed_privilege (code +:+ "." +:+ ns +:+ "." +:+ set).

Lemma builtinRoles_spec r : r ∈ aerospikeCEBuiltinRoles <-> predefinedRole r.
Proof. unfold predefinedRole, aerospikeCEBuiltinRoles, scopedRoles, globalRoles. set_solver. Qed.

Lemma scoped_code code :
  code ∈ aerospikeCEBuiltinRoles -> ~ (code ∈ aerospikeGlobalOnlyPrivileges) -> code ∈ scopedRoles.
Proof. unfold aerospikeCEBuiltinRoles, aerospikeGlobalOnlyPrivileges, scopedRoles. set_solver. Qed.

Lemma split_on_parts c s : Forall (fun x => str_contains c x = false) (split_on c s).
Proof.
  induction s as [|a s IH]; simpl; [by repeat constructor|]. case_decide as Ha; [by constructor|].
  destruct (split_on c s) as [|x l]; [constructor; [|done]; simpl; by rewrite bool_decide_false|].
  apply Forall_cons in IH as [Hx Hl]. constructor; [|done]. simpl. by rewrite bool_decide_false, Hx.
Qed.

Lemma privilege_nil role p : validatePrivilege role p = [] -> well_formed_privilege p.
Proof.
  unfold validatePrivilege. destruct (onlySpace p); [done|]. destruct (hasEdgeSpace p); [done|].
  destruct (split_first "." p) as [[code scope]|] eqn:Hs.
  - apply split_first_Some in Hs as [-> _]. case_bool_decide as Hc; [|done]. simpl negb. cbv iota.
    case_decide as Hg; [done|]. pose proof (scoped_code code Hc Hg) as Hsc.
    unfold validatePrivilegeScope. pose proof (join_split_on "." scope) as Hj. pose proof (split_on_parts "." scope) as Hp.
    destruct (split_on "." scope) as [|ns [|set [|]]]; try done; simpl in Hj.
    + case_decide; [done|]. intros _. rewrite <- Hj. apply Forall_cons in Hp as [Hp _]. by apply priv_namespace.
    + case_decide; [done|]. case_decide; [done|]. intros _. rewrite <- Hj.
      apply Forall_cons in Hp as [Hp1 [Hp2 _]%Forall_cons]. by apply priv_set.
  - case_bool_decide as Hc; [|done]. intros _. by apply priv_global, builtinRoles_spec.
Qed.


(** *** Ports *)

Lemma portErrors_nil net sub n :
  sub ∈ tlsNetworkSubsections -> portErrors net = [] -> configuredPort net sub <> Some (inl n).
Proof.
  intros Hin Hnil Hc. assert (n ∈ portErrors net) as Hn; [|rewrite Hnil in Hn; by apply elem_of_nil in Hn].
  apply list_elem_of_omap. exists sub. by rewrite Hc.
Qed.

Lemma portEntries_elem net sub p :
  sub ∈ tlsNetworkSubsections -> configuredPort net sub = Some (inr p) -> (sub, p) ∈ portEntries net.
Proof. intros Hin Hc. apply list_elem_of_omap. exists sub. by rewrite Hc. Qed.

(** A port that is set is the one the operator has wired in. *)
Lemma accepted_port c net sub fixed raw subCfg :
  validateNetworkPortUniqueness c = [] -> map_get "network" c = Some (AMap net) ->
  (sub, fixed) ∈ operatorFixedNetworkPorts -> map_get sub net = Some (AMap subCfg) -> map_get "port" subCfg = Some raw ->
  extractPort sub raw = inr fixed.
Proof.
  intros Hv Hnet Hfix Hsub Hraw. unfold validateNetworkPortUniqueness in Hv.
  apply as_map_index_iff in Hnet as Hnet'. rewrite Hnet' in Hv. rewrite !app_nil in Hv.
  destruct Hv as (He & _ & _ & Hf). rewrite bind_nil_iff in Hf.
  assert (sub ∈ tlsNetworkSubsections) as Hin.
  { unfold operatorFixedNetworkPorts in Hfix. unfold tlsNetworkSubsections. set_solver. }
  assert (configuredPort net sub = Some (match extractPort sub raw with
    | inl e => inl e
    | inr port => if (port <? 1) || (65535 <? port)
                  then inl (OutOfRange ("aerospikeConfig.network." +:+ sub +:+ ".port") (AInt KInt port)) else inr port
    end)) as Hc.
  { unfold configuredPort. apply as_map_index_iff in Hsub as ->. simpl. by rewrite Hraw. }
  destruct (extractPort sub raw) as [e|p]; [by destruct (portErrors_nil _ _ _ Hin He Hc)|].
  destruct ((p <? 1) || (65535 <? p)); [by destruct (portErrors_nil _ _ _ Hin He Hc)|]. f_equal.
  specialize (Hf (sub, p) (portEntries_elem _ _ _ Hin Hc)). simpl in Hf. rewrite !fmap_nil_iff, filter_nil_iff in Hf.
  specialize (Hf (sub, fixed) Hfix). simpl in Hf. destruct (decide (p = fixed)); [done|]. destruct Hf. naive_solver.
Qed.

(** The service, heartbeat and fabric ports that an admitted configuration sets are
    the fixed ports of the operator, so the mesh seeds rendered from it use the
    heartbeat port the container listens on. *)
Theorem admitted_ports reader cluster config :
  admitted (validateWithCtx reader cluster) -> spec_AerospikeConfig (cl_Spec cluster) = Some config ->
  configuredHeartbeatPort config = HeartbeatPort /\
  forall net sub fixed subCfg raw, map_get "network" config = Some (AMap net) -> (sub, fixed) ∈ operatorFixedNetworkPorts ->
    map_get sub net = Some (AMap subCfg) -> map_get "port" subCfg = Some raw -> extractPort sub raw = inr fixed.
Proof.
  intros Ha%admitted_spec Hc. pose proof (as_ports _ Ha config Hc) as Hp. split.
  - unfold configuredHeartbeatPort. destruct (as_map (map_index "network" config)) as [net|] eqn:Hnet; [|done].
    destruct (as_map (map_index "heartbeat" net)) as [hb|] eqn:Hhb; [|done].
    destruct (map_get "port" hb) as [raw|] eqn:Hraw; [|done].
    apply as_map_index_iff in Hnet, Hhb.
    pose proof (accepted_port _ net "heartbeat" DefaultHeartbeatPort raw hb Hp Hnet) as He.
    specialize (He ltac:(unfold operatorFixedNetworkPorts; set_solver) Hhb Hraw).
    unfold extractPort in He. unfold IntFromAny.
    destruct raw as [| |k z| |f| | |]; try done; [destruct k; try done|]; by injection He.
  - intros net sub fixed subCfg raw Hnet Hf Hsub Hraw. by eapply accepted_port.
Qed.

(** *** Updates *)

(** The persistent volume of a name; of several the last. *)
Definition volumeNamed (storage : option AerospikeStorageSpec) (name : string) : option PersistentVolumeSpec :=
  last (omap (fun vol => if decide (vol_Name vol = name) then vol_PersistentVolume vol else None)
    (from_option st_Volumes [] storage)).

Definition sameMap (a b : gomap string) : Prop := map_wf a -> map_wf b -> forall k, map_get k a = map_get k b.

(** One claim: the size as a quantity, everything else as it is written. *)
Definition sameVolume (a b : PersistentVolumeSpec) : Prop :=
  (pv_Size a = pv_Size b \/
   exists qa qb, ParseQuantity (pv_Size a) = Some qa /\ ParseQuantity (pv_Size b) = Some qb /\ q_Nano qa = q_Nano qb) /\
  pv_StorageClass a = pv_StorageClass b /\ pv_VolumeMode a = pv_VolumeMode b /\ pv_AccessModes a = pv_AccessModes b /\
  option_Forall2 (fun sa sb => sameMap (ls_MatchLabels sa) (ls_MatchLabels sb)) (pv_Selector a) (pv_Selector b) /\
  option_Forall2 (fun ma mb => sameMap (om_Annotations ma) (om_Annotations mb) /\ sameMap (om_Labels ma) (om_Labels mb))
    (pv_Metadata a) (pv_Metadata b).

(** The same persistent volumes, by name. *)
Definition same_pvs (a b : option AerospikeStorageSpec) : Prop :=
  forall name, option_Forall2 sameVolume (volumeNamed a name) (volumeNamed b name).

Lemma pvBackedVolumes_get storage name : map_get name (pvBackedVolumes storage) = volumeNamed storage name.
Proof.
  unfold pvBackedVolumes, volumeNamed. generalize (from_option st_Volumes [] storage). intros l.
  induction l as [|v l IH] using rev_ind; [done|]. rewrite foldl_app, omap_app. simpl.
  case_decide as Hv; [|rewrite app_nil_r; destruct (vol_PersistentVolume v); [by rewrite map_get_set, decide_False|done]].
  destruct (vol_PersistentVolume v) as [pv|]; [|by rewrite app_nil_r].
  by rewrite last_snoc, map_get_set, decide_True.
Qed.

Lemma pointerEqual_Forall2 {A} (eq : A -> A -> bool) (P : A -> A -> Prop) a b :
  (forall x y, eq x y = true -> P x y) -> pointerEqual eq a b = true -> option_Forall2 P a b.
Proof. intros HP. destruct a, b; try done; [|by constructor]. intros He. constructor. by apply HP. Qed.

Lemma mapsEqual_same a b : mapsEqual a b = true -> sameMap a b.
Proof. intros He Ha Hb. by apply mapsEqual_get. Qed.

Lemma persistentVolumeSpecsEqual_same a b : persistentVolumeSpecsEqual a b = true -> sameVolume a b.
Proof.
  unfold persistentVolumeSpecsEqual. rewrite !andb_true_iff, !bool_decide_eq_true.
  intros [[[[[Hs Hc] Hm] Ha] Hsel] Hme]. split_and!; [|done..| |].
  - unfold sizeEqual in Hs. apply orb_true_iff in Hs as [Hs%bool_decide_eq_true|Hs]; [by left|right].
    destruct (ParseQuantity (pv_Size a)) as [qa|], (ParseQuantity (pv_Size b)) as [qb|]; try done.
    apply bool_decide_eq_true in Hs. eauto.
  - eapply pointerEqual_Forall2; [|exact Hsel]. intros x y [Hl _]%andb_prop. by apply mapsEqual_same.
  - eapply pointerEqual_Forall2; [|exact Hme]. intros x y [Hl1 Hl2]%andb_prop. split; by apply mapsEqual_same.
Qed.

Lemma comparePVVolumes_None field a b : comparePVVolumes field a b = None -> same_pvs a b.
Proof.
  unfold comparePVVolumes. intros Hh%fmap_None. apply head_None in Hh. apply app_nil in Hh as [Hc Hr].
  rewrite filter_nil_iff in Hc, Hr. intros name. rewrite <- !pvBackedVolumes_get.
  eapply pointerEqual_Forall2; [exact persistentVolumeSpecsEqual_same|].
  destruct (map_get name (pvBackedVolumes b)) as [pb|] eqn:Hb.
  - specialize (Hc name ltac:(apply elem_of_sortedKeys; by rewrite Hb)). rewrite Hb in Hc. by apply not_false_is_true.
  - destruct (map_get name (pvBackedVolumes a)) as [pa|] eqn:Hpa; [|done].
    by destruct (Hr name ltac:(apply elem_of_sortedKeys; by rewrite Hpa)).
Qed.

(** The claim templates of a StatefulSet are the persistent volumes. *)
Lemma claimTemplates_elem storage name :
  name ∈ vct_Name <$> BuildVolumeClaimTemplates storage <-> is_Some (map_get name (pvBackedVolumes storage)).
Proof.
  destruct storage as [s|]; [rewrite claimTemplate_names|split; [by intros ?%elem_of_nil|by intros [? ?]]]. unfold pvBackedVolumes. simpl.
  assert (forall l acc, is_Some (map_get name (foldl (fun out vol => match vol_PersistentVolume vol with
      | Some pv => map_set (vol_Name vol) pv out | None => out end) acc l)) <->
    is_Some (map_get name acc) \/ name ∈ vol_Name <$> filter (fun v => is_Some (vol_PersistentVolume v)) l) as Hf.
  { induction l as [|v l IH]; intros acc; [rewrite filter_nil; split; [by left|by intros [?|?%elem_of_nil]]|].
    simpl. rewrite IH, filter_cons. destruct (vol_PersistentVolume v) as [pv|].
    - rewrite decide_True by eauto. csimpl. rewrite elem_of_cons, map_get_set. case_decide; [subst; naive_solver|naive_solver].
    - rewrite decide_False by (intros [? [=]]). done. }
  rewrite Hf. simpl. split; [by right|]. by intros [[? [=]]|?].
Qed.

Lemma same_pvs_templates a b name :
  same_pvs a b -> name ∈ vct_Name <$> BuildVolumeClaimTemplates a <-> name ∈ vct_Name <$> BuildVolumeClaimTemplates b.
Proof.
  intros Hs. specialize (Hs name). rewrite !claimTemplates_elem, !pvBackedVolumes_get.
  destruct Hs; split; (by intros [? [=]]) || by eauto.
Qed.

Lemma storageImmutability_None old new :
  validateStorageImmutability old new = None ->
  same_pvs (spec_Storage old) (spec_Storage new) /\
  forall id ro rn, racksByID (spec_RackConfig old) id = Some ro -> racksByID (spec_RackConfig new) id = Some rn ->
    same_pvs (rack_Storage ro) (rack_Storage rn).
Proof.
  unfold validateStorageImmutability. destruct (comparePVVolumes "spec.storage" _ _) eqn:Hc; [done|]. intros Hh%head_None.
  split; [by eapply comparePVVolumes_None|]. intros id ro rn Ho Hn.
  destruct (comparePVVolumes ("spec.rackConfig.racks[id=" +:+ pretty id +:+ "].storage") (rack_Storage ro) (rack_Storage rn)) as [e|] eqn:He;
    [|by eapply comparePVVolumes_None].
  assert (e ∈ ([] : list notice)) as Hin; [|by apply elem_of_nil in Hin]. rewrite <- Hh. apply list_elem_of_omap. exists id. split.
  - unfold racksByID in Hn. apply last_Some_elem_of, list_elem_of_filter in Hn as [<- Hn]. by apply list_elem_of_fmap_2.
  - by rewrite Ho, Hn.
Qed.

Lemma racksByID_elem rc id r :
  NoDup (rack_ID <$> from_option rc_Racks [] rc) -> r ∈ from_option rc_Racks [] rc -> rack_ID r = id ->
  racksByID rc id = Some r.
Proof.
  unfold racksByID. generalize (from_option rc_Racks [] rc). intros l Hnd Hin <-.
  assert (filter (fun r' => rack_ID r' = rack_ID r) l = [r]) as ->; [|done].
  induction l as [|x l IH]; [by apply not_elem_of_nil in Hin|]. csimpl in Hnd. apply NoDup_cons in Hnd as [Hx Hnd].
  rewrite filter_cons. apply elem_of_cons in Hin as [->|Hin].
  - rewrite decide_True by done. f_equal. apply filter_nil_iff. intros y Hy He. apply Hx. rewrite <- He. by apply list_elem_of_fmap_2.
  - rewrite decide_False; [by apply IH|]. intros He. apply Hx. rewrite He. by apply list_elem_of_fmap_2.
Qed.

Lemma admitted_rackIDs reader cluster :
  admitted (validateWithCtx reader cluster) ->
  NoDup (rack_ID <$> from_option rc_Racks [] (spec_RackConfig (cl_Spec cluster))).
Proof.
  intros Ha%admitted_spec. destruct (spec_RackConfig (cl_Spec cluster)) as [rc|] eqn:Hrc; [|constructor].
  by apply (accepted_racks _ rc Ha).
Qed.

(** A rack the cluster runs: one of the spec, or rack 0 when the spec has none. *)
Definition runsRack (spec : AerospikeClusterSpec) (id : Z) : Prop :=
  let racks := from_option rc_Racks [] (spec_RackConfig spec) in
  id ∈ rack_ID <$> racks \/ racks = [] /\ id = 0.

Lemma effectiveRackIDs_runs spec id : id ∈ effectiveRackIDs (spec_RackConfig spec) <-> runsRack spec id.
Proof.
  unfold effectiveRackIDs, runsRack. destruct (spec_RackConfig spec) as [rc|]; simpl.
  - case_decide as He; [rewrite He; simpl|]; rewrite ?list_elem_of_singleton; split; [by right|by intros [?%not_elem_of_nil|[_ ?]]|by left|by intros [?|[? _]]].
  - rewrite list_elem_of_singleton. split; [by right|by intros [?%not_elem_of_nil|[_ ?]]].
Qed.

(** C15: an admitted update passes the checks for new clusters and keeps the template
    reference; it does not both add and remove racks; it keeps the operations while one
    is in progress; it keeps the persistent volumes, by name and content, of the
    cluster-wide storage and of every rack that stays, and with them the names of the
    claim templates, for a rack as long as it keeps having, or not having, storage of
    its own *)
Theorem admitted_update reader old new :
  admitted (ValidateUpdate reader old new) ->
  admitted (validateWithCtx reader new) /\
  spec_TemplateRef (cl_Spec old) = spec_TemplateRef (cl_Spec new) /\
  ((forall id, runsRack (cl_Spec old) id -> runsRack (cl_Spec new) id) \/
   (forall id, runsRack (cl_Spec new) id -> runsRack (cl_Spec old) id)) /\
  (os_Phase <$> st_OperationStatus (cl_Status old) = Some PhaseInProgress ->
   spec_Operations (cl_Spec old) = spec_Operations (cl_Spec new)) /\
  same_pvs (spec_Storage (cl_Spec old)) (spec_Storage (cl_Spec new)) /\
  (forall name, name ∈ vct_Name <$> BuildVolumeClaimTemplates (spec_Storage (cl_Spec old)) <->
                name ∈ vct_Name <$> BuildVolumeClaimTemplates (spec_Storage (cl_Spec new))) /\
  (let oldRacks := from_option rc_Racks [] (spec_RackConfig (cl_Spec old)) in
   let newRacks := from_option rc_Racks [] (spec_RackConfig (cl_Spec new)) in
   NoDup (rack_ID <$> oldRacks) ->
   forall ro rn, ro ∈ oldRacks -> rn ∈ newRacks -> rack_ID ro = rack_ID rn ->
    same_pvs (rack_Storage ro) (rack_Storage rn) /\
    ((is_Some (rack_Storage ro) <-> is_Some (rack_Storage rn)) ->
     forall name, name ∈ vct_Name <$> BuildVolumeClaimTemplates (effectiveStorage old ro) <->
                  name ∈ vct_Name <$> BuildVolumeClaimTemplates (effectiveStorage new rn))).
Proof.
  unfold ValidateUpdate. cbv zeta. case_bool_decide as Ht; [|done]. cbn [negb].
  destruct (validateStorageImmutability (cl_Spec old) (cl_Spec new)) eqn:Hs; [done|]. apply storageImmutability_None in Hs as [Hs Hr].
  destruct (_ && negb (operationsEqual _ _)) eqn:Hop; [done|].
  destruct (negb (bool_decide (filter _ (effectiveRackIDs (spec_RackConfig (cl_Spec old))) = [])) && _) eqn:Hids; [done|].
  intros Ha. split_and!; [done..| | |done|by intros name; apply same_pvs_templates|].
  - setoid_rewrite <- effectiveRackIDs_runs.
    apply andb_false_iff in Hids as [Hi|Hi]; apply negb_false_iff, bool_decide_eq_true in Hi; rewrite filter_nil_iff in Hi;
      [left|right]; intros id Hid; specialize (Hi id Hid); by apply dec_stable.
  - intros Hph. rewrite Hph, bool_decide_true in Hop by done. simpl in Hop. apply negb_false_iff in Hop.
    by apply bool_decide_eq_true in Hop.
  - intros Hnd ro rn Ho Hn Hid.
    assert (same_pvs (rack_Storage ro) (rack_Storage rn)) as Hrs.
    { apply (Hr (rack_ID rn)); apply racksByID_elem; try done. by apply (admitted_rackIDs reader). }
    split; [done|]. intros Hiff name. unfold effectiveStorage.
    destruct (rack_Storage ro) eqn:Hso, (rack_Storage rn) eqn:Hsn; try naive_solver.
    + by apply same_pvs_templates.
    + by apply same_pvs_templates.
Qed.

(** *** Mounts *)

Lemma sourceCount_sourced vol : sourceCount (vol_Source vol) <> 0%nat -> sourced vol.
Proof.
  unfold sourceCount, sourced, volumeForSpec, vol_PersistentVolume. destruct (vol_Source vol) as [pv ed se cm hp]. cbn. intros Hn.
  destruct pv as [pv|]; [right; by exists pv|]. left. destruct ed as [v|]; [by eexists|]. destruct se as [v|]; [by eexists|].
  destruct cm as [v|]; [by eexists|]. destruct hp as [v|]; [by eexists|]. by destruct Hn.
Qed.

Lemma storage_sourced s vol : (validateStorage s).1 = [] -> vol ∈ st_Volumes s -> sourced vol.
Proof.
  unfold validateStorage. cbn [fst]. rewrite !app_nil. intros (_ & Hv & _) [i Hi]%list_elem_of_lookup.
  apply concat_nil_Forall in Hv. rewrite Forall_lookup in Hv. specialize (Hv i (validateVolume i vol).1).
  rewrite list_lookup_fmap, list_lookup_imap, Hi in Hv. specialize (Hv eq_refl). unfold validateVolume in Hv. cbn [fst] in Hv.
  rewrite app_nil in Hv. destruct Hv as [Hv _]. apply sourceCount_sourced. by case_decide.
Qed.

(** What a container mounts is a volume of the pod or a claim of the StatefulSet, unless the
    user wrote the mount into a container of the pod settings. *)
Definition mountsResolve (cluster : AerospikeCluster) (sts : StatefulSet) : Prop :=
  let p := tpl_Spec (sts_Template sts) in
  forall c m, c ∈ psp_InitContainers p ++ psp_Containers p -> m ∈ ct_VolumeMounts c ->
    vm_Name m ∈ (v_Name <$> psp_Volumes p) ++ claimNames sts \/
    exists u, u ∈ userContainers ps_InitContainers cluster ++ userContainers ps_Sidecars cluster /\
      ct_Name u = ct_Name c /\ m ∈ ct_VolumeMounts u.

Lemma accepted_sourced cluster rack s vol :
  accepted_spec (cl_Spec cluster) -> rack ∈ getRacks cluster -> effectiveStorage cluster rack = Some s ->
  vol ∈ st_Volumes s -> sourced vol.
Proof.
  intros Ha Hrack Hs Hvol. eapply storage_sourced; [|exact Hvol]. unfold effectiveStorage in Hs.
  destruct (rack_Storage rack) as [rs|] eqn:Hrs; [|by apply (as_storage _ Ha)]. injection Hs as ->.
  pose proof (as_rackStorage _ Ha) as Hall. unfold validateRackStorage in Hall. cbn [fst] in Hall. rewrite bind_nil_iff in Hall.
  assert (rack ∈ from_option rc_Racks [] (spec_RackConfig (cl_Spec cluster))) as Hin.
  { unfold getRacks in Hrack. destruct (spec_RackConfig (cl_Spec cluster)) as [rc|]; [cbn; destruct (rc_Racks rc); [|done]|];
      apply list_elem_of_singleton in Hrack as ->; done. }
  specialize (Hall rack Hin). rewrite Hrs in Hall. cbn in Hall. by apply fmap_nil_inv in Hall.
Qed.

(** C32: in the StatefulSet that a pass creates for a rack of an admitted cluster that
    had none, no mount lacks its volume: what a container mounts is a volume of the pod
    template or a claim template of that StatefulSet, unless the user wrote the mount
    into a container of the pod settings *)
Theorem admitted_mounts_resolve reader rack hash rackSize w sts :
  let name := StatefulSetName (cl_Name (w_mem w)) (rack_ID rack) in
  admitted (validateWithCtx reader (w_mem w)) -> rack ∈ getRacks (w_mem w) ->
  findSts name (w_sts w) = None ->
  findSts name (w_sts (snd (reconcileStatefulSet rack hash rackSize w))) = Some sts ->
  mountsResolve (w_mem w) sts.
Proof.
  intros name Ha%admitted_spec Hrack Hnone Hsts.
  destruct (reconcileStatefulSet_created _ _ _ _ _ Hnone Hsts) as (Ht & Hc & _).
  unfold mountsResolve. cbv zeta. rewrite Ht. intros c m Hin Hm.
  assert (claimNames sts = vct_Name <$> BuildVolumeClaimTemplates (effectiveStorage (w_mem w) rack)) as ->.
  { unfold claimNames. rewrite Hc. unfold rackClaimTemplates. by rewrite <- list_fmap_compose. }
  refine (mounts_resolve (w_mem w) rack (rack_ID rack) (ConfigMapName (cl_Name (w_mem w)) (rack_ID rack)) hash c m _ Hin Hm).
  intros s vol Hs Hvol. by eapply accepted_sourced.
Qed.

(** *** Metric labels *)

Lemma metricLabelKey_bare k : metricLabelKey k = true -> bareKey k.
Proof.
  unfold metricLabelKey. intros [Hne%bool_decide_eq_true Hall]%andb_true_iff. split; [done|].
  apply Forall_forall. intros a Ha. rewrite forallb_forall in Hall. specialize (Hall a (proj1 (list_elem_of_In _ _) Ha)).
  by apply bool_decide_eq_true in Hall.
Qed.

(** C33: whatever the values of the metric labels of an admitted cluster contain, as
    long as they are UTF-8 without a dollar sign and monitoring.env does not set
    METRIC_LABELS itself, the exporter, expanding and reading its variable as an inline
    table of the TOML specification, gets exactly these labels, sorted by key: no value
    can end its string early, break the table or add a label *)
Theorem admitted_metric_labels `{ExporterInput} reader cluster m :
  admitted (validateWithCtx reader cluster) -> spec_Monitoring (cl_Spec cluster) = Some m -> mon_Enabled m = true ->
  map_wf (mon_MetricLabels m) -> mon_MetricLabels m <> [] ->
  (forall k v, map_get k (mon_MetricLabels m) = Some v -> utf8 v /\ str_contains "$" v = false) ->
  Forall (fun e => env_Name e <> "METRIC_LABELS") (mon_Env m) ->
  exists text,
    last (filter (fun e => env_Name e = "METRIC_LABELS")
      (ct_Env (buildExporterSidecar m (spec_AerospikeAccessControl (cl_Spec cluster))))) =
      Some (mkEnvVar "METRIC_LABELS" text None) /\
    readInline (expandEnv text) = Some (sortedEntries (mon_MetricLabels m)).
Proof.
  intros Ha%admitted_spec Hm Hon Hwf Hne Htext Henv. pose proof (as_monitoring _ Ha m Hm) as Hv. unfold checkMonitoring in Hv. rewrite Hon in Hv.
  unfold validateMonitoring in Hv. cbn [fst] in Hv. rewrite !app_nil, !bind_nil_iff in Hv. destruct Hv as (_ & _ & _ & _ & Hv & _).
  destruct (metric_labels_read (mon_MetricLabels m) Hwf Hne) as (text & Ht & Hread).
  { intros k v Hkv. specialize (Hv (k, v) (map_get_Some_in _ _ _ Hkv)). rewrite app_nil in Hv. destruct Hv as [Hk Hc].
    simpl in Hk, Hc. split; [apply metricLabelKey_bare; by destruct (metricLabelKey k)|].
    destruct (Htext k v Hkv) as [Hu Hd]. split; [|exact Hd].
    apply escape_basic; [done|]. change (hasControlByte v = false). by destruct (hasControlByte v). }
  exists text. split; [|done]. unfold buildExporterSidecar. cbn [ct_Env]. rewrite Ht, !filter_app.
  assert (filter (fun e => env_Name e = "METRIC_LABELS") (mon_Env m) = []) as ->.
  { apply filter_nil_iff. by apply Forall_forall. }
  change (filter _ [mkEnvVar "METRIC_LABELS" text None]) with [mkEnvVar "METRIC_LABELS" text None].
  by rewrite app_nil_r, app_assoc, last_snoc.
Qed.

(** *** Admission and access control

    The webhook and the reconciler read privileges with different parsers. *)

Lemma dot_free_code code : code ∈ aerospikeCEBuiltinRoles -> split_first "." code = None.
Proof. intros Hin. unfold aerospikeCEBuiltinRoles in Hin. rewrite !elem_of_cons, elem_of_nil in Hin. by destruct_or! Hin; subst. Qed.

Lemma known_code code : code ∈ aerospikeCEBuiltinRoles -> privilegeFromCodeString code = inr (mkPrivilege code "" "").
Proof.
  intros Hin. unfold privilegeFromCodeString. rewrite decide_True; [done|].
  unfold aerospikeCEBuiltinRoles in Hin. set_solver.
Qed.

Lemma split_first_code code rest :
  code ∈ aerospikeCEBuiltinRoles -> split_first "." (code +:+ "." +:+ rest) = Some (code, rest).
Proof. intros Hin. unfold aerospikeCEBuiltinRoles in Hin. rewrite !elem_of_cons, elem_of_nil in Hin. by destruct_or! Hin; subst. Qed.

Lemma scoped_builtin code : code ∈ scopedRoles -> code ∈ aerospikeCEBuiltinRoles.
Proof. intros Hc. apply builtinRoles_spec. by left. Qed.

Lemma well_formed_parses p : well_formed_privilege p -> exists q, parsePrivilege p = inr q /\ prv_Code q ∈ aerospikeCEBuiltinRoles.
Proof.
  intros Hp. destruct Hp as [code Hc%builtinRoles_spec|code ns Hc%scoped_builtin _|code ns set Hc%scoped_builtin _ _];
    unfold parsePrivilege, privilegeParts.
  - rewrite (dot_free_code code Hc), known_code by done. by eexists.
  - rewrite split_first_code by done. destruct (split_first "." ns) as [[? ?]|]; rewrite known_code by done; by eexists.
  - rewrite split_first_code by done. destruct (split_first "." _) as [[? ?]|]; rewrite known_code by done; by eexists.
Qed.

Lemma well_formed_role_parses n l : Forall well_formed_privilege l -> exists ps, parsePrivileges n l = inr ps /\ length ps = length l.
Proof.
  induction 1 as [|p l Hp _ (ps & Hps & Hl)]; [by exists []|]. destruct (well_formed_parses p Hp) as (q & Hq & _).
  exists (q :: ps). simpl. rewrite Hq, Hps. by rewrite Hl.
Qed.

(** Every role of an admitted access control can be given to the servers: the
    parser of the reconciler accepts each privilege the webhook let through, so the
    synchronization never fails on the spec itself. *)
Theorem admitted_roles_parse reader cluster acl role :
  admitted (validateWithCtx reader cluster) -> spec_AerospikeAccessControl (cl_Spec cluster) = Some acl ->
  role ∈ acl_Roles acl ->
  exists ps, roleParsedPrivileges role = inr ps /\ length ps = length (role_Privileges role).
Proof.
  intros Ha%admitted_spec Hacl Hin. pose proof (as_acl _ Ha acl Hacl) as Hv. unfold validateAccessControl in Hv.
  rewrite !app_nil, !bind_nil_iff in Hv. destruct Hv as (_ & _ & _ & _ & _ & Hpriv).
  apply well_formed_role_parses, Forall_forall. intros p Hp. specialize (Hpriv role Hin).
  rewrite bind_nil_iff in Hpriv. by eapply privilege_nil, Hpriv.
Qed.

End Admission.

(** ** Samples *)

Definition sample_validators : Validators := {|
  ParseQuantity s := if decide (s = "10Gi") then Some (mkQuantity (10 * 2 ^ 30 * 10 ^ 9) s) else None;
  IsQualifiedName _ := []; IsValidLabelValue _ := []
|}.

Definition sample_rack (id : Z) : Rack := (plainRack id) <| rack_MaxUnavailable := Some (IntVal 1) |>.

Definition admitted_config (name : any) : gomap any :=
  [("service", AMap [("cluster-name", AString "demo")]);
   ("network", AMap [("heartbeat", AMap [("mode", AString "mesh"); ("port", AInt KInt64 3002)])]);
   ("namespaces", AList [AMap [("name", name); ("replication-factor", AInt KInt64 2)]])].

Definition admitted_acl_spec : AerospikeAccessControlSpec :=
  mkAccessControl [mkRoleSpec "ops" ["read-write.test"] []]
    [{| user_Name := "admin"; user_SecretName := "s1"; user_Roles := ["sys-admin"; "user-admin"] |};
     {| user_Name := "app"; user_SecretName := "s2"; user_Roles := ["ops"; "read"] |}] None.

Definition cluster_with (spec : AerospikeClusterSpec) : AerospikeCluster := (example_cluster 0 None) <| cl_Spec := spec |>.

Definition admitted_spec_sample : AerospikeClusterSpec :=
  (emptySpec 4 "aerospike:ce-8.1.1.1")
    <| spec_AerospikeConfig := Some (admitted_config (AString "test")) |>
    <| spec_RackConfig := Some (mkRackConfig [sample_rack 1; sample_rack 2] None None None []) |>
    <| spec_AerospikeAccessControl := Some admitted_acl_spec |>.

Definition check (cluster : AerospikeCluster) : verdict :=
  validateWithCtx (H := env_go (Environment := sample_env)) (H0 := sample_validators) None cluster.

Lemma admitted_sample : admitted (check (cluster_with admitted_spec_sample)).
Proof. vm_compute. reflexivity. Qed.

(** *** Witnesses *)

Lemma Default_spec_witness :
  exists c', Default (cluster_with admitted_spec_sample) = Ok c' /\ Default c' = Ok c'.
Proof.
  destruct (Default (cluster_with admitted_spec_sample)) as [c'|] eqn:Hd; [|vm_compute in Hd; discriminate Hd].
  exists c'. split; [reflexivity|]. exact (proj1 (Default_spec _ _ Hd)).
Defined.

Lemma admitted_config_renders_witness :
  is_ok (rackConfText (H := sample_env) (cluster_with admitted_spec_sample)
    (getEffectiveConfig (cluster_with admitted_spec_sample) (sample_rack 1))) = true.
Proof.
  refine (proj2 (admitted_config_renders (H := sample_env) (H0 := sample_validators) None
    (cluster_with admitted_spec_sample) (sample_rack 1) admitted_sample _ _) _).
  - left.
  - intros c [=].
  - intros c [[= <-]|[=]] l [= <-]. constructor; [|constructor].
    eexists _, "test". split; [reflexivity|]. split; [reflexivity|discriminate].
Defined.


Definition budget_spec : AerospikeClusterSpec :=
  (emptySpec 4 "aerospike:ce-8.1.1.1") <| spec_MaxUnavailable := Some (IntVal 2) |>.

Lemma admitted_budget_exact_witness :
  pol_MaxUnavailable (clusterPDBPolicy (H := env_go (Environment := sample_env)) (cluster_with budget_spec)
    (getRacks (cluster_with budget_spec))) = Some (IntVal 2).
Proof.
  apply (admitted_budget_exact (H := sample_env) (H0 := sample_validators) None);
    [vm_compute; reflexivity|reflexivity|vm_compute; discriminate|reflexivity|repeat constructor].
Defined.

(** A storage with a volume of the server and one whose name the operator uses itself. *)
Definition mounted_spec (name : string) : AerospikeClusterSpec :=
  let dir := mkVolumeSpec name (mkVolumeSource None (Some (AMap [])) None None None)
    (Some (mkAerospikeVolumeAttachment "/opt/aerospike/data" false "" "" None)) [] [] InitMethodUnset WipeMethodUnset None in
  admitted_spec_sample <| spec_Storage := Some (mkStorageSpec [dir] 1 None None [] None) |>.

(** The first pass over rack 1 creates its StatefulSet. *)
Lemma admitted_mounts_resolve_witness :
  let cluster := cluster_with (mounted_spec "data") in
  let w := sample_world cluster [] [] (mkStub [] [] [] []) in
  exists sts, findSts "demo-1" (w_sts (snd (reconcileStatefulSet (H := sample_env) (sample_rack 1) "h1" 4 w))) = Some sts /\
    mountsResolve cluster sts.
Proof.
  intros cluster w. set (w' := snd (reconcileStatefulSet (H := sample_env) (sample_rack 1) "h1" 4 w)).
  assert (is_Some (findSts "demo-1" (w_sts w'))) as [sts Hsts] by (apply (bool_decide_unpack _); by vm_compute).
  exists sts. split; [exact Hsts|].
  apply (admitted_mounts_resolve (H := sample_env) (H0 := sample_validators) None (sample_rack 1) "h1" 4 w sts);
    [vm_compute; reflexivity|left|reflexivity|exact Hsts].
Defined.

Definition labelled_monitoring : AerospikeMonitoringSpec :=
  mkMonitoringSpec true "exporter:1.2" 9145 None [] [("env", "a" +:+ String quote ", b"); ("dc", "x")] None None.

Definition labelled_cluster : AerospikeCluster :=
  cluster_with (admitted_spec_sample <| spec_Monitoring := Some labelled_monitoring |>).

Lemma admitted_metric_labels_witness :
  exists text,
    last (filter (fun e => env_Name e = "METRIC_LABELS")
      (ct_Env (buildExporterSidecar labelled_monitoring (spec_AerospikeAccessControl (cl_Spec labelled_cluster))))) =
      Some (mkEnvVar "METRIC_LABELS" text None) /\
    readInline (expandEnv text) = Some (sortedEntries (mon_MetricLabels labelled_monitoring)).
Proof.
  apply (admitted_metric_labels (H := sample_env) (H0 := sample_validators) None labelled_cluster labelled_monitoring).
  - vm_compute. reflexivity.
  - reflexivity.
  - reflexivity.
  - repeat constructor; set_solver.
  - done.
  - intros k v Hkv%map_get_Some_in. apply elem_of_cons in Hkv as [[= -> ->]|Hkv%list_elem_of_singleton];
      [|injection Hkv as -> ->]; (split; [|reflexivity]); repeat (apply utf8_ascii; [reflexivity|]); apply utf8_nil.
  - constructor.
Defined.

(** The webhook knows only the names of the spec: a volume with the name of one the operator
    adds is admitted, and the template has two volumes of that name, which the API server refuses. *)
Theorem reserved_volume_name_admitted :
  let cluster := cluster_with (mounted_spec aerospikeConfigVolumeName) in
  admitted (check cluster) /\
  v_Name <$> psp_Volumes (tpl_Spec (BuildPodTemplateSpec cluster (sample_rack 1) 1 "demo-1-config" "h1").1) =
    [aerospikeConfigVolumeName; configMapVolumeName; aerospikeConfigVolumeName].
Proof. split; vm_compute; reflexivity. Qed.


Lemma admitted_roles_parse_witness :
  exists ps, roleParsedPrivileges (mkRoleSpec "ops" ["read-write.test"] []) = inr ps /\ length ps = 1%nat.
Proof.
  apply (admitted_roles_parse (H := sample_env) (H0 := sample_validators) None (cluster_with admitted_spec_sample) admitted_acl_spec);
    [exact admitted_sample|reflexivity|by left].
Defined.

Lemma admitted_ports_witness :
  configuredHeartbeatPort (H := sample_env) (admitted_config (AString "test")) = HeartbeatPort.
Proof.
  apply (admitted_ports (H := sample_env) (H0 := sample_validators) None (cluster_with admitted_spec_sample) _ admitted_sample).
  reflexivity.
Defined.

Definition grown_spec : AerospikeClusterSpec :=
  admitted_spec_sample <| spec_Size := 6 |>
    <| spec_RackConfig := Some (mkRackConfig [sample_rack 1; sample_rack 2; plainRack 3] None None None []) |>.

Lemma admitted_update_witness :
  admitted (ValidateUpdate (H := env_go (Environment := sample_env)) (H0 := sample_validators) None
    (cluster_with admitted_spec_sample) (cluster_with grown_spec)) /\
  spec_TemplateRef admitted_spec_sample = spec_TemplateRef grown_spec.
Proof.
  assert (admitted (ValidateUpdate (H := env_go (Environment := sample_env)) (H0 := sample_validators) None
    (cluster_with admitted_spec_sample) (cluster_with grown_spec))) as Ha by (vm_compute; reflexivity).
  split; [exact Ha|]. exact (proj1 (proj2 (admitted_update (H := sample_env) (H0 := sample_validators) None _ _ Ha))).
Defined.

(** ** Where admission and the controller disagree *)

Definition rack_with (config : option (gomap any)) (storage : option AerospikeStorageSpec) (mu : option IntOrString)
    : option RackConfig :=
  Some (mkRackConfig [mkRack 1 "" "" "" "" "" config storage mu None] None None None []).

(** The webhook asks for the key [name] of a namespace, the renderer for a
    non-empty string: a numeric name is admitted and can never be rendered. *)
Theorem unnamed_namespace_admitted :
  let cluster := cluster_with ((emptySpec 2 "aerospike:ce-8.1.1.1")
    <| spec_AerospikeConfig := Some (admitted_config (AInt KInt64 5)) |>) in
  admitted (check cluster) /\
  is_ok (rackConfText (H := sample_env) cluster (spec_AerospikeConfig (cl_Spec cluster))) = false.
Proof. by vm_compute. Qed.

(** The ports and replication factors of a rack's configuration override are not
    checked: its mesh seeds use a port nothing listens on. *)
Theorem rack_override_unchecked :
  let override := [("network", AMap [("heartbeat", AMap [("port", AInt KInt64 4000)])]);
                   ("namespaces", AList [AMap [("name", AString "test"); ("replication-factor", AInt KInt64 4)]])] in
  let cluster := cluster_with ((emptySpec 2 "aerospike:ce-8.1.1.1")
    <| spec_AerospikeConfig := Some (admitted_config (AString "test")) |>
    <| spec_RackConfig := rack_with (Some override) None None |>) in
  admitted (check cluster) /\
  exists rack config, getRacks cluster = [rack] /\ getEffectiveConfig cluster rack = Some config /\
    configuredHeartbeatPort (H := sample_env) config = 4000.
Proof. split; [by vm_compute|]. do 2 eexists. split; [reflexivity|]. split; [reflexivity|]. by vm_compute. Qed.

(** A port is truncated before it is compared: 3002.5 is admitted. *)
Theorem fractional_port_admitted :
  let port := binary_normalize 53 1024 6005 (-1) false in
  let cluster := cluster_with ((emptySpec 2 "aerospike:ce-8.1.1.1")
    <| spec_AerospikeConfig := Some [("network", AMap [("heartbeat", AMap [("port", AFloat64 port)])])] |>) in
  admitted (check cluster) /\ SFeqb port (float64_of_Z 3002) = false.
Proof. by vm_compute. Qed.

(** The budget of a rack is not held to the format of [spec.maxUnavailable]: a
    text that is no percentage reaches the PodDisruptionBudget. *)
Theorem rack_budget_unparsed :
  let cluster := cluster_with ((emptySpec 2 "aerospike:ce-8.1.1.1")
    <| spec_RackConfig := rack_with None None (Some (StrVal "many")) |>) in
  admitted (check cluster) /\
  pol_MaxUnavailable (clusterPDBPolicy (H := env_go (Environment := sample_env)) cluster (getRacks cluster)) = Some (StrVal "many").
Proof. by vm_compute. Qed.

Definition data_volume (source : VolumeSource) : VolumeSpec :=
  mkVolumeSpec "data" source (Some (mkAerospikeVolumeAttachment "/data" false "" "" None)) [] []
    InitMethodUnset WipeMethodUnset None.

Definition pv_storage : AerospikeStorageSpec :=
  mkStorageSpec [data_volume (mkVolumeSource (Some (mkPersistentVolumeSpec "fast" VolumeModeUnset "10Gi" [] None None)) None None None None)]
    0 None None [] None.
Definition scratch_storage : AerospikeStorageSpec :=
  mkStorageSpec [data_volume (mkVolumeSource None (Some (AMap [])) None None None)] 0 None None [] None.

(** The immutability check compares the storage a rack states, not the storage it
    runs with: dropping an override without persistent volumes is admitted and
    gives the rack claim templates its StatefulSet does not have. *)
Theorem rack_storage_toggle_admitted :
  let spec rs := (emptySpec 2 "aerospike:ce-8.1.1.1")
    <| spec_Storage := Some pv_storage |> <| spec_RackConfig := rack_with None rs None |> in
  let old := cluster_with (spec (Some scratch_storage)) in
  let new := cluster_with (spec None) in
  admitted (ValidateUpdate (H := env_go (Environment := sample_env)) (H0 := sample_validators) None old new) /\
  exists ro rn, getRacks old = [ro] /\ getRacks new = [rn] /\
    BuildVolumeClaimTemplates (effectiveStorage old ro) = [] /\
    vct_Name <$> BuildVolumeClaimTemplates (effectiveStorage new rn) = ["data"].
Proof. split; [by vm_compute|]. do 2 eexists. split_and!; by vm_compute. Qed.
