(* ===== verification/Steps.v ===== *)
(** * What the sub-reconcilers leave alone

    A reconcile calls a dozen sub-reconcilers.  Facts that hold across all of them (the failure
    counter is kept, the spec is never written, no unknown series is created) are proved once, for
    any relation that satisfies the interface [Steps]: it looks at the custom resource, the counter
    in memory and the metrics only, and the ways in which a sub-reconciler writes those satisfy it. *)

From S2P Require Import Prelude GoValue Utils ConfigDiff Api Metrics ConfigGen Events Kube Aero Sizing Readiness Status Breaker Storage DynamicConfig ConfigMaps PDB Ensure Services Monitoring ACL PodTemplate Restart Operations Scaling.

Section Steps.
Context `{Environment} `{!ServiceAPI} `{!JSONStore} `{!AdminClient}.

Class Steps (R : relation World) : Prop := {
  steps_io :: FrameIO R;
  steps_loose :: Loose R;
  steps_setPhase phase reason : keeps R (setPhase phase reason);
  steps_patchStatus f :
    (forall s, st_FailedReconcileCount (f s) = st_FailedReconcileCount s) -> keeps R (patchStatus f);
  steps_updateStatusAndPhase phase reason o : keeps R (updateStatusAndPhase phase reason o)
}.

Context (R : relation World) `{!Steps R}.

Lemma sub_setPhaseTolerant phase reason : keeps R (setPhaseTolerant phase reason).
Proof. pose proof steps_setPhase. unfold setPhaseTolerant. frame. Qed.

Lemma sub_patchPodStatus name f : keeps R (patchPodStatus name f).
Proof. unfold patchPodStatus. apply keeps_bind; [frame|]. intros c. by apply steps_patchStatus. Qed.

Lemma sub_setConfigDegraded pods : keeps R (setConfigDegraded pods).
Proof.
  unfold setConfigDegraded. apply keeps_ignore, keeps_bind; [frame|]. intros c. apply keeps_bind; [frame|].
  intros t. apply keeps_bind; [by apply steps_patchStatus|]. intros _. frame.
Qed.

Lemma sub_detectScaling cluster l : keeps R (detectScaling cluster l).
Proof. induction l as [|[rack size] l IH]; cbn [detectScaling]; frame. Qed.

Lemma sub_applyStatefulSet cluster rack hash size podTemplate :
  keeps R (applyStatefulSet cluster rack hash size podTemplate).
Proof.
  pose proof sub_setPhaseTolerant.
  unfold applyStatefulSet, reclaimOrphanedRackPVCs, scaleDownMigrationGate, checkScaleDownReadiness, patchRack,
    checkMigrationInProgress, listRackPods, DeleteOrphanedCascadeDeletePVCs, ownedOrphanCandidates, deleteOrphan.
  frame.
Qed.

Lemma sub_reconcileStatefulSet rack hash size : keeps R (reconcileStatefulSet rack hash size).
Proof.
  intros w. pose proof (reconcileStatefulSet_eq rack hash size w) as Heq.
  destruct (rackTemplate_cluster (w_mem w) rack hash) as [a Ha]. destruct (rackTemplate (w_mem w) rack hash) as [t c]. cbn in Ha. subst c.
  rewrite Heq. etrans; [|apply sub_applyStatefulSet]. by apply loose.
Qed.

Lemma sub_deleteRack cluster sts rackID : keeps R (deleteRack cluster sts rackID).
Proof.
  unfold deleteRack, listRackPods, DeleteCascadeDeletePVCs, GetPVCsForStatefulSet, deleteClaim. frame.
Qed.

Lemma sub_drainRemovedRack cluster sts rackID : keeps R (drainRemovedRack cluster sts rackID).
Proof.
  unfold drainRemovedRack, checkScaleDownReadiness, listRackPods, quiesceNodeBeforeDeletion. frame.
Qed.

Lemma sub_cleanupRemovedRacks racks : keeps R (cleanupRemovedRacks racks).
Proof.
  pose proof sub_setPhaseTolerant. pose proof sub_deleteRack. pose proof sub_drainRemovedRack.
  assert (forall c l, keeps R (collectRemoved c racks l)) as Hc.
  { intros c l. induction l as [|s l IH]; cbn [collectRemoved]; [frame|].
    unfold clearMigrationCheckFailures. frame. }
  unfold cleanupRemovedRacks, listClusterStatefulSets, teardownMigrationGate, checkMigrationInProgress, teardownStep.
  frame.
Qed.

Lemma sub_syncGates c : keeps R (syncAllPodsReadinessGates c).
Proof. unfold syncAllPodsReadinessGates, syncPodReadinessGate, patchPodReadinessCondition. frame. Qed.

Lemma sub_tryDynamic c pods o nw cl h : keeps R (tryDynamicConfigUpdateBatch c pods o nw cl h).
Proof.
  pose proof sub_patchPodStatus.
  assert (forall node cs applied, keeps R (applyChanges node applied cs)) as Happly.
  { intros node cs. induction cs as [|x cs IH]; intros applied; cbn [applyChanges]; frame. }
  assert (forall cs targets, keeps R (validateAll cs targets)) as Hval.
  { intros cs targets. induction targets as [|[pod node] targets IH]; cbn [validateAll];
      unfold validateDynamicConfigOnPod; frame. }
  assert (forall cs h targets succ, keeps R (applyAll cs h succ targets)) as Hall.
  { intros cs h' targets. induction targets as [|[pod node] targets IH]; intros succ; cbn [applyAll]; [frame|].
    unfold rollbackDynamicChangesBatch, rollbackPod, rollbackDynamicChanges, rollbackDynamicChangesWithResult,
      rollbackOne, applyDynamicConfigOnPod, recordApplied, updatePodConfigHash, updateDynamicConfigStatus,
      updateDynamicConfigChanges. frame. }
  unfold tryDynamicConfigUpdateBatch. frame.
Qed.

Lemma sub_restartPod cluster pod sts hash : keeps R (restartPod cluster pod sts hash).
Proof.
  pose proof sub_patchPodStatus.
  unfold restartPod, coldRestartPod, warmRestartPod, quiesceNodeBeforeDeletion, recordPodRestartStatus, markDirtyVolumes,
    updatePodConfigHash, DeleteLocalPVCsForPod, GetLocalPVCsForPod, GetPVCsForStatefulSet, deleteClaim. frame.
Qed.

Lemma sub_restartPodBatch cluster pods sts hash size o nw :
  keeps R (restartPodBatch cluster pods sts hash size o nw).
Proof.
  pose proof sub_tryDynamic. pose proof sub_restartPod. pose proof sub_setConfigDegraded.
  unfold restartPodBatch, attemptDynamic, reportDegraded, batchStep. cbv zeta. apply keeps_bind; [frame|].
  intros [|]; [frame|]. apply keeps_bind; [frame|]. intros [r f]. cbn [length]. frame.
Qed.

Lemma sub_setPending l : keeps R (setPendingRestartPods l).
Proof. unfold setPendingRestartPods. frame. Qed.

Lemma sub_reconcileRollingRestart rack : keeps R (reconcileRollingRestart rack).
Proof.
  pose proof sub_restartPodBatch. pose proof sub_setPending.
  unfold reconcileRollingRestart, restartSelected, listRackPods, selectPodsToRestart, selectStep, adoptStorageHash,
    isBatchBlocked, checkMigrationInProgress, recordMigrationCheckFailure, clearMigrationCheckFailures. frame.
Qed.

Lemma sub_reconcileConfigMap cluster rack config :
  keeps R (reconcileConfigMap cluster rack config).
Proof. unfold reconcileConfigMap, writeConfigMap, createOrElse, orCreate, updateDrifted, announce. frame. Qed.

Lemma sub_reconcileHeadlessService cluster : keeps R (reconcileHeadlessService cluster).
Proof. frame_service. Qed.

Lemma sub_reconcilePodServices cluster : keeps R (reconcilePodServices cluster).
Proof. unfold reconcilePodServices, listClusterPods. frame_service. Qed.

Lemma sub_reconcileSeedsFinderService cluster : keeps R (reconcileSeedsFinderService cluster).
Proof. frame_service. Qed.

Lemma sub_reconcilePodServiceRBAC cluster : keeps R (reconcilePodServiceRBAC cluster).
Proof.
  unfold reconcilePodServiceRBAC, cleanupPodServiceRBAC, reconcileReaderRole, reconcileReaderBinding. frame_service.
Qed.

Lemma sub_reconcileMonitoring cluster : keeps R (reconcileMonitoring cluster).
Proof.
  unfold reconcileMonitoring, optional, reconcileMetricsService, reconcileServiceMonitor, reconcilePrometheusRule, unlessNoMatch,
    ensureUnstructured, cleanupUnstructured. frame_service.
Qed.

Lemma sub_reconcileNetworkPolicy cluster : keeps R (reconcileNetworkPolicy cluster).
Proof. unfold reconcileNetworkPolicy, reconcileK8sNetworkPolicy, reconcileCiliumNetworkPolicy. frame_service. Qed.

Lemma sub_reconcileACL cluster : keeps R (reconcileACL cluster).
Proof.
  assert (forall client c, keeps R (adminDo client c)) by (intros; apply keeps_adminDo; intros w s; by apply loose).
  pose proof (fun n' => keeps_client R cluster n'). pose proof (keeps_password R).
  unfold reconcileACL, aclCounted, listClusterPods, retryOnTransientWithReconnect, getAerospikeClientWithRetry, reconcileRoles, reconcileUsers,
    reconcileRole, reconcileUser, syncRolePrivileges, syncUserRoles, parsedOrInvalid, queryRoles, queryUsers. frame.
Qed.

Lemma sub_reconcilePDB cluster : keeps R (reconcilePDB cluster).
Proof.
  unfold reconcilePDB, reconcileOnePDB, deleteAllPDBs, deleteClusterPDB, deleteRackPDBs, deletePDBByName. frame.
Qed.

Lemma sub_reconcileOperations cluster : keeps R (reconcileOperations cluster).
Proof.
  assert (forall st, keeps R (persistOperationStatus st)) as Hpersist.
  { intros st. unfold persistOperationStatus. apply keeps_bind; [frame|]. intros c. by apply steps_patchStatus. }
  pose proof sub_patchPodStatus.
  assert (forall c kind pod, keeps R (operatePod c kind pod)) as Hop.
  { intros c kind pod. unfold operatePod, coldRestartPod, warmRestartPod, quiesceNodeBeforeDeletion,
      recordPodRestartStatus, markDirtyVolumes, DeleteLocalPVCsForPod, GetLocalPVCsForPod, GetPVCsForStatefulSet,
      deleteClaim. frame. }
  pose proof (fun c kind b pods => keeps_operationLoop R c kind b pods (Hop c kind)) as Hloop.
  unfold reconcileOperations, runOperation, getOperationTargetPods, listClusterPods, operationBatchBlocked,
    isBatchBlocked, checkMigrationInProgress, recordMigrationCheckFailure, clearMigrationCheckFailures, persistOr.
  frame.
Qed.

End Steps.
