(* ===== verification/Template.v ===== *)
(** * Cluster templates

    internal/template and the part of internal/controller/reconciler.go that
    resolves a template: merging a template with the overrides of a cluster,
    applying the result to the in-memory spec, checking what came out, and keeping
    the snapshot of the template in the status.  The theorems say that the
    cluster's own settings win, that applying a template again changes nothing,
    and what a resolved spec satisfies.

    Deep copies are identities here: the values are immutable, and nothing the
    code does later writes through a map that a template shares with a spec. *)

From S2P Require Import Prelude GoValue Utils Api ConfigGen ConfigRules Events Kube Sizing Status Breaker Webhook.

(** ** Merging maps (config.go) *)

(** What the loop stores for a key of the override, given what [result] has. *)
Fixpoint mergeBaseFirst (baseVal : option any) (v : any) {struct v} : any :=
  match baseVal, v with
  | Some (AMap baseMap), AMap overrideMap =>
      AMap (foldl (fun result e => map_set e.1 (mergeBaseFirst (map_get e.1 result) e.2) result) baseMap overrideMap)
  | _, _ => v
  end.

Definition deepMergeMapBaseFirst (base override : gomap any) : gomap any :=
  foldl (fun result e => map_set e.1 (mergeBaseFirst (map_get e.1 result) e.2) result) base override.

(** The section, and the map that holds it. *)
Definition getOrCreateSection (m : gomap any) (key : string) : gomap any * gomap any :=
  match map_get key m with
  | Some (AMap existingMap) => (existingMap, m)
  | _ => ([], map_set key (AMap []) m)
  end.

(** ** Merging a template with overrides (merge.go) *)

(** A field of pointer type: the override if there is one. *)
Definition overridden {A} (base override : option A) : option A :=
  match override with Some _ => override | None => base end.

(** The merge of two pointers, with [f] when neither is nil. *)
Definition mergePtr {A} (f : A -> A -> A) (base override : option A) : option A :=
  match base, override with
  | None, _ => override
  | Some _, None => base
  | Some b, Some o => Some (f b o)
  end.

Definition mergeTemplateHeartbeatConfig : option TemplateHeartbeatConfig -> option TemplateHeartbeatConfig ->
    option TemplateHeartbeatConfig :=
  mergePtr (fun b o => mkTemplateHeartbeatConfig
    (if decide (thb_Mode o = "") then thb_Mode b else thb_Mode o)
    (if decide (thb_Interval o = 0) then thb_Interval b else thb_Interval o)
    (if decide (thb_Timeout o = 0) then thb_Timeout b else thb_Timeout o)).

Definition mergeTemplateNetworkConfig : option TemplateNetworkConfig -> option TemplateNetworkConfig ->
    option TemplateNetworkConfig :=
  mergePtr (fun b o => match tnc_Heartbeat o with
                       | None => b
                       | Some _ => mkTemplateNetworkConfig
                                     (mergeTemplateHeartbeatConfig (tnc_Heartbeat b) (tnc_Heartbeat o))
                       end).

(** A map of defaults: an empty override leaves the base alone. *)
Definition mergeDefaults (base override : option (gomap any)) : option (gomap any) :=
  match override with
  | Some (e :: o) => Some (deepMergeMapBaseFirst (default [] base) (e :: o))
  | _ => base
  end.

Definition mergeTemplateAerospikeConfig : option TemplateAerospikeConfig -> option TemplateAerospikeConfig ->
    option TemplateAerospikeConfig :=
  mergePtr (fun b o => mkTemplateAerospikeConfig
    (mergeDefaults (tac_NamespaceDefaults b) (tac_NamespaceDefaults o))
    (mergeDefaults (tac_Service b) (tac_Service o))
    (match tac_Network o with
     | None => tac_Network b
     | Some _ => mergeTemplateNetworkConfig (tac_Network b) (tac_Network o)
     end)).

(** A list replaces another unless it is empty. *)
Definition replaced {A} (base override : list A) : list A := match override with [] => base | _ => override end.

Definition mergeTemplateScheduling : option TemplateScheduling -> option TemplateScheduling -> option TemplateScheduling :=
  mergePtr (fun b o => mkTemplateScheduling
    (if decide (tsc_PodAntiAffinityLevel o = PodAntiAffinityUnset) then tsc_PodAntiAffinityLevel b
     else tsc_PodAntiAffinityLevel o)
    (overridden (tsc_NodeAffinity b) (tsc_NodeAffinity o))
    (replaced (tsc_Tolerations b) (tsc_Tolerations o))
    (replaced (tsc_TopologySpreadConstraints b) (tsc_TopologySpreadConstraints o))
    (overridden (tsc_PodManagementPolicy b) (tsc_PodManagementPolicy o))).

Definition MergeTemplateSpec : option AerospikeClusterTemplateSpec -> option AerospikeClusterTemplateSpec ->
    option AerospikeClusterTemplateSpec :=
  mergePtr (fun b o => b
    <| tp_AerospikeConfig := mergeTemplateAerospikeConfig (tp_AerospikeConfig b) (tp_AerospikeConfig o) |>
    <| tp_Scheduling := mergeTemplateScheduling (tp_Scheduling b) (tp_Scheduling o) |>
    <| tp_Storage := overridden (tp_Storage b) (tp_Storage o) |>
    <| tp_Resources := overridden (tp_Resources b) (tp_Resources o) |>
    <| tp_RackConfig := overridden (tp_RackConfig b) (tp_RackConfig o) |>
    <| tp_Image := if decide (tp_Image o = "") then tp_Image b else tp_Image o |>
    <| tp_Size := overridden (tp_Size b) (tp_Size o) |>
    <| tp_Monitoring := overridden (tp_Monitoring b) (tp_Monitoring o) |>
    <| tp_AerospikeNetworkPolicy := overridden (tp_AerospikeNetworkPolicy b) (tp_AerospikeNetworkPolicy o) |>).

(** ** Scheduling (scheduling.go) *)

Definition TranslatePodAntiAffinity (level : PodAntiAffinityLevel) (clusterName : string) : option PodAntiAffinity :=
  let term := mkPodAffinityTerm (Some (mkLabelSelector (SelectorLabelsForCluster clusterName) []))
                "kubernetes.io/hostname" [] in
  match level with
  | PodAntiAffinityUnset | PodAntiAffinityNone => None
  | PodAntiAffinityRequired => Some (mkPodAntiAffinity [term] [])
  | PodAntiAffinityPreferred => Some (mkPodAntiAffinity [] [mkWeightedPodAffinityTerm 100 term])
  end.

(** The affinity of the pods, after the anti-affinity level and the node affinity. *)
Definition withAntiAffinity (level : PodAntiAffinityLevel) (clusterName : string) (aff : option Affinity) : option Affinity :=
  if decide (level = PodAntiAffinityUnset) then aff
  else let a := default emptyAffinity aff in
       Some (match aff_PodAntiAffinity a, TranslatePodAntiAffinity level clusterName with
             | None, Some antiAffinity => a <| aff_PodAntiAffinity := Some antiAffinity |>
             | _, _ => a
             end).

Definition withNodeAffinity (nodeAffinity : option NodeAffinity) (aff : option Affinity) : option Affinity :=
  match nodeAffinity with
  | None => aff
  | Some _ =>
      let a := default emptyAffinity aff in
      Some (match aff_NodeAffinity a with None => a <| aff_NodeAffinity := nodeAffinity |> | Some _ => a end)
  end.

(** The scheduling fields of one pod spec. *)
Definition schedulePods (scheduling : TemplateScheduling) (clusterName : string) (ps : AerospikePodSpec) : AerospikePodSpec :=
  ps <| ps_Affinity := withNodeAffinity (tsc_NodeAffinity scheduling)
          (withAntiAffinity (tsc_PodAntiAffinityLevel scheduling) clusterName (ps_Affinity ps)) |>
     <| ps_Tolerations := replaced (tsc_Tolerations scheduling) (ps_Tolerations ps) |>
     <| ps_TopologySpreadConstraints := replaced (tsc_TopologySpreadConstraints scheduling) (ps_TopologySpreadConstraints ps) |>
     <| ps_PodManagementPolicy := overridden (tsc_PodManagementPolicy scheduling) (ps_PodManagementPolicy ps) |>.

Definition applyScheduling (scheduling : option TemplateScheduling) (clusterName : string) (spec : AerospikeClusterSpec)
    : AerospikeClusterSpec :=
  match scheduling with
  | None => spec
  | Some scheduling =>
      spec <| spec_PodSpec := Some (schedulePods scheduling clusterName (default emptyPodSpec (spec_PodSpec spec))) |>
  end.

(** ** Storage (storage.go) *)

Definition defaultDataVolumeName := "data".
Definition defaultDataMountPath := "/opt/aerospike/data".

(** The volume a template's storage stands for. *)
Definition templateVolume (tmplStorage : TemplateStorage) : VolumeSpec :=
  let size := match map_get "storage" (tst_Requests tmplStorage) with Some qty => q_String qty | None => "1Gi" end in
  let mode := if decide (tst_VolumeMode tmplStorage = VolumeModeUnset) then PersistentVolumeFilesystem
              else tst_VolumeMode tmplStorage in
  let modes := replaced ["ReadWriteOnce"] (tst_AccessModes tmplStorage) in
  mkVolumeSpec defaultDataVolumeName
    (mkVolumeSource (Some (mkPersistentVolumeSpec (tst_StorageClassName tmplStorage) mode size modes None None))
       None None None None)
    (Some (mkAerospikeVolumeAttachment defaultDataMountPath false "" "" None)) [] [] InitMethodUnset WipeMethodUnset None.

Definition emptyStorage : AerospikeStorageSpec := mkStorageSpec [] 0 None None [] None.

Definition applyStorage (tmplStorage : option TemplateStorage) (spec : AerospikeClusterSpec) : AerospikeClusterSpec :=
  match tmplStorage with
  | None => spec
  | Some tmplStorage =>
      let storage := default emptyStorage (spec_Storage spec) in
      match st_Volumes storage with
      | [] => spec <| spec_Storage := Some (storage <| st_Volumes := [templateVolume tmplStorage] |>) |>
      | _ => spec
      end
  end.

(** ** The configuration (config.go) *)

(** The template's service section is the base of the cluster's. *)
Definition applyServiceDefaults (service : gomap any) (config : gomap any) : goerr + gomap any :=
  match map_get "service" config with
  | Some (AMap _) | None =>
      let '(existing, config) := getOrCreateSection config "service" in
      inr (map_set "service" (AMap (deepMergeMapBaseFirst service existing)) config)
  | Some _ => inl (Errorf "aerospikeConfig.service is not a map; refusing to overwrite with template defaults")
  end.

Definition setUnlessPresent (key : string) (v : any) (m : gomap any) : gomap any :=
  if map_has key m then m else map_set key v m.

Definition applyHeartbeatDefaults (hb : TemplateHeartbeatConfig) (config : gomap any) : gomap any :=
  let '(networkSection, config) := getOrCreateSection config "network" in
  let '(hbSection, networkSection) := getOrCreateSection networkSection "heartbeat" in
  let hbSection := if decide (thb_Mode hb = "") then hbSection
                   else setUnlessPresent "mode" (AString (thb_Mode hb)) hbSection in
  let hbSection := if 0 <? thb_Interval hb then setUnlessPresent "interval" (AInt KInt (thb_Interval hb)) hbSection
                   else hbSection in
  let hbSection := if 0 <? thb_Timeout hb then setUnlessPresent "timeout" (AInt KInt (thb_Timeout hb)) hbSection
                   else hbSection in
  map_set "network" (AMap (map_set "heartbeat" (AMap hbSection) networkSection)) config.

Definition applyNamespaceDefaults (config defaults : gomap any) : gomap any :=
  match defaults, map_get "namespaces" config with
  | _ :: _, Some (AList nsList) =>
      map_set "namespaces" (AList ((fun ns => match ns with
                                              | AMap nsMap => AMap (deepMergeMapBaseFirst defaults nsMap)
                                              | _ => ns
                                              end) <$> nsList)) config
  | _, _ => config
  end.

(** All defaults of a template, on the configuration map. *)
Definition applyConfigDefaults (tmplConfig : TemplateAerospikeConfig) (config : gomap any) : goerr + gomap any :=
  match (match tac_Service tmplConfig with
         | Some (e :: service) => applyServiceDefaults (e :: service) config
         | _ => inr config
         end) with
  | inl e => inl e
  | inr config =>
      let config := match tac_Network tmplConfig ≫= tnc_Heartbeat with
                    | Some hb => applyHeartbeatDefaults hb config
                    | None => config
                    end in
      inr (applyNamespaceDefaults config (default [] (tac_NamespaceDefaults tmplConfig)))
  end.

(** On an error the spec has a configuration map, which is as it was. *)
Definition applyAerospikeConfig (tmplConfig : option TemplateAerospikeConfig) (spec : AerospikeClusterSpec)
    : option goerr * AerospikeClusterSpec :=
  match tmplConfig with
  | None => (None, spec)
  | Some tmplConfig =>
      let config := default [] (spec_AerospikeConfig spec) in
      match applyConfigDefaults tmplConfig config with
      | inl e => (Some e, spec <| spec_AerospikeConfig := Some config |>)
      | inr config => (None, spec <| spec_AerospikeConfig := Some config |>)
      end
  end.

(** ** Image, size, monitoring and network policy (apply_cluster.go) *)

Definition applyImage (tmplImage : string) (spec : AerospikeClusterSpec) : AerospikeClusterSpec :=
  if decide (tmplImage <> "" /\ spec_Image spec = "") then spec <| spec_Image := tmplImage |> else spec.

Definition applySize (tmplSize : option Z) (spec : AerospikeClusterSpec) : AerospikeClusterSpec :=
  match tmplSize with
  | None => spec
  | Some size => if decide (spec_Size spec = 0) then spec <| spec_Size := size |> else spec
  end.

(** The exporter's defaults of an enabled monitoring spec. *)
Definition completeMonitoring (m : AerospikeMonitoringSpec) : AerospikeMonitoringSpec :=
  if mon_Enabled m then
    m <| mon_ExporterImage ::= fun image => if decide (image = "") then DefaultExporterImage else image |>
      <| mon_Port ::= fun port => if decide (port = 0) then DefaultExporterPort else port |>
  else m.

Definition applyMonitoring (tmplMonitoring : option AerospikeMonitoringSpec) (spec : AerospikeClusterSpec)
    : AerospikeClusterSpec :=
  match tmplMonitoring with
  | None => spec
  | Some tmplMonitoring =>
      spec <| spec_Monitoring := Some (completeMonitoring (default tmplMonitoring (spec_Monitoring spec))) |>
  end.

Definition applyNetworkPolicy (tmplPolicy : option AerospikeNetworkPolicy) (spec : AerospikeClusterSpec)
    : AerospikeClusterSpec :=
  match tmplPolicy with
  | None => spec
  | Some _ => spec <| spec_AerospikeNetworkPolicy ::= overridden tmplPolicy |>
  end.

(** ** Applying a template (resolver.go) *)

Definition applyResources (resources : option ResourceRequirements) (spec : AerospikeClusterSpec) : AerospikeClusterSpec :=
  match resources with
  | None => spec
  | Some _ =>
      let ps := default emptyPodSpec (spec_PodSpec spec) in
      let acs := default (mkAerospikeContainerSpec None None) (ps_AerospikeContainerSpec ps) in
      spec <| spec_PodSpec := Some (ps <| ps_AerospikeContainerSpec :=
                Some (acs <| acs_Resources ::= overridden resources |>) |>) |>
  end.

(** The fields that are applied without a check. *)
Definition applyTotal (t : AerospikeClusterTemplateSpec) (spec : AerospikeClusterSpec) : AerospikeClusterSpec :=
  applyNetworkPolicy (tp_AerospikeNetworkPolicy t)
    (applyMonitoring (tp_Monitoring t) (applySize (tp_Size t) (applyImage (tp_Image t) (applyResources (tp_Resources t) spec)))).

Definition ApplyTemplate (resolved : option AerospikeClusterTemplateSpec) (clusterName : string) (spec : AerospikeClusterSpec)
    : option goerr * AerospikeClusterSpec :=
  match resolved with
  | None => (None, spec)
  | Some t =>
      let spec := applyStorage (tp_Storage t) (applyScheduling (tp_Scheduling t) clusterName spec) in
      match applyAerospikeConfig (tp_AerospikeConfig t) spec with
      | (Some e, spec) => (Some e, spec)
      | (None, spec) => (None, applyTotal t spec)
      end
  end.

(** ** Checks (validation.go, and the template's webhook) *)

Definition resourceRequestsEqualLimits (r : ResourceRequirements) : bool :=
  let checkResource name :=
    match map_get name (rr_Requests r), map_get name (rr_Limits r) with
    | None, None => true
    | Some req, Some lim => bool_decide (q_Nano req = q_Nano lim)
    | _, _ => false
    end in
  checkResource "cpu" && checkResource "memory".

(** Warnings about the merged template and the spec it is applied to. *)
Definition ValidateResolvedSpec (resolved : AerospikeClusterSpec) (templateSpec : option AerospikeClusterTemplateSpec)
    : list notice :=
  match templateSpec with
  | None => []
  | Some t =>
      (if decide (trc_MaxRacksPerNode <$> tp_RackConfig t = Some 1) then
         (if decide (tsc_PodAntiAffinityLevel <$> tp_Scheduling t = Some PodAntiAffinityRequired) then []
          else [Advice "maxRacksPerNode" "podAntiAffinityLevel"]) ++
         (if decide (tst_LocalPVRequired <$> tp_Storage t = Some true) then []
          else [Advice "maxRacksPerNode" "localPVRequired"]) ++
         (match spec_PodSpec resolved with
          | Some ps => match ps_Tolerations ps with [] => [Advice "maxRacksPerNode" "tolerations"] | _ => [] end
          | None => []
          end)
       else []) ++
      (match tp_Resources t with
       | Some r => if resourceRequestsEqualLimits r then [] else [Advice "resources" "Guaranteed QoS"]
       | None => []
       end)
  end.

Definition validateTemplateImage (image : string) : list notice * list notice :=
  if decide (image = "") then ([], [])
  else
    let imageLower := to_lower image in
    if contains_str "aerospike-server-enterprise" imageLower then ([EnterpriseImage "image" image], [])
    else if isEnterpriseTag image then ([EnterpriseImage "image" image], [])
    else if contains_str "enterprise" imageLower then ([EnterpriseImage "image" image], [])
    else if contains_str "ce-" image then ([], []) else ([], [Advice "image" "not tagged as CE"]).

Definition validTemplateSize (size : Z) : bool := (1 <=? size) && (size <=? 8).

(** [ValidateTemplateSpec]: errors and warnings.  The anti-affinity levels and the
    pod management policies of the model are the valid ones. *)
Definition ValidateTemplateSpec (spec : option AerospikeClusterTemplateSpec) : list notice * list notice :=
  match spec with
  | None => ([], [])
  | Some t =>
      let '(imgErrs, imgWarnings) := validateTemplateImage (tp_Image t) in
      ((match tp_RackConfig t with
        | Some rc => if trc_MaxRacksPerNode rc <? 0 then [OutOfRange "rackConfig.maxRacksPerNode" (AInt KInt (trc_MaxRacksPerNode rc))] else []
        | None => []
        end) ++
       (match map_get "storage" (from_option tst_Requests [] (tp_Storage t)) with
        | Some qty => if q_Nano qty <=? 0 then [Invalid "storage.resources.requests.storage" (q_String qty)] else []
        | None => []
        end) ++
       imgErrs ++
       (match tp_Size t with
        | Some size => if validTemplateSize size then [] else [OutOfRange "size" (AInt KInt32 size)]
        | None => []
        end) ++
       (match tp_Monitoring t with
        | Some m => if decide (mon_Port m = 0) then []
                    else if (mon_Port m <? 1) || (65535 <? mon_Port m) then [OutOfRange "monitoring.port" (AInt KInt32 (mon_Port m))] else []
        | None => []
        end),
       (match tp_Storage t with
        | Some s => if decide (tst_LocalPVRequired s = true /\ tst_StorageClassName s = "") then [Advice "storage.localPVRequired" "storageClassName"] else []
        | None => []
        end) ++
       (match tp_Resources t with
        | Some r => if resourceRequestsEqualLimits r then [] else [Advice "resources" "Guaranteed QoS"]
        | None => []
        end) ++ imgWarnings)
  end.

(** *** The admission webhook of templates (aerospikeclustertemplate_webhook.go) *)

(** The [Default] of the template's webhook. *)
Definition defaultTemplate (spec : AerospikeClusterTemplateSpec) : AerospikeClusterTemplateSpec :=
  spec <| tp_Scheduling ::= fmap (fun s =>
            s <| tsc_PodAntiAffinityLevel ::= fun l => if decide (l = PodAntiAffinityUnset) then PodAntiAffinityPreferred else l |>) |>
       <| tp_Storage ::= fmap (fun s =>
            s <| tst_VolumeMode ::= fun m => if decide (m = VolumeModeUnset) then PersistentVolumeFilesystem else m |>
              <| tst_AccessModes ::= replaced ["ReadWriteOnce"] |>) |>.

Definition validateTemplateImageCE (image : string) : list notice :=
  if decide (image = "") then [] else enterpriseImage "spec.image" image.

Definition validateTemplateSizeCE (size : option Z) : list notice :=
  match size with
  | Some size => if (size <? 1) || (maxCEClusterSize <? size) then [OutOfRange "spec.size" (AInt KInt32 size)] else []
  | None => []
  end.

Definition validateTemplateMonitoringPort (m : option AerospikeMonitoringSpec) : list notice :=
  match m with
  | Some m => if decide (mon_Port m = 0) then []
              else if (mon_Port m <? 1) || (65535 <? mon_Port m) then [OutOfRange "spec.monitoring.port" (AInt KInt32 (mon_Port m))] else []
  | None => []
  end.

(** The check of the [aerospikeConfig] of a template. *)
Definition validateTemplateAerospikeConfig (c : TemplateAerospikeConfig) : list notice :=
  (match tac_Network c ≫= tnc_Heartbeat with
   | Some hb => if decide (thb_Mode hb = "" \/ thb_Mode hb = "mesh") then []
                else [Invalid "spec.aerospikeConfig.network.heartbeat.mode" (thb_Mode hb)]
   | None => []
   end) ++
  from_option (fun nd => validateTemplateConfigBannedKeys "spec.aerospikeConfig.namespaceDefaults" nd true) []
    (tac_NamespaceDefaults c) ++
  from_option (fun svc => validateTemplateConfigBannedKeys "spec.aerospikeConfig.service" svc false) [] (tac_Service c).

(** The [validate] of the template's webhook: errors and warnings. *)
Definition validateTemplate (spec : AerospikeClusterTemplateSpec) : list notice * list notice :=
  ((match tp_RackConfig spec with
    | Some rc => if trc_MaxRacksPerNode rc <? 0 then [OutOfRange "spec.rackConfig.maxRacksPerNode" (AInt KInt (trc_MaxRacksPerNode rc))] else []
    | None => []
    end) ++
   validateTemplateImageCE (tp_Image spec) ++ validateTemplateSizeCE (tp_Size spec) ++
   validateTemplateMonitoringPort (tp_Monitoring spec) ++
   from_option validateTemplateAerospikeConfig [] (tp_AerospikeConfig spec),
   (match tp_Storage spec with
    | Some s => if decide (tst_LocalPVRequired s = true /\ tst_StorageClassName s = "") then [Advice "spec.storage.localPVRequired" "storageClassName"] else []
    | None => []
    end) ++
   (match tp_Resources spec with
    | Some r => if resourceRequestsEqualLimits r then [] else [Advice "spec.resources" "Guaranteed QoS"]
    | None => []
    end)).

(** ** The checks of a resolved spec (resolver.go) *)

(** The package's own copies of the limits and tables of the webhook. *)
Definition resolverMaxCEClusterSize : Z := 8.

Definition enterpriseOnlySecurityKeysCE : list string := ["tls"; "ldap"; "log"; "syslog"].

Definition enterpriseOnlyNamespaceKeysCE : list string :=
  ["compression"; "compression-level"; "durable-delete"; "fast-restart"; "index-type"; "sindex-type"; "rack-id";
   "strong-consistency"; "tomb-raider-eligible-age"; "tomb-raider-period"].

Definition tlsKeyPrefixCE : string := "tls-".

Definition tlsNetworkSubsectionsCE : list string := ["service"; "heartbeat"; "fabric"].

Definition tlsKeysCE (m : gomap any) : list string :=
  merge_sort String.le (filter (fun k => has_prefix tlsKeyPrefixCE k = true) (map_keys m)).

(** One namespace of the merged configuration. *)
Definition validateMergedNamespace (i : nat) (nsEntry : any) : list notice :=
  match nsEntry with
  | AMap nsMap => (fun key => NotAllowed (dotted (indexed "merged namespace" i) key)) <$> bannedKeys enterpriseOnlyNamespaceKeysCE nsMap
  | _ => []
  end.

(** The network stanza of the merged map: [tls] and the [tls-] keys of its endpoints. *)
Definition validateMergedNetworkTLSCE (config : gomap any) : list notice :=
  match as_map (map_index "network" config) with
  | None => []
  | Some netCfg =>
      (if map_has "tls" netCfg then [NotAllowed "merged aerospikeConfig.network.tls"] else []) ++
      (subsection ← tlsNetworkSubsectionsCE;
       match as_map (map_index subsection netCfg) with
       | None => []
       | Some subMap =>
           (fun key => NotAllowed (dotted (dotted "merged aerospikeConfig.network" subsection) key)) <$> tlsKeysCE subMap
       end)
  end.

Definition validateMergedConfigCE (config : gomap any) : list notice :=
  (if map_has "xdr" config then [NotAllowed "merged aerospikeConfig.xdr"] else []) ++
  (if map_has "tls" config then [NotAllowed "merged aerospikeConfig.tls"] else []) ++
  validateMergedNetworkTLSCE config ++
  (match map_get "security" config with
   | Some (AMap secMap) =>
       (fun key => NotAllowed (dotted "merged aerospikeConfig.security" key)) <$> bannedKeys enterpriseOnlySecurityKeysCE secMap
   | _ => []
   end) ++
  (match map_get "namespaces" config with
   | Some (AList nsList) => eachIndexed validateMergedNamespace nsList
   | _ => []
   end).

Definition validateMergedSpecCE (spec : AerospikeClusterSpec) : list notice :=
  (if decide (spec_Image spec = "") then [] else enterpriseImage "merged spec.image" (spec_Image spec)) ++
  (if (spec_Size spec <? 1) || (resolverMaxCEClusterSize <? spec_Size spec)
   then [OutOfRange "merged spec.size" (AInt KInt32 (spec_Size spec))] else []) ++
  from_option validateMergedConfigCE [] (spec_AerospikeConfig spec).

(** ** Resolution (resolver.go) *)

Definition AnnotationResyncTemplate := "acko.io/resync-template".

Definition resyncRequested (cluster : AerospikeCluster) : bool :=
  bool_decide (lookup_str AnnotationResyncTemplate (cl_Annotations cluster) = "true").

Definition NeedsResync (cluster : AerospikeCluster) : bool :=
  match spec_TemplateRef (cl_Spec cluster), st_TemplateSnapshot (cl_Status cluster) with
  | None, _ => false
  | Some _, None => true
  | Some _, Some _ => resyncRequested cluster
  end.

Record ResolveResult := mkResolveResult {
  SnapshotUpdated : bool;
  AnnotationNeedsCleanup : bool;
  Warnings : list notice
}.

Section Resolve.
Context `{Environment}.

(** [FetchAndSnapshot]; the boolean is whether there is a template. *)
Definition FetchAndSnapshot : M bool :=
  cluster ← mem;
  match spec_TemplateRef (cl_Spec cluster) with
  | None => mret false
  | Some name =>
      got ← try (getObj (T := AerospikeClusterTemplate) name);
      match got with
      | inl e => if IsNotFound e then raise (NewValidationf ("template " +:+ name +:+ " not found"))
                 else raise (wrapErr ("fetching template " +:+ name) e)
      | inr tmpl =>
          t ← now;
          _ ← modify_mem (fun c => c <$ st_TemplateSnapshot :=
                Some (mkTemplateSnapshot (tmpl_Name tmpl) (tmpl_ResourceVersion tmpl) t true (Some (tmpl_Spec tmpl))) $>);
          mret true
      end
  end.

Definition waitForFirstConsumer := "WaitForFirstConsumer".

Definition ValidateLocalPV (storageClassName : string) : M () :=
  if decide (storageClassName = "") then raise (Errorf "storageClassName must be specified when localPVRequired is true")
  else
    sc ← wrapping "getting StorageClass" (getObj (T := StorageClass) storageClassName);
    if decide (sc_VolumeBindingMode sc = Some waitForFirstConsumer) then mret ()
    else raise (Errorf "StorageClass must have volumeBindingMode: WaitForFirstConsumer").

(** The warning about the storage class, if there is one. *)
Definition localPVWarnings (t : option AerospikeClusterTemplateSpec) : M (list notice) :=
  match t ≫= tp_Storage with
  | Some s =>
      if tst_LocalPVRequired s then
        r ← try (ValidateLocalPV (tst_StorageClassName s));
        mret (match r with inl e => [Advice "localPVRequired" (err_msg e)] | inr _ => [] end)
      else mret []
  | None => mret []
  end.

(** The snapshot, merged with the overrides. *)
Definition effectiveTemplate (cluster : AerospikeCluster) : option AerospikeClusterTemplateSpec :=
  MergeTemplateSpec (st_TemplateSnapshot (cl_Status cluster) ≫= ts_Spec) (spec_Overrides (cl_Spec cluster)).

(** [ApplyTemplate] on the cluster object in memory. *)
Definition applyToMemory (t : option AerospikeClusterTemplateSpec) : M () :=
  cluster ← mem;
  let '(err, spec) := ApplyTemplate t (cl_Name cluster) (cl_Spec cluster) in
  _ ← modify_mem (fun c => c <| cl_Spec := spec |>);
  match err with Some e => raise e | None => mret () end.

(** What a resolved spec must have. *)
Definition checkResolved (spec : AerospikeClusterSpec) : goerr + () :=
  if decide (spec_Image spec = "") then inl (Errorf "spec.image is required")
  else if decide (spec_Size spec = 0) then inl (Errorf "spec.size is required")
  else match validateMergedSpecCE spec with
       | [] => inr ()
       | _ => inl (Errorf "resolved spec violates CE constraints")
       end.

Definition Resolve : M ResolveResult :=
  cluster ← mem;
  match spec_TemplateRef (cl_Spec cluster) with
  | None => mret (mkResolveResult false false [])
  | Some name =>
      updated ← (if NeedsResync cluster then FetchAndSnapshot else mret false);
      let cleanup := NeedsResync cluster && resyncRequested cluster && updated in
      cluster ← mem;
      match st_TemplateSnapshot (cl_Status cluster) ≫= ts_Spec with
      | None => raise (Errorf ("template snapshot is missing or has no spec; cannot resolve template " +:+ name))
      | Some _ =>
          let effectiveSpec := effectiveTemplate cluster in
          let warnings := ValidateResolvedSpec (cl_Spec cluster) effectiveSpec in
          more ← localPVWarnings effectiveSpec;
          _ ← wrapping ("applying template " +:+ name) (applyToMemory effectiveSpec);
          cluster ← mem;
          _ ← lift (checkResolved (cl_Spec cluster));
          mret (mkResolveResult updated cleanup (warnings ++ more))
      end
  end.

(** ** The reconciler's side (reconciler.go) *)

(** [r.Patch(ctx, cluster, client.MergeFrom(copy))] after an annotation was removed:
    only the removal is sent; the answer is the stored object. *)
Definition patchAnnotation (key : string) : M AerospikeCluster :=
  _ ← api; cur ← gets w_cluster;
  match cur with
  | None => raise (notFound "AerospikeCluster")
  | Some cur =>
      let stored := cur <| cl_Annotations ::= map_del key |> <| cl_ResourceVersion ::= Z.add 1 |> in
      _ ← modify (fun w => w <| w_cluster := Some stored |>);
      _ ← act AUpdateCluster; mret stored
  end.

(** A write whose answer replaces the object in memory, so that the template has to be
    applied again; a conflict asks for a new reconcile. *)
Definition writeThenReapply (write : M AerospikeCluster) : M (option Result) :=
  r ← try write;
  match r with
  | inl e => if IsConflict e then mret (Some requeue) else raise e
  | inr stored =>
      _ ← modify_mem (fun _ => stored);
      _ ← applyToMemory (effectiveTemplate stored);
      mret None
  end.

Definition persistSnapshot : M (option Result) :=
  cluster ← mem; writeThenReapply (updateStatus cluster).

Definition cleanupAnnotation : M (option Result) :=
  _ ← modify_mem (fun c => c <| cl_Annotations ::= map_del AnnotationResyncTemplate |>);
  writeThenReapply (patchAnnotation AnnotationResyncTemplate).

(** The events at the end. *)
Definition announceTemplate (res : ResolveResult) : M () :=
  cluster ← mem;
  _ ← (if SnapshotUpdated res && bool_decide (st_TemplateSnapshot (cl_Status cluster) <> None)
       then record false EventTemplateApplied else mret ());
  forM_ (Warnings res) (fun _ => record true EventValidationWarning).

Definition resolveTemplate : M (option Result) :=
  r ← try Resolve;
  match r with
  | inl e => _ ← record true EventTemplateResolutionError; raise e
  | inr res =>
      a ← (if SnapshotUpdated res then persistSnapshot else mret None);
      match a with
      | Some result => mret (Some result)
      | None =>
          b ← (if AnnotationNeedsCleanup res then cleanupAnnotation else mret None);
          match b with
          | Some result => mret (Some result)
          | None => _ ← announceTemplate res; mret None
          end
      end
  end.

(** [mapTemplateToCluster]: the clusters to reconcile after a template event; those that
    were in sync are marked as drifted. *)
Definition markDrifted (cl : AerospikeCluster) : M () :=
  match st_TemplateSnapshot (cl_Status cl) with
  | Some snap =>
      if ts_Synced snap then
        r ← try (updateStatus (cl <$ st_TemplateSnapshot := Some (snap <| ts_Synced := false |>) $>));
        match r with inl _ => mret () | inr _ => record true EventTemplateDrifted end
      else mret ()
  | None => mret ()
  end.

Definition mapTemplateToCluster (template : string) : M (list string) :=
  r ← try (_ ← api; gets (fun w => option_list (w_cluster w)));
  match r with
  | inl _ => mret []
  | inr items =>
      foldM (fun requests cl =>
        if decide (spec_TemplateRef (cl_Spec cl) = Some template) then
          _ ← markDrifted cl; mret (requests ++ [cl_Name cl])
        else mret requests) [] items
  end.

End Resolve.

(** ** The two merge routines *)

Lemma mergeBaseFirst_eq v : forall b, mergeBaseFirst b v = mergeEntry b v.
Proof.
  induction v as [| | | | | |l IH|m IH] using any_rec_ind; intros bv;
    try (destruct bv as [[]|]; simpl; by rewrite ?deepCopyValue_id).
  - rewrite mergeEntry_other by done. by destruct bv as [[]|].
  - destruct bv as [[]|]; try (rewrite mergeEntry_other by naive_solver; done).
    simpl. f_equal. rewrite copyEntries_id. clear -IH. match goal with |- foldl _ ?r _ = _ => revert r end.
    induction IH as [|[k x] m Hx _ IHm]; intros r; [done|]. simpl in *. by rewrite Hx, IHm.
Qed.

Lemma baseFirst_DeepMerge base override : deepMergeMapBaseFirst base override = DeepMerge base override.
Proof.
  unfold deepMergeMapBaseFirst, DeepMerge. rewrite copyEntries_id. revert base.
  induction override as [|[k v] o IH]; intros base; [done|]. simpl. by rewrite mergeBaseFirst_eq, IH.
Qed.

(** The template package has its own merge of two maps, and it computes the same
    map as utils.DeepMerge, at every depth. *)
Theorem deepMergeMapBaseFirst_eq base override : deepMergeMapBaseFirst base override = DeepMerge base override.
Proof. apply baseFirst_DeepMerge. Qed.

(** ** The cluster's own settings win

    [value_at path v]: the value at a path of keys and list positions.  A value
    [keeps_values] another when every scalar of it is found at the same place. *)

Inductive step := Key (k : string) | Idx (i : nat).

Fixpoint value_at (path : list step) (v : any) : option any :=
  match path, v with
  | [], _ => Some v
  | Key k :: path, AMap m => x ← map_get k m; value_at path x
  | Idx i :: path, AList l => x ← l !! i; value_at path x
  | _, _ => None
  end.

Definition keeps_values (a b : any) : Prop :=
  forall path v, value_at path a = Some v -> is_scalar v = true -> value_at path b = Some v.

#[export] Instance keeps_values_pre : PreOrder keeps_values.
Proof. split; [by intros a path v|intros a b c Hab Hbc path v Hv Hs; auto]. Qed.

Lemma keeps_values_map m m' :
  (forall k v, map_get k m = Some v -> exists v', map_get k m' = Some v' /\ keeps_values v v') ->
  keeps_values (AMap m) (AMap m').
Proof.
  intros Hm [|[k|i] path] v; simpl; [by intros [= <-]| |done].
  destruct (map_get k m) as [x|] eqn:Hx; simpl; [|done].
  destruct (Hm k x Hx) as (x' & -> & Hxx). apply Hxx.
Qed.

Lemma keeps_values_list l l' : Forall2 keeps_values l l' -> keeps_values (AList l) (AList l').
Proof.
  intros Hl [|[k|i] path] v; simpl; [by intros [= <-]|done|].
  destruct (l !! i) as [x|] eqn:Hx; simpl; [|done].
  destruct (Forall2_lookup_l _ _ _ _ _ Hl Hx) as (x' & -> & Hxx). apply Hxx.
Qed.

Lemma keeps_values_merge o : forall b, any_wf o -> keeps_values o (mergeEntry b o).
Proof.
  induction o as [| | | | | |l IH|m IH] using any_rec_ind; intros bv Hwf;
    try (rewrite mergeEntry_other by done; done).
  destruct bv as [[]|]; try (rewrite mergeEntry_other by naive_solver; done).
  rewrite mergeEntry_maps. apply keeps_values_map. intros k v Hv. unfold DeepMerge. rewrite copyEntries_id.
  pose proof (any_wf_map_wf _ Hwf). rewrite foldl_merge_lookup, Hv by done. eexists. split; [done|].
  rewrite Forall_forall in IH. apply (IH (k, v)); [by apply map_get_Some_in|]. by eapply any_wf_entry.
Qed.

Lemma keeps_values_baseFirst b o : config_wf o -> keeps_values (AMap o) (AMap (deepMergeMapBaseFirst b o)).
Proof. intros Hwf. rewrite baseFirst_DeepMerge, <- mergeEntry_maps. by apply keeps_values_merge. Qed.

Lemma keeps_values_set k v' m :
  (forall v, map_get k m = Some v -> keeps_values v v') -> keeps_values (AMap m) (AMap (map_set k v' m)).
Proof.
  intros Hk. apply keeps_values_map. intros k' v Hv. rewrite map_get_set.
  case_decide; subst; [by eauto|]. by exists v.
Qed.

(** ** The defaults of the configuration *)

(** The sections that receive heartbeat defaults are maps, or absent. *)
Definition heartbeat_mergeable (config : gomap any) : Prop :=
  forall v, map_get "network" config = Some v -> exists net, v = AMap net /\
    forall v, map_get "heartbeat" net = Some v -> exists hb, v = AMap hb.

Lemma getOrCreateSection_keeps m k s m' :
  getOrCreateSection m k = (s, m') -> (forall v, map_get k m = Some v -> exists x, v = AMap x) ->
  keeps_values (AMap m) (AMap m') /\ map_get k m' = Some (AMap s) /\
  (map_get k m = Some (AMap s) \/ map_get k m = None /\ s = []) /\ forall k', k' <> k -> map_get k' m' = map_get k' m.
Proof.
  unfold getOrCreateSection. intros Hg Hm. destruct (map_get k m) as [v|] eqn:Hv.
  - destruct (Hm v eq_refl) as [x ->]. injection Hg as <- <-. by split_and!; [|..|left|].
  - injection Hg as <- <-. split_and!; [apply keeps_values_set; by rewrite Hv|by rewrite map_get_set_eq|by right|].
    intros k' Hk. by rewrite map_get_set_ne.
Qed.

Lemma setUnlessPresent_keeps k v m : keeps_values (AMap m) (AMap (setUnlessPresent k v m)).
Proof.
  unfold setUnlessPresent. destruct (map_has k m) eqn:Hk; [done|]. apply keeps_values_set. intros x Hx.
  apply not_true_iff_false in Hk. rewrite map_has_true, Hx in Hk. by destruct Hk.
Qed.

Lemma applyServiceDefaults_keeps service config config' :
  config_wf config -> applyServiceDefaults service config = inr config' ->
  keeps_values (AMap config) (AMap config') /\ forall k, k <> "service" -> map_get k config' = map_get k config.
Proof.
  intros Hwf. unfold applyServiceDefaults. intros Happ.
  assert (forall v, map_get "service" config = Some v -> exists x, v = AMap x) as Hmap.
  { intros v Hv. rewrite Hv in Happ. destruct v; try done. by eexists. }
  assert ((let '(existing, config) := getOrCreateSection config "service" in
      inr (map_set "service" (AMap (deepMergeMapBaseFirst service existing)) config)) = inr (A := goerr) config') as Heq.
  { destruct (map_get "service" config) as [[]|]; done. }
  destruct (getOrCreateSection config "service") as [s m'] eqn:Hg. injection Heq as <-.
  destruct (getOrCreateSection_keeps _ _ _ _ Hg Hmap) as (Hk & Hs & Hor & Hother). split.
  - trans (AMap m'); [done|]. apply keeps_values_set. rewrite Hs. intros v [= <-]. apply keeps_values_baseFirst.
    destruct Hor as [Hs'|[_ ->]]; [by eapply any_wf_entry|]. split; [apply map_wf_nil|constructor].
  - intros k Hne. rewrite map_get_set_ne by done. by apply Hother.
Qed.

Lemma applyHeartbeatDefaults_keeps hb config :
  heartbeat_mergeable config ->
  keeps_values (AMap config) (AMap (applyHeartbeatDefaults hb config)) /\
  forall k, k <> "network" -> map_get k (applyHeartbeatDefaults hb config) = map_get k config.
Proof.
  intros Hm. unfold applyHeartbeatDefaults.
  destruct (getOrCreateSection config "network") as [net c1] eqn:Hg1.
  destruct (getOrCreateSection net "heartbeat") as [h net1] eqn:Hg2.
  assert (forall v, map_get "network" config = Some v -> exists x, v = AMap x) as Hm1.
  { intros v Hv. destruct (Hm v Hv) as (x & -> & _). by eexists. }
  destruct (getOrCreateSection_keeps _ _ _ _ Hg1 Hm1) as (Hk1 & Hs1 & Hor1 & Ho1).
  assert (forall v, map_get "heartbeat" net = Some v -> exists x, v = AMap x) as Hm2.
  { destruct Hor1 as [Hn|[_ ->]]; [|done]. destruct (Hm _ Hn) as (x & [= <-] & Hx). done. }
  destruct (getOrCreateSection_keeps _ _ _ _ Hg2 Hm2) as (Hk2 & Hs2 & _ & _).
  set (h' := if 0 <? thb_Timeout hb then _ else _).
  assert (keeps_values (AMap h) (AMap h')) as Hh.
  { unfold h'. repeat (match goal with |- context [if ?b then _ else _] => destruct b end);
      repeat first [reflexivity|etrans; [|apply setUnlessPresent_keeps]]. }
  split.
  - trans (AMap c1); [done|]. apply keeps_values_set. rewrite Hs1. intros v [= <-]. trans (AMap net1); [done|].
    apply keeps_values_set. rewrite Hs2. by intros v [= <-].
  - intros k Hne. rewrite map_get_set_ne by done. by apply Ho1.
Qed.

Lemma applyNamespaceDefaults_keeps defaults config :
  (forall v, map_get "namespaces" config = Some v -> any_wf v) ->
  keeps_values (AMap config) (AMap (applyNamespaceDefaults config defaults)) /\
  forall k, k <> "namespaces" -> map_get k (applyNamespaceDefaults config defaults) = map_get k config.
Proof.
  intros Hwf. unfold applyNamespaceDefaults. destruct defaults as [|d defaults]; [done|].
  destruct (map_get "namespaces" config) as [[]|] eqn:Hn; try done. split.
  - apply keeps_values_set. rewrite Hn. intros v [= <-]. apply keeps_values_list.
    specialize (Hwf _ eq_refl). apply Forall2_fmap_r, Forall_Forall2_diag, Forall_forall. intros x Hx.
    pose proof (any_wf_list _ _ Hwf Hx) as Hwx. destruct x; unfold compose; cbv beta iota; try reflexivity. by apply keeps_values_baseFirst.
  - intros k Hne. by rewrite map_get_set_ne.
Qed.

Lemma applyConfigDefaults_keeps t config config' :
  config_wf config -> heartbeat_mergeable config -> applyConfigDefaults t config = inr config' ->
  keeps_values (AMap config) (AMap config') /\
  forall k, ~ (k ∈ ["service"; "network"; "namespaces"]) -> map_get k config' = map_get k config.
Proof.
  intros Hwf Hm. unfold applyConfigDefaults.
  destruct (match tac_Service t with Some (_ :: _) => _ | _ => _ end) as [e|c1] eqn:Hs; [done|].
  assert (keeps_values (AMap config) (AMap c1) /\ forall k, k <> "service" -> map_get k c1 = map_get k config) as [Hk1 Ho1].
  { destruct (tac_Service t) as [[|e service]|]; [by injection Hs as <-| |by injection Hs as <-].
    by eapply applyServiceDefaults_keeps. }
  set (c2 := match tac_Network t ≫= tnc_Heartbeat with Some _ => _ | None => _ end).
  assert (keeps_values (AMap c1) (AMap c2) /\ forall k, k <> "network" -> map_get k c2 = map_get k c1) as [Hk2 Ho2].
  { unfold c2. destruct (tac_Network t ≫= tnc_Heartbeat); [|done]. apply applyHeartbeatDefaults_keeps.
    unfold heartbeat_mergeable. by rewrite Ho1. }
  destruct (applyNamespaceDefaults_keeps (default [] (tac_NamespaceDefaults t)) c2) as [Hk3 Ho3].
  { rewrite Ho2, Ho1 by done. intros v Hv. by eapply any_wf_entry. }
  intros [= <-]. split; [by trans (AMap c1); [|trans (AMap c2)]|].
  intros k Hk. rewrite Ho3, Ho2, Ho1; [done|..]; set_solver.
Qed.

(** ** What applying a template leaves of a spec *)

Record pods_kept (ps ps' : AerospikePodSpec) : Prop := {
  pk_tolerations : ps_Tolerations ps <> [] -> ps_Tolerations ps' = ps_Tolerations ps;
  pk_spread : ps_TopologySpreadConstraints ps <> [] -> ps_TopologySpreadConstraints ps' = ps_TopologySpreadConstraints ps;
  pk_policy : ps_PodManagementPolicy ps <> None -> ps_PodManagementPolicy ps' = ps_PodManagementPolicy ps;
  pk_affinity : forall a, ps_Affinity ps = Some a -> exists a', ps_Affinity ps' = Some a' /\
    aff_PodAffinity a' = aff_PodAffinity a /\
    (aff_PodAntiAffinity a <> None -> aff_PodAntiAffinity a' = aff_PodAntiAffinity a) /\
    (aff_NodeAffinity a <> None -> aff_NodeAffinity a' = aff_NodeAffinity a);
  pk_resources : forall acs, ps_AerospikeContainerSpec ps = Some acs -> exists acs',
    ps_AerospikeContainerSpec ps' = Some acs' /\ acs_SecurityContext acs' = acs_SecurityContext acs /\
    (acs_Resources acs <> None -> acs_Resources acs' = acs_Resources acs);
  pk_rest : (ps_Sidecars ps', ps_InitContainers ps', ps_ImagePullSecrets ps', ps_NodeSelector ps', ps_SecurityContext ps',
             ps_ServiceAccountName ps', ps_DNSPolicy ps', ps_HostNetwork ps', ps_MultiPodPerHost ps',
             ps_TerminationGracePeriodSeconds ps', ps_Metadata ps', ps_ReadinessGateEnabled ps', ps_PriorityClassName ps') =
            (ps_Sidecars ps, ps_InitContainers ps, ps_ImagePullSecrets ps, ps_NodeSelector ps, ps_SecurityContext ps,
             ps_ServiceAccountName ps, ps_DNSPolicy ps, ps_HostNetwork ps, ps_MultiPodPerHost ps,
             ps_TerminationGracePeriodSeconds ps, ps_Metadata ps, ps_ReadinessGateEnabled ps, ps_PriorityClassName ps)
}.

(** What the user set stays; what a template cannot set is untouched. *)
Record yields (spec spec' : AerospikeClusterSpec) : Prop := {
  y_size : spec_Size spec <> 0 -> spec_Size spec' = spec_Size spec;
  y_image : spec_Image spec <> "" -> spec_Image spec' = spec_Image spec;
  y_config : keeps_values (AMap (default [] (spec_AerospikeConfig spec))) (AMap (default [] (spec_AerospikeConfig spec')));
  y_storage : forall s, spec_Storage spec = Some s -> exists s', spec_Storage spec' = Some s' /\
    (st_Volumes s <> [] -> s' = s);
  y_pods : forall ps, spec_PodSpec spec = Some ps -> exists ps', spec_PodSpec spec' = Some ps' /\ pods_kept ps ps';
  y_monitoring : forall m, spec_Monitoring spec = Some m ->
    spec_Monitoring spec' = Some m \/ spec_Monitoring spec' = Some (completeMonitoring m);
  y_network : spec_AerospikeNetworkPolicy spec <> None -> spec_AerospikeNetworkPolicy spec' = spec_AerospikeNetworkPolicy spec;
  y_rest : (spec_RackConfig spec', spec_AerospikeAccessControl spec', spec_EnableDynamicConfigUpdate spec',
            spec_RollingUpdateBatchSize spec', spec_Paused spec', spec_K8sNodeBlockList spec', spec_Operations spec',
            spec_PodService spec', spec_TemplateRef spec', spec_Overrides spec', spec_NetworkPolicyConfig spec',
            spec_BandwidthConfig spec', spec_DisablePDB spec', spec_MaxUnavailable spec', spec_SeedsFinderServices spec',
            spec_ValidationPolicy spec', spec_HeadlessService spec') =
           (spec_RackConfig spec, spec_AerospikeAccessControl spec, spec_EnableDynamicConfigUpdate spec,
            spec_RollingUpdateBatchSize spec, spec_Paused spec, spec_K8sNodeBlockList spec, spec_Operations spec,
            spec_PodService spec, spec_TemplateRef spec, spec_Overrides spec, spec_NetworkPolicyConfig spec,
            spec_BandwidthConfig spec, spec_DisablePDB spec, spec_MaxUnavailable spec, spec_SeedsFinderServices spec,
            spec_ValidationPolicy spec, spec_HeadlessService spec)
}.

#[export] Instance pods_kept_pre : PreOrder pods_kept.
Proof.
  split.
  - intros ps. split; eauto 10.
  - intros p1 p2 p3 [Ht Hs Hp Ha Hr Hx] [Ht' Hs' Hp' Ha' Hr' Hx']. split; [by intros H1; rewrite Ht', Ht; rewrite ?Ht|
      by intros H1; rewrite Hs', Hs; rewrite ?Hs|by intros H1; rewrite Hp', Hp; rewrite ?Hp|..|by rewrite Hx', Hx].
    + intros a H1. destruct (Ha a H1) as (a2 & H2 & Hpa & Hanti & Hnode), (Ha' a2 H2) as (a3 & H3 & Hpa' & Hanti' & Hnode').
      exists a3. split_and!; [done|by rewrite Hpa'|intros Hne; rewrite Hanti', Hanti; rewrite ?Hanti; done|
        intros Hne; rewrite Hnode', Hnode; rewrite ?Hnode; done].
    + intros a H1. destruct (Hr a H1) as (a2 & H2 & Hsc & Hres), (Hr' a2 H2) as (a3 & H3 & Hsc' & Hres').
      exists a3. split_and!; [done|by rewrite Hsc'|intros Hne; rewrite Hres', Hres; rewrite ?Hres; done].
Qed.

Lemma completeMonitoring_idem m : completeMonitoring (completeMonitoring m) = completeMonitoring m.
Proof.
  destruct m as [[] img port rs env ml sm pr]; [|done].
  assert (forall img port, completeMonitoring (mkMonitoringSpec true img port rs env ml sm pr) =
    mkMonitoringSpec true (if decide (img = "") then DefaultExporterImage else img)
      (if decide (port = 0) then DefaultExporterPort else port) rs env ml sm pr) as Hc by done.
  rewrite !Hc. f_equal; by repeat case_decide.
Qed.

#[export] Instance yields_pre : PreOrder yields.
Proof.
  split.
  - intros spec. split; [done|done|reflexivity|intros s Hs; by exists s|intros ps Hps; by exists ps|
      intros m Hm; by left|done|done].
  - intros p1 p2 p3 [Hz Hi Hc Hst Hp Hm Hn Hx] [Hz' Hi' Hc' Hst' Hp' Hm' Hn' Hx']. split.
    + intros H1. by rewrite Hz', Hz; rewrite ?Hz.
    + intros H1. by rewrite Hi', Hi; rewrite ?Hi.
    + by etrans.
    + intros s (s2 & H2 & He)%Hst. destruct (Hst' _ H2) as (s3 & H3 & He'). exists s3. split; [done|].
      intros Hne. specialize (He Hne) as ->. auto.
    + intros ps (s2 & H2 & He)%Hp. destruct (Hp' _ H2) as (s3 & H3 & He'). exists s3. split; [done|by etrans].
    + intros m [H2|H2]%Hm; apply Hm' in H2; [done|]. rewrite completeMonitoring_idem in H2. by right; destruct H2.
    + intros H1. by rewrite Hn', Hn; rewrite ?Hn.
    + by rewrite Hx', Hx.
Qed.

(** ** Every step yields to the cluster *)

(** A step writes one field: what it does to the others is nothing. *)
Ltac one_field := split; try first
  [done|reflexivity|intros st Hst; by exists st|intros ps Hps; by exists ps|intros m Hm; by left].

Lemma yields_podSpec spec ps' :
  pods_kept (default emptyPodSpec (spec_PodSpec spec)) ps' -> yields spec (spec <| spec_PodSpec := Some ps' |>).
Proof.
  intros Hk. one_field.
  intros ps Hps. rewrite Hps in Hk. by exists ps'.
Qed.

Lemma schedulePods_kept s name ps : pods_kept ps (schedulePods s name ps).
Proof.
  split; try done; unfold schedulePods; cbn.
  - by destruct (ps_Tolerations ps).
  - by destruct (ps_TopologySpreadConstraints ps).
  - by destruct (ps_PodManagementPolicy ps).
  - intros a ->.
    assert (exists a1, withAntiAffinity (tsc_PodAntiAffinityLevel s) name (Some a) = Some a1 /\
      aff_PodAffinity a1 = aff_PodAffinity a /\ aff_NodeAffinity a1 = aff_NodeAffinity a /\
      (aff_PodAntiAffinity a <> None -> aff_PodAntiAffinity a1 = aff_PodAntiAffinity a)) as (a1 & -> & Hp & Hn & Ha).
    { unfold withAntiAffinity. case_decide; [by exists a|]. cbn. eexists. split; [done|].
      destruct (aff_PodAntiAffinity a) eqn:Hpa; [by rewrite Hpa|].
      destruct (TranslatePodAntiAffinity _ _); by split_and!. }
    unfold withNodeAffinity. destruct (tsc_NodeAffinity s) as [na|]; cbn; [|exists a1; split_and!; auto; by rewrite Hn].
    eexists. split; [done|]. rewrite <- Hp, <- Hn. destruct (aff_NodeAffinity a1) eqn:Hna; split_and!; auto; done.
  - intros acs ->. by exists acs.
Qed.

Lemma yields_applyScheduling s name spec : yields spec (applyScheduling s name spec).
Proof. destruct s as [s|]; [|reflexivity]. apply yields_podSpec, schedulePods_kept. Qed.

Lemma yields_applyStorage s spec : yields spec (applyStorage s spec).
Proof.
  destruct s as [s|]; [|reflexivity]. unfold applyStorage. destruct (st_Volumes _) as [|v l] eqn:Hv; [|reflexivity].
  one_field. intros s' Hs. rewrite Hs in *. cbn [default] in *. eexists. split; [done|]. done.
Qed.

Lemma yields_applyResources r spec : yields spec (applyResources r spec).
Proof.
  destruct r as [r|]; [|reflexivity]. apply yields_podSpec. split; try done; [intros a Ha; by exists a|].
  intros acs Hacs. cbn. rewrite Hacs. eexists. split; [done|]. split; [done|]. cbn. by destruct (acs_Resources acs).
Qed.

Lemma yields_applyTotal t spec : yields spec (applyTotal t spec).
Proof.
  unfold applyTotal. etrans; [apply (yields_applyResources (tp_Resources t))|].
  set (s1 := applyResources _ _). etrans; [|etrans; [|etrans]].
  - instantiate (1 := applyImage (tp_Image t) s1). unfold applyImage. case_decide as Hd; [|reflexivity].
    one_field. by destruct Hd as [_ ->].
  - instantiate (1 := applySize (tp_Size t) _). unfold applySize. destruct (tp_Size t); [|reflexivity].
    case_decide as Hd; [|reflexivity].
    one_field.
  - instantiate (1 := applyMonitoring (tp_Monitoring t) _). unfold applyMonitoring. destruct (tp_Monitoring t); [|reflexivity].
    one_field. intros m' Hm'. right. by rewrite Hm'.
  - unfold applyNetworkPolicy. destruct (tp_AerospikeNetworkPolicy t); [|reflexivity].
    one_field. intros Hn. cbn. by destruct (spec_AerospikeNetworkPolicy _).
Qed.

Lemma yields_config spec config' :
  keeps_values (AMap (default [] (spec_AerospikeConfig spec))) (AMap config') ->
  yields spec (spec <| spec_AerospikeConfig := Some config' |>).
Proof. intros Hc. one_field. Qed.

(** A template gives way to the cluster: every scalar of the configuration of the
    cluster stays at its place, also inside namespaces; a size, image, storage,
    monitoring spec, network policy, toleration list, affinity term or resource
    requirement that the cluster gives is kept; and nothing a template has no word on is
    touched. *)
Theorem template_yields_to_cluster t name spec spec' :
  config_wf (default [] (spec_AerospikeConfig spec)) -> heartbeat_mergeable (default [] (spec_AerospikeConfig spec)) ->
  ApplyTemplate t name spec = (None, spec') -> yields spec spec'.
Proof.
  intros Hwf Hm. unfold ApplyTemplate. destruct t as [t|]; [|by intros [= ->]].
  set (s1 := applyStorage _ _).
  assert (yields spec s1) as H1 by by etrans; [apply yields_applyScheduling|apply yields_applyStorage].
  assert (spec_AerospikeConfig s1 = spec_AerospikeConfig spec) as Hc1.
  { unfold s1, applyStorage, applyScheduling. destruct (tp_Storage t), (tp_Scheduling t); try done;
      by destruct (st_Volumes _). }
  unfold applyAerospikeConfig. destruct (tp_AerospikeConfig t) as [tc|].
  2: { intros [= <-]. etrans; [exact H1|apply yields_applyTotal]. }
  rewrite <- Hc1 in Hwf, Hm. destruct (applyConfigDefaults tc _) as [e|config'] eqn:Hd; [done|].
  intros [= <-]. etrans; [exact H1|]. etrans; [|apply yields_applyTotal]. apply yields_config.
  by eapply applyConfigDefaults_keeps.
Qed.

(** ** Resolving a template: theorems *)

Section Resolved.
Context `{Environment}.

(** A snapshot of the template as it is stored now. *)
Definition fresh_snapshot (w : World) (name : string) (snap : TemplateSnapshotStatus) : Prop :=
  exists tmpl t, findObj name (w_templates w) = Some tmpl /\
    snap = mkTemplateSnapshot (tmpl_Name tmpl) (tmpl_ResourceVersion tmpl) t true (Some (tmpl_Spec tmpl)).

(** The stored and the in-memory object are not touched. *)
Definition same_cluster : relation World := agree (fun w => (w_cluster w, w_mem w)).

Lemma keeps_localPVWarnings t : keeps same_cluster (localPVWarnings t).
Proof. unfold same_cluster, localPVWarnings, ValidateLocalPV. frame. Qed.

Lemma same_cluster_run {A} (m : M A) w r w' :
  keeps same_cluster m -> m w = (r, w') -> w_cluster w' = w_cluster w /\ w_mem w' = w_mem w.
Proof. intros Hm Hrun. pose proof (keeps_run _ _ _ _ _ Hm Hrun) as Hk. by injection Hk as -> ->. Qed.

Lemma run_result {A} (m : M A) w r : fst (m w) = r -> m w = (r, snd (m w)).
Proof. intros <-. by destruct (m w). Qed.

Lemma FetchAndSnapshot_ok w c name b w1 :
  w_mem w = c -> spec_TemplateRef (cl_Spec c) = Some name -> FetchAndSnapshot w = (inr b, w1) ->
  b = true /\ w_cluster w1 = w_cluster w /\
  exists snap, fresh_snapshot w name snap /\ w_mem w1 = c <$ st_TemplateSnapshot := Some snap $>.
Proof.
  intros Hc Hn (c0 & w0 & [= <- <-] & Hf)%bind_ok. rewrite Hc, Hn in Hf.
  apply bind_try_ok in Hf as ([e|tmpl] & w2 & Hget & Hf); [by destruct (IsNotFound e)|].
  assert (w_cluster w2 = w_cluster w /\ w_mem w2 = w_mem w) as [Hc2 Hm2].
  { eapply same_cluster_run; [|done]. unfold same_cluster. frame. }
  apply getObj_ok in Hget. injection Hf as <- <-. split; [done|]. split; [done|].
  eexists. split; [by eexists _, _|]. cbn. by rewrite Hm2, Hc.
Qed.

Lemma applyToMemory_ok t w w1 :
  applyToMemory t w = (inr (), w1) -> exists spec',
    ApplyTemplate t (cl_Name (w_mem w)) (cl_Spec (w_mem w)) = (None, spec') /\
    w1 = w <| w_mem := (w_mem w) <| cl_Spec := spec' |> |>.
Proof.
  intros (c0 & w0 & [= <- <-] & Hf)%bind_ok.
  destruct (ApplyTemplate _ _ _) as [[e|] spec']; [by apply bind_ok in Hf as ([] & w2 & _ & [=])|].
  injection Hf as <-. by exists spec'.
Qed.

Lemma Resolve_ok w c name res w1 :
  w_mem w = c -> spec_TemplateRef (cl_Spec c) = Some name -> Resolve w = (inr res, w1) ->
  SnapshotUpdated res = NeedsResync c /\ AnnotationNeedsCleanup res = NeedsResync c && resyncRequested c /\
  w_cluster w1 = w_cluster w /\ exists snap t spec',
    (if NeedsResync c then fresh_snapshot w name snap else st_TemplateSnapshot (cl_Status c) = Some snap) /\
    ts_Spec snap = Some t /\
    ApplyTemplate (MergeTemplateSpec (Some t) (spec_Overrides (cl_Spec c))) (cl_Name c) (cl_Spec c) = (None, spec') /\
    checkResolved spec' = inr () /\ w_mem w1 = c <$ st_TemplateSnapshot := Some snap $> <| cl_Spec := spec' |>.
Proof.
  intros Hc Hn (c0 & w0 & [= <- <-] & Hf)%bind_ok. rewrite Hc, Hn in Hf.
  apply bind_ok in Hf as (updated & w2 & Hfetch & Hf).
  assert (updated = NeedsResync c /\ w_cluster w2 = w_cluster w /\ exists snap,
    (if NeedsResync c then fresh_snapshot w name snap else True) /\
    w_mem w2 = if NeedsResync c then c <$ st_TemplateSnapshot := Some snap $> else c) as (-> & Hc2 & snap & Hsnap & Hm2).
  { destruct (NeedsResync c); [|injection Hfetch as <- <-; split_and!; try done; by exists (mkTemplateSnapshot "" "" 0 false None)].
    destruct (FetchAndSnapshot_ok _ _ _ _ _ Hc Hn Hfetch) as (-> & ? & snap & ? & ?). eauto. }
  apply bind_ok in Hf as (c3 & w3 & [= <- <-] & Hf).
  assert (exists snap, (if NeedsResync c then fresh_snapshot w name snap else st_TemplateSnapshot (cl_Status c) = Some snap) /\
    st_TemplateSnapshot (cl_Status (w_mem w2)) = Some snap /\ cl_Spec (w_mem w2) = cl_Spec c /\ cl_Name (w_mem w2) = cl_Name c /\
    forall spec', (w_mem w2) <| cl_Spec := spec' |> = c <$ st_TemplateSnapshot := Some snap $> <| cl_Spec := spec' |>)
    as (sn & Hsn & Hst & Hspec & Hname & Hupd).
  { rewrite Hm2. destruct (NeedsResync c); [by exists snap|].
    rewrite Hm2 in Hf. destruct (st_TemplateSnapshot (cl_Status c)) as [sn|] eqn:Hs; [|by injection Hf].
    exists sn. split_and!; [done..|]. intros spec'. destruct c as [? ? ? ? ? ? ? ? ? st]. destruct st. cbn in Hs. by subst. }
  clear Hm2 Hsnap snap. unfold effectiveTemplate in Hf. rewrite Hst, Hspec in Hf. cbn [mbind option_bind] in Hf.
  destruct (ts_Spec sn) as [t|] eqn:Ht; [|by injection Hf].
  apply bind_ok in Hf as (more & w4 & Hmore & Hf).
  destruct (same_cluster_run _ _ _ _ (keeps_localPVWarnings _) Hmore) as [Hc4 Hm4].
  apply bind_ok in Hf as ([] & w5 & Happ%wrapping_ok & Hf).
  apply applyToMemory_ok in Happ as (spec' & Happ & ->). rewrite Hm4, Hspec, Hname in Happ. rewrite Hm4, Hupd in Hf.
  apply bind_ok in Hf as (c6 & w6 & [= <- <-] & Hf). apply bind_ok in Hf as ([] & w7 & [= Hchk <-] & Hf).
  injection Hf as <- <-. split_and!; [done| |by cbn; rewrite Hc4|].
  { cbn. by destruct (NeedsResync c), (resyncRequested c). }
  exists sn, t, spec'. by split_and!.
Qed.

Lemma checkResolved_ok spec :
  checkResolved spec = inr () <->
  spec_Image spec <> "" /\ 1 <= spec_Size spec <= maxCEClusterSize /\ validateMergedSpecCE spec = [].
Proof.
  unfold checkResolved. split.
  - case_decide; [done|]. case_decide; [done|]. destruct (validateMergedSpecCE spec) eqn:Hv; [|done]. intros _.
    assert (1 <= spec_Size spec <= maxCEClusterSize); [|done].
    unfold validateMergedSpecCE in Hv. apply app_nil in Hv as [_ [Hz _]%app_nil].
    change resolverMaxCEClusterSize with maxCEClusterSize in Hz.
    destruct ((spec_Size spec <? 1) || (maxCEClusterSize <? spec_Size spec)) eqn:Hb; [done|].
    apply orb_false_iff in Hb as [?%Z.ltb_ge ?%Z.ltb_ge]. lia.
  - intros (Hi & Hs & ->). rewrite decide_False by done. by rewrite decide_False by lia.
Qed.

(** Writing the object and applying the template again. *)
Lemma writeThenReapply_ok (write : M AerospikeCluster) w w1 :
  writeThenReapply write w = (inr None, w1) -> exists stored w2 spec',
    write w = (inr stored, w2) /\ ApplyTemplate (effectiveTemplate stored) (cl_Name stored) (cl_Spec stored) = (None, spec') /\
    w_cluster w1 = w_cluster w2 /\ w_mem w1 = stored <| cl_Spec := spec' |>.
Proof.
  intros ([e|stored] & w2 & Hw & Hf)%bind_try_ok; [by destruct (IsConflict e)|].
  apply bind_ok in Hf as ([] & w3 & [= <-] & Hf). apply bind_ok in Hf as ([] & w4 & Happ & [= <-]).
  apply applyToMemory_ok in Happ as (spec' & Happ & ->). cbn in Happ. by exists stored, w2, spec'.
Qed.

Lemma patchAnnotation_ok key w stored w' :
  patchAnnotation key w = (inr stored, w') -> exists cur, w_cluster w = Some cur /\ w_cluster w' = Some stored /\
    stored = cur <| cl_Annotations ::= map_del key |> <| cl_ResourceVersion ::= Z.add 1 |>.
Proof.
  unfold patchAnnotation, mbind, M_bind, gets, api.
  destruct (w_faults w) as [|[e|] fs]; simpl; [|by intros [=]|].
  all: destruct (w_cluster w) as [cur|]; [|by intros [=]]; intros [= <- <-]; by exists cur.
Qed.

Lemma keeps_announce res : keeps same_cluster (announceTemplate res).
Proof. unfold same_cluster, announceTemplate. frame. Qed.

(** What resolution leaves in the API server and in memory. *)
Definition resolution (w : World) (c : AerospikeCluster) (name : string) (w' : World) : Prop :=
  exists c' snap t spec',
    w_cluster w' = Some c' /\ cl_Spec c' = cl_Spec c /\ w_mem w' = c' <| cl_Spec := spec' |> /\
    st_TemplateSnapshot (cl_Status c') = Some snap /\ ts_Spec snap = Some t /\
    (if NeedsResync c then fresh_snapshot w name snap else c' = c) /\ NeedsResync c' = false /\
    ApplyTemplate (MergeTemplateSpec (Some t) (spec_Overrides (cl_Spec c))) (cl_Name c) (cl_Spec c) = (None, spec') /\
    spec_Image spec' <> "" /\ 1 <= spec_Size spec' <= maxCEClusterSize /\ validateMergedSpecCE spec' = [].

(** C21: when a freshly read cluster with a template reference resolves, the API server
    has a snapshot of the template in the status and the spec as the user wrote it; the
    spec in memory is the snapshot, merged with the overrides, applied to that spec,
    whatever writes happened in between, and it satisfies the constraints of the
    Community Edition; a resync was a fresh read of the template and is not due again *)
Theorem resolveTemplate_spec w c name w' :
  w_cluster w = Some c -> w_mem w = c -> spec_TemplateRef (cl_Spec c) = Some name ->
  resolveTemplate w = (inr None, w') -> resolution w c name w'.
Proof.
  intros Hcl Hm Hn ([e|res] & w1 & Hres & Hf)%bind_try_ok.
  { by apply bind_ok in Hf as ([] & w2 & _ & [=]). }
  destruct (Resolve_ok _ _ _ _ _ Hm Hn Hres) as (Hup & Hclean & Hc1 & snap & t & spec' & Hsnap & Ht & Happ & Hchk & Hm1).
  apply checkResolved_ok in Hchk as (Hi & [Hz1 Hz2] & Hv).
  apply bind_ok in Hf as (a & w2 & Ha & Hf). destruct a as [r|]; [by injection Hf|].
  apply bind_ok in Hf as (b & w3 & Hb & Hf). destruct b as [r|]; [by injection Hf|].
  apply bind_ok in Hf as ([] & w4 & [Hc4 Hm4]%(same_cluster_run _ _ _ _ (keeps_announce _)) & [= <-]).
  rewrite Hup in Ha. rewrite Hclean in Hb. unfold resolution.
  destruct (NeedsResync c) eqn:Hneed.
  - apply bind_ok in Ha as (c0 & w0 & [= <- <-] & Ha). apply writeThenReapply_ok in Ha as (st & w5 & sp & Hw & Happ2 & Hc2 & Hm2).
    apply updateStatus_ok in Hw as (cur & Hcur & Hst & _ & Hstored). rewrite Hc1, Hcl in Hcur. injection Hcur as <-.
    assert (sp = spec') as ->.
    { rewrite Hstored in Happ2. unfold effectiveTemplate in Happ2. rewrite Hm1 in Happ2. cbn -[ApplyTemplate MergeTemplateSpec] in Happ2.
      rewrite Ht in Happ2. congruence. }
    destruct (resyncRequested c) eqn:Hreq.
    + apply bind_ok in Hb as ([] & w6 & [= <-] & Hb). apply writeThenReapply_ok in Hb as (st' & w7 & sp & Hw & Happ3 & Hc3 & Hm3).
      apply patchAnnotation_ok in Hw as (cur & Hcur & Hst' & Hstored'). cbn in Hcur. rewrite Hc2, Hst in Hcur. injection Hcur as <-.
      assert (sp = spec') as ->.
      { rewrite Hstored', Hstored in Happ3. unfold effectiveTemplate in Happ3. rewrite Hm1 in Happ3.
        cbn -[ApplyTemplate MergeTemplateSpec] in Happ3. rewrite Ht in Happ3. congruence. }
      assert (NeedsResync st' = false) as Hno.
      { rewrite Hstored', Hstored. unfold NeedsResync. cbn -[resyncRequested]. rewrite Hn, Hm1.
        unfold resyncRequested, lookup_str. cbn -[map_del map_get]. by rewrite map_get_del, decide_True. }
      exists st', snap, t, spec'. rewrite Hc4, Hc3, Hm4, Hm3.
      assert (cl_Spec st' = cl_Spec c /\ st_TemplateSnapshot (cl_Status st') = Some snap) as [Hs1 Hs2]; [|by split_and!].
      rewrite Hstored', Hstored. cbn. by rewrite Hm1.
    + injection Hb as <-. exists st, snap, t, spec'. rewrite Hc4, Hc2, Hm4, Hm2.
      assert (cl_Spec st = cl_Spec c /\ st_TemplateSnapshot (cl_Status st) = Some snap /\ NeedsResync st = false)
        as (Hs1 & Hs2 & Hno); [|by split_and!].
      rewrite Hstored. split_and!; [done|cbn; by rewrite Hm1|].
      unfold NeedsResync. cbn -[resyncRequested]. rewrite Hn, Hm1. exact Hreq.
  - injection Ha as <-. injection Hb as <-. exists c, snap, t, spec'. rewrite Hc4, Hc1, Hm4, Hm1.
    assert (c <$ st_TemplateSnapshot := Some snap $> = c) as ->; [|by split_and!].
    destruct c as [? ? ? ? ? ? ? ? ? st]. destruct st. cbn in Hsnap. by subst.
Qed.

End Resolved.

(** ** Admission and resolution

    What the webhooks accepted on both sides is accepted after the merge. *)

Definition no_tls (net : gomap any) : Prop :=
  map_get "tls" net = None /\
  forall sub m k, sub ∈ tlsNetworkSubsections -> map_get sub net = Some (AMap m) ->
    has_prefix tlsKeyPrefix k = true -> map_get k m = None.

Lemma networkTLS_nil field c :
  validateNetworkTLSCE field c = [] <-> forall net, map_get "network" c = Some (AMap net) -> no_tls net.
Proof.
  unfold validateNetworkTLSCE. destruct (as_map (map_index "network" c)) as [net|] eqn:Hn.
  - apply as_map_index_iff in Hn. rewrite Hn, app_nil, present_nil, bind_nil_iff. unfold no_tls. split.
    + intros [Htls Hsub] ? [= <-]. split; [done|]. intros sub m k Hin Hm%as_map_index_iff.
      specialize (Hsub sub Hin). rewrite Hm in Hsub. apply (proj1 (tlsKeys_nil _ _) Hsub).
    + intros Hnet. destruct (Hnet net eq_refl) as [Htls Hsub]. split; [done|]. intros sub Hin.
      destruct (as_map (map_index sub net)) as [m|] eqn:Hm; [|done]. apply as_map_index_iff in Hm.
      apply tlsKeys_nil. intros k Hk. by eapply Hsub.
  - split; [|done]. intros _ net Hnet. apply as_map_index_iff in Hnet. by rewrite Hn in Hnet.
Qed.

(** The resolver's copy of the check refuses exactly what the webhook's does. *)
Lemma mergedNetworkTLS_nil c :
  validateMergedNetworkTLSCE c = [] <-> forall net, map_get "network" c = Some (AMap net) -> no_tls net.
Proof. apply (networkTLS_nil "merged aerospikeConfig" c). Qed.

(** What [validateMergedConfigCE] accepts. *)
Record merged_ce (c : gomap any) : Prop := {
  mc_xdr : map_get "xdr" c = None;
  mc_tls : map_get "tls" c = None;
  mc_network : forall net, map_get "network" c = Some (AMap net) -> no_tls net;
  mc_security : forall m, map_get "security" c = Some (AMap m) -> absent enterpriseOnlySecurityKeys m;
  mc_namespaces : forall l m, map_get "namespaces" c = Some (AList l) -> AMap m ∈ l -> absent enterpriseOnlyNamespaceKeys m
}.

Lemma mergedNamespaces_nil l :
  eachIndexed validateMergedNamespace l = [] <-> forall m, AMap m ∈ l -> absent enterpriseOnlyNamespaceKeys m.
Proof.
  rewrite (eachIndexed_nil _ (fun e => forall m, e = AMap m -> absent enterpriseOnlyNamespaceKeys m)).
  - rewrite Forall_forall. split; [intros Hf m Hm; by eapply Hf|]. intros Hf e He m ->. by apply Hf.
  - intros i e. destruct e; simpl; try naive_solver. rewrite banned_nil. naive_solver.
Qed.

Lemma validateMergedConfigCE_nil c : validateMergedConfigCE c = [] <-> merged_ce c.
Proof.
  unfold validateMergedConfigCE. rewrite !app_nil, !present_nil, mergedNetworkTLS_nil. split.
  - intros (Hx & Ht & Hn & Hs & Hns). split; [done..| |].
    + intros m Hm. rewrite Hm in Hs. by apply (proj1 (banned_nil _ _ _) Hs).
    + intros l m Hl. rewrite Hl in Hns. by apply mergedNamespaces_nil.
  - intros [Hx Ht Hn Hs Hns]. split_and!; [done..| |].
    + destruct (map_get "security" c) as [[]|]; try done. by apply banned_nil, Hs.
    + destruct (map_get "namespaces" c) as [[]|]; try done. apply mergedNamespaces_nil. intros m. by apply Hns.
Qed.

Lemma ce_config_merged c : ce_config c -> merged_ce c.
Proof.
  intros [Hx Ht Hns Hsec _ Hnet _]. split; [done..| | |].
  - intros net Hn. destruct (Hnet _ Hn) as (m & [= <-] & [? ? _]). by split.
  - intros m Hm. destruct (Hsec _ Hm) as (? & [= <-] & ?). done.
  - intros l m Hl Hm. destruct (Hns _ Hl) as (? & [= <-] & _ & _ & Hf). rewrite Forall_forall in Hf.
    destruct (Hf _ Hm) as (? & [= <-] & []). done.
Qed.

Lemma merged_ce_ext c c' :
  merged_ce c -> (forall k, k ∈ ["xdr"; "tls"; "network"; "security"; "namespaces"] -> map_get k c' = map_get k c) -> merged_ce c'.
Proof. intros [Hx Ht Hn Hs Hns] He. split; rewrite He by set_solver; done. Qed.

Lemma getOrCreate_no_tls net h net1 :
  getOrCreateSection net "heartbeat" = (h, net1) -> no_tls net ->
  no_tls net1 /\ forall k, has_prefix tlsKeyPrefix k = true -> map_get k h = None.
Proof.
  unfold getOrCreateSection. intros Hg [Ht Hs].
  assert (no_tls (map_set "heartbeat" (AMap []) net)) as Hnew.
  { split; [by rewrite map_get_set_ne|]. intros sub m k Hin. rewrite map_get_set. case_decide; [by intros [= <-]|].
    intros Hm Hk. by eapply Hs. }
  destruct (map_get "heartbeat" net) as [[]|] eqn:Hh; injection Hg as <- <-; try done.
  split; [done|]. intros k Hk. eapply Hs; [|done|done]. set_solver.
Qed.

Lemma setUnlessPresent_other k k' v m : k <> k' -> map_get k (setUnlessPresent k' v m) = map_get k m.
Proof. intros Hk. unfold setUnlessPresent. destruct (map_has k' m); [done|]. by rewrite map_get_set_ne. Qed.

Lemma merged_ce_heartbeat hb c : merged_ce c -> merged_ce (applyHeartbeatDefaults hb c).
Proof.
  intros Hc. unfold applyHeartbeatDefaults.
  destruct (getOrCreateSection c "network") as [net c1] eqn:Hg1.
  destruct (getOrCreateSection net "heartbeat") as [h net1] eqn:Hg2.
  assert (no_tls net /\ forall k, k <> "network" -> map_get k c1 = map_get k c) as [Hnet Ho].
  { unfold getOrCreateSection in Hg1. destruct (map_get "network" c) as [[]|] eqn:Hn; injection Hg1 as <- <-;
      try (split; [by split; [|intros ? ? ? _ [=]]|intros ? ?; by rewrite map_get_set_ne]).
    split; [exact (mc_network _ Hc _ Hn)|done]. }
  destruct (getOrCreate_no_tls _ _ _ Hg2 Hnet) as [[Ht Hs] Hh].
  destruct Hc as [Hx Htl _ Hsec Hns]. split; try (rewrite map_get_set_ne, Ho by done; done).
  rewrite map_get_set_eq. intros net' [= <-]. split; [by rewrite map_get_set_ne|].
  intros sub m k Hin. rewrite map_get_set. case_decide; [|intros Hm Hk; by eapply Hs]. intros [= <-] Hk.
  assert (k <> "mode" /\ k <> "interval" /\ k <> "timeout") as (? & ? & ?) by (split_and!; by intros ->).
  repeat case_match; rewrite ?setUnlessPresent_other by done; by apply Hh.
Qed.

Lemma merged_ce_namespaces nd c :
  merged_ce c -> (forall v, map_get "namespaces" c = Some v -> any_wf v) -> absent enterpriseOnlyNamespaceKeys nd ->
  merged_ce (applyNamespaceDefaults c nd).
Proof.
  intros Hc Hwf Hnd. unfold applyNamespaceDefaults. destruct nd as [|d nd]; [done|].
  destruct (map_get "namespaces" c) as [[]|] eqn:Hn; try done.
  destruct Hc as [Hx Htl Hnet Hsec Hns]. split; try (rewrite map_get_set_ne by done; done).
  rewrite map_get_set_eq. intros ? m [= <-] (e & Heq & He)%list_elem_of_fmap. destruct e; try done. injection Heq as ->.
  rewrite baseFirst_DeepMerge. apply absent_merge; [|done|by eapply Hns].
  eapply any_wf_map_wf, any_wf_list; [by apply Hwf|done].
Qed.

Lemma merged_ce_defaults t c c' :
  ce_config c -> config_wf c -> absent enterpriseOnlyNamespaceKeys (default [] (tac_NamespaceDefaults t)) ->
  applyConfigDefaults t c = inr c' -> merged_ce c'.
Proof.
  intros Hce Hwf Hnd. unfold applyConfigDefaults.
  destruct (match tac_Service t with Some (_ :: _) => _ | _ => _ end) as [e|c1] eqn:Hs; [done|]. intros [= <-].
  assert (forall k, k <> "service" -> map_get k c1 = map_get k c) as Ho.
  { destruct (tac_Service t) as [[|e service]|]; [by injection Hs as <-| |by injection Hs as <-].
    by eapply applyServiceDefaults_keeps. }
  assert (merged_ce c1) as H1 by (eapply merged_ce_ext; [by apply ce_config_merged|intros k Hk; apply Ho; set_solver]).
  apply merged_ce_namespaces; [by destruct (tac_Network t ≫= tnc_Heartbeat); [apply merged_ce_heartbeat|]| |done].
  assert (map_get "namespaces" (match tac_Network t ≫= tnc_Heartbeat with
            | Some hb => applyHeartbeatDefaults hb c1 | None => c1 end) = map_get "namespaces" c) as ->.
  { rewrite <- Ho by done. destruct (tac_Network t ≫= tnc_Heartbeat); [|done]. unfold applyHeartbeatDefaults.
    destruct (getOrCreateSection c1 "network") as [n c2] eqn:Hg. destruct (getOrCreateSection n _).
    rewrite map_get_set_ne by done. unfold getOrCreateSection in Hg.
    destruct (map_get "network" c1) as [[]|]; injection Hg as _ <-; by rewrite ?map_get_set_ne. }
  intros v Hv. by eapply any_wf_entry.
Qed.

(** What both webhooks ask of a template. *)
Record ce_template (t : AerospikeClusterTemplateSpec) : Prop := {
  ct_image : tp_Image t <> "" -> enterpriseImage "" (tp_Image t) = [];
  ct_size : forall z, tp_Size t = Some z -> 1 <= z <= maxCEClusterSize;
  ct_namespaces : forall tc, tp_AerospikeConfig t = Some tc ->
    absent enterpriseOnlyNamespaceKeys (default [] (tac_NamespaceDefaults tc))
}.

Lemma enterpriseImage_field f g image : enterpriseImage f image = [] -> enterpriseImage g image = [].
Proof. unfold enterpriseImage. by repeat case_match. Qed.

Lemma bannedKeys_namespaces field nd :
  validateTemplateConfigBannedKeys field nd true = [] -> absent enterpriseOnlyNamespaceKeys nd.
Proof.
  unfold validateTemplateConfigBannedKeys. rewrite !app_nil. intros (_ & _ & _ & _ & _ & Hb).
  by apply (proj1 (banned_nil _ _ _) Hb).
Qed.

Lemma size_bounds_nil (z : Z) (n : notice) :
  (if (z <? 1) || (maxCEClusterSize <? z) then [n] else []) = [] -> 1 <= z <= maxCEClusterSize.
Proof. destruct (Z.ltb_spec z 1), (Z.ltb_spec maxCEClusterSize z); simpl; try done; lia. Qed.

Lemma absent_nil keys : absent keys [].
Proof. by intros k _. Qed.

Lemma validateTemplate_ce t : (validateTemplate t).1 = [] -> ce_template t.
Proof.
  unfold validateTemplate. cbn [fst]. rewrite !app_nil. intros (_ & Hi & Hz & _ & Hc). split.
  - intros Hne. unfold validateTemplateImageCE in Hi. rewrite decide_False in Hi by done. by eapply enterpriseImage_field.
  - intros z Ht. rewrite Ht in Hz. by eapply size_bounds_nil.
  - intros tc Htc. rewrite Htc in Hc. cbn [from_option] in Hc. unfold validateTemplateAerospikeConfig in Hc.
    rewrite !app_nil in Hc. destruct Hc as (_ & Hnd & _). destruct (tac_NamespaceDefaults tc) as [nd|]; [|apply absent_nil].
    by eapply bannedKeys_namespaces.
Qed.

Lemma validateOverrides_ce o : validateOverrides o = [] -> ce_template o.
Proof.
  unfold validateOverrides. rewrite !app_nil. intros (Hi & Hz & Hc). split.
  - intros Hne. rewrite decide_False in Hi by done. by eapply enterpriseImage_field.
  - intros z Ho. rewrite Ho in Hz. by eapply size_bounds_nil.
  - intros tc Htc. rewrite Htc in Hc. unfold onSome at 1 in Hc. cbn [from_option] in Hc. rewrite app_nil in Hc.
    destruct Hc as [Hnd _]. destruct (tac_NamespaceDefaults tc) as [nd|]; [|apply absent_nil].
    by eapply bannedKeys_namespaces.
Qed.

(** The keys of the maps of namespace defaults are distinct. *)
Definition template_wf (t : AerospikeClusterTemplateSpec) : Prop :=
  forall tc nd, tp_AerospikeConfig t = Some tc -> tac_NamespaceDefaults tc = Some nd -> map_wf nd.

Lemma ce_template_merge b o t :
  ce_template b -> (forall x, o = Some x -> ce_template x /\ template_wf x) ->
  MergeTemplateSpec (Some b) o = Some t -> ce_template t.
Proof.
  intros Hb Ho. destruct o as [o|]; [|by intros [= <-]]. destruct (Ho o eq_refl) as [[Hoi Hoz Hon] Hwf]. clear Ho.
  destruct Hb as [Hbi Hbz Hbn]. intros Ht.
  assert (tp_Image t = if decide (tp_Image o = "") then tp_Image b else tp_Image o) as Hi by by injection Ht as <-.
  assert (tp_Size t = overridden (tp_Size b) (tp_Size o)) as Hz by by injection Ht as <-.
  assert (tp_AerospikeConfig t = mergeTemplateAerospikeConfig (tp_AerospikeConfig b) (tp_AerospikeConfig o)) as Hc
    by by injection Ht as <-.
  split.
  - rewrite Hi. by case_decide.
  - intros z. rewrite Hz. unfold overridden. destruct (tp_Size o); [apply Hoz|apply Hbz].
  - intros tc. rewrite Hc. unfold mergeTemplateAerospikeConfig, mergePtr. clear Hc.
    destruct (tp_AerospikeConfig b) as [tb|] eqn:Hcb; [|by apply Hon].
    destruct (tp_AerospikeConfig o) as [to|] eqn:Hco; [|by apply Hbn].
    intros [= <-]. cbn [tac_NamespaceDefaults]. specialize (Hbn tb eq_refl). specialize (Hon to eq_refl).
    unfold mergeDefaults. destruct (tac_NamespaceDefaults to) as [[|e nd]|] eqn:Hnd; [done| |done].
    cbn [default]. rewrite baseFirst_DeepMerge. apply absent_merge; [by eapply Hwf|done|done].
Qed.

(** The three fields of a spec that resolution checks. *)
Lemma applyTotal_fields t spec :
  spec_AerospikeConfig (applyTotal t spec) = spec_AerospikeConfig spec /\
  spec_Image (applyTotal t spec) = (if decide (spec_Image spec = "") then tp_Image t else spec_Image spec) /\
  spec_Size (applyTotal t spec) = (if decide (spec_Size spec = 0) then default 0 (tp_Size t) else spec_Size spec).
Proof.
  unfold applyTotal. set (s1 := applyResources _ _).
  assert (spec_AerospikeConfig s1 = spec_AerospikeConfig spec /\ spec_Image s1 = spec_Image spec /\ spec_Size s1 = spec_Size spec)
    as (Hc1 & Hi1 & Hz1) by by unfold s1, applyResources; destruct (tp_Resources t).
  set (s2 := applyImage _ _).
  assert (spec_AerospikeConfig s2 = spec_AerospikeConfig s1 /\ spec_Size s2 = spec_Size s1 /\
    spec_Image s2 = if decide (spec_Image s1 = "") then tp_Image t else spec_Image s1) as (Hc2 & Hz2 & Hi2).
  { unfold s2, applyImage. case_decide as Hd; [destruct Hd as [? Hd]; by rewrite (decide_True _ _ Hd)|].
    split_and!; [done..|]. case_decide as He; [|done]. rewrite He. destruct (decide (tp_Image t = "")) as [->|]; [done|]. by destruct Hd. }
  set (s3 := applySize _ _).
  assert (spec_AerospikeConfig s3 = spec_AerospikeConfig s2 /\ spec_Image s3 = spec_Image s2 /\
    spec_Size s3 = if decide (spec_Size s2 = 0) then default 0 (tp_Size t) else spec_Size s2) as (Hc3 & Hi3 & Hz3).
  { unfold s3, applySize. destruct (tp_Size t); cbn [default]; repeat case_decide; by split_and!. }
  set (s4 := applyMonitoring _ _).
  assert (spec_AerospikeConfig s4 = spec_AerospikeConfig s3 /\ spec_Image s4 = spec_Image s3 /\ spec_Size s4 = spec_Size s3)
    as (Hc4 & Hi4 & Hz4) by by unfold s4, applyMonitoring; destruct (tp_Monitoring t).
  assert (forall p, spec_AerospikeConfig (applyNetworkPolicy p s4) = spec_AerospikeConfig s4 /\
    spec_Image (applyNetworkPolicy p s4) = spec_Image s4 /\ spec_Size (applyNetworkPolicy p s4) = spec_Size s4) as Hp by by intros [].
  destruct (Hp (tp_AerospikeNetworkPolicy t)) as (-> & -> & ->).
  rewrite Hc4, Hc3, Hc2, Hc1, Hi4, Hi3, Hi2, Hi1, Hz4, Hz3, Hz2, Hz1. done.
Qed.

Lemma ce_config_nil : ce_config [].
Proof. split; done. Qed.

Lemma applyConfigDefaults_total tc c : ce_config c -> exists c', applyConfigDefaults tc c = inr c'.
Proof.
  intros Hce. unfold applyConfigDefaults.
  assert (exists c1, (match tac_Service tc with
    | Some (e :: service) => applyServiceDefaults (e :: service) c | _ => inr c end) = inr c1) as [c1 ->]; [|by eexists].
  destruct (tac_Service tc) as [[|e service]|]; [by eexists| |by eexists]. unfold applyServiceDefaults.
  destruct (getOrCreateSection c "service") as [s m].
  destruct (map_get "service" c) as [v|] eqn:Hv; [|by eexists].
  destruct (cec_service _ Hce v Hv) as [x ->]. by eexists.
Qed.

(** The configuration after the template. *)
Lemma ApplyTemplate_total t name spec :
  ce_template t -> ce_config (default [] (spec_AerospikeConfig spec)) -> config_wf (default [] (spec_AerospikeConfig spec)) ->
  exists spec', ApplyTemplate (Some t) name spec = (None, spec') /\
    from_option validateMergedConfigCE [] (spec_AerospikeConfig spec') = [] /\
    spec_Image spec' = (if decide (spec_Image spec = "") then tp_Image t else spec_Image spec) /\
    spec_Size spec' = (if decide (spec_Size spec = 0) then default 0 (tp_Size t) else spec_Size spec).
Proof.
  intros Ht Hce Hwf. unfold ApplyTemplate. set (s1 := applyStorage _ _).
  assert (spec_AerospikeConfig s1 = spec_AerospikeConfig spec /\ spec_Image s1 = spec_Image spec /\ spec_Size s1 = spec_Size spec)
    as (Hc1 & Hi1 & Hz1).
  { unfold s1, applyStorage, applyScheduling. destruct (tp_Storage t), (tp_Scheduling t); try done; by destruct (st_Volumes _). }
  unfold applyAerospikeConfig. destruct (tp_AerospikeConfig t) as [tc|] eqn:Htc.
  - rewrite Hc1. destruct (applyConfigDefaults_total tc _ Hce) as [c' Hc']. rewrite Hc'. eexists. split; [done|].
    destruct (applyTotal_fields t (s1 <| spec_AerospikeConfig := Some c' |>)) as (-> & -> & ->).
    rewrite <- Hi1, <- Hz1. split; [|done]. apply validateMergedConfigCE_nil.
    eapply merged_ce_defaults; [exact Hce|done|by eapply ct_namespaces|done].
  - eexists. split; [done|]. destruct (applyTotal_fields t s1) as (-> & -> & ->). rewrite Hc1, Hi1, Hz1. split; [|done].
    destruct (spec_AerospikeConfig spec); [|done]. by apply validateMergedConfigCE_nil, ce_config_merged.
Qed.

Section AdmittedTemplate.
Context `{Environment, Validators}.

Lemma accepted_fields spec : accepted_spec spec -> 0 <= spec_Size spec ->
  spec_Size spec <= maxCEClusterSize /\ (spec_Image spec <> "" -> enterpriseImage "" (spec_Image spec) = []).
Proof.
  intros Ha Hs. pose proof (as_size _ Ha) as Hv. unfold validateSizeAndImage in Hv.
  case_decide as Hi; cbn [fst] in Hv; rewrite !app_nil in Hv; (split;
    [destruct Hv as [[H8 _] _]; destruct (Z.ltb_spec maxCEClusterSize (spec_Size spec)); [done|lia]|]); [done|].
  intros _. destruct Hv as (_ & _ & He & _). by eapply enterpriseImage_field.
Qed.

(** C22: a template and a cluster that passed their webhooks fit together: the merged
    template can be applied to the cluster, and what comes out passes the checks on
    resolved specs unless neither side gives an image or a size *)
Theorem admitted_template_resolves reader cluster t :
  admitted (validateWithCtx reader cluster) -> (validateTemplate t).1 = [] ->
  let spec := cl_Spec cluster in
  0 <= spec_Size spec -> config_wf (default [] (spec_AerospikeConfig spec)) ->
  (forall o, spec_Overrides spec = Some o -> template_wf o) ->
  exists spec', ApplyTemplate (MergeTemplateSpec (Some t) (spec_Overrides spec)) (cl_Name cluster) spec = (None, spec') /\
    (checkResolved spec' = inr () <-> spec_Image spec' <> "" /\ spec_Size spec' <> 0).
Proof.
  intros Hadm%admitted_spec Ht%validateTemplate_ce spec Hs Hwf Hov. change (accepted_spec spec) in Hadm.
  assert (exists e, MergeTemplateSpec (Some t) (spec_Overrides spec) = Some e) as [e He].
  { destruct (spec_Overrides spec); by eexists. }
  assert (ce_template e) as Hce.
  { eapply ce_template_merge; [exact Ht| |exact He]. intros o Ho. split; [|by apply Hov].
    by apply validateOverrides_ce, (as_overrides _ Hadm). }
  assert (ce_config (default [] (spec_AerospikeConfig spec))) as Hcfg.
  { destruct (spec_AerospikeConfig spec) as [c|] eqn:Hc; [by apply (as_config _ Hadm)|apply ce_config_nil]. }
  rewrite He. destruct (ApplyTemplate_total e (cl_Name cluster) spec Hce Hcfg Hwf) as (spec' & Happ & Hm & Hi & Hz).
  exists spec'. split; [done|]. destruct (accepted_fields _ Hadm Hs) as [H8 Himg]. rewrite checkResolved_ok. split.
  { intros (? & ? & _). split; [done|lia]. }
  intros [Hne Hnz].
  assert (1 <= spec_Size spec' <= maxCEClusterSize) as Hb.
  { rewrite Hz in Hnz |- *. case_decide; [|lia]. destruct (tp_Size e) as [z|] eqn:He'; [|done]. by apply (ct_size _ Hce). }
  split; [done|]. split; [done|]. unfold validateMergedSpecCE. change resolverMaxCEClusterSize with maxCEClusterSize. rewrite Hm, decide_False by done.
  rewrite (proj2 (Z.ltb_ge _ _)), (proj2 (Z.ltb_ge _ _)) by lia. simpl. rewrite app_nil_r.
  eapply enterpriseImage_field. rewrite Hi in Hne |- *. case_decide; [by apply (ct_image _ Hce)|by apply Himg].
Qed.

End AdmittedTemplate.

(** ** Concrete runs *)

Definition emptyTemplate : AerospikeClusterTemplateSpec := mkTemplateSpec "" None None None None None "" None None None.

(** A template with a size, an image, an anti-affinity level and defaults for namespaces. *)
Definition sample_template : AerospikeClusterTemplateSpec :=
  emptyTemplate <| tp_Image := "aerospike:ce-8.1.1.1" |> <| tp_Size := Some 3 |>
    <| tp_Scheduling := Some (mkTemplateScheduling PodAntiAffinityRequired None [AString "dedicated"] [] None) |>
    <| tp_AerospikeConfig := Some (mkTemplateAerospikeConfig
         (Some [("storage-engine", AMap [("type", AString "memory"); ("data-size", AInt KInt64 1073741824)])])
         (Some [("proto-fd-max", AInt KInt64 20000)])
         (Some (mkTemplateNetworkConfig (Some (mkTemplateHeartbeatConfig "mesh" 250 10))))) |>.

Definition templated_spec (namespaces : list any) : AerospikeClusterSpec :=
  (emptySpec 0 "") <| spec_TemplateRef := Some "prod" |>
    <| spec_AerospikeConfig := Some [("namespaces", AList namespaces)] |>.

Definition test_namespace : any :=
  AMap [("name", AString "test"); ("storage-engine", AMap [("data-size", AInt KInt64 4096)])].

Definition templated_cluster (spec : AerospikeClusterSpec) : AerospikeCluster :=
  match Default (cluster_with spec) with Ok c => c | Err _ => cluster_with spec end.

Definition template_world (c : AerospikeCluster) (t : AerospikeClusterTemplateSpec) : World (H := sample_env) :=
  (sample_world c [] [] (mkStub [] [] [] [])) <| w_templates := [mkTemplate "prod" "7" t] |>.

Definition resolve (c : AerospikeCluster) (t : AerospikeClusterTemplateSpec) :=
  resolveTemplate (H := sample_env) (template_world c t).

Definition config_at (path : list step) (spec : AerospikeClusterSpec) : option any :=
  value_at path (AMap (default [] (spec_AerospikeConfig spec))).

(** A first reconcile writes the snapshot; the namespace keeps its own data size and gets
    the type of the storage engine from the template. *)
Lemma resolveTemplate_spec_witness :
  let c := templated_cluster (templated_spec [test_namespace]) in
  let w := template_world c sample_template in
  let w' := snd (resolveTemplate (H := sample_env) w) in
  w_trace w' = [AUpdateStatus] /\ spec_Size (cl_Spec (w_mem w')) = 3 /\
  config_at [Key "namespaces"; Idx 0; Key "storage-engine"; Key "data-size"] (cl_Spec (w_mem w')) = Some (AInt KInt64 4096) /\
  config_at [Key "namespaces"; Idx 0; Key "storage-engine"; Key "type"] (cl_Spec (w_mem w')) = Some (AString "memory") /\
  resolution (H := sample_env) w c "prod" w'.
Proof.
  intros c w w'. split_and!; [by vm_compute..|].
  assert (fst (resolveTemplate (H := sample_env) w) = inr None) as Hr%run_result by by vm_compute.
  assert (spec_TemplateRef (cl_Spec c) = Some "prod") as Hn by by vm_compute.
  exact (resolveTemplate_spec (H := sample_env) w c "prod" w' eq_refl eq_refl Hn Hr).
Defined.

Lemma sample_config_wf : config_wf (default [] (spec_AerospikeConfig (cl_Spec (templated_cluster (templated_spec [test_namespace]))))).
Proof. vm_compute. repeat constructor; set_solver. Qed.

Lemma template_yields_to_cluster_witness :
  let spec := cl_Spec (templated_cluster (templated_spec [test_namespace])) in
  exists spec', ApplyTemplate (Some sample_template) "demo" spec = (None, spec') /\ spec_Size spec' = 3 /\ yields spec spec'.
Proof.
  intros spec. destruct (ApplyTemplate (Some sample_template) "demo" spec) as [err spec'] eqn:Happ.
  assert (err = None /\ spec_Size spec' = 3) as [-> Hz].
  { assert (fst (ApplyTemplate (Some sample_template) "demo" spec) = None /\
      spec_Size (snd (ApplyTemplate (Some sample_template) "demo" spec)) = 3) as Hr by by vm_compute.
    by rewrite Happ in Hr. }
  exists spec'. split; [done|]. split; [done|].
  apply (template_yields_to_cluster (Some sample_template) "demo" spec spec'); [apply sample_config_wf| |done].
  intros v Hv. vm_compute in Hv. injection Hv as <-. eexists. split; [done|]. intros v Hv. vm_compute in Hv.
  injection Hv as <-. by eexists.
Defined.

Lemma admitted_template_resolves_witness :
  let cluster := templated_cluster (templated_spec [test_namespace]) in
  exists spec', ApplyTemplate (MergeTemplateSpec (Some sample_template) None) "demo" (cl_Spec cluster) = (None, spec') /\
    (checkResolved spec' = inr () <-> spec_Image spec' <> "" /\ spec_Size spec' <> 0).
Proof.
  intros cluster.
  apply (admitted_template_resolves (H := sample_env) (H0 := sample_validators) None cluster sample_template);
    [by vm_compute|by vm_compute|by vm_compute|apply sample_config_wf|done].
Defined.

(** *** The documented override

    docs/content/configuration/templates.md gives
    [aerospikeConfig.service.proto-fd-max: 20000] as the example of an override. *)

Definition overriding_spec : AerospikeClusterSpec :=
  (templated_spec [test_namespace]) <| spec_Overrides := Some (emptyTemplate <| tp_AerospikeConfig :=
     Some (mkTemplateAerospikeConfig None (Some [("proto-fd-max", AInt KInt64 20000)]) None) |>) |>.

(** The descriptor limit of a template or of the overrides never takes effect: the defaulter
    has put its own value into the cluster's configuration, which wins. *)
Theorem documented_override_ignored :
  let c := templated_cluster overriding_spec in
  let '(r, w') := resolve c sample_template in
  r = inr None /\
  config_at [Key "service"; Key "proto-fd-max"] (cl_Spec (w_mem w')) = Some (AInt KInt defaultProtoFdMax) /\
  tp_AerospikeConfig sample_template ≫= tac_Service = Some [("proto-fd-max", AInt KInt64 20000)].
Proof. by vm_compute. Qed.

(** *** Checks that wait for the template

    The webhook skips the checks that need the size when the template gives it; the comment
    there says the reconciler makes them after the merge.  It does not, nor does it check
    the replication factor a template brings in. *)

Definition rf_template (rf : Z) : AerospikeClusterTemplateSpec :=
  sample_template <| tp_Size := Some 1 |> <| tp_AerospikeConfig :=
    Some (mkTemplateAerospikeConfig (Some [("replication-factor", AInt KInt64 rf)]) None None) |>.

Theorem replication_factor_unchecked :
  let rf := [Key "namespaces"; Idx 0; Key "replication-factor"] in
  let own := templated_cluster (templated_spec [AMap [("name", AString "test"); ("replication-factor", AInt KInt64 2)]]) in
  let bare := templated_cluster (templated_spec [test_namespace]) in
  (* the cluster's factor exceeds the size the template gives *)
  admitted (check own) /\ (validateTemplate (rf_template 2)).1 = [] /\
  fst (resolve own (rf_template 2)) = inr None /\
  spec_Size (cl_Spec (w_mem (snd (resolve own (rf_template 2))))) = 1 /\
  config_at rf (cl_Spec (w_mem (snd (resolve own (rf_template 2))))) = Some (AInt KInt64 2) /\
  (* the template's factor is out of range *)
  admitted (check bare) /\ (validateTemplate (rf_template 9)).1 = [] /\
  fst (resolve bare (rf_template 9)) = inr None /\
  config_at rf (cl_Spec (w_mem (snd (resolve bare (rf_template 9))))) = Some (AInt KInt64 9).
Proof. by vm_compute. Qed.

(** *** Warnings about the spec before the merge

    The "resolved" spec that is checked for tolerations is the one without the template. *)
Theorem tolerations_warning_misfires :
  let t := sample_template <| tp_RackConfig := Some (mkTemplateRackConfig 1) |> in
  let c := templated_cluster ((templated_spec [test_namespace]) <| spec_PodSpec := Some emptyPodSpec |>) in
  Advice "maxRacksPerNode" "tolerations" ∈ ValidateResolvedSpec (cl_Spec c) (Some t) /\
  ps_Tolerations <$> spec_PodSpec (cl_Spec (w_mem (snd (resolve c t)))) = Some [AString "dedicated"].
Proof. vm_compute. split; [|done]. apply list_elem_of_In. simpl. tauto. Qed.

(** *** Drift

    Every event of a template marks its clusters as drifted, also the one that is delivered
    for an unchanged template when the operator starts. *)
Theorem unchanged_template_reported_as_drift :
  let c := templated_cluster (templated_spec [test_namespace]) in
  let w := snd (resolve c sample_template) in
  let w' := snd (mapTemplateToCluster (H := sample_env) "prod" w) in
  let synced w := (cl ← w_cluster w; st_TemplateSnapshot (cl_Status cl)) in
  (ts_ResourceVersion <$> synced w) = (tmpl_ResourceVersion <$> findObj (H := sample_env) "prod" (w_templates w)) /\
  ts_Synced <$> synced w = Some true /\ ts_Synced <$> synced w' = Some false /\
  ev_Reason <$> head (w_events w') = Some EventTemplateDrifted.
Proof. by vm_compute. Qed.
