(* ===== verification/Sharing.v ===== *)
(** * Shared configuration maps

    A Go map or slice is a reference: the other files read a configuration as the tree [any] it
    spells, and a function that "returns a new map" as one that returns a new tree.  This file is
    about the references.  It models the copying and merging functions over a store of maps and
    slices ([internal/utils/merge.go], [AerospikeConfigSpec.DeepCopy] of
    [api/v1alpha1/aerospikecluster_types.go], [deepMergeMapBaseFirst] of
    [internal/template/config.go]), shows that they compute the trees the other files say, and
    what their results share with their arguments.

    A cyclic structure would make the code recurse for ever.  The functions take fuel, and more
    than the height of the tree is enough. *)

From S2P Require Import Prelude GoValue Utils Api ConfigGen ConfigRules Events Kube Sizing Status Breaker Webhook Template.

(** ** The store *)

Abbreviation loc := positive.

(** An interface value of the shapes a configuration has: an immutable scalar, or a reference to a
    map or a slice, which can be nil. *)
Inductive ref := RScalar (v : any) | RMap (p : option loc) | RSlice (p : option loc).

(** A slice is a whole array: nothing here reslices one. *)
Inductive cell := CMap (m : gomap ref) | CSlice (l : list ref).

Abbreviation store := (gmap loc cell).

(** Computations that can run out of fuel. *)
Definition StoreM (A : Type) : Type := store -> option (A * store).

#[export] Instance StoreM_ret : MRet StoreM := fun A a h => Some (a, h).
#[export] Instance StoreM_bind : MBind StoreM := fun A B f m h => match m h with Some (a, h') => f a h' | None => None end.

Definition outOfFuel {A} : StoreM A := fun _ => None.

(** [make]: the reference is one that nothing refers to yet. *)
Definition make (c : cell) : StoreM loc := fun h => let l := fresh (dom h) in Some (l, <[l := c]> h).

(** [range] over a nil map or slice does nothing. *)
Definition mapOf (h : store) (p : option loc) : gomap ref :=
  match p ≫= fun l => h !! l with Some (CMap m) => m | _ => [] end.
Definition sliceOf (h : store) (p : option loc) : list ref :=
  match p ≫= fun l => h !! l with Some (CSlice s) => s | _ => [] end.

Definition entries (p : option loc) : StoreM (gomap ref) := fun h => Some (mapOf h p, h).
Definition elements (p : option loc) : StoreM (list ref) := fun h => Some (sliceOf h p, h).

(** [m[k] = v] and [s[i] = v] *)
Definition mapSet (l : loc) (k : string) (v : ref) : StoreM () := fun h =>
  Some ((), alter (fun c => match c with CMap m => CMap (map_set k v m) | CSlice s => CSlice s end) l h).
Definition sliceSet (l : loc) (i : nat) (v : ref) : StoreM () := fun h =>
  Some ((), alter (fun c => match c with CMap m => CMap m | CSlice s => CSlice (<[i := v]> s) end) l h).

Fixpoint forEach {A} (l : list A) (f : A -> StoreM ()) : StoreM () :=
  match l with [] => mret () | x :: l => _ ← f x; forEach l f end.
Fixpoint forIndex {A} (i : nat) (l : list A) (f : nat -> A -> StoreM ()) : StoreM () :=
  match l with [] => mret () | x :: l => _ ← f i x; forIndex (S i) l f end.

(** ** The code *)

(** [deepCopyValue]: of package utils, which turns a nil map into an empty one, and with [keepNil]
    that of package v1alpha1, which does not. *)
Fixpoint deepCopyRef (keepNil : bool) (fuel : nat) (v : ref) : StoreM ref :=
  match fuel with
  | O => outOfFuel
  | S fuel =>
      match v with
      | RScalar _ => mret v
      | RMap p =>
          if keepNil && bool_decide (p = None) then mret (RMap None)
          else
            t ← entries p;
            c ← make (CMap []);
            _ ← forEach t (fun e => x ← deepCopyRef keepNil fuel e.2; mapSet c e.1 x);
            mret (RMap (Some c))
      | RSlice p =>
          t ← elements p;
          c ← make (CSlice (replicate (length t) (RScalar ANil)));
          _ ← forIndex 0 t (fun i v => x ← deepCopyRef keepNil fuel v; sliceSet c i x);
          mret (RSlice (Some c))
      end
  end.

(** [DeepMerge] *)
Fixpoint deepMergeRef (fuel : nat) (base override : option loc) : StoreM (option loc) :=
  match fuel with
  | O => outOfFuel
  | S fuel =>
      b ← entries base;
      result ← make (CMap []);
      _ ← forEach b (fun e => x ← deepCopyRef false fuel e.2; mapSet result e.1 x);
      o ← entries override;
      _ ← forEach o (fun e =>
            x ← (r ← entries (Some result);
                 match map_get e.1 r, e.2 with
                 | Some (RMap baseMap), RMap overrideMap => m ← deepMergeRef fuel baseMap overrideMap; mret (RMap m)
                 | _, _ => deepCopyRef false fuel e.2
                 end);
            mapSet result e.1 x);
      mret (Some result)
  end.

(** [deepMergeMapBaseFirst] *)
Fixpoint mergeBaseFirstRef (fuel : nat) (base override : option loc) : StoreM (option loc) :=
  match fuel with
  | O => outOfFuel
  | S fuel =>
      b ← entries base;
      result ← make (CMap []);
      _ ← forEach b (fun e => x ← mret e.2; mapSet result e.1 x);
      o ← entries override;
      _ ← forEach o (fun e =>
            x ← (r ← entries (Some result);
                 match map_get e.1 r, e.2 with
                 | Some (RMap baseMap), RMap overrideMap => m ← mergeBaseFirstRef fuel baseMap overrideMap; mret (RMap m)
                 | _, _ => mret e.2
                 end);
            mapSet result e.1 x);
      mret (Some result)
  end.

(** [AerospikeConfigSpec.DeepCopy] of a non-nil pointer. *)
Definition configDeepCopy (fuel : nat) (value : option loc) : StoreM (option loc) :=
  v ← deepCopyRef true fuel (RMap value);
  mret (match v with RMap p => p | _ => None end).

(** ** The tree a reference spells *)

Fixpoint height (v : any) : nat :=
  match v with
  | AList l => S (max_list (height <$> l))
  | AMap m => S (max_list ((fun e => height e.2) <$> m))
  | _ => O
  end.

(** Pointwise relations whose second argument is structural. *)
Definition list2 {A B} (R : A -> B -> Prop) : list A -> list B -> Prop :=
  fix go l l' {struct l'} :=
    match l', l with
    | [], [] => True
    | y :: l', x :: l => R x y /\ go l l'
    | _, _ => False
    end.

(** [v] spells the tree [a] with maps and slices that lie in [P]. *)
Fixpoint spells (P : loc -> Prop) (h : store) (v : ref) (a : any) {struct a} : Prop :=
  match a with
  | AMap t =>
      exists p, v = RMap p /\
      match p with
      | None => t = []
      | Some l => P l /\ exists m, h !! l = Some (CMap m) /\
                  list2 (fun e e' => e.1 = e'.1 /\ spells P h e.2 e'.2) m t
      end
  | AList t =>
      exists p, v = RSlice p /\
      match p with
      | None => t = []
      | Some l => P l /\ exists s, h !! l = Some (CSlice s) /\ list2 (spells P h) s t
      end
  | _ => v = RScalar a
  end.

(** ** Lemmas *)

Lemma list2_Forall2 {A B} (R : A -> B -> Prop) l l' : list2 R l l' <-> Forall2 R l l'.
Proof.
  split.
  - revert l. induction l' as [|y l' IH]; intros [|x l]; simpl; try done. intros [Hxy Hl]. constructor; auto.
  - by induction 1.
Qed.

(** The entries of a map, in the same order. *)
Abbreviation Entries P h := (Forall2 (fun (e : string * ref) (e' : string * any) => e.1 = e'.1 /\ spells P h e.2 e'.2)).

Lemma spells_map P h v t :
  spells P h v (AMap t) <->
  v = RMap None /\ t = [] \/ exists l m, v = RMap (Some l) /\ P l /\ h !! l = Some (CMap m) /\ Entries P h m t.
Proof.
  simpl. split.
  - intros ([l|] & -> & Hp); [right|by left]. destruct Hp as (Hp & m & Hl & Hm%list2_Forall2). by exists l, m.
  - intros [[-> ->]|(l & m & -> & Hp & Hl & Hm%list2_Forall2)]; [by exists None|]. exists (Some l). split_and!; [done|done|]. by exists m.
Qed.

Lemma spells_list P h v t :
  spells P h v (AList t) <->
  v = RSlice None /\ t = [] \/ exists l s, v = RSlice (Some l) /\ P l /\ h !! l = Some (CSlice s) /\ Forall2 (spells P h) s t.
Proof.
  simpl. split.
  - intros ([l|] & -> & Hp); [right|by left]. destruct Hp as (Hp & s & Hl & Hs%list2_Forall2). by exists l, s.
  - intros [[-> ->]|(l & s & -> & Hp & Hl & Hs%list2_Forall2)]; [by exists None|]. exists (Some l). split_and!; [done|done|]. by exists s.
Qed.

(** A tree survives every change of cells it does not lie in. *)
Lemma spells_mono (P Q : loc -> Prop) h h' v a :
  (forall l, P l -> is_Some (h !! l) -> Q l /\ h' !! l = h !! l) -> spells P h v a -> spells Q h' v a.
Proof.
  intros Hpq. revert v. induction a as [| | | | | |t IH|t IH] using any_rec_ind; intros v; try done.
  - rewrite !spells_list. intros [?|(l & s & -> & Hp & Hl & Hs)]; [by left|right]. exists l, s.
    destruct (Hpq l Hp ltac:(by eexists)) as [Hq ->]. split_and!; [done..|]. clear Hl.
    revert s Hs. induction IH as [|a t Ha _ IHt]; intros s Hs; inversion Hs; subst; constructor; auto.
  - rewrite !spells_map. intros [?|(l & m & -> & Hp & Hl & Hm)]; [by left|right]. exists l, m.
    destruct (Hpq l Hp ltac:(by eexists)) as [Hq ->]. split_and!; [done..|]. clear Hl.
    revert m Hm. induction IH as [|a t Ha _ IHt]; intros m Hm; inversion Hm as [|x y ? ? [? ?]]; subst; constructor; auto.
Qed.

Lemma Entries_mono (P Q : loc -> Prop) h h' m t :
  (forall l, P l -> is_Some (h !! l) -> Q l /\ h' !! l = h !! l) -> Entries P h m t -> Entries Q h' m t.
Proof. intros Hpq Hm. eapply Forall2_impl; [exact Hm|]. intros e e' [? ?]. split; [done|]. by eapply spells_mono. Qed.

(** Allocating keeps what is there; nothing that is there is new. *)
Lemma spells_grow P h h' v a : h ⊆ h' -> spells P h v a -> spells (fun l => P l /\ is_Some (h !! l)) h' v a.
Proof.
  intros Hsub. apply spells_mono. intros l Hp [c Hc]. split; [by split; [|eexists]|]. rewrite Hc. by eapply lookup_weaken.
Qed.

Lemma Entries_grow P h h' m t : h ⊆ h' -> Entries P h m t -> Entries (fun l => P l /\ is_Some (h !! l)) h' m t.
Proof. intros Hsub Hm. eapply Forall2_impl; [exact Hm|]. intros e e' [? ?]. split; [done|]. by apply spells_grow. Qed.

Lemma Entries_get P h m t k :
  Entries P h m t ->
  match map_get k t with
  | Some a => exists x, map_get k m = Some x /\ spells P h x a
  | None => map_get k m = None
  end.
Proof.
  induction 1 as [|[k1 x] [k2 a] m t [Hk Hx] _ IH]; [done|]. simpl in *. subst k2. case_decide; [by exists x|done].
Qed.

Lemma Entries_set P h m t k x a : Entries P h m t -> spells P h x a -> Entries P h (map_set k x m) (map_set k a t).
Proof.
  intros Hm Hx. induction Hm as [|[k1 y] [k2 b] m t [Hk Hy] Hm IH]; simpl in *; [by repeat constructor|].
  subst k2. case_decide; constructor; by try split.
Qed.

Lemma foldl_map_set (d t : gomap any) :
  map_wf (d ++ t) -> foldl (fun d e => map_set e.1 e.2 d) d t = d ++ t.
Proof.
  revert d. induction t as [|[k v] t IH]; intros d Hwf; simpl; [by rewrite app_nil_r|].
  assert (map_set k v d = d ++ [(k, v)]) as ->.
  { unfold map_wf, map_keys in Hwf. rewrite fmap_app in Hwf. apply NoDup_app in Hwf as (_ & Hd & _). clear IH.
    induction d as [|[k' v'] d IHd]; [done|]. simpl in *. rewrite decide_False.
    - f_equal. apply IHd. intros x Hx. apply Hd. by right.
    - intros ->. apply (Hd k'); left. }
  by rewrite IH, <- app_assoc by (by rewrite <- app_assoc).
Qed.

Lemma max_list_elem n l : n ∈ l -> (n <= max_list l)%nat.
Proof. induction 1 as [n l|n m l _ IH]; simpl; lia. Qed.

Lemma height_entry (t : gomap any) e : e ∈ t -> (height e.2 < height (AMap t))%nat.
Proof. intros He. apply Nat.lt_succ_r, max_list_elem, list_elem_of_fmap. by exists e. Qed.

Lemma height_element t a : a ∈ t -> (height a < height (AList t))%nat.
Proof. intros Ha. apply Nat.lt_succ_r, max_list_elem, list_elem_of_fmap. by exists a. Qed.

Lemma bind_run {A B} (m : StoreM A) (f : A -> StoreM B) h a h' : m h = Some (a, h') -> (m ≫= f) h = f a h'.
Proof. intros Hm. unfold mbind, StoreM_bind. by rewrite Hm. Qed.

Lemma make_spec c h :
  exists l h', make c h = Some (l, h') /\ h !! l = None /\ h ⊆ h' /\ h' !! l = Some c.
Proof.
  exists (fresh (dom h)), (<[fresh (dom h) := c]> h).
  assert (h !! fresh (dom h) = None) as Hn by (apply not_elem_of_dom, is_fresh).
  split_and!; [done|done|by apply insert_subseteq|by rewrite lookup_insert_eq].
Qed.

Lemma mapSet_spec l k v m h :
  h !! l = Some (CMap m) ->
  exists h', mapSet l k v h = Some ((), h') /\ h' !! l = Some (CMap (map_set k v m)) /\ forall l', l' <> l -> h' !! l' = h !! l'.
Proof.
  intros Hl. eexists. split; [reflexivity|]. split; [by rewrite lookup_alter_eq, Hl|]. intros l' Hne. by rewrite lookup_alter_ne.
Qed.

Lemma sliceSet_spec l i v s h :
  h !! l = Some (CSlice s) ->
  exists h', sliceSet l i v h = Some ((), h') /\ h' !! l = Some (CSlice (<[i := v]> s)) /\ forall l', l' <> l -> h' !! l' = h !! l'.
Proof.
  intros Hl. eexists. split; [reflexivity|]. split; [by rewrite lookup_alter_eq, Hl|]. intros l' Hne. by rewrite lookup_alter_ne.
Qed.

(** A change of a cell that is new since [h0] keeps [h0]. *)
Lemma subseteq_change (h0 h h' : store) c :
  h0 ⊆ h -> h0 !! c = None -> (forall l, l <> c -> h' !! l = h !! l) -> h0 ⊆ h'.
Proof.
  intros Hsub Hc Hs. apply map_subseteq_spec. intros l x Hl. destruct (decide (l = c)) as [->|Hne]; [congruence|].
  rewrite Hs by done. by eapply lookup_weaken.
Qed.

(** ** Loops that fill a new map or slice *)

Section Fill.
Variables (h0 : store) (c : loc) (Q : loc -> Prop).
Hypothesis Hc : h0 !! c = None.
Hypothesis HQ : forall l, Q l -> l <> c.

(** Since [h0] only the cell [c] was changed and others were added; the map in it spells [d]. *)
Definition filling (h : store) (d : gomap any) : Prop :=
  h0 ⊆ h /\ exists m, h !! c = Some (CMap m) /\ Entries Q h m d.

Lemma filling_set h h' d k x a :
  filling h d -> h ⊆ h' -> spells Q h' x a ->
  exists h'', mapSet c k x h' = Some ((), h'') /\ filling h'' (map_set k a d).
Proof.
  intros (Hsub & m & Hm & Hd) Hh Hx. destruct (mapSet_spec c k x m h') as (h'' & -> & Hm' & Hs).
  { by eapply lookup_weaken. }
  exists h''. split; [done|]. split; [by eapply subseteq_change, Hs; [trans h|]|]. exists (map_set k x m). split; [done|].
  apply Entries_set.
  - eapply Entries_mono, (Entries_grow Q h h'); [|done..]. intros l [Hl _] _. split; [done|]. by apply Hs, HQ.
  - eapply spells_mono, Hx. intros l Hl _. split; [done|]. by apply Hs, HQ.
Qed.

Lemma fill_map (f : string * ref -> StoreM ref) (g : gomap any -> string * any -> any) t ta d h :
  Forall2 (fun e e' => e.1 = e'.1) t ta ->
  (forall done e e' rest h,
     ta = done ++ e' :: rest -> (e, e') ∈ zip t ta -> filling h (foldl (fun d e => map_set e.1 (g d e) d) d done) ->
     exists x h', f e h = Some (x, h') /\ h ⊆ h' /\ spells Q h' x (g (foldl (fun d e => map_set e.1 (g d e) d) d done) e')) ->
  filling h d ->
  exists h', forEach t (fun e => x ← f e; mapSet c e.1 x) h = Some ((), h') /\
    filling h' (foldl (fun d e => map_set e.1 (g d e) d) d ta).
Proof.
  intros Ht. revert d h. induction Ht as [|e e' t ta He Ht IH]; intros d h Hf Hd; [by exists h|].
  destruct (Hf [] e e' ta h eq_refl ltac:(left) Hd) as (x & h1 & Hx & Hsub & Hsp). simpl in Hsp.
  destruct (filling_set h h1 d e.1 x _ Hd Hsub Hsp) as (h2 & Hs & Hd2). rewrite He in Hd2 at 1.
  cbn [forEach]. rewrite (bind_run _ _ _ _ _ (eq_trans (bind_run _ _ _ _ _ Hx) Hs)). apply IH; [|done].
  intros done e1 e1' rest h3 -> Hin Hd3. apply (Hf (e' :: done) e1 e1' rest h3); [done|by right|done].
Qed.

(** A slice whose first elements are copies, the others still nil. *)
Definition fillingSlice (h : store) (d : list any) (todo : nat) : Prop :=
  h0 ⊆ h /\ exists s, h !! c = Some (CSlice (s ++ replicate todo (RScalar ANil))) /\ Forall2 (spells Q h) s d.

Lemma fill_slice (f : ref -> StoreM ref) t ta d h :
  Forall2 (fun v a => forall h, h0 ⊆ h -> exists x h', f v h = Some (x, h') /\ h ⊆ h' /\ (is_Some (h !! c) -> spells Q h' x a)) t ta ->
  fillingSlice h d (length t) ->
  exists h', forIndex (length d) t (fun i v => x ← f v; sliceSet c i x) h = Some ((), h') /\ fillingSlice h' (d ++ ta) 0.
Proof.
  intros Ht. revert d h. induction Ht as [|v a t ta Hv Ht IH]; intros d h Hd.
  { exists h. split; [done|]. by rewrite app_nil_r. }
  destruct Hd as (Hsub & s & Hs & Hd). destruct (Hv h Hsub) as (x & h1 & Hx & Hsub1 & Hsp). specialize (Hsp ltac:(by eexists)).
  destruct (sliceSet_spec c (length d) x (s ++ replicate (length (v :: t)) (RScalar ANil)) h1) as (h2 & Hset & Hs2 & Hrest).
  { by eapply lookup_weaken. }
  cbn [forIndex]. rewrite (bind_run _ _ _ _ _ (eq_trans (bind_run _ _ _ _ _ Hx) Hset)). specialize (IH (d ++ [a]) h2). rewrite length_app in IH.
  simpl in IH. rewrite Nat.add_1_r in IH. rewrite <- app_assoc in IH. apply IH.
  split; [by eapply subseteq_change, Hrest; [trans h|]|]. exists (s ++ [x]). split.
  - rewrite Hs2. rewrite <- (Forall2_length _ _ _ Hd). replace (length s) with (length s + 0)%nat by lia.
    rewrite insert_app_r. simpl. by rewrite <- app_assoc.
  - apply Forall2_app; [|constructor; [|constructor]].
    + eapply Forall2_impl; [exact Hd|]. intros y b Hy. eapply spells_mono, (spells_grow Q h h1); [|done..].
      intros l [Hl _] _. split; [done|]. by apply Hrest, HQ.
    + eapply spells_mono, Hsp. intros l Hl _. split; [done|]. by apply Hrest, HQ.
Qed.

End Fill.

(** ** Deep copies *)

Abbreviation anywhere := (fun _ : loc => True).

Lemma spells_mapOf P h v t : spells P h v (AMap t) -> exists p, v = RMap p /\ Entries P h (mapOf h p) t.
Proof.
  rewrite spells_map. intros [[-> ->]|(l & m & -> & _ & Hl & Hm)]; [by exists None|]. exists (Some l). split; [done|].
  unfold mapOf. simpl. by rewrite Hl.
Qed.

Lemma spells_sliceOf P h v t : spells P h v (AList t) -> exists p, v = RSlice p /\ Forall2 (spells P h) (sliceOf h p) t.
Proof.
  rewrite spells_list. intros [[-> ->]|(l & s & -> & _ & Hl & Hs)]; [by exists None|]. exists (Some l). split; [done|].
  unfold sliceOf. simpl. by rewrite Hl.
Qed.

(** The computation yields a reference that spells [a] with cells that are new, and changes no old cell. *)
Definition yields (Q : loc -> Prop) (a : any) (m : StoreM ref) (h : store) : Prop :=
  exists x h', m h = Some (x, h') /\ h ⊆ h' /\ spells Q h' x a.

Abbreviation newIn h := (fun l : loc => h !! l = None).

Lemma any_wf_value (t : gomap any) e : any_wf (AMap t) -> e ∈ t -> any_wf e.2.
Proof. intros [_ Hf] He. rewrite Forall_fmap, Forall_forall in Hf. exact (Hf _ He). Qed.

Lemma entry_of_zip P h m t e e' : Entries P h m t -> (e, e') ∈ zip m t -> e' ∈ t /\ e.1 = e'.1 /\ spells P h e.2 e'.2.
Proof.
  intros Hm Hin. split; [by eapply elem_of_zip_r|]. revert Hin. induction Hm as [|x y m t Hxy _ IH]; [by intros ?%elem_of_nil|].
  simpl. rewrite elem_of_cons. intros [[= -> ->]|Hin]; [done|by apply IH].
Qed.

(** New since [h], apart from [c] itself. *)
Abbreviation inside h c := (fun l : loc => h !! l = None /\ l <> c).

Lemma newIn_inside (h h' : store) c l : h ⊆ h' -> is_Some (h' !! c) -> h' !! l = None -> h !! l = None /\ l <> c.
Proof. intros Hsub [x Hx] Hl. split; [by eapply lookup_weaken_None|]. intros ->. congruence. Qed.

(** A loop over the entries of an old map that stores something new under each key. *)
Lemma fill_new (h0 h : store) c m t f g d :
  h0 !! c = None -> filling h0 c (inside h0 c) h d -> Entries anywhere h0 m t ->
  (forall done e e' rest h2, t = done ++ e' :: rest -> e' ∈ t -> e.1 = e'.1 -> spells anywhere h2 e.2 e'.2 ->
     filling h0 c (inside h0 c) h2 (foldl (fun d e => map_set e.1 (g d e) d) d done) ->
     yields (newIn h2) (g (foldl (fun d e => map_set e.1 (g d e) d) d done) e') (f e) h2) ->
  exists h', forEach m (fun e => x ← f e; mapSet c e.1 x) h = Some ((), h') /\
    filling h0 c (inside h0 c) h' (foldl (fun d e => map_set e.1 (g d e) d) d t).
Proof.
  intros Hc Hd Hm Hf. apply (fill_map h0 c (inside h0 c) Hc); [by intros l []| | |done].
  { eapply Forall2_impl; [exact Hm|]. by intros ? ? []. }
  intros done e e' rest h2 Ht Hin Hfill. destruct (entry_of_zip _ _ _ _ _ _ Hm Hin) as (He & Hk & Hsp).
  pose proof Hfill as (Hsub & m' & Hm' & _).
  destruct (Hf done e e' rest h2 Ht He Hk ltac:(by eapply spells_mono, (spells_grow _ _ _ _ _ Hsub Hsp)) Hfill) as (x & h3 & Hx & Hs & Hsx).
  exists x, h3. split_and!; [done|done|]. eapply spells_mono, Hsx. intros l Hl _. split; [|done]. apply (newIn_inside h0 h2 c l Hsub); [by eexists|done].
Qed.

Lemma filled (h0 h : store) c d :
  h0 !! c = None -> filling h0 c (inside h0 c) h d -> h0 ⊆ h /\ spells (newIn h0) h (RMap (Some c)) (AMap d).
Proof.
  intros Hc (Hsub & m & Hm & Hd). split; [done|]. apply spells_map. right. exists c, m. split_and!; [done..|].
  eapply Entries_mono, Hd. by intros l [Hl _] _.
Qed.

Lemma filling_start (h0 h : store) c Q : h0 ⊆ h -> h !! c = Some (CMap []) -> filling h0 c Q h [].
Proof. intros Hs Hc. split; [done|]. exists []. by split. Qed.

(** The two functions [deepCopyValue] spell what they are given with new cells only. *)
Lemma deepCopyRef_yields keepNil fuel : forall v a h,
  any_wf a -> spells anywhere h v a -> (height a < fuel)%nat -> yields (newIn h) a (deepCopyRef keepNil fuel v) h.
Proof.
  induction fuel as [|fuel IH]; intros v a h Hwf Hsp Hh; [lia|].
  destruct a as [| | | | | |t|t]; try (simpl in Hsp; subst v; by eexists _, h).
  - destruct (spells_sliceOf _ _ _ _ Hsp) as (p & -> & Hs). cbn [deepCopyRef].
    destruct (make_spec (CSlice (replicate (length (sliceOf h p)) (RScalar ANil))) h) as (c & h1 & Hmk & Hc & Hsub & Hc1).
    destruct (fill_slice h c (inside h c) Hc ltac:(by intros l []) (deepCopyRef keepNil fuel) (sliceOf h p) t [] h1) as (h2 & Hf & Hsub2 & s & Hs2 & Hall).
    + apply Forall2_same_length_lookup_2; [by eapply Forall2_length|]. intros i x a Hx Ha h2 Hsub2.
      pose proof (Forall2_lookup_lr _ _ _ _ _ _ Hs Hx Ha) as Hxa. apply list_elem_of_lookup_2 in Ha.
      destruct (IH x a h2) as (x' & h3 & Hr & Hsub3 & Hsp3); [by eapply any_wf_list|by eapply spells_mono, (spells_grow _ _ _ _ _ Hsub2 Hxa)| |].
      { pose proof (height_element _ _ Ha). lia. }
      exists x', h3. split_and!; [done|done|]. intros Hc2. eapply spells_mono, Hsp3. intros l Hl _. split; [|done].
      by apply (newIn_inside h h2 c l).
    + split; [done|]. by exists [].
    + exists (RSlice (Some c)), h2. split_and!; [|done|].
      * rewrite (bind_run (elements p) _ h _ h eq_refl), (bind_run _ _ _ _ _ Hmk). by rewrite (bind_run _ _ _ _ _ Hf).
      * apply spells_list. right. exists c, s. rewrite app_nil_r in Hs2. split_and!; [done..|].
        eapply Forall2_impl; [exact Hall|]. intros y b. by apply spells_mono; intros l [] _.
  - destruct (spells_mapOf _ _ _ _ Hsp) as (p & -> & Hm). cbn [deepCopyRef].
    destruct (keepNil && bool_decide (p = None)) eqn:Hnil.
    { apply andb_true_iff in Hnil as [_ ->%bool_decide_eq_true]. inversion Hm; subst. exists (RMap None), h. split_and!; [done|done|]. by exists None. }
    destruct (make_spec (CMap []) h) as (c & h1 & Hmk & Hc & Hsub & Hc1).
    destruct (fill_new h h1 c (mapOf h p) t (fun e => deepCopyRef keepNil fuel e.2) (fun _ e => e.2) []) as (h2 & Hf & Hfill); [done|by apply filling_start|done| |].
    + intros done e e' rest h2 _ He _ Hsp2 _. apply IH; [by eapply any_wf_value|done|]. pose proof (height_entry _ _ He). lia.
    + rewrite foldl_map_set in Hfill by (by apply any_wf_map_wf). exists (RMap (Some c)), h2. split; [|by apply filled].
      rewrite (bind_run (entries p) _ h _ h eq_refl), (bind_run _ _ _ _ _ Hmk). by rewrite (bind_run _ _ _ _ _ Hf).
Qed.

(** ** Merging *)

Lemma spells_RMap P h p a : spells P h (RMap p) a -> exists t, a = AMap t.
Proof. destruct a; simpl; try done; [|by eexists]. by intros (? & ? & _). Qed.

Lemma mapOf_grow P h h' p t : h ⊆ h' -> spells P h (RMap p) (AMap t) -> mapOf h' p = mapOf h p.
Proof.
  intros Hs. rewrite spells_map. intros [[[= ->] _]|(l & m & [= ->] & _ & Hl & _)]; [done|].
  unfold mapOf. simpl. by rewrite Hl, (lookup_weaken _ _ _ _ Hl Hs).
Qed.

(** What the merges look at: both values are maps, or they are not. *)
Lemma merge_choice Q h m d (e : string * ref) (e' : string * any) :
  Entries Q h m d -> e.1 = e'.1 -> spells anywhere h e.2 e'.2 ->
  (exists p q b o, map_get e.1 m = Some (RMap p) /\ e.2 = RMap q /\ map_get e'.1 d = Some (AMap b) /\ e'.2 = AMap o /\
     spells Q h (RMap p) (AMap b)) \/
  (forall A (f : option loc -> option loc -> A) (z : A),
     match map_get e.1 m, e.2 with Some (RMap p), RMap q => f p q | _, _ => z end = z) /\
  (forall b o, map_get e'.1 d = Some (AMap b) -> e'.2 <> AMap o).
Proof.
  intros Hm Hk He. pose proof (Entries_get _ _ _ _ e'.1 Hm) as Hg. rewrite Hk.
  destruct (map_get e'.1 d) as [a|] eqn:Ha; [|right; by rewrite Hg]. destruct Hg as (x & Hx & Hxa). rewrite Hx.
  assert (forall b o, Some a = Some (AMap b) -> e'.2 = AMap o -> exists p q, x = RMap p /\ e.2 = RMap q) as Hboth.
  { intros b o [= ->] Ho. rewrite Ho in He. destruct (spells_mapOf _ _ _ _ Hxa) as (p & -> & _).
    destruct (spells_mapOf _ _ _ _ He) as (q & -> & _). by exists p, q. }
  destruct x as [v|p|p].
  1, 3: right; split; [done|]; intros b o Hb Ho; by destruct (Hboth b o Hb Ho) as (? & ? & ? & _).
  destruct e.2 as [v|q|q] eqn:Hq.
  1, 3: right; split; [done|]; intros b o Hb Ho; by destruct (Hboth b o Hb Ho) as (? & ? & _ & ?).
  left. destruct (spells_RMap _ _ _ _ Hxa) as [b ->]. destruct (spells_RMap _ _ _ _ He) as [o Ho].
  exists p, q, b, o. by split_and!.
Qed.

(** An entry of the override meets the base value of its key. *)
Lemma merge_base b o done (e' : string * any) rest :
  map_wf o -> o = done ++ e' :: rest ->
  map_get e'.1 (foldl (fun d e => map_set e.1 (mergeEntry (map_get e.1 d) e.2) d) b done) = map_get e'.1 b.
Proof.
  intros Hwf ->. unfold map_wf, map_keys in Hwf. rewrite fmap_app in Hwf. apply NoDup_app in Hwf as (Hd & Hnot & _).
  rewrite foldl_merge_lookup by done. assert (map_get e'.1 done = None) as ->; [|done].
  apply map_get_None. intros Hin. apply (Hnot _ Hin). left.
Qed.

Abbreviation mergedEntries b o := (foldl (fun d e => map_set e.1 (mergeEntry (map_get e.1 d) e.2) d) b o).

(** The loop over the override that both merges have, with the recursive call [rec] for two maps
    and [other] for any other value. *)
Lemma override_loop (P Q : loc -> Prop) h h2 c (rec : option loc -> option loc -> StoreM (option loc)) (other : ref -> StoreM ref) override b o :
  h !! c = None -> (forall l, Q l -> l <> c) -> config_wf b -> config_wf o ->
  filling h c Q h2 b -> spells P h (RMap override) (AMap o) ->
  (forall p q b' o' h3, any_wf (AMap b') -> any_wf (AMap o') ->
     (height (AMap b') < height (AMap b))%nat -> (height (AMap o') < height (AMap o))%nat ->
     h ⊆ h3 -> is_Some (h3 !! c) -> spells Q h3 (RMap p) (AMap b') -> spells (fun l => P l /\ is_Some (h !! l)) h3 (RMap q) (AMap o') ->
     yields Q (AMap (DeepMerge b' o')) (m ← rec p q; mret (RMap m)) h3) ->
  (forall v a h3, any_wf a -> (height a < height (AMap o))%nat -> h ⊆ h3 -> is_Some (h3 !! c) ->
     spells (fun l => P l /\ is_Some (h !! l)) h3 v a -> yields Q a (other v) h3) ->
  exists h3,
    (t ← entries override;
     forEach t (fun e =>
       x ← (r ← entries (Some c);
            match map_get e.1 r, e.2 with
            | Some (RMap p), RMap q => m ← rec p q; mret (RMap m)
            | _, _ => other e.2
            end);
       mapSet c e.1 x)) h2 = Some ((), h3) /\
    filling h c Q h3 (mergedEntries b o).
Proof.
  intros Hc HQ Hwb Hwo Hfill Ho Hrec Hother. destruct (spells_mapOf _ _ _ _ Ho) as (q & [= <-] & Hmo).
  rewrite (bind_run (entries override) _ h2 _ h2 eq_refl), (mapOf_grow _ h h2 override o ltac:(apply Hfill) Ho).
  apply (fill_map h c Q Hc HQ _ (fun d e => mergeEntry (map_get e.1 d) e.2)); [| |done].
  { eapply Forall2_impl; [exact Hmo|]. by intros ? ? []. }
  intros done e e' rest h3 Hsplit Hin (Hsub & m' & Hm' & Hd). destruct (entry_of_zip _ _ _ _ _ _ Hmo Hin) as (He & Hk & Hsp0).
  pose proof (merge_base b o done e' rest ltac:(by apply any_wf_map_wf) Hsplit) as Hbase.
  pose proof (height_entry _ _ He) as Hhe. pose proof (any_wf_value _ _ Hwo He) as Hwe. apply (spells_grow _ h h3 _ _ Hsub) in Hsp0.
  assert (mapOf h3 (Some c) = m') as Hr by (unfold mapOf; simpl; by rewrite Hm').
  rewrite (bind_run (entries (Some c)) _ h3 _ h3 eq_refl), Hr.
  destruct (merge_choice _ _ _ _ _ _ Hd Hk ltac:(by eapply (spells_mono _ anywhere), Hsp0)) as [(p & q & b' & o' & Hx & He2 & Hgb & Heo & Hspb)|[Hmatch Hnot]].
  - rewrite Hx, He2, Hgb, Heo, mergeEntry_maps. rewrite Hbase in Hgb. rewrite He2, Heo in Hsp0. rewrite Heo in Hhe, Hwe.
    pose proof (any_wf_entry _ _ _ Hwb Hgb). apply map_get_Some_in, height_entry in Hgb. apply Hrec; eauto.
  - rewrite Hmatch, (mergeEntry_other _ _ Hnot). apply Hother; eauto.
Qed.

(** [DeepMerge] yields the merge of the trees, in new cells. *)
Lemma deepMergeRef_yields fuel : forall base override b o h,
  config_wf b -> config_wf o -> spells anywhere h (RMap base) (AMap b) -> spells anywhere h (RMap override) (AMap o) ->
  (height (AMap b) < fuel)%nat -> (height (AMap o) < fuel)%nat ->
  yields (newIn h) (AMap (DeepMerge b o)) (m ← deepMergeRef fuel base override; mret (RMap m)) h.
Proof.
  induction fuel as [|fuel IH]; intros base override b o h Hwb Hwo Hb Ho Hhb Hho; [lia|]. cbn [deepMergeRef].
  destruct (spells_mapOf _ _ _ _ Hb) as (p & [= <-] & Hmb).
  destruct (make_spec (CMap []) h) as (c & h1 & Hmk & Hc & Hsub & Hc1).
  destruct (fill_new h h1 c (mapOf h base) b (fun e => deepCopyRef false fuel e.2) (fun _ e => e.2) []) as (h2 & Hf & Hfill); [done|by apply filling_start|done| |].
  { intros done e e' rest h2 _ He _ Hsp2 _. pose proof (height_entry _ _ He). apply deepCopyRef_yields; [exact (any_wf_value _ _ Hwb He)|done|lia]. }
  rewrite foldl_map_set in Hfill by (by apply any_wf_map_wf).
  assert (forall h3 a m, h ⊆ h3 -> is_Some (h3 !! c) -> yields (newIn h3) a m h3 -> yields (inside h c) a m h3) as Hin.
  { intros h3 a m Hs Hc3 (x & h4 & Hx & Hs4 & Hsp). exists x, h4. split_and!; [done|done|]. eapply spells_mono, Hsp.
    intros l Hl _. split; [|done]. by apply (newIn_inside h h3 c l). }
  destruct (override_loop anywhere (inside h c) h h2 c (deepMergeRef fuel) (deepCopyRef false fuel) override b o) as (h3 & Hf3 & Hfill3);
    [done|by intros l []|done..| | |].
  - intros p q b' o' h3 Hwb' Hwo' Hhb' Hho' Hs Hc3 Hp Hq. apply Hin; [done|done|]. apply IH; [done|done| | |lia|lia]; by eapply spells_mono.
  - intros v a h3 Hwa Hha Hs Hc3 Hv. apply Hin; [done|done|]. apply deepCopyRef_yields; [done| |lia]. by eapply spells_mono.
  - exists (RMap (Some c)), h3. split; [|unfold DeepMerge; rewrite copyEntries_id; by apply filled].
    rewrite (bind_run _ (fun m => mret (RMap m)) h (Some c) h3); [done|].
    rewrite (bind_run (entries base) _ h _ h eq_refl), (bind_run _ _ _ _ _ Hmk), (bind_run _ _ _ _ _ Hf).
    exact (bind_run _ (fun _ => mret (Some c)) h2 () h3 Hf3).
Qed.

(** [deepMergeMapBaseFirst] computes the same tree and changes no old cell either, but the result
    lies in cells of the arguments as well as new ones. *)
Lemma mergeBaseFirstRef_yields fuel : forall P base override b o h,
  config_wf b -> config_wf o -> spells P h (RMap base) (AMap b) -> spells P h (RMap override) (AMap o) ->
  (height (AMap b) < fuel)%nat -> (height (AMap o) < fuel)%nat ->
  yields (fun l => P l \/ h !! l = None) (AMap (DeepMerge b o)) (m ← mergeBaseFirstRef fuel base override; mret (RMap m)) h.
Proof.
  induction fuel as [|fuel IH]; intros P base override b o h Hwb Hwo Hb Ho Hhb Hho; [lia|]. cbn [mergeBaseFirstRef].
  apply (spells_grow P h h) in Hb; [|done]. destruct (spells_mapOf _ _ _ _ Hb) as (p & [= <-] & Hmb).
  destruct (make_spec (CMap []) h) as (c & h1 & Hmk & Hc & Hsub & Hc1).
  set (Q := fun l => (P l \/ h !! l = None) /\ l <> c).
  assert (forall h2 h3 v a, h ⊆ h3 -> spells (fun l => P l /\ is_Some (h !! l)) h2 v a -> h2 ⊆ h3 -> spells Q h3 v a) as Hold.
  { intros h2 h3 v a Hs Hv Hs2. eapply spells_mono, Hv. intros l [Hp [x Hx]] [y Hy]. split; [|rewrite Hy; by eapply lookup_weaken].
    split; [by left|]. intros ->. congruence. }
  destruct (fill_map h c Q Hc ltac:(by intros l []) (fun e => mret e.2) (fun _ e => e.2) (mapOf h base) b [] h1) as (h2 & Hf & Hfill).
  { eapply Forall2_impl; [exact Hmb|]. by intros ? ? []. }
  { intros done e e' rest h2 _ Hin [Hs _]. destruct (entry_of_zip _ _ _ _ _ _ Hmb Hin) as (_ & _ & Hsp).
    exists e.2, h2. split_and!; [done|done|]. by eapply Hold. }
  { by apply filling_start. }
  rewrite foldl_map_set in Hfill by (by apply any_wf_map_wf).
  destruct (override_loop P Q h h2 c (mergeBaseFirstRef fuel) mret override b o) as (h3 & Hf3 & Hfill3); [done|by intros l []|done..| | |].
  - intros p q b' o' h3 Hwb' Hwo' Hhb' Hho' Hs Hc3 Hp Hq.
    destruct (IH Q p q b' o' h3) as (x & h4 & Hx & Hs4 & Hsp); [done|done|done|by eapply Hold|lia|lia|].
    exists x, h4. split_and!; [done|done|]. eapply spells_mono, Hsp. intros l [Hl|Hl] _; [done|].
    destruct (newIn_inside h h3 c l Hs Hc3 Hl). by split; [split; [right|]|].
  - intros v a h3 _ _ Hs _ Hv. exists v, h3. split_and!; [done|done|]. by eapply Hold.
  - exists (RMap (Some c)), h3. split_and!; [|apply Hfill3|].
    + rewrite (bind_run _ (fun m => mret (RMap m)) h (Some c) h3); [done|].
      rewrite (bind_run (entries base) _ h _ h eq_refl), (bind_run _ _ _ _ _ Hmk), (bind_run _ _ _ _ _ Hf).
      exact (bind_run _ (fun _ => mret (Some c)) h2 () h3 Hf3).
    + unfold DeepMerge. rewrite copyEntries_id. destruct Hfill3 as (_ & m & Hm & Hd).
      apply spells_map. right. exists c, m. split_and!; [done|by right|done|]. eapply Entries_mono, Hd. by intros l [Hl _] _.
Qed.

(** ** Properties *)

Lemma map_result (m : StoreM (option loc)) h x h' :
  (p ← m; mret (RMap p)) h = Some (x, h') -> exists p, m h = Some (p, h') /\ x = RMap p.
Proof. unfold mbind, StoreM_bind. destruct (m h) as [[p h1]|]; [|done]. intros [= <- <-]. by exists p. Qed.

(** Old cells are what they were, and new ones are not among them: so later changes of the one do
    not show in the other. *)
Lemma yields_apart a m h : yields (newIn h) a m h -> exists x h1,
  m h = Some (x, h1) /\
  (forall h2 v b, (forall l, is_Some (h !! l) -> h2 !! l = h1 !! l) -> spells anywhere h v b -> spells anywhere h2 v b) /\
  (forall h2, (forall l, h !! l = None -> h2 !! l = h1 !! l) -> spells anywhere h2 x a).
Proof.
  intros (x & h1 & Hx & Hsub & Hsp). exists x, h1. split_and!; [done| |].
  - intros h2 v b Hs Hv. eapply spells_mono, Hv. intros l _ [y Hy]. split; [done|]. rewrite Hs by (by eexists).
    rewrite Hy. by eapply lookup_weaken.
  - intros h2 Hs. eapply spells_mono, Hsp. intros l Hl _. split; [done|]. by apply Hs.
Qed.

(** C38: DeepMerge of two configurations that lie in memory as maps and slices, shared
    with whatever else, returns a map that spells their merge; what is done to the
    result later never shows in either argument, and what is done to them never shows in
    the result *)
Theorem DeepMerge_shares_nothing fuel base override b o h :
  config_wf b -> config_wf o -> spells anywhere h (RMap base) (AMap b) -> spells anywhere h (RMap override) (AMap o) ->
  (height (AMap b) < fuel)%nat -> (height (AMap o) < fuel)%nat ->
  exists result h1, deepMergeRef fuel base override h = Some (result, h1) /\
    spells anywhere h1 (RMap result) (AMap (DeepMerge b o)) /\
    (forall h2, (forall l, is_Some (h !! l) -> h2 !! l = h1 !! l) ->
       spells anywhere h2 (RMap base) (AMap b) /\ spells anywhere h2 (RMap override) (AMap o)) /\
    (forall h2, (forall l, h !! l = None -> h2 !! l = h1 !! l) -> spells anywhere h2 (RMap result) (AMap (DeepMerge b o))).
Proof.
  intros Hwb Hwo Hb Ho Hhb Hho.
  destruct (yields_apart _ _ _ (deepMergeRef_yields fuel base override b o h Hwb Hwo Hb Ho Hhb Hho)) as (x & h1 & Hx & Hold & Hnew).
  apply map_result in Hx as (result & Hrun & ->). exists result, h1. split_and!; [done|by apply Hnew| |done].
  intros h2 Hs. split; by eapply Hold.
Qed.

(** [AerospikeConfigSpec.DeepCopy]: the same of a single configuration; a nil map stays nil. *)
Theorem configDeepCopy_independent fuel value t h :
  config_wf t -> spells anywhere h (RMap value) (AMap t) -> (height (AMap t) < fuel)%nat ->
  exists copy h1, configDeepCopy fuel value h = Some (copy, h1) /\
    (value = None -> copy = None) /\
    (forall h2, (forall l, is_Some (h !! l) -> h2 !! l = h1 !! l) -> spells anywhere h2 (RMap value) (AMap t)) /\
    (forall h2, (forall l, h !! l = None -> h2 !! l = h1 !! l) -> spells anywhere h2 (RMap copy) (AMap t)).
Proof.
  intros Hwf Hsp Hh. destruct (yields_apart _ _ _ (deepCopyRef_yields true fuel (RMap value) (AMap t) h Hwf Hsp Hh)) as (x & h1 & Hx & Hold & Hnew).
  destruct (spells_mapOf _ _ _ _ (Hnew h1 ltac:(done))) as (copy & -> & _). exists copy, h1. split_and!; [|..|done].
  - unfold configDeepCopy. by rewrite (bind_run _ _ _ _ _ Hx).
  - intros ->. destruct fuel; [done|]. by injection Hx.
  - intros h2 Hs. by eapply Hold.
Qed.

(** [deepMergeMapBaseFirst] changes neither argument, but what it returns lies in their cells as
    well as in new ones. *)
Theorem deepMergeMapBaseFirst_reads_only fuel P base override b o h :
  config_wf b -> config_wf o -> spells P h (RMap base) (AMap b) -> spells P h (RMap override) (AMap o) ->
  (height (AMap b) < fuel)%nat -> (height (AMap o) < fuel)%nat ->
  exists result h1, mergeBaseFirstRef fuel base override h = Some (result, h1) /\ h ⊆ h1 /\
    spells (fun l => P l \/ h !! l = None) h1 (RMap result) (AMap (deepMergeMapBaseFirst b o)).
Proof.
  intros Hwb Hwo Hb Ho Hhb Hho.
  destruct (mergeBaseFirstRef_yields fuel P base override b o h Hwb Hwo Hb Ho Hhb Hho) as (x & h1 & Hx & Hs & Hsp).
  apply map_result in Hx as (result & Hrun & ->). exists result, h1. by rewrite baseFirst_DeepMerge.
Qed.

(** ** Instances *)

(** Two namespaces (at 1 and 2) and the defaults of a template (at 3), with a section at 4. *)
Definition sample_store : store :=
  <[1%positive := CMap [("name", RScalar (AString "a"))]]>
  (<[2%positive := CMap [("name", RScalar (AString "b"))]]>
  (<[3%positive := CMap [("storage-engine", RMap (Some 4%positive))]]>
  (<[4%positive := CMap [("type", RScalar (AString "memory"))]]> ∅))).

Definition defaults : gomap any := [("storage-engine", AMap [("type", AString "memory")])].

Lemma sample_spells :
  spells anywhere sample_store (RMap (Some 3%positive)) (AMap defaults) /\
  spells anywhere sample_store (RMap (Some 1%positive)) (AMap [("name", AString "a")]).
Proof.
  split; apply spells_map; right.
  - exists 3%positive. eexists. split_and!; [done..|]. constructor; [|constructor]. split; [done|].
    apply spells_map. right. exists 4%positive. eexists. split_and!; [done..|]. by repeat constructor.
  - exists 1%positive. eexists. split_and!; [done..|]. by repeat constructor.
Qed.

Lemma DeepMerge_shares_nothing_witness :
  exists result h1, deepMergeRef 3 (Some 3%positive) (Some 1%positive) sample_store = Some (result, h1) /\
    spells anywhere h1 (RMap result) (AMap [("storage-engine", AMap [("type", AString "memory")]); ("name", AString "a")]).
Proof.
  destruct (DeepMerge_shares_nothing 3 (Some 3%positive) (Some 1%positive) defaults [("name", AString "a")] sample_store)
    as (result & h1 & Hrun & Hsp & _); [repeat constructor; set_solver|repeat constructor; set_solver|apply sample_spells|apply sample_spells|simpl; lia|simpl; lia|].
  exists result, h1. by split.
Defined.

(** The namespaces of a cluster share the sections they take from the template: a write to that of
    the first shows in the second and in the template.  (No code after the merge writes to one.) *)
Example defaults_shared_by_namespaces :
  let run := x ← mergeBaseFirstRef 3 (Some 3%positive) (Some 1%positive);
             y ← mergeBaseFirstRef 3 (Some 3%positive) (Some 2%positive);
             m ← entries x;
             _ ← (match map_get "storage-engine" m with Some (RMap (Some l)) => mapSet l "type" (RScalar (AString "device")) | _ => outOfFuel end);
             n ← entries y;
             (match map_get "storage-engine" n with Some (RMap p) => entries p | _ => outOfFuel end) in
  fst <$> run sample_store = Some [("type", RScalar (AString "device"))] /\
  (fun '(_, h) => mapOf h (Some 4%positive)) <$> run sample_store = Some [("type", RScalar (AString "device"))].
Proof. split; by vm_compute. Qed.

(** The same with [DeepMerge]: the second namespace keeps its own. *)
Example deep_merge_keeps_apart :
  let run := x ← deepMergeRef 3 (Some 3%positive) (Some 1%positive);
             y ← deepMergeRef 3 (Some 3%positive) (Some 2%positive);
             m ← entries x;
             _ ← (match map_get "storage-engine" m with Some (RMap (Some l)) => mapSet l "type" (RScalar (AString "device")) | _ => outOfFuel end);
             n ← entries y;
             (match map_get "storage-engine" n with Some (RMap p) => entries p | _ => outOfFuel end) in
  fst <$> run sample_store = Some [("type", RScalar (AString "memory"))].
Proof. by vm_compute. Qed.
