(* ===== verification/Reconcile.v ===== *)
(** * The reconcile loop

    internal/controller/reconciler.go: [Reconcile] and [reconcileCluster], the
    order in which the parts of a cluster are reconciled, and what happens when
    one fails.  Every sub-reconciler is the definition of its own file; what the loop needs
    of each is that it leaves the stored failure counter alone. *)

From S2P Require Import Prelude GoValue Utils ConfigDiff Api Metrics ConfigGen Events Kube Aero Sizing Readiness Status Breaker Storage DynamicConfig ConfigMaps PDB Ensure Services Monitoring ACL PodTemplate Restart Operations Scaling ConfigRules Webhook Template Steps.

(** The request names the object that [w_cluster] is. *)
Record Request := mkRequest { req_Namespace : string; req_Name : string }.

#[export] Instance Request_eq_dec : EqDecision Request.
Proof. solve_decision. Defined.

Section Reconcile.
Context `{Environment}.

(** The failure counter in the API server and in memory. *)
Definition counted (n : Z) (w : World) : Prop := srv (count_is n) w /\ failCount (w_mem w) = n.

(** What the API server stores and the administration client are parameters. *)
Context `{!ServiceAPI} `{!JSONStore} `{!AdminClient}.

(** A failed step is counted under a reason. *)
Definition countError (reason : string) : M () := cluster ← mem; incCounterWith ReconcileErrorsTotal cluster reason.
Definition reporting {A} (reason : string) : M A -> M A := onError (countError reason).

(** ** The cluster *)

(** [rackInfo] together with its rack. *)
Record rackInfo := mkRackInfo {
  ri_rack : Rack;
  ri_effectiveConfig : option (gomap any);
  ri_hash : string;
  ri_rackSize : Z
}.

Definition rackInfos (cluster : AerospikeCluster) : list rackInfo :=
  let racks := getRacks cluster in
  zip_with (fun rack size => let ec := getEffectiveConfig cluster rack in mkRackInfo rack ec (configHash ec) size)
    racks (rackSizes cluster racks).

(** [reconcileRacks]: whether some scale-down was deferred. *)
Definition reconcileRack (deferred : bool) (ri : rackInfo) : M bool :=
  cluster ← mem;
  _ ← reporting ReasonConfigMap (reconcileConfigMap cluster (ri_rack ri) (ri_effectiveConfig ri));
  d ← reporting ReasonStatefulSet (reconcileStatefulSet (ri_rack ri) (ri_hash ri) (ri_rackSize ri));
  mret (deferred || d).

Definition reconcileRacks (infos : list rackInfo) : M bool := foldM reconcileRack false infos.

(** [buildValidConfigHashes]. *)
Definition buildValidConfigHashes (infos : list rackInfo) : gset string := list_to_set (ri_hash <$> infos).

(** [terminalPhaseForACL]. *)
Definition terminalPhaseForACL (aclErr : option goerr) : AerospikePhase * string :=
  match aclErr with
  | Some e => (PhaseACLSync, "ACL synchronization failed; will retry: " +:+ err_msg e)
  | None => (PhaseCompleted, "Cluster is healthy and stable")
  end.

(** [finalizeReconcile]. *)
Definition finalizeReconcile (aclErr : option goerr) (aclSynced : bool) (hashes : gset string) : M Result :=
  let '(phase, phaseReason) := terminalPhaseForACL aclErr in
  r ← try (updateStatusAndPhase phase phaseReason (mkOpts aclErr aclSynced false false (Some hashes)));
  match r with
  | inl e => if IsConflict e then mret requeue else _ ← countError ReasonStatus; raise e
  | inr _ =>
      match aclErr with
      | Some _ => mret (requeueAfter aclRetryInterval)
      | None =>
          latest ← try refetchCluster;
          match latest with
          | inr latest =>
              if st_Size (cl_Status latest) <? spec_Size (cl_Spec latest)
              then mret (requeueAfter podReadyPollInterval) else mret finished
          | inl _ => mret finished
          end
      end
  end.

(** The loop over the racks: the first one that restarts pods ends the pass. *)
Fixpoint rollingRestarts (racks : list Rack) : M bool :=
  match racks with
  | [] => mret false
  | rack :: racks =>
      restarted ← reporting ReasonRestart (reconcileRollingRestart rack);
      if (restarted : bool) then
        _ ← setPhaseTolerant PhaseRollingRestart
              ("Rolling restart in progress for rack " +:+ pretty (rack_ID rack));
        mret true
      else rollingRestarts racks
  end.

(** Access control: a failure is kept for the status. *)
Definition syncACL : M (option goerr * bool) :=
  cluster ← mem;
  _ ← (match spec_AerospikeAccessControl (cl_Spec cluster) with
       | Some _ => setPhaseTolerant PhaseACLSync "Synchronizing ACL roles and users"
       | None => mret ()
       end);
  r ← try (reconcileACL cluster);
  match r with
  | inl e => _ ← record true EventACLSyncError; _ ← countError ReasonACL; mret (Some e, false)
  | inr synced => mret (None, synced)
  end.

(** The phase shown while racks change size. *)
Definition showScaling (up down : bool) : M () :=
  if up then setPhaseTolerant PhaseScalingUp "Scaling up cluster"
  else if down then setPhaseTolerant PhaseScalingDown "Scaling down cluster"
  else mret ().

(** [reconcileCluster]. *)
Definition reconcileCluster : M Result :=
  cluster ← mem;
  let infos := rackInfos cluster in
  let racks := getRacks cluster in
  '(up, down) ← detectScaling cluster ((fun ri => (ri_rack ri, ri_rackSize ri)) <$> infos);
  _ ← showScaling up down;
  deferred ← reconcileRacks infos;
  if (deferred : bool) then mret (requeueAfter migrationRequeueInterval)
  else
    teardown ← reporting ReasonStatefulSet (cleanupRemovedRacks racks);
    if (teardown : bool) then mret (requeueAfter migrationRequeueInterval)
    else
      cluster ← mem;
      _ ← reporting ReasonPDB (reconcilePDB cluster);
      _ ← reporting ReasonMonitoring (reconcileMonitoring cluster);
      _ ← reporting ReasonNetPolicy (reconcileNetworkPolicy cluster);
      inProgress ← reporting ReasonOperations (reconcileOperations cluster);
      if (inProgress : bool) then mret (requeueAfter defaultReconcileRetryInterval)
      else
        cluster ← mem;
        _ ← ignore (syncAllPodsReadinessGates cluster);
        restarted ← rollingRestarts racks;
        if (restarted : bool) then mret (requeueAfter restartRequeueInterval)
        else
          '(aclErr, aclSynced) ← syncACL;
          finalizeReconcile aclErr aclSynced (buildValidConfigHashes infos).

(** ** One reconcile *)

(** A step whose error is counted. *)
Definition counting {A} (m : M A) (k : A -> M Result) : M Result :=
  r ← try m;
  match r with inl e => handleReconcileError e | inr a => k a end.

(** A step on the cluster in memory. *)
Definition onCluster (f : AerospikeCluster -> M ()) : M () := cluster ← mem; f cluster.

(** The steps after the gates of [Reconcile]. *)
Definition reconcileAll : M Result :=
  counting (onError (_ ← record true EventReconcileError; countError ReasonService) (onCluster reconcileHeadlessService)) (fun _ =>
  counting (reporting ReasonService (onCluster reconcilePodServices)) (fun _ =>
  counting (onCluster reconcilePodServiceRBAC) (fun _ =>
  counting (reporting ReasonService (onCluster reconcileSeedsFinderService)) (fun _ =>
  counting reconcileCluster (fun result =>
    cluster ← mem;
    _ ← (if 0 <? failCount cluster then ignore resetFailedReconcileCount else mret ());
    mret result))))).

(** InProgress is shown when the spec is newer than the status. *)
Definition startReconcile : M Result :=
  cluster ← mem;
  if decide (st_ObservedGeneration (cl_Status cluster) = cl_Generation cluster /\
             st_Phase (cl_Status cluster) <> PhaseUnset)
  then reconcileAll
  else
    r ← try (setPhase PhaseInProgress "Reconciliation started");
    match r with
    | inl e => if IsConflict e then mret requeue else handleReconcileError e
    | inr _ => reconcileAll
    end.

Definition resolveAndStart : M Result :=
  cluster ← mem;
  match spec_TemplateRef (cl_Spec cluster) with
  | None => startReconcile
  | Some _ =>
      counting resolveTemplate (fun r =>
        match r with Some result => mret result | None => startReconcile end)
  end.

(** The circuit breaker and the hold after a failed rollback. *)
Definition gatedReconcile : M Result :=
  cluster ← mem;
  if maxFailedReconciles <=? failCount cluster then handleCircuitBreakerBackoff
  else
    _ ← setGauge CircuitBreakerActive cluster 0;
    if decide (st_Phase (cl_Status cluster) = PhaseConfigDegraded) then
      _ ← record true EventConfigDegradedSkip; mret (requeueAfter (60 * second))
    else resolveAndStart.

Definition isPaused (cluster : AerospikeCluster) : bool := bool_decide (spec_Paused (cl_Spec cluster) = Some true).

Definition addFinalizer (cluster : AerospikeCluster) : M Result :=
  let cluster := cluster <| cl_Finalizers ::= fun l => l ++ [StorageFinalizer] |> in
  _ ← modify_mem (fun _ => cluster);
  r ← try (updateCluster cluster);
  match r with
  | inl e => if IsConflict e then mret requeue else raise e
  | inr _ => mret requeue
  end.

(** The series of a cluster that was deleted go away with it. *)
Definition deleteAndForget : M Result :=
  result ← handleDeletion;
  cluster ← mem;
  _ ← metric (CleanupClusterMetrics (cl_Namespace cluster) (cl_Name cluster));
  mret result.

(** [Reconcile] once the object has been read. *)
Definition reconcileFetched (cluster : AerospikeCluster) : M Result :=
  if decide (is_Some (cl_DeletionTimestamp cluster)) then deleteAndForget
  else if decide (StorageFinalizer ∉ cl_Finalizers cluster) then addFinalizer cluster
  else if isPaused cluster then _ ← HandlePause; mret finished
  else if decide (st_Phase (cl_Status cluster) = PhasePaused) then
    r ← try HandleResume;
    match r with inl _ => mret requeue | inr _ => gatedReconcile end
  else gatedReconcile.

(** The deferred observation of the duration, whatever the outcome. *)
Definition timed {A} (start : Z) (m : M A) : M A :=
  r ← try m;
  cluster ← mem;
  t ← now;
  _ ← observe ReconcileDuration cluster (t - start);
  lift r.

(** [Reconcile]. *)
Definition Reconcile (req : Request) : M Result :=
  start ← now;
  got ← try refetchCluster;
  match got with
  | inl e =>
      if IsNotFound e then _ ← metric (CleanupClusterMetrics (req_Namespace req) (req_Name req)); mret finished
      else raise e
  | inr cluster => _ ← modify_mem (fun _ => cluster); timed start (reconcileFetched cluster)
  end.

Lemma keeps_countError R `{!Frame R} reason : reason ∈ labelValues ReconcileErrorsTotal -> keeps R (countError reason).
Proof. intros Hr. unfold countError. frame. Qed.

#[local] Hint Resolve keeps_countError : frame.

Lemma gauge_bind {A} m c v (k : () -> M A) w :
  (setGauge m c v ≫= k) w = k () (w <| w_metrics ::= gaugeSet m [cl_Namespace c; cl_Name c] v |>).
Proof. done. Qed.

(** Timing a computation changes the metrics only. *)
Lemma timed_run {A} start (m : M A) w :
  exists ms, timed start m w = (fst (m w), (snd (m w)) <| w_metrics := ms |>).
Proof. unfold timed, mbind, M_bind, try. destruct (m w) as [r w1]. by eexists. Qed.

(** ** The whole cluster

    A relation kept by the sub-reconcilers is kept by their composition. *)

Section Traversal.
Context (R : relation World) `{!Steps R}.

Lemma sub_rollingRestarts racks : keeps R (rollingRestarts racks).
Proof.
  pose proof (sub_reconcileRollingRestart R). pose proof (sub_setPhaseTolerant R).
  induction racks as [|rack racks IH]; cbn [rollingRestarts]; unfold reporting; frame.
Qed.

Lemma sub_onCluster f : (forall c, keeps R (f c)) -> keeps R (onCluster f).
Proof. intros Hf. unfold onCluster. frame. Qed.

Lemma sub_reconcileCluster : keeps R reconcileCluster.
Proof.
  pose proof (sub_detectScaling R). pose proof (sub_setPhaseTolerant R).
  pose proof (sub_reconcileStatefulSet R). pose proof (sub_reconcileConfigMap R).
  pose proof (sub_cleanupRemovedRacks R). pose proof (sub_reconcilePDB R).
  pose proof (sub_reconcileMonitoring R). pose proof (sub_reconcileNetworkPolicy R).
  pose proof (sub_reconcileOperations R). pose proof (sub_syncGates R).
  pose proof sub_rollingRestarts. pose proof (sub_reconcileACL R).
  pose proof (steps_updateStatusAndPhase (R := R)).
  unfold reconcileCluster, showScaling, reconcileRacks, reconcileRack, syncACL, finalizeReconcile, terminalPhaseForACL, reporting.
  frame.
Qed.

End Traversal.

(** ** The counter is kept *)

#[local] Instance counted_frame n : Frame (pres (counted n)).
Proof. split; [apply _|intros w ? _ Hw; exact Hw|intros w ? Hw; exact Hw..|intros w ? _ Hw; exact Hw]. Qed.
#[local] Instance counted_frameinfo n : FrameInfo (pres (counted n)).
Proof. split; [apply _|]; intros w ? ? ? Hw; exact Hw. Qed.
#[local] Instance counted_frameio n : FrameIO (pres (counted n)).
Proof. split; [apply _|]; intros w ? ? ? Hw; exact Hw. Qed.

Lemma counted_of n {A} (m : M A) :
  keeps (pres (srv (count_is n))) m -> keeps (agree (fun w => failCount (w_mem w))) m -> keeps (pres (counted n)) m.
Proof. intros Hs Hm w [Hw Hn]. split; [by apply Hs|]. rewrite <- Hn. exact (Hm w). Qed.

Lemma memcount_modify (f : AerospikeCluster -> AerospikeCluster) :
  (forall c, failCount (f c) = failCount c) -> keeps (agree (fun w => failCount (w_mem w))) (modify_mem f).
Proof. intros Hf. apply keeps_modify. intros w. exact (Hf (w_mem w)). Qed.

Lemma counted_setPhase n phase reason : keeps (pres (counted n)) (setPhase phase reason).
Proof.
  apply counted_of; [apply keeps_count_setPhase|]. unfold setPhase.
  apply keeps_bind; [frame|]. intros cluster. apply keeps_bind; [frame|]. intros [rv b]. apply keeps_bind; [frame|]. intros _. by apply memcount_modify.
Qed.

Lemma counted_setPhaseTolerant n phase reason : keeps (pres (counted n)) (setPhaseTolerant phase reason).
Proof. pose proof (counted_setPhase n). unfold setPhaseTolerant. frame. Qed.

(** A write whose answer carries the counter, followed by the template. *)
Lemma counted_applyToMemory n t : keeps (pres (counted n)) (applyToMemory t).
Proof.
  unfold applyToMemory. apply keeps_bind; [frame|]. intros cluster. destruct (ApplyTemplate _ _ _) as [err spec].
  apply keeps_bind; [|intros _; destruct err; frame]. apply keeps_modify. by intros w [Hs Hm].
Qed.

Lemma counted_writeThenReapply n (write : M AerospikeCluster) :
  inv (counted n) write (fun stored => failCount stored = n) -> keeps (pres (counted n)) (writeThenReapply write).
Proof.
  intros Hw w Hc. unfold writeThenReapply. apply bind_try_cases. intros r w1 Hr. destruct (Hw w Hc) as [Hc1 Hp]. rewrite Hr in Hc1, Hp. simpl in *.
  destruct r as [e|stored]; [by destruct (IsConflict e)|]. specialize (Hp stored eq_refl).
  assert (keeps (pres (counted n)) (_ ← modify_mem (fun _ => stored); _ ← applyToMemory (effectiveTemplate stored); mret None : M (option Result)))
    as Hk; [|by apply Hk].
  apply keeps_bind; [|intros _; pose proof (counted_applyToMemory n); frame].
  apply keeps_modify. by intros w2 [Hs Hm].
Qed.

Lemma inv_updateStatus_counted n c : failCount c = n -> inv (counted n) (updateStatus c) (fun stored => failCount stored = n).
Proof.
  intros Hc w [Hs Hm]. destruct (updateStatus c w) as [[e|stored] w1] eqn:Hu; simpl.
  - split; [|done]. assert (keeps (agree w_mem) (updateStatus c)) as Hk by frame.
    pose proof (keeps_run _ _ _ _ _ Hk Hu) as Hm1. apply updateStatus_error in Hu.
    unfold counted, srv. rewrite Hu. split; [exact Hs|]. by rewrite Hm1.
  - apply updateStatus_ok in Hu as (cur & Hcur & Hst & Hm1 & ->). split; [|by intros ? [= <-]].
    split; [|by rewrite Hm1]. intros c1. rewrite Hst. by intros [= <-].
Qed.

Lemma inv_patchAnnotation_counted n key : inv (counted n) (patchAnnotation key) (fun stored => failCount stored = n).
Proof.
  intros w Hw. split.
  - apply counted_of; [|unfold patchAnnotation; frame|done]. unfold patchAnnotation. apply keeps_bind; [frame|intros _].
    intros w1 Hs. unfold mbind, M_bind, gets. simpl. destruct (w_cluster w1) as [cur|] eqn:Hc; [|done]. simpl.
    intros c' [= <-]. exact (Hs cur Hc).
  - intros stored Hr. destruct (patchAnnotation key w) as [r w1] eqn:Hp. simpl in Hr. subst r.
    apply patchAnnotation_ok in Hp as (cur & Hcur & _ & ->). exact (proj1 Hw cur Hcur).
Qed.

Lemma counted_Resolve n : keeps (pres (counted n)) Resolve.
Proof.
  pose proof (counted_applyToMemory n).
  assert (keeps (pres (counted n)) FetchAndSnapshot) as Hf.
  { unfold FetchAndSnapshot. repeat (frame || (apply keeps_modify; by intros w [Hs Hm])). }
  unfold Resolve, localPVWarnings, ValidateLocalPV. frame.
Qed.

Lemma counted_resolveTemplate n : keeps (pres (counted n)) resolveTemplate.
Proof.
  assert (keeps (pres (counted n)) persistSnapshot) as Hp.
  { intros w Hw. unfold persistSnapshot. change (mem ≫= ?f) with (fun w => f (w_mem w) w). cbv beta.
    apply counted_writeThenReapply; [apply inv_updateStatus_counted, Hw|done]. }
  assert (keeps (pres (counted n)) cleanupAnnotation) as Hc.
  { unfold cleanupAnnotation. apply keeps_bind; [apply keeps_modify; by intros w [Hs Hm]|intros _].
    apply counted_writeThenReapply, inv_patchAnnotation_counted. }
  pose proof (counted_Resolve n). unfold resolveTemplate, announceTemplate. frame.
Qed.

Lemma counted_patchStatus n f :
  (forall s, st_FailedReconcileCount (f s) = st_FailedReconcileCount s) -> keeps (pres (counted n)) (patchStatus f).
Proof.
  intros Hf. apply counted_of; [|frame]. apply keeps_patchStatus. intros s Hs. unfold count_is in *. by rewrite Hf.
Qed.

Lemma mem_updateStatusAndPhase phase reason o :
  keeps (agree (fun w => failCount (w_mem w))) (updateStatusAndPhase phase reason o).
Proof.
  pose proof (keeps_populateStatus (agree (fun w => failCount (w_mem w)))).
  pose proof (keeps_completeStatus (agree (fun w => failCount (w_mem w)))).
  pose proof (keeps_publishStatus (agree (fun w => failCount (w_mem w)))).
  assert (forall again gen c, keeps (agree (fun w => failCount (w_mem w))) (statusWrite again phase reason o gen c)).
  { induction again as [|again IH]; intros gen c; cbn [statusWrite]; unfold statusWriteAttempt; frame. }
  unfold updateStatusAndPhase. frame.
Qed.

Lemma counted_updateStatusAndPhase n phase reason o : keeps (pres (counted n)) (updateStatusAndPhase phase reason o).
Proof. apply counted_of; [apply keeps_count_updateStatusAndPhase|apply mem_updateStatusAndPhase]. Qed.

#[local] Instance counted_steps n : Steps (pres (counted n)).
Proof.
  split; [apply _| |apply counted_setPhase|apply counted_patchStatus|apply counted_updateStatusAndPhase].
  intros w w' Hc _ Hm [Hs Hn]. split; [unfold srv; by rewrite Hc|]. by rewrite <- Hn.
Qed.

(** ** The counter stays between zero and the threshold *)

Definition countBounded (w : World) : Prop :=
  srv (fun s => 0 <= st_FailedReconcileCount s <= maxFailedReconciles) w.

Lemma counted_bounded n w : 0 <= n <= maxFailedReconciles -> counted n w -> countBounded w.
Proof. intros Hn [Hs _] c Hc. specialize (Hs c Hc). unfold count_is in Hs. lia. Qed.

Lemma handleReconcileError_bounded n e w :
  0 <= n < maxFailedReconciles -> counted n w -> countBounded (snd (handleReconcileError e w)).
Proof.
  intros Hn [Hs _]. pose proof (handleReconcileError_cases e w) as Hcase.
  destruct (handleReconcileError e w) as [r w']. simpl.
  destruct Hcase as [[_ Hc]|(c & res & Hc & _ & (stored & Hst & Hcount & _))].
  - intros c Hc'. rewrite Hc in Hc'. specialize (Hs c Hc'). unfold count_is in Hs. lia.
  - intros c' Hc'. rewrite Hst in Hc'. injection Hc' as <-. unfold failCount in Hcount. rewrite Hcount.
    unfold newFailCount. specialize (Hs c Hc). unfold count_is in Hs. unfold maxFailedReconciles in *.
    destruct (IsValidation e); [lia|]. unfold failCount. rewrite Hs. rewrite i32_small; [lia|]. unfold in_i32. lia.
Qed.

Lemma counting_bounded {A} n (m : M A) (k : A -> M Result) w :
  0 <= n < maxFailedReconciles -> keeps (pres (counted n)) m ->
  (forall a w1, counted n w1 -> countBounded (snd (k a w1))) ->
  counted n w -> countBounded (snd (counting m k w)).
Proof.
  intros Hn Hm Hk Hw. unfold counting. apply bind_try_cases. intros r w1 Hrun.
  assert (counted n w1) as Hw1 by (by eapply (keeps_run _ _ _ _ _ Hm Hrun)).
  destruct r as [e|a]; [by eapply handleReconcileError_bounded|by apply Hk].
Qed.

Lemma reset_bounded n w :
  0 <= n < maxFailedReconciles -> counted n w -> countBounded (snd (ignore resetFailedReconcileCount w)).
Proof.
  intros Hn Hw. rewrite ignore_ok. cbn [snd]. pose proof (resetFailedReconcileCount_cases w) as Hc.
  destruct (resetFailedReconcileCount w) as [[e|[]] w1]; simpl in *.
  - intros c' Hc'. rewrite Hc in Hc'. destruct Hw as [Hs _]. specialize (Hs c' Hc'). unfold count_is in Hs. lia.
  - destruct Hc as (c & c' & _ & Hst & Hz & _). intros c1 Hc1. rewrite Hst in Hc1. injection Hc1 as <-.
    unfold failCount in Hz. rewrite Hz. unfold maxFailedReconciles. lia.
Qed.

Lemma reconcileAll_bounded n w :
  0 <= n < maxFailedReconciles -> counted n w -> countBounded (snd (reconcileAll w)).
Proof.
  intros Hn. unfold reconcileAll.
  apply counting_bounded; [done|apply keeps_onError; [frame|apply sub_onCluster, sub_reconcileHeadlessService; apply _]|intros _ w1].
  apply counting_bounded; [done|apply keeps_onError; [frame|apply sub_onCluster, sub_reconcilePodServices; apply _]|intros _ w2].
  apply counting_bounded; [done|apply sub_onCluster, sub_reconcilePodServiceRBAC; apply _|intros _ w3].
  apply counting_bounded; [done|apply keeps_onError; [frame|apply sub_onCluster, sub_reconcileSeedsFinderService; apply _]|intros _ w4].
  apply counting_bounded; [done|apply sub_reconcileCluster, _|intros result w5 Hw5].
  change (mem ≫= ?f) with (fun w => f (w_mem w) w). cbv beta.
  destruct (0 <? failCount (w_mem w5)).
  - apply bind_cases; intros ? w6 Hr; pose proof (reset_bounded n w5 Hn Hw5) as Hb; by rewrite Hr in Hb.
  - eapply counted_bounded; [|exact Hw5]. lia.
Qed.

Lemma startReconcile_bounded n w :
  0 <= n < maxFailedReconciles -> counted n w -> countBounded (snd (startReconcile w)).
Proof.
  intros Hn Hw. unfold startReconcile. change (mem ≫= ?f) with (fun w => f (w_mem w) w). cbv beta.
  case_decide; [by eapply reconcileAll_bounded|]. apply bind_try_cases. intros r w1 Hr.
  assert (counted n w1) as Hw1 by (eapply (keeps_run _ _ _ _ _ (counted_setPhase n _ _) Hr); exact Hw).
  destruct r as [e|[]]; [|by eapply reconcileAll_bounded].
  destruct (IsConflict e); [eapply counted_bounded; [|exact Hw1]; lia|by eapply handleReconcileError_bounded].
Qed.

Lemma gatedReconcile_bounded n w :
  0 <= n <= maxFailedReconciles -> counted n w -> countBounded (snd (gatedReconcile w)).
Proof.
  intros Hn Hw. unfold gatedReconcile. change (mem ≫= ?f) with (fun w => f (w_mem w) w). cbv beta.
  destruct (Z.leb_spec maxFailedReconciles (failCount (w_mem w))) as [Hge|Hlt].
  - destruct Hw as [Hs Hm]. intros c Hc. pose proof (keeps_count_backoff n w Hs c Hc) as Hcc. unfold count_is in Hcc. lia.
  - destruct Hw as [Hs Hm]. rewrite Hm in Hlt. assert (0 <= n < maxFailedReconciles) as Hn' by lia.
    rewrite gauge_bind. set (w' := w <| w_metrics ::= _ |>). assert (counted n w') as Hw by done.
    case_decide; [by eapply counted_bounded|]. unfold resolveAndStart.
    change (mem ≫= ?f) with (fun w => f (w_mem w) w). cbv beta.
    destruct (spec_TemplateRef _); [|by eapply startReconcile_bounded].
    eapply counting_bounded; [done|apply counted_resolveTemplate| |done].
    intros [res|] w1 Hw1; [by eapply counted_bounded|by eapply startReconcile_bounded].
Qed.

Lemma counted_updateCluster n c : keeps (pres (counted n)) (updateCluster c).
Proof. apply counted_of; [apply keeps_updateCluster|frame]. Qed.

Lemma counted_handleDeletion n : keeps (pres (counted n)) handleDeletion.
Proof.
  pose proof (counted_setPhaseTolerant n). pose proof (counted_updateCluster n).
  unfold handleDeletion, listClusterStatefulSets, deleteClusterClaims, DeleteCascadeDeletePVCs, GetPVCsForStatefulSet,
    deleteClaim. frame.
Qed.

Lemma counted_deleteAndForget n : keeps (pres (counted n)) deleteAndForget.
Proof. pose proof (counted_handleDeletion n). unfold deleteAndForget. frame. Qed.

Lemma counted_addFinalizer n c :
  failCount c = n -> keeps (pres (counted n)) (addFinalizer c).
Proof.
  intros Hc. pose proof (counted_updateCluster n). unfold addFinalizer. cbv zeta. apply keeps_bind; [|intros _; frame].
  apply keeps_modify. intros w [Hs _]. split; [exact Hs|exact Hc].
Qed.

Lemma counted_HandlePause n : keeps (pres (counted n)) HandlePause.
Proof.
  apply counted_of; [apply keeps_count_HandlePause|]. unfold HandlePause.
  repeat (apply keeps_bind; [solve [frame]|intros ?]). by apply memcount_modify.
Qed.

(** C6: the stored failure counter stays between 0 and the circuit-breaker threshold
    across a whole reconcile, whatever fails in it *)
Theorem failure_count_bounded req w : countBounded w -> countBounded (snd (Reconcile req w)).
Proof.
  intros Hw. unfold Reconcile. change (now ≫= ?f) with (fun w => f (w_now w) w). cbv beta.
  apply bind_try_cases. intros got w1 Hf.
  assert (countBounded w1) as Hw1 by (eapply (keeps_run (pres (srv _))); [|exact Hf|exact Hw]; frame).
  destruct got as [e|c]; [by destruct (IsNotFound e)|].
  apply refetchCluster_ok in Hf as (_ & Hc & _). set (n := failCount c).
  assert (0 <= n <= maxFailedReconciles) as Hn by exact (Hw1 c Hc).
  unfold modify_mem. change (modify ?f ≫= ?k) with (fun w => k () (f w)). cbv beta. set (w2 := w1 <| w_mem ::= _ |>).
  assert (counted n w2) as Hw2 by (split; [|done]; intros c' Hc'; simpl in Hc'; by rewrite Hc in Hc'; injection Hc' as <-).
  destruct (timed_run (w_now w) (reconcileFetched c) w2) as (ms & ->).
  change (countBounded (snd (reconcileFetched c w2))). unfold reconcileFetched.
  case_decide; [eapply counted_bounded; [exact Hn|by apply counted_deleteAndForget]|].
  case_decide; [eapply counted_bounded; [exact Hn|by apply counted_addFinalizer]|].
  destruct (isPaused c).
  { apply bind_cases; intros ? w3 Hp; eapply counted_bounded; [exact Hn| |exact Hn|];
      exact (keeps_run _ _ _ _ _ (counted_HandlePause n) Hp Hw2). }
  case_decide as Hph; [|by eapply gatedReconcile_bounded].
  apply bind_try_cases. intros r w3 Hr. apply HandleResume_run in Hr. destruct r as [e|[]].
  - intros c' Hc'. simpl in Hc'. rewrite Hr in Hc'. by apply Hw1.
  - destruct Hr as (c0 & t & stored & Hc0 & Hst & Hs & Hm). simpl in Hc0. rewrite Hc in Hc0. injection Hc0 as <-.
    apply (gatedReconcile_bounded 0); [unfold maxFailedReconciles; lia|]. split; [|done].
    intros c' Hc'. rewrite Hst in Hc'. injection Hc' as <-. unfold count_is. by rewrite Hs, resumed_paused.
Qed.

(** ** States in which nothing happens *)

(** A property of the stored object. *)
Definition stored (P : AerospikeCluster -> Prop) (w : World) : Prop := forall c, w_cluster w = Some c -> P c.

#[local] Instance stored_frame P : Frame (pres (stored P)).
Proof. split; [apply _|intros w ? _ Hw; exact Hw|intros w ? Hw; exact Hw..|intros w ? _ Hw; exact Hw]. Qed.

Lemma inv_refetch_stored P : inv (stored P) refetchCluster P.
Proof.
  intros w Hw. split; [by apply (keeps_refetchCluster (R := pres (stored P)))|]. intros c Hc.
  destruct (refetchCluster w) as [r w1] eqn:Hf. simpl in Hc. subst r.
  apply refetchCluster_ok in Hf as (Hc & _ & _). by apply Hw.
Qed.

Lemma keeps_updateStatus_stored P c :
  (forall cur rv, P cur -> P (cur <| cl_Status := cl_Status c |> <| cl_ResourceVersion := rv |>)) ->
  keeps (pres (stored P)) (updateStatus c).
Proof.
  intros HP w Hw. destruct (updateStatus c w) as [[e|s] w1] eqn:Hu; simpl; intros c1 Hc1.
  - apply updateStatus_error in Hu. rewrite Hu in Hc1. by apply Hw.
  - apply updateStatus_ok in Hu as (cur & Hcur & Hst & _ & ->). rewrite Hst in Hc1. injection Hc1 as <-.
    by apply HP, Hw.
Qed.

Lemma stored_setPhase P phase reason :
  (forall cur latest pending rv, P cur -> P latest ->
     P (cur <| cl_Status := cl_Status ((withPhase phase reason latest) <$ st_PendingRestartPods := pending $>) |>
            <| cl_ResourceVersion := rv |>)) ->
  keeps (pres (stored P)) (setPhase phase reason).
Proof.
  intros HP. unfold setPhase. apply keeps_bind; [frame|]. intros cluster. cbv zeta.
  apply keeps_bind; [|intros [rv []]; frame; by intros w Hw].
  apply keeps_retry. eapply keeps_inv, (inv_bind _ _ _ P (fun _ => True)); [apply inv_refetch_stored|].
  intros latest Hl. case_decide; [by apply inv_ret|].
  apply inv_seq; [|intros ?; by apply inv_ret]. apply keeps_updateStatus_stored. intros cur rv Hcur. by apply HP.
Qed.

(** A live cluster: not being deleted, with the finalizer, not paused. *)
Definition live (c : AerospikeCluster) : Prop :=
  cl_DeletionTimestamp c = None /\ StorageFinalizer ∈ cl_Finalizers c /\ isPaused c = false.

Lemma does_setPhase (P : action -> Prop) phase reason : P AUpdateStatus -> keeps (does P) (setPhase phase reason).
Proof. intros HP. unfold setPhase. frame. Qed.

(** [Reconcile] on a live cluster that was not paused: the read fails, or the
    gates decide. *)
Definition readFailed (w w' : World) : Prop :=
  (exists e, fst (refetchCluster w) = inl e) /\ w_cluster w' = w_cluster w /\ w_trace w' = w_trace w.

(** Up to the metrics, [Reconcile] is this. *)
Lemma Reconcile_eq req w : exists ms,
  Reconcile req w = match refetchCluster w with
                    | (inl e, w1) => ((if IsNotFound e then inr finished else inl e), w1 <| w_metrics := ms |>)
                    | (inr c, w1) => let '(r, w2) := reconcileFetched c (w1 <| w_mem ::= fun _ => c |>) in
                                     (r, w2 <| w_metrics := ms |>)
                    end.
Proof.
  unfold Reconcile. change (now ≫= ?f) with (fun w => f (w_now w) w). cbv beta. unfold mbind, M_bind at 1, try.
  destruct (refetchCluster w) as [[e|c] w1].
  - destruct (IsNotFound e); [by eexists|]. exists (w_metrics w1). unfold raise. f_equal. by destruct w1.
  - destruct (timed_run (w_now w) (reconcileFetched c) (w1 <| w_mem ::= fun _ => c |>)) as (ms & Ht). exists ms.
    etrans; [exact Ht|]. by destruct (reconcileFetched _ _).
Qed.

Lemma Reconcile_live req c w :
  w_cluster w = Some c -> live c -> st_Phase (cl_Status c) <> PhasePaused ->
  readFailed w (snd (Reconcile req w)) \/
  exists w1, w_cluster w1 = Some c /\ w_mem w1 = c /\ w_trace w1 = w_trace w /\
    exists ms, Reconcile req w = let '(r, w2) := gatedReconcile w1 in (r, w2 <| w_metrics := ms |>).
Proof.
  intros Hc (Hd & Hf & Hp) Hph. unfold readFailed. destruct (Reconcile_eq req w) as (ms & ->).
  pose proof (keeps_refetchCluster (R := agree (fun w => (w_cluster w, w_trace w))) w) as Hk.
  destruct (refetchCluster w) as [[e|c'] w1] eqn:Hr; simpl in Hk; injection Hk as Hk1 Hk2.
  - left. by split; [exists e|].
  - apply refetchCluster_ok in Hr as (Hc' & Hc1 & _). rewrite Hc in Hc'. injection Hc' as <-. right.
    exists (w1 <| w_mem ::= fun _ => c |>). split_and!; [done|done|done|]. exists ms. unfold reconcileFetched.
    rewrite decide_False by (rewrite Hd; by intros [? [=]]). rewrite decide_False by tauto. rewrite Hp.
    by rewrite decide_False.
Qed.

(** The circuit breaker has tripped. *)
Definition tripped (c : AerospikeCluster) : Prop :=
  live c /\ st_Phase (cl_Status c) <> PhasePaused /\ maxFailedReconciles <= failCount c.

Definition statusOnly (a : action) : Prop := a = AUpdateStatus.

Lemma backoff_tripped w :
  stored tripped w -> st_Phase (cl_Status (w_mem w)) <> PhasePaused ->
  stored tripped (snd (handleCircuitBreakerBackoff w)) /\ does statusOnly w (snd (handleCircuitBreakerBackoff w)).
Proof.
  intros Hw Hph. assert (keeps (pres (stored tripped)) handleCircuitBreakerBackoff) as Hk.
  { unfold handleCircuitBreakerBackoff. apply keeps_bind; [frame|]. intros cluster. apply keeps_bind; [frame|].
    intros _. apply keeps_bind; [frame|]. intros _. apply keeps_bind; [|intros _; frame]. case_decide; [frame|]. apply keeps_ignore, stored_setPhase.
    intros cur latest pending rv (Hl & _ & _) (_ & _ & Hn). split; [exact Hl|]. split; [done|exact Hn]. }
  assert (keeps (does statusOnly) handleCircuitBreakerBackoff) as Hd.
  { pose proof (does_setPhase statusOnly). unfold handleCircuitBreakerBackoff. frame. by apply does_setPhase. }
  split; [by apply Hk|apply Hd].
Qed.

(** One reconcile with a tripped breaker. *)
Lemma tripped_step req w : stored tripped w ->
  stored tripped (snd (Reconcile req w)) /\ does statusOnly w (snd (Reconcile req w)).
Proof.
  intros Hw. destruct (w_cluster w) as [c|] eqn:Hc.
  - destruct (Hw c Hc) as (Hl & Hph & Hn).
    destruct (Reconcile_live req c w Hc Hl Hph) as [(_ & Hc' & Ht)|(w1 & Hc1 & Hm1 & Ht1 & ms & ->)].
    { split; [|by exists []; rewrite Ht]. intros c1 Hc1. rewrite Hc' in Hc1. by apply Hw. }
    unfold gatedReconcile. change (mem ≫= ?f) with (fun w => f (w_mem w) w). cbv beta. rewrite Hm1.
    destruct (Z.leb_spec maxFailedReconciles (failCount c)); [|lia].
    destruct (backoff_tripped w1) as [Hs Hd]; [intros c2 Hc2; rewrite Hc1 in Hc2; injection Hc2 as <-; by split|by rewrite Hm1|].
    destruct (handleCircuitBreakerBackoff w1) as [r w2]. split; [exact Hs|]. trans w1; [|exact Hd]. by exists []; rewrite Ht1.
  - destruct (Reconcile_eq req w) as (ms & ->).
    pose proof (keeps_refetchCluster (R := agree (fun w => (w_cluster w, w_trace w))) w) as Hk.
    destruct (refetchCluster w) as [[e|c'] w1] eqn:Hr; simpl in Hk; injection Hk as Hk1 Hk2.
    + split; [intros c1 Hc1; simpl in Hc1; congruence|]. by exists [].
    + apply refetchCluster_ok in Hr as (? & _). congruence.
Qed.

(** What may happen over time: reconciles, edits of the spec that do not pause
    the cluster, and any change of the other objects. *)
Inductive evolves : World -> World -> Prop :=
| ev_reconcile req w : evolves w (snd (Reconcile req w))
| ev_edit w c spec :
    w_cluster w = Some c -> spec_Paused spec <> Some true ->
    evolves w (w <| w_cluster := Some (c <| cl_Spec := spec |> <| cl_Generation ::= Z.add 1 |>
                                         <| cl_ResourceVersion ::= Z.add 1 |>) |>)
| ev_world w w' : w_cluster w' = w_cluster w -> w_trace w' = w_trace w -> evolves w w'.

(** Once the counter has reached the threshold, reconciles and spec edits that
    leave the cluster unpaused keep it there: no reconcile writes anything but the
    status again, so the breaker does not close by itself. *)
Theorem breaker_never_closes w w' :
  stored tripped w -> rtc evolves w w' ->
  stored tripped w' /\ does statusOnly w w'.
Proof.
  intros Hw Hrun. induction Hrun as [w|w w1 w2 Hstep _ IH]; [by split|].
  assert (stored tripped w1 /\ does statusOnly w w1) as [Hw1 Hd1].
  { destruct Hstep as [w|w c spec Hc Hs|w w1 Hc Ht].
    - by apply tripped_step.
    - split; [|by exists []]. intros c1 [= <-]. destruct (Hw c Hc) as ((Hd & Hf & _) & Hph & Hn).
      split; [|by split]. split_and!; [done|done|]. unfold isPaused. by apply bool_decide_false.
    - split; [|exists []; by rewrite Ht]. intros c1 Hc1. rewrite Hc in Hc1. by apply Hw. }
  destruct (IH Hw1) as [Hw2 Hd2]. split; [done|]. by trans w1.
Qed.

(** The read of the cluster that opens the reconcile is answered. *)
Definition readable (w : World) : Prop := forall e fs, w_faults w <> Some e :: fs.

Lemma readable_api w : readable w -> fst (api w) = inr ().
Proof. unfold readable, api. destruct (w_faults w) as [|[e|] fs]; [done| |done]. intros Hr. by destruct (Hr e fs). Qed.

Lemma readable_refetch w c : w_cluster w = Some c -> readable w -> fst (refetchCluster w) = inr c.
Proof.
  intros Hc Hr%readable_api. pose proof (api_agree w_cluster w) as Ha. unfold refetchCluster, mbind, M_bind, gets.
  destruct (api w) as [[e|[]] w1]; [done|]. simpl in *. by rewrite Ha, Hc.
Qed.


End Reconcile.

#[export] Hint Resolve keeps_countError : frame.

(** ** Concrete runs *)

(** A client whose administration calls are refused. *)
#[local] Program Instance no_admin : AdminClient (H := sample_env) := {|
  security_of _ := mkSecurity ∅ ∅;
  admin_roles _ _ := inl (Errorf "security is disabled");
  admin_users _ _ := inl (Errorf "security is disabled");
  admin_do _ _ s := (inl (Errorf "security is disabled"), s)
|}.
Solve All Obligations with naive_solver.

#[local] Existing Instance sample_service_api.
#[local] Existing Instance sample_json_store.

Definition sample_request : Request := mkRequest "default" "demo".

Definition run (w : World (H := sample_env)) : World (H := sample_env) :=
  snd (Reconcile (H := sample_env) sample_request w).

Lemma run_evolves (w : World (H := sample_env)) :
  evolves (H := sample_env) w (run w).
Proof. exact (ev_reconcile (H := sample_env) sample_request w). Qed.

Definition cluster_world (c : AerospikeCluster) : World (H := sample_env) :=
  sample_world c [] [] (mkStub [] [] [] []).

Lemma failure_count_bounded_witness :
  countBounded (H := sample_env) (run (cluster_world (example_cluster 2 None))).
Proof.
  apply (failure_count_bounded (H := sample_env)).
  intros c [= <-]. by vm_compute.
Defined.

Definition tripped_cluster : AerospikeCluster := (example_cluster 2 None) <$ st_FailedReconcileCount := 10 $>.

Lemma tripped_cluster_stored : stored (H := sample_env) tripped (cluster_world tripped_cluster).
Proof.
  intros c [= <-]. split; [|by split]. split_and!; [done| |done]. by apply list_elem_of_singleton.
Qed.

(** Two reconciles in a row. *)
Lemma breaker_never_closes_witness :
  let w := cluster_world tripped_cluster in
  let w' := run (run w) in
  stored (H := sample_env) tripped w' /\ does (H := sample_env) statusOnly w w'.
Proof.
  intros w w'.
  apply (breaker_never_closes (H := sample_env) w w').
  - exact tripped_cluster_stored.
  - exact (rtc_l _ w (run w) w' (run_evolves w) (rtc_once _ _ (run_evolves (run w)))).
Defined.


(** ** Rollback failures and the phase

    After a rollback that failed, [setConfigDegraded] publishes the phase that
    holds further reconciles.  The same pass then restarts the pods, and the
    phase RollingRestart replaces it: the hold never takes effect. *)

Definition idle_stats : string := "migrate_partitions_remaining=0".

Definition rolling_cluster (rack : Rack) (oldConfig newConfig : gomap any) : AerospikeCluster :=
  (example_cluster 2 (Some (mkRackConfig [rack] None None (Some (IntVal 2)) [])))
    <| cl_Spec ::= fun s => s <| spec_EnableDynamicConfigUpdate := Some true |>
                              <| spec_AerospikeConfig := Some newConfig |> |>
    <$ st_AerospikeConfig := Some oldConfig $>.

Definition rolling_world (c : AerospikeCluster) (refused : list string) : World (H := sample_env) :=
  sample_world c [dynamic_pod 1; dynamic_pod 2] [sample_sts "demo-1" 2 "h2"]
    (mkStub [sample_node 1; sample_node 2] [("BB1", idle_stats); ("BB2", idle_stats)] refused []).

(** After a rollback that failed, the same pass replaces the phase ConfigDegraded
    with RollingRestart, so the hold never starts. *)
Theorem degraded_phase_overwritten :
  let c := rolling_cluster (plainRack 1) (sample_config 15000) (sample_config 20000) in
  (** node 1 refuses the new value and node 2, updated before it, refuses to go back *)
  let w := rolling_world c ["BB1/set-config:context=service;proto-fd-max=20000";
                            "BB2/set-config:context=service;proto-fd-max=15000"] in
  let '(r, w') := rollingRestarts (H := sample_env) [plainRack 1] w in
  r = inr true /\ exists c', w_cluster w' = Some c' /\
    c_Status <$> getCondition ConditionDynamicConfigDegraded (st_Conditions (cl_Status c')) = Some ConditionTrue /\
    st_Phase (cl_Status c') = PhaseRollingRestart.
Proof. vm_compute. split; [done|]. by eexists. Qed.

(** ** Racks with their own configuration

    The dynamic update is computed from the cluster-level configurations, so a
    parameter that a rack overrides is set to the cluster's value on the rack's
    pods, which are then stamped as up to date. *)

Definition two_params (limit threads : Z) : gomap any :=
  [("service", AMap [("proto-fd-max", AInt KInt64 limit); ("batch-max-buffers-per-queue", AInt KInt64 threads)])].

Definition serviceParam (key : string) (config : option (gomap any)) : option any :=
  m ← config; service ← map_get "service" m; params ← as_map service; map_get key params.

(** A dynamic update sets a parameter that a rack overrides to the value of the
    cluster on the nodes of the rack and stamps its pods as up to date. *)
Theorem dynamic_update_ignores_rack_override :
  let rack := (plainRack 1) <| rack_AerospikeConfig := Some (sample_config 30000) |> in
  let c := rolling_cluster rack (two_params 15000 100) (two_params 20000 200) in
  let '(r, w') := reconcileRollingRestart (H := sample_env) rack (rolling_world c []) in
  (** the rack keeps its own limit *)
  serviceParam "proto-fd-max" (getEffectiveConfig c rack) = Some (AInt KInt64 30000) /\
  (** its nodes are given the cluster's *)
  r = inr true /\ AInfo "BB1" "set-config:context=service;proto-fd-max=20000" ∈ w_trace w' /\
  (fun p => lookup_str ConfigHashAnnotation (pod_Annotations p)) <$> w_pods w' = ["h2"; "h2"] /\
  (** and nothing restarts them *)
  Forall (fun a => disrupts a = None) (w_trace w').
Proof.
  intros rack c.
  assert (Hr : let run := reconcileRollingRestart (H := sample_env) rack (rolling_world c []) in
    fst run = inr true /\
    bool_decide (AInfo "BB1" "set-config:context=service;proto-fd-max=20000" ∈ w_trace (snd run)) = true /\
    (fun p => lookup_str ConfigHashAnnotation (pod_Annotations p)) <$> w_pods (snd run) = ["h2"; "h2"] /\
    bool_decide (Forall (fun a => disrupts a = None) (w_trace (snd run))) = true) by (vm_compute; by split_and!).
  destruct (reconcileRollingRestart (H := sample_env) rack (rolling_world c [])) as [r w'].
  destruct Hr as (Hr & Hi & Hp & Hd). split_and!; [by vm_compute|exact Hr| |exact Hp|].
  - by apply bool_decide_eq_true in Hi.
  - by apply bool_decide_eq_true in Hd.
Qed.

(** ** Resuming into a failing template

    The phase stays Paused until a later step of the loop writes another one.
    When the template cannot be resolved that step is never reached: every
    reconcile resumes again and clears the counter, so the back-off never grows
    and the breaker cannot trip. *)

Definition resuming_cluster : AerospikeCluster :=
  (templated_cluster (templated_spec [test_namespace]))
    <$ st_TemplateSnapshot := Some (mkTemplateSnapshot "prod" "7" 0 true (Some emptyTemplate)) $>
    <$ st_Phase := PhasePaused $>.

Definition failures_after (n : nat) (c : AerospikeCluster) : option (Z * AerospikePhase) :=
  (fun c => (st_FailedReconcileCount (cl_Status c), st_Phase (cl_Status c))) <$>
    w_cluster (Nat.iter n run (cluster_world c)).

(** Repeated resumes keep the counter at one. *)
Theorem resume_clears_failures :
  (** the template gives neither an image nor a size *)
  (** twelve failing reconciles, more than the threshold *)
  failures_after 12 resuming_cluster = Some (1, PhasePaused) /\
  (** the same failures from any other phase trip the breaker *)
  failures_after 12 (resuming_cluster <$ st_Phase := PhaseCompleted $>) = Some (maxFailedReconciles, PhaseBackoffActive).
Proof. split; by vm_compute. Qed.

(** ** A template that comes late

    A missing template is reported as a permanent error, which trips the breaker at once.
    The breaker is not closed by the template's creation, so a cluster that was created
    before its template never resolves it. *)

Definition late_world (reconciles : nat) : World (H := sample_env) :=
  let w := run (cluster_world (templated_cluster (templated_spec [test_namespace]))) in
  let w := w <| w_templates := [mkTemplate "prod" "7" sample_template] |> in
  Nat.iter reconciles (fun w => run (snd (mapTemplateToCluster (H := sample_env) "prod" w))) w.

Definition resolution_of (w : World (H := sample_env)) : option (Z * AerospikePhase * bool) :=
  (fun c => (failCount c, st_Phase (cl_Status c), bool_decide (is_Some (st_TemplateSnapshot (cl_Status c))))) <$> w_cluster w.

(** The template exists from the second reconcile on, and is never read; had it been there
    at the first one, the cluster would have a snapshot. *)
Theorem late_template_never_resolved :
  resolution_of (late_world 0) = Some (maxFailedReconciles, PhaseUnset, false) /\
  resolution_of (late_world 5) = Some (maxFailedReconciles, PhaseBackoffActive, false) /\
  resolution_of (run (template_world (templated_cluster (templated_spec [test_namespace])) sample_template)) =
    Some (0, PhaseCompleted, true).
Proof. split_and!; by vm_compute. Qed.
