(* ===== verification/Footprint.v ===== *)
(** * What a reconcile leaves behind

    Guarantees of [Reconcile] as a whole, over every path through it and whatever fails on the
    way: the part of the custom resource that belongs to the user is never written, although the
    copy in memory is rewritten when a template is applied; and the only metric series it creates
    are ones that the cleanup of a deleted cluster removes. *)

From S2P Require Import Prelude GoValue Utils ConfigDiff Api Metrics ConfigGen Events Kube Aero Sizing Readiness Status Breaker Storage DynamicConfig ConfigMaps PDB Ensure Services Monitoring ACL PodTemplate Restart Operations Scaling ConfigRules Webhook Template Steps Reconcile.

Section Footprint.
Context `{Environment} `{!ServiceAPI} `{!JSONStore} `{!AdminClient}.

(** ** A whole reconcile

    A relation that the sub-reconcilers keep, that does not look at the object in memory and that the
    bookkeeping of [Reconcile] keeps, is kept by every path but those that write the metadata. *)

Section Whole.
Context (R : relation World) `{!Steps R}.
Hypothesis Hmem : forall f, keeps R (modify_mem f).
Hypothesis Hstatus : forall c, keeps R (updateStatus c).
Hypothesis Hannotation : keeps R (patchAnnotation AnnotationResyncTemplate).

Lemma whole_handleReconcileError e : keeps R (handleReconcileError e).
Proof. unfold handleReconcileError, copyFailure. frame. Qed.

Lemma whole_resolveTemplate : keeps R resolveTemplate.
Proof.
  assert (forall t, keeps R (applyToMemory t)) by (intros t; unfold applyToMemory; frame).
  unfold resolveTemplate, Resolve, FetchAndSnapshot, localPVWarnings, ValidateLocalPV, persistSnapshot, cleanupAnnotation,
    writeThenReapply, announceTemplate. frame.
Qed.

Lemma whole_reconcileAll : keeps R reconcileAll.
Proof.
  pose proof (sub_reconcileHeadlessService R). pose proof (sub_reconcilePodServices R). pose proof (sub_reconcilePodServiceRBAC R).
  pose proof (sub_reconcileSeedsFinderService R). pose proof (sub_reconcileCluster R). pose proof whole_handleReconcileError.
  unfold reconcileAll, counting, reporting, onCluster, resetFailedReconcileCount. frame.
Qed.

Lemma whole_gatedReconcile : keeps R gatedReconcile.
Proof.
  pose proof steps_setPhase. pose proof whole_handleReconcileError. pose proof whole_reconcileAll. pose proof whole_resolveTemplate.
  unfold gatedReconcile, handleCircuitBreakerBackoff, resolveAndStart, startReconcile, counting. frame.
Qed.

Lemma whole_pause : keeps R HandlePause /\ keeps R HandleResume.
Proof. unfold HandlePause, HandleResume. split; frame. Qed.

(** What is left are the finalizer and the deletion. *)
Lemma whole_reconcileFetched c w :
  (cl_DeletionTimestamp c <> None -> R w (snd (deleteAndForget w))) ->
  (cl_DeletionTimestamp c = None -> R w (snd (addFinalizer c w))) ->
  R w (snd (reconcileFetched c w)).
Proof.
  intros Hdel Hfin. destruct whole_pause as [Hp Hr]. pose proof whole_gatedReconcile as Hg. unfold reconcileFetched.
  case_decide as Hd; [apply Hdel; by intros Hn; rewrite Hn in Hd; destruct Hd|].
  assert (cl_DeletionTimestamp c = None) as Hn by (destruct (cl_DeletionTimestamp c); [by destruct Hd|done]).
  case_decide; [by apply Hfin|]. destruct (isPaused c).
  - assert (keeps R (_ ← HandlePause; mret finished)) as Hk by frame. apply Hk.
  - case_decide; [|apply Hg]. assert (keeps R (r ← try HandleResume; match r with inl _ => mret requeue | inr _ => gatedReconcile end)) as Hk by frame.
    apply Hk.
Qed.

End Whole.

(** ** The user's part of the resource *)

(** Everything but the status, the resource version, the operator's finalizer and the request for a
    new template snapshot. *)
Definition userPart (c : AerospikeCluster) :=
  (cl_Name c, cl_Namespace c, cl_UID c, cl_Generation c, cl_DeletionTimestamp c,
   filter (fun f => f <> StorageFinalizer) (cl_Finalizers c), map_del AnnotationResyncTemplate (cl_Annotations c), cl_Spec c).

(** What a reconcile may do to it: the request for a snapshot can be taken back, never made. *)
Definition userStep (c c' : AerospikeCluster) : Prop :=
  userPart c' = userPart c /\
  (map_get AnnotationResyncTemplate (cl_Annotations c') = map_get AnnotationResyncTemplate (cl_Annotations c) \/
   map_get AnnotationResyncTemplate (cl_Annotations c') = None).

#[local] Instance userStep_pre : PreOrder userStep.
Proof.
  split; [by intros c; split; [|left]|]. intros c1 c2 c3 [H12 A12] [H23 A23]. split; [congruence|].
  destruct A23 as [->| ->]; [exact A12|by right].
Qed.

Definition userKept : relation World := fun w w' => option_Forall2 userStep (w_cluster w) (w_cluster w').

#[local] Instance userKept_pre : PreOrder userKept.
Proof. split; unfold userKept; [by intros w|intros w1 w2 w3 ? ?; by trans (w_cluster w2)]. Qed.

Lemma userKept_same w w' : w_cluster w' = w_cluster w -> userKept w w'.
Proof. intros Hc. unfold userKept. by rewrite Hc. Qed.

#[local] Instance user_io : FrameIO userKept.
Proof. repeat split; try apply _; intros; by apply userKept_same. Qed.

Lemma user_writeCluster a c merge w :
  (forall cur, w_cluster w = Some cur -> userStep cur (merge cur)) ->
  userKept w (snd (writeCluster a c merge w)).
Proof.
  intros Hm. unfold writeCluster, mbind, M_bind, api, gets, raise.
  destruct (w_faults w) as [|[e|] fs]; simpl; [|by apply userKept_same|];
    (destruct (w_cluster w) as [cur|] eqn:Hc; [|by apply userKept_same; rewrite ?Hc]); (case_decide; [|by apply userKept_same; rewrite ?Hc]);
    unfold userKept; simpl; rewrite Hc; constructor; destruct (Hm cur eq_refl) as [Hu Ha]; by split.
Qed.

Lemma user_updateStatus c : keeps userKept (updateStatus c).
Proof. intros w. apply user_writeCluster. intros cur _. by split; [|left]. Qed.

Lemma user_patchStatus f : keeps userKept (patchStatus f).
Proof.
  intros w. unfold patchStatus, mbind, M_bind, api, gets, raise.
  destruct (w_faults w) as [|[e|] fs]; simpl; [|by apply userKept_same|];
    (destruct (w_cluster w) as [cur|] eqn:Hc; [|by apply userKept_same; rewrite ?Hc]); unfold userKept; simpl; rewrite Hc;
    constructor; by split; [|left].
Qed.

Lemma map_del_twice {A} k (m : gomap A) : map_del k (map_del k m) = map_del k m.
Proof. unfold map_del. rewrite list_filter_filter. apply list_filter_iff. naive_solver. Qed.

Lemma user_patchAnnotation : keeps userKept (patchAnnotation AnnotationResyncTemplate).
Proof.
  intros w. unfold patchAnnotation, mbind, M_bind, api, gets, raise.
  destruct (w_faults w) as [|[e|] fs]; simpl; [|by apply userKept_same|];
    (destruct (w_cluster w) as [cur|] eqn:Hc; [|by apply userKept_same; rewrite ?Hc]); unfold userKept; simpl; rewrite Hc;
    constructor; (split; [unfold userPart; simpl; by rewrite map_del_twice|right; simpl; by rewrite map_get_del, decide_True]).
Qed.

Lemma user_modify_mem f : keeps userKept (modify_mem f).
Proof. intros w. by apply userKept_same. Qed.

#[local] Instance user_steps : Steps userKept.
Proof.
  pose proof user_updateStatus. pose proof user_patchStatus. pose proof user_modify_mem.
  split; [apply _| |intros; unfold setPhase; frame|done|].
  - intros w w' Hc _ _. by apply userKept_same.
  - intros phase reason o. pose proof (keeps_populateStatus userKept). pose proof (keeps_completeStatus userKept).
    pose proof (keeps_publishStatus userKept).
    assert (forall again gen c, keeps userKept (statusWrite again phase reason o gen c)).
    { induction again as [|again IH]; intros gen c; cbn [statusWrite]; unfold statusWriteAttempt; frame. }
    unfold updateStatusAndPhase. frame.
Qed.

Lemma user_updateCluster c w :
  (forall cur, w_cluster w = Some cur -> userStep cur c) -> userKept w (snd (updateCluster c w)).
Proof.
  intros Hc. apply user_writeCluster. intros cur Hcur. destruct (Hc cur Hcur) as [Hu Ha]. split; [|exact Ha]. unfold userPart in *. simpl.
  injection Hu as _ _ _ _ _ Hf Hn Hs. rewrite Hs, decide_True by done. by rewrite Hf, Hn.
Qed.

Lemma filter_snoc (l : list string) x : filter (fun f => f <> x) (l ++ [x]) = filter (fun f => f <> x) l.
Proof. rewrite filter_app, filter_cons_False by (by intros ?). by rewrite app_nil_r. Qed.

Lemma user_addFinalizer c w : w_cluster w = Some c -> userKept w (snd (addFinalizer c w)).
Proof.
  intros Hc. unfold addFinalizer. cbv zeta. set (c' := c <| cl_Finalizers ::= _ |>).
  change (modify_mem ?f ≫= ?k) with (fun w => k () (w <| w_mem ::= f |>)). cbv beta.
  apply (bind_try_cases _ _ _ (userKept w)). intros r w1 Hr.
  assert (userKept w w1) as Hk.
  { trans (w <| w_mem ::= fun _ => c' |>); [by apply userKept_same|]. rewrite <- (f_equal snd Hr : _ = w1).
    apply user_updateCluster. intros cur. simpl. rewrite Hc. intros [= <-]. split; [|by left]. unfold userPart. simpl. by rewrite filter_snoc. }
  destruct r as [e|?]; [|done]. by destruct (IsConflict e).
Qed.

Lemma user_handleDeletion : keeps userKept handleDeletion.
Proof.
  pose proof (sub_setPhaseTolerant userKept).
  unfold handleDeletion. apply keeps_bind; [frame|]. intros cluster. case_decide; [frame|].
  apply keeps_bind; [frame|intros _]. apply keeps_bind; [frame|intros _].
  apply keeps_bind; [unfold listClusterStatefulSets, deleteClusterClaims, DeleteCascadeDeletePVCs, GetPVCsForStatefulSet, deleteClaim; frame|intros _].
  intros w. apply (bind_cases _ _ _ (userKept w)); [intros e w1 Hr; exact (keeps_run userKept _ _ _ _ keeps_refetchCluster Hr)|].
  intros latest w1 Hr. assert (userKept w w1) as Hk by exact (keeps_run userKept _ _ _ _ keeps_refetchCluster Hr).
  apply refetchCluster_ok in Hr as (_ & Hc & _).
  change (record ?b ?s ≫= ?k) with (fun w => k () (w <| w_events ::= cons (mkEvent b s) |>)). cbv beta.
  apply bind_try_cases. intros r w2 Hr.
  assert (userKept w w2) as Hk2.
  { trans w1; [exact Hk|]. etrans; [|rewrite <- (f_equal snd Hr : _ = w2); apply user_updateCluster]; [by apply userKept_same|].
    intros cur. simpl. rewrite Hc. intros [= <-]. split; [|by left]. unfold userPart. simpl.
    by rewrite list_filter_filter_l by naive_solver. }
  destruct r as [e|?]; [|done]. by destruct (IsConflict e).
Qed.

Lemma Reconcile_userKept req : keeps userKept (Reconcile req).
Proof.
  intros w. destruct (Reconcile_eq req w) as (ms & ->).
  pose proof (keeps_refetchCluster (R := userKept) w) as Hk. destruct (refetchCluster w) as [[e|c] w1] eqn:Hr; [exact Hk|].
  apply refetchCluster_ok in Hr as (_ & Hc & _). trans w1; [exact Hk|]. clear Hk.
  set (w2 := w1 <| w_mem ::= fun _ => c |>). assert (userKept w2 (snd (reconcileFetched c w2))) as Hk.
  { apply (whole_reconcileFetched userKept); [apply user_modify_mem|apply user_updateStatus|apply user_patchAnnotation| |intros _; by apply user_addFinalizer].
    intros _. assert (keeps userKept deleteAndForget) as Hd; [|apply Hd]. pose proof user_handleDeletion. unfold deleteAndForget. frame. }
  by destruct (reconcileFetched c w2).
Qed.

(** C8: whatever happens in it, a reconcile writes nothing of the resource that belongs
    to the user: its name, generation, deletion mark and spec are what they were,
    although a template is merged into the copy in memory, and so are its finalizers and
    annotations but for the finalizer of the operator and the request for a new template
    snapshot, which it may take back but never makes *)
Theorem reconcile_keeps_user_part req w :
  option_Forall2 userStep (w_cluster w) (w_cluster (snd (Reconcile req w))).
Proof. apply Reconcile_userKept. Qed.

(** ** The metrics *)

Definition tracked (w : World) : Prop := registry_wf (w_metrics w).

#[local] Instance tracked_io : FrameIO (pres tracked).
Proof.
  split; [split; [split|]|]; try (by intros w ? Hw); try (by intros w ? _ Hw); try (by intros w ? ? ? Hw); [apply _|].
  intros w f Hf Hw. by apply Hf.
Qed.

#[local] Instance tracked_steps : Steps (pres tracked).
Proof.
  split; [apply _| |intros; unfold setPhase; frame|intros; frame|].
  - intros w w' _ Hm _. unfold pres, tracked. by rewrite Hm.
  - intros phase reason o. pose proof (keeps_populateStatus (pres tracked)). pose proof (keeps_completeStatus (pres tracked)).
    pose proof (keeps_publishStatus (pres tracked)).
    assert (forall again gen c, keeps (pres tracked) (statusWrite again phase reason o gen c)).
    { induction again as [|again IH]; intros gen c; cbn [statusWrite]; unfold statusWriteAttempt; frame. }
    unfold updateStatusAndPhase. frame.
Qed.

Lemma tracked_deletion : keeps (pres tracked) deleteAndForget.
Proof.
  pose proof (sub_setPhaseTolerant (pres tracked)).
  unfold deleteAndForget, handleDeletion, listClusterStatefulSets, deleteClusterClaims, DeleteCascadeDeletePVCs, GetPVCsForStatefulSet, deleteClaim.
  frame.
Qed.

Lemma tracked_reconcileFetched c : keeps (pres tracked) (reconcileFetched c).
Proof.
  intros w. apply (whole_reconcileFetched (pres tracked)); [intros; frame|intros; frame|unfold patchAnnotation; frame| |].
  - intros _. apply tracked_deletion.
  - intros _. assert (keeps (pres tracked) (addFinalizer c)) as Hk by (unfold addFinalizer; frame). apply Hk.
Qed.

Lemma tracked_Reconcile req : keeps (pres tracked) (Reconcile req).
Proof. pose proof tracked_reconcileFetched. unfold Reconcile, timed. frame. Qed.

(** Passes of the operator's process over time: reconciles of any cluster, and any change of the world
    outside; the registry is the process's own. *)
Inductive process : World -> World -> Prop :=
| pr_reconcile req w : process w (snd (Reconcile req w))
| pr_world w w' : w_metrics w' = w_metrics w -> process w w'.

Lemma process_tracked w w' : rtc process w w' -> tracked w -> tracked w'.
Proof.
  induction 1 as [|w w1 w2 Hstep _ IH]; [done|]. intros Hw. apply IH. destruct Hstep as [req w|w w1 Hm].
  - by apply tracked_Reconcile.
  - unfold tracked. by rewrite Hm.
Qed.

(** C35: the process of the operator starts with no metrics; after any sequence of
    reconciles and outside changes, the reconcile that finds a cluster gone removes
    every series of that cluster and no other *)
Theorem deleted_cluster_forgotten w0 w req s :
  w_metrics w0 = ∅ -> rtc process w0 w -> w_cluster w = None -> w_faults w = [] ->
  w_metrics (snd (Reconcile req w)) !! s =
    if decide (seriesOf (req_Namespace req) (req_Name req) s) then None else w_metrics w !! s.
Proof.
  intros Hempty Hrun Hc Hf. assert (tracked w) as Hw.
  { apply (process_tracked _ _ Hrun). unfold tracked. rewrite Hempty. intros s' [v Hv]. done. }
  assert (w_metrics (snd (Reconcile req w)) = CleanupClusterMetrics (req_Namespace req) (req_Name req) (w_metrics w)) as ->.
  { unfold Reconcile, refetchCluster, mbind, M_bind, now, gets, try, api. by rewrite Hf, Hc. }
  case_decide; [by apply cleanup_complete|by apply cleanup_other].
Qed.

End Footprint.

(** ** Concrete runs *)

#[local] Existing Instance no_admin.
#[local] Existing Instance sample_service_api.
#[local] Existing Instance sample_json_store.

Definition demo_series (m : metricVec) : series := (m, ["default"; "demo"]).

Definition stored_phase (w : World (H := sample_env)) : option AerospikePhase := st_Phase ∘ cl_Status <$> w_cluster w.

Lemma process_deleted (w : World (H := sample_env)) : process (H := sample_env) w (w <| w_cluster := None |>).
Proof. by apply pr_world. Qed.

(** A cluster is reconciled and then deleted. *)
Lemma deleted_cluster_forgotten_witness :
  let w0 := cluster_world (example_cluster 2 None) in
  let w1 := run w0 in
  let w := w1 <| w_cluster := None |> in
  is_Some (w_metrics w !! demo_series ClusterPhase) /\ w_metrics (run w) !! demo_series ClusterPhase = None.
Proof.
  intros w0 w1 w. split; [by apply (bool_decide_unpack _); vm_compute|].
  assert (rtc (process (H := sample_env)) w0 w) as Hrun.
  { exact (rtc_l _ w0 w1 w (pr_reconcile (H := sample_env) sample_request w0) (rtc_once _ _ (process_deleted w1))). }
  assert (w_faults w = []) as Hf by (by vm_compute).
  pose proof (deleted_cluster_forgotten (H := sample_env) w0 w sample_request (demo_series ClusterPhase)
    eq_refl Hrun eq_refl Hf) as Hd.
  rewrite decide_True in Hd by done. exact Hd.
Defined.

(** The status write at the end of a pass fails: the gauge says Completed, the resource does not. *)
Theorem phase_gauge_ahead :
  let refused := Some (Errorf "etcdserver: request timed out") in
  let w := run ((cluster_world (example_cluster 2 None)) <| w_faults := replicate 29 None ++ [refused] |>) in
  stored_phase w = Some PhaseScalingUp /\
  w_metrics w !! demo_series ClusterPhase = Some (Gauge (PhaseToFloat (phaseName PhaseCompleted))).
Proof. split; by vm_compute. Qed.

(** A cluster that has settled shows no phase once the operator's process was restarted: nothing of its
    status changes, so neither the phase nor the number of ready pods is published. *)
Theorem restart_loses_phase :
  let w := Nat.iter 3 run (cluster_world (example_cluster 2 None)) in
  let restarted := run (w <| w_metrics := ∅ |>) in
  stored_phase restarted = Some PhaseCompleted /\
  w_metrics restarted !! demo_series ClusterPhase = None /\ w_metrics restarted !! demo_series ClusterReadyPods = None.
Proof. split_and!; by vm_compute. Qed.

Definition paused_cluster : AerospikeCluster :=
  (example_cluster 2 None) <| cl_Spec ::= fun s => s <| spec_Paused := Some true |> |>.

(** Every reconcile of a paused cluster moves the time at which it was paused. *)
Theorem pause_timestamp_moves :
  let w1 := run ((cluster_world paused_cluster) <| w_now := 100 * second |>) in
  let w2 := run (w1 <| w_now := 200 * second |>) in
  w_metrics w1 !! demo_series ClusterPausedTimestamp = Some (Gauge 100) /\
  w_metrics w2 !! demo_series ClusterPausedTimestamp = Some (Gauge 200) /\
  (w_cluster w2 ≫= pauseStartTime) = Some (100 * second).
Proof. split_and!; by vm_compute. Qed.

(** The pass that removes the series of a cluster leaves one: the duration is observed afterwards. *)
Theorem deletion_pass_leaves_duration :
  let deleting := (example_cluster 2 None) <| cl_DeletionTimestamp := Some 5 |> in
  map_to_list (w_metrics (run (cluster_world deleting))) = [(demo_series ReconcileDuration, Histogram [0])].
Proof. by vm_compute. Qed.
