(* ===== verification/Watch.v ===== *)
(** * What triggers a reconcile

    internal/controller/reconciler.go: the watches that [SetupWithManager] registers, their
    predicates, and the functions that map an event of another object to the clusters to
    reconcile.

    The two stock predicates are controller-runtime's: they are parameters, with what their
    documentation says of update events.  So is the handler of owned objects, which asks for the
    object's controller. *)

From S2P Require Import Prelude GoValue Utils Api Metrics Events Kube Aero Sizing Status Breaker Services Monitoring ACL PodTemplate Scaling Template Steps Reconcile Footprint.

(** ** Objects and events *)

(** The metadata that the stock predicates and handlers read. *)
Record Meta := mkMeta {
  me_Namespace : string;
  me_Name : string;
  me_Generation : Z;
  me_Annotations : gmap string string;
  me_Controller : option string
}.

(** The watched kinds, with the fields that the operator's own predicates read. *)
Inductive object :=
| OCluster (m : Meta)
| OStatefulSet (m : Meta) (readyReplicas : Z)
| OService (m : Meta)
| OConfigMap (m : Meta)
| OPodDisruptionBudget (m : Meta)
| OTemplate (m : Meta)
| OPod (m : Meta) (pod : Pod)
| OSecret (m : Meta) (data : option (gmap string string)).

Definition meta (o : object) : Meta :=
  match o with
  | OCluster m | OStatefulSet m _ | OService m | OConfigMap m | OPodDisruptionBudget m | OTemplate m | OPod m _ | OSecret m _ => m
  end.

Inductive watchEvent := Created (o : object) | Updated (old new : object) | Deleted (o : object) | Generic (o : object).

(** The object an event is mapped from. *)
Definition subject (e : watchEvent) : object :=
  match e with Created o | Updated _ o | Deleted o | Generic o => o end.

(** ** Predicates *)

(** A predicate has one function per kind of event; [predicate.Funcs] lets everything through. *)
Record Predicate := mkPredicate {
  p_Create : object -> bool;
  p_Update : object -> object -> bool;
  p_Delete : object -> bool;
  p_Generic : object -> bool
}.

Definition passes (p : Predicate) (e : watchEvent) : bool :=
  match e with
  | Created o => p_Create p o
  | Updated old new => p_Update p old new
  | Deleted o => p_Delete p o
  | Generic o => p_Generic p o
  end.

Definition allEvents : Predicate := mkPredicate (fun _ => true) (fun _ _ => true) (fun _ => true) (fun _ => true).

(** controller-runtime: the stock predicates and the handler of owned objects. *)
Class ControllerRuntime := {
  GenerationChangedPredicate : Predicate;
  AnnotationChangedPredicate : Predicate;
  ownerRequests : object -> list Request;
  generation_update old new :
    p_Update GenerationChangedPredicate old new = negb (bool_decide (me_Generation (meta old) = me_Generation (meta new)));
  generation_create o : p_Create GenerationChangedPredicate o = true;
  generation_delete o : p_Delete GenerationChangedPredicate o = true;
  annotation_update old new :
    p_Update AnnotationChangedPredicate old new = negb (bool_decide (me_Annotations (meta old) = me_Annotations (meta new)));
  owner_request o name : me_Controller (meta o) = Some name -> ownerRequests o = [mkRequest (me_Namespace (meta o)) name]
}.

(** [statefulSetReadyReplicasPredicate] *)
Definition statefulSetReadyReplicasPredicate : Predicate :=
  mkPredicate (p_Create allEvents)
    (fun old new => match old, new with
                    | OStatefulSet _ oldReady, OStatefulSet _ newReady => negb (oldReady =? newReady)
                    | _, _ => false
                    end)
    (p_Delete allEvents) (p_Generic allEvents).

(** [secretDataChangedPredicate]: [reflect.DeepEqual] of the data; a nil map is not an empty one. *)
Definition secretDataChangedPredicate : Predicate :=
  mkPredicate (fun _ => false)
    (fun old new => match old, new with
                    | OSecret _ oldData, OSecret _ newData => negb (bool_decide (oldData = newData))
                    | _, _ => false
                    end)
    (fun _ => false) (fun _ => false).

(** [podReadyPredicate] *)
Definition podReadyPredicate : Predicate :=
  mkPredicate (fun _ => false)
    (fun old new => match old, new with
                    | OPod _ oldPod, OPod _ newPod =>
                        negb (bool_decide (podReadyConditionStatus oldPod = podReadyConditionStatus newPod))
                    | _, _ => false
                    end)
    (fun _ => true) (fun _ => false).

(** ** Mapping to clusters *)

Definition requestFor (cl : AerospikeCluster) : Request := mkRequest (cl_Namespace cl) (cl_Name cl).

Definition managedAppName := "aerospike-cluster".

(** [mapPodToCluster] *)
Definition mapPodToCluster (o : object) : list Request :=
  match o with
  | OPod m pod =>
      if decide (lookup_str AppLabel (pod_Labels pod) = managedAppName) then
        match map_get InstanceLabel (pod_Labels pod) with
        | Some clusterName => [mkRequest (me_Namespace m) clusterName]
        | None => []
        end
      else []
  | _ => []
  end.

Definition referencesSecret (secretName : string) (cl : AerospikeCluster) : bool :=
  match spec_AerospikeAccessControl (cl_Spec cl) with
  | None => false
  | Some acl => existsb (fun user => bool_decide (user_SecretName user = secretName)) (acl_Users acl)
  end.

(** [mapSecretToCluster]; [listed] is the answer to the request for the clusters of the secret's
    namespace. *)
Definition mapSecretToCluster (listed : goerr + list AerospikeCluster) (o : object) : list Request :=
  match listed with
  | inl _ => []
  | inr items =>
      requestFor <$> filter (fun cl => referencesSecret (me_Name (meta o)) cl = true) items
  end.

(** [mapTemplateToCluster]: the requests; marking the clusters is in Template.v. *)
Definition mapTemplateRequests (listed : goerr + list AerospikeCluster) (o : object) : list Request :=
  match listed with
  | inl _ => []
  | inr items => requestFor <$> filter (fun cl => spec_TemplateRef (cl_Spec cl) = Some (me_Name (meta o))) items
  end.

(** ** The watches *)

Section Watches.
Context `{!ControllerRuntime}.

Definition predicateOr (p q : Predicate) : Predicate :=
  mkPredicate (fun o => p_Create p o || p_Create q o) (fun o o' => p_Update p o o' || p_Update q o o')
    (fun o => p_Delete p o || p_Delete q o) (fun o => p_Generic p o || p_Generic q o).

(** [SetupWithManager]: the predicates of each kind. *)
Definition watchPredicate (o : object) : Predicate :=
  match o with
  | OCluster _ => predicateOr GenerationChangedPredicate AnnotationChangedPredicate
  | OStatefulSet _ _ => predicateOr GenerationChangedPredicate statefulSetReadyReplicasPredicate
  | OService _ | OConfigMap _ | OPodDisruptionBudget _ | OTemplate _ => GenerationChangedPredicate
  | OPod _ _ => podReadyPredicate
  | OSecret _ _ => secretDataChangedPredicate
  end.

(** and their handlers; [clustersIn ns] answers a list request, for all namespaces when [ns] is [None]. *)
Definition watchHandler (clustersIn : option string -> goerr + list AerospikeCluster) (o : object) : list Request :=
  match o with
  | OCluster m => [mkRequest (me_Namespace m) (me_Name m)]
  | OStatefulSet _ _ | OService _ | OConfigMap _ | OPodDisruptionBudget _ => ownerRequests o
  | OTemplate _ => mapTemplateRequests (clustersIn None) o
  | OPod _ _ => mapPodToCluster o
  | OSecret m _ => mapSecretToCluster (clustersIn (Some (me_Namespace m))) o
  end.

(** The requests an event adds to the queue. *)
Definition enqueued (clustersIn : option string -> goerr + list AerospikeCluster) (e : watchEvent) : list Request :=
  if passes (watchPredicate (subject e)) e then watchHandler clustersIn (subject e) else [].

(** ** Every change that matters is delivered *)

(** The view of a cluster that its watch has. *)
Definition clusterObject (c : AerospikeCluster) : object :=
  OCluster (mkMeta (cl_Namespace c) (cl_Name c) (cl_Generation c) (list_to_map (cl_Annotations c)) None).

Lemma annotations_lookup {A} (m : gomap A) k : (list_to_map m : gmap string A) !! k = map_get k m.
Proof.
  induction m as [|[k' v] m IH]; [done|]. cbn [map_get list_to_map]. simpl.
  destruct (decide (k = k')) as [->|Hne]; [by rewrite lookup_insert_eq|by rewrite lookup_insert_ne].
Qed.

Lemma enqueued_update clustersIn old new :
  enqueued clustersIn (Updated old new) = if p_Update (watchPredicate new) old new then watchHandler clustersIn new else [].
Proof. done. Qed.

Lemma referencesSecret_spec name cl :
  referencesSecret name cl = true <->
  exists acl user, spec_AerospikeAccessControl (cl_Spec cl) = Some acl /\ user ∈ acl_Users acl /\ user_SecretName user = name.
Proof.
  unfold referencesSecret. destruct (spec_AerospikeAccessControl _) as [acl|]; [|naive_solver].
  rewrite existsb_exists. setoid_rewrite bool_decide_eq_true. setoid_rewrite <- list_elem_of_In. naive_solver.
Qed.


(** A pod that becomes ready, stops being ready or goes away brings its cluster back; any other change of
    it does not. *)
Theorem pod_readiness_delivered clustersIn m pod pod' name :
  lookup_str AppLabel (pod_Labels pod') = managedAppName -> map_get InstanceLabel (pod_Labels pod') = Some name ->
  enqueued clustersIn (Updated (OPod m pod) (OPod m pod')) =
    (if decide (podReadyConditionStatus pod = podReadyConditionStatus pod') then [] else [mkRequest (me_Namespace m) name]) /\
  enqueued clustersIn (Deleted (OPod m pod')) = [mkRequest (me_Namespace m) name] /\
  enqueued clustersIn (Created (OPod m pod')) = [].
Proof.
  intros Ha Hn. rewrite enqueued_update. unfold enqueued. simpl. rewrite decide_True by done. rewrite Hn. split_and!; [|done|done].
  destruct (bool_decide_reflect (podReadyConditionStatus pod = podReadyConditionStatus pod')); simpl; by case_decide.
Qed.

(** A template that changes brings back every cluster that refers to it, in any namespace. *)
Theorem template_change_delivered clustersIn clusters m gen r :
  clustersIn None = inr clusters -> gen <> me_Generation m ->
  r ∈ enqueued clustersIn (Updated (OTemplate (mkMeta (me_Namespace m) (me_Name m) gen (me_Annotations m) None)) (OTemplate m)) <->
  exists cl, cl ∈ clusters /\ spec_TemplateRef (cl_Spec cl) = Some (me_Name m) /\ r = requestFor cl.
Proof.
  intros Hl Hg. rewrite enqueued_update. cbn [watchPredicate watchHandler]. rewrite generation_update. simpl.
  rewrite bool_decide_false by done. simpl. unfold mapTemplateRequests. rewrite Hl. simpl. rewrite list_elem_of_fmap. setoid_rewrite list_elem_of_filter. naive_solver.
Qed.

(** The requests of [mapTemplateRequests] are those of the handler that marks the clusters. *)
Lemma mapTemplateRequests_names `{Environment} m w :
  w_faults w = [] ->
  fst (mapTemplateToCluster (me_Name m) w) =
  inr (req_Name <$> mapTemplateRequests (inr (option_list (w_cluster w))) (OTemplate m)).
Proof.
  intros Hf. unfold mapTemplateToCluster, mapTemplateRequests, mbind, M_bind, try, api, gets. rewrite Hf.
  destruct (w_cluster w) as [cl|]; [|done]. simpl. rewrite filter_cons. case_decide; [|done]. unfold mbind, M_bind.
  assert (exists w', markDrifted cl w = (inr (), w')) as [w' ->]; [|done].
  unfold markDrifted. destruct (st_TemplateSnapshot _) as [snap|]; [|by eexists]. destruct (ts_Synced snap); [|by eexists].
  unfold mbind, M_bind, try. destruct (updateStatus _ w) as [[]]; by eexists.
Qed.

(** ** The operator's own writes *)

Lemma userStep_quiet clustersIn c c' :
  userStep c c' -> map_get AnnotationResyncTemplate (cl_Annotations c) = None ->
  enqueued clustersIn (Updated (clusterObject c) (clusterObject c')) = [].
Proof.
  intros [Hu Ha] Hn. rewrite enqueued_update. cbn [watchPredicate clusterObject predicateOr p_Update].
  rewrite generation_update, annotation_update. simpl. injection Hu as _ _ _ Hg _ _ Hm _.
  rewrite Hg, bool_decide_true by done. rewrite bool_decide_true; [done|]. apply map_eq. intros k. rewrite !annotations_lookup.
  destruct (decide (k = AnnotationResyncTemplate)) as [->|Hk]; [destruct Ha; congruence|].
  pose proof (f_equal (map_get k) Hm) as Hk'. rewrite !map_get_del in Hk'. by case_decide.
Qed.

Section OwnWrites.
Context `{Environment} `{!ServiceAPI} `{!JSONStore} `{!AdminClient}.

(** C9: a reconcile does not trigger the next one by what it writes to the resource it
    reconciles, although the API server counts a new generation for every change of the
    spec and however often the status is updated; the one exception is that it took back
    a request for a new template snapshot *)
Theorem own_writes_do_not_wake clustersIn req w c c' :
  w_cluster w = Some c -> w_cluster (snd (Reconcile req w)) = Some c' ->
  enqueued clustersIn (Updated (clusterObject c) (clusterObject c')) <> [] ->
  is_Some (map_get AnnotationResyncTemplate (cl_Annotations c)).
Proof.
  intros Hc Hc' Hne. destruct (map_get _ _) eqn:Hr; [by eexists|]. destruct Hne.
  pose proof (Reconcile_userKept req w) as Hk. unfold userKept in Hk. rewrite Hc, Hc' in Hk. inversion Hk; subst.
  by apply userStep_quiet.
Qed.

End OwnWrites.

End Watches.

(** ** Instances *)

#[local] Program Instance sample_runtime : ControllerRuntime := {|
  GenerationChangedPredicate :=
    mkPredicate (fun _ => true) (fun old new => negb (bool_decide (me_Generation (meta old) = me_Generation (meta new))))
      (fun _ => true) (fun _ => true);
  AnnotationChangedPredicate :=
    mkPredicate (fun _ => true) (fun old new => negb (bool_decide (me_Annotations (meta old) = me_Annotations (meta new))))
      (fun _ => true) (fun _ => true);
  ownerRequests o := mkRequest (me_Namespace (meta o)) <$> option_list (me_Controller (meta o))
|}.
Next Obligation. done. Qed.
Next Obligation. done. Qed.
Next Obligation. done. Qed.
Next Obligation. done. Qed.
Next Obligation. intros o name Ho. simpl. by rewrite Ho. Qed.

Definition rotated_secret : Meta := mkMeta "default" "s2" 0 ∅ None.


#[local] Existing Instance no_admin.
#[local] Existing Instance sample_service_api.
#[local] Existing Instance sample_json_store.

Definition resync_world : World (H := sample_env) :=
  template_world ((templated_cluster (templated_spec [test_namespace])) <| cl_Annotations := [(AnnotationResyncTemplate, "true")] |>)
    sample_template.

(** A request for a new snapshot is served and taken back, which is seen as a change. *)
Lemma own_writes_do_not_wake_witness :
  let c := default acl_cluster (w_cluster resync_world) in
  let c' := default acl_cluster (w_cluster (snd (Reconcile (H := sample_env) sample_request resync_world))) in
  enqueued (fun _ => inr []) (Updated (clusterObject c) (clusterObject c')) <> [] /\
  is_Some (map_get AnnotationResyncTemplate (cl_Annotations c)).
Proof.
  intros c c'.
  assert (enqueued (fun _ => inr []) (Updated (clusterObject c) (clusterObject c')) <> []) as Hne
    by (apply (bool_decide_unpack _); by vm_compute).
  assert (w_cluster (snd (Reconcile (H := sample_env) sample_request resync_world)) = Some c') as Hc' by (by vm_compute).
  split; [exact Hne|].
  exact (own_writes_do_not_wake (H0 := sample_env) (fun _ => inr []) sample_request resync_world c c' eq_refl Hc' Hne).
Defined.
