(* ===== verification/Telemetry.v ===== *)
(** * The operator's process

    internal/telemetry/telemetry.go: [Setup] builds the trace, metric and log pipelines that the
    environment asks for, [Shutdown] stops them.  cmd/main.go: [run] reads the flags, sets up
    telemetry, configures the two servers and starts the manager.

    The OpenTelemetry SDK and controller-runtime's manager are parameters: whether a resource or
    an exporter can be built, what a provider's shutdown returns, the SDK's limit on attribute
    values, and the outcome of each step of the manager.  What the process does to the SDK's
    global state, and which providers it built and stopped, is recorded in [Otel]. *)

From S2P Require Import Prelude GoValue Utils Api Metrics Events Kube Aero Sizing Readiness Status ConfigDiff ConfigGen DynamicConfig.

(** ** The process environment *)

(** [os.LookupEnv]; [os.Getenv] reads a missing variable as the empty string. *)
Definition Environ : Type := string -> option string.
Definition Getenv (env : Environ) (key : string) : string := default "" (env key).

(** [strings.TrimSpace]: space runes are removed at both ends; [fuel] is a number of bytes. *)
Fixpoint trimLeftRunes (fuel : nat) (s : string) : string :=
  match fuel with
  | O => s
  | S fuel => match head (omap (fun r => cut_prefix r s) spaceRunes) with Some t => trimLeftRunes fuel t | None => s end
  end.

Fixpoint trimRightRunes (fuel : nat) (s : string) : string :=
  match fuel with
  | O => s
  | S fuel => match head (omap (fun r => cut_suffix s r) spaceRunes) with Some t => trimRightRunes fuel t | None => s end
  end.

Definition TrimSpace (s : string) : string :=
  trimRightRunes (String.length s) (trimLeftRunes (String.length s) s).

(** [activated] *)
Definition activated (env : Environ) : bool :=
  let v := to_lower (TrimSpace (Getenv env "OTEL_SDK_DISABLED")) in
  if decide (v = "") then false
  else bool_decide (v <> "true") && bool_decide (v <> "1") && bool_decide (v <> "yes").

(** The signals, in the order in which they are built. *)
Inductive signal := traces | metrics | logs.

#[export] Instance signal_eq_dec : EqDecision signal.
Proof. solve_decision. Defined.

(** ["OTEL_" + strings.ToUpper(signal) + "_EXPORTER"] *)
Definition exporterKey (s : signal) : string :=
  match s with traces => "OTEL_TRACES_EXPORTER" | metrics => "OTEL_METRICS_EXPORTER" | logs => "OTEL_LOGS_EXPORTER" end.

(** [signalEnabled] *)
Definition signalEnabled (env : Environ) (s : signal) : goerr + bool :=
  let v := to_lower (TrimSpace (Getenv env (exporterKey s))) in
  if decide (v = "" \/ v = "otlp") then inr true
  else if decide (v = "none") then inr false
  else inl (Errorf ("unsupported " +:+ exporterKey s +:+ "=" +:+ v +:+ "; expected 'otlp' or 'none'")).

Definition defaultAttributeValueLengthLimit : Z := 4096.

(** [resolveLogAttributeValueLengthLimit] *)
Fixpoint firstLimit (env : Environ) (keys : list string) : Z :=
  match keys with
  | [] => defaultAttributeValueLengthLimit
  | key :: keys =>
      match env key with
      | None => firstLimit env keys
      | Some raw => match atoi (TrimSpace raw) with
                    | Some n => if n <? 0 then firstLimit env keys else n
                    | None => firstLimit env keys
                    end
      end
  end.

Definition resolveLogAttributeValueLengthLimit (env : Environ) : Z :=
  firstLimit env ["OTEL_LOGRECORD_ATTRIBUTE_VALUE_LENGTH_LIMIT"; "OTEL_ATTRIBUTE_VALUE_LENGTH_LIMIT"].

(** ** Providers *)

(** A provider of one signal, with its limit on the length of attribute values (metrics have none). *)
Record pipeline := mkPipeline { pl_signal : signal; pl_limit : option Z }.

#[export] Instance pipeline_eq_dec : EqDecision pipeline.
Proof. solve_decision. Defined.

(** The SDK's state as far as the process changes it: the global provider of each signal, the
    propagator, and the providers created and stopped so far, latest first. *)
Record Otel := mkOtel {
  ot_global : signal -> option pipeline;
  ot_propagator : bool;
  ot_built : list pipeline;
  ot_stopped : list pipeline
}.

#[export] Instance Otel_fields : Fields Otel := fun r => mkOtel (ot_global r) (ot_propagator r) (ot_built r) (ot_stopped r).

(** A process that has just started. *)
Definition freshOtel : Otel := mkOtel (fun _ => None) false [] [].

(** [Provider]; [zapCore] is the log pipeline it mirrors to. *)
Record Provider := mkProvider {
  enabled : bool;
  zapCore : option pipeline;
  shutdownFuncs : list pipeline
}.

Definition inert : Provider := mkProvider false None [].

(** [Enabled] and [ZapCore] on a nil provider. *)
Definition Enabled (p : option Provider) : bool := match p with None => false | Some p => enabled p end.
Definition ZapCore (p : option Provider) : option pipeline := p ≫= zapCore.

Class SDK := {
  (** [resource.New] *)
  new_resource : Environ -> option goerr;
  (** [otlptrace.New], [otlpmetric.New], [otlplog.New] *)
  new_exporter : Environ -> signal -> option goerr;
  (** [sdktrace.NewSpanLimits().AttributeValueLengthLimit] *)
  span_limit : Environ -> Z;
  (** the provider's own [Shutdown] *)
  stop : pipeline -> option goerr
}.

Section Setup.
Context `{!SDK}.

(** One turn of the loop of [Shutdown]. *)
Definition stopOne (acc : list goerr * Otel) (pl : pipeline) : list goerr * Otel :=
  let '(errs, o) := acc in
  (errs ++ option_list (stop pl), o <| ot_stopped ::= cons pl |>).

(** [Shutdown]: in reverse order of registration; the errors are joined. *)
Definition Shutdown (p : option Provider) (o : Otel) : list goerr * Otel :=
  match p with
  | None => ([], o)
  | Some p => foldl stopOne ([], o) (reverse (shutdownFuncs p))
  end.

(** The pipeline of a signal. *)
Definition pipelineOf (env : Environ) (s : signal) : pipeline :=
  mkPipeline s (match s with
                | traces => Some (if span_limit env <? 0 then defaultAttributeValueLengthLimit else span_limit env)
                | metrics => None
                | logs => Some (resolveLogAttributeValueLengthLimit env)
                end).

(** Building one signal: the error of its exporter, or the providers registered so far and the SDK. *)
Definition buildSignal (env : Environ) (on : bool) (s : signal) (built : list pipeline) (o : Otel) : goerr + list pipeline * Otel :=
  if on then
    match new_exporter env s with
    | Some e => inl e
    | None => let pl := pipelineOf env s in inr (built ++ [pl], o <| ot_built ::= cons pl |>)
    end
  else inr (built, o).

(** The three signals in turn; the providers registered before an error come with it. *)
Fixpoint buildAll (env : Environ) (wanted : list (signal * bool)) (built : list pipeline) (o : Otel) : option goerr * list pipeline * Otel :=
  match wanted with
  | [] => (None, built, o)
  | (s, on) :: wanted =>
      match buildSignal env on s built o with
      | inl e => (Some e, built, o)
      | inr (built, o) => buildAll env wanted built o
      end
  end.

Definition find (s : signal) (built : list pipeline) : option pipeline := head (filter (fun pl => pl_signal pl = s) built).

(** The providers become the global ones. *)
Definition publish (built : list pipeline) (o : Otel) : Otel :=
  o <| ot_global ::= fun global s => match find s built with Some pl => Some pl | None => global s end |> <| ot_propagator := true |>.

(** [fail]: what was built is stopped. *)
Definition failSetup (built : list pipeline) (e : goerr) (o : Otel) : Provider * option goerr * Otel :=
  (inert, Some e, snd (Shutdown (Some (mkProvider false None built)) o)).

(** [Setup] *)
Definition Setup (env : Environ) (o : Otel) : Provider * option goerr * Otel :=
  if negb (activated env) then (inert, None, o)
  else match signalEnabled env traces with
  | inl e => (inert, Some e, o)
  | inr tracesOn =>
  match signalEnabled env metrics with
  | inl e => (inert, Some e, o)
  | inr metricsOn =>
  match signalEnabled env logs with
  | inl e => (inert, Some e, o)
  | inr logsOn =>
  match new_resource env with
  | Some e => failSetup [] e o
  | None =>
  match buildAll env [(traces, tracesOn); (metrics, metricsOn); (logs, logsOn)] [] o with
  | (Some e, built, o) => failSetup built e o
  | (None, built, o) => (mkProvider (bool_decide (built <> [])) (find logs built) built, None, publish built o)
  end end end end end.

(** ** Properties *)

Lemma spaceRunes_nonempty : Forall (fun r => r <> "") spaceRunes.
Proof. by apply (bool_decide_unpack _); vm_compute. Qed.

(** The fuel is enough: nothing is left to trim. *)
Lemma trimLeft_clean fuel s :
  (String.length s <= fuel)%nat -> Forall (fun r => cut_prefix r (trimLeftRunes fuel s) = None) spaceRunes.
Proof.
  revert s. induction fuel as [|fuel IH]; intros s Hs; cbn [trimLeftRunes].
  - destruct s; [|simpl in Hs; lia]. eapply Forall_impl; [exact spaceRunes_nonempty|]. by intros [].
  - destruct (head _) as [t|] eqn:Hh; [|by apply head_omap_None]. apply IH. apply head_omap_Some in Hh as (r & Hr & Hc).
    pose proof (proj1 (Forall_forall _ _) spaceRunes_nonempty r Hr). apply cut_prefix_Some in Hc as ->.
    rewrite length_app_str in Hs. destruct r; [done|]. simpl in Hs. lia.
Qed.

Lemma trimRight_clean fuel s :
  (String.length s <= fuel)%nat ->
  Forall (fun r => cut_suffix (trimRightRunes fuel s) r = None) spaceRunes /\ exists t, s = trimRightRunes fuel s +:+ t.
Proof.
  revert s. induction fuel as [|fuel IH]; intros s Hs; cbn [trimRightRunes].
  - destruct s; [|simpl in Hs; lia]. split; [|by exists ""].
    eapply Forall_impl; [exact spaceRunes_nonempty|]. intros r Hr. destruct (cut_suffix _ _) as [s|] eqn:Hc; [|done].
    apply cut_suffix_Some in Hc. by destruct s, r.
  - destruct (head _) as [t|] eqn:Hh; [|split; [by apply head_omap_None|exists ""; by rewrite app_nil_str]].
    apply head_omap_Some in Hh as (r & Hr & Hc).
    pose proof (proj1 (Forall_forall _ _) spaceRunes_nonempty r Hr). apply cut_suffix_Some in Hc as ->.
    rewrite length_app_str in Hs. destruct (IH t) as [Hall [u Hu]]; [destruct r; [done|]; simpl in Hs; lia|].
    split; [done|]. exists (u +:+ r). rewrite <- app_assoc_str. by rewrite <- Hu.
Qed.

(** [TrimSpace] leaves a text with no space at either end, in the sense of [hasEdgeSpace]. *)
Theorem TrimSpace_clean s : hasEdgeSpace (TrimSpace s) = false.
Proof.
  unfold hasEdgeSpace, TrimSpace. set (u := trimLeftRunes _ s).
  assert (Forall (fun r => cut_prefix r u = None) spaceRunes) as Hl by (by apply trimLeft_clean).
  assert (forall n t, (String.length (trimLeftRunes n t) <= String.length t)%nat) as Hlen.
  { induction n as [|n IHn]; intros t; cbn [trimLeftRunes]; [done|]. destruct (head _) as [t'|] eqn:Hh; [|done].
    apply head_omap_Some in Hh as (r & _ & Hc). apply cut_prefix_Some in Hc as ->. rewrite length_app_str. specialize (IHn t'). lia. }
  destruct (trimRight_clean (String.length s) u) as [Hr [t Ht]]; [apply Hlen|]. set (v := trimRightRunes _ u) in *.
  apply not_true_iff_false. rewrite existsb_exists. intros (r & Hin%list_elem_of_In & Hor).
  rewrite Forall_forall in Hl, Hr. apply orb_true_iff in Hor as [Hp|Hq].
  - apply bool_decide_eq_true in Hp as [y Hy]. apply cut_prefix_Some in Hy. specialize (Hl r Hin).
    rewrite Ht, Hy, app_assoc_str, cut_prefix_app in Hl. done.
  - apply bool_decide_eq_true in Hq as [y Hy]. by rewrite (Hr r Hin) in Hy.
Qed.

Lemma stop_all l errs o : exists errs',
  foldl stopOne (errs, o) l = (errs ++ errs', o <| ot_stopped ::= fun s => reverse l ++ s |>).
Proof.
  revert errs o. induction l as [|pl l IH]; intros errs o; simpl.
  { exists []. rewrite app_nil_r. by destruct o. }
  destruct (IH (errs ++ option_list (stop pl)) (o <| ot_stopped ::= cons pl |>)) as (errs' & ->).
  exists (option_list (stop pl) ++ errs'). f_equal; [by rewrite app_assoc|]. destruct o as [g p b st]. simpl. unfold update. simpl. by rewrite reverse_cons, <- app_assoc.
Qed.

Lemma Shutdown_run p o : exists errs, Shutdown (Some p) o = (errs, o <| ot_stopped ::= fun s => shutdownFuncs p ++ s |>).
Proof.
  unfold Shutdown. destruct (stop_all (reverse (shutdownFuncs p)) [] o) as (errs & ->). exists errs. by rewrite reverse_involutive.
Qed.

(** The providers of the signals of [wanted] that are on. *)
Definition wantedPipelines (env : Environ) (wanted : list (signal * bool)) : list pipeline :=
  pipelineOf env ∘ fst <$> filter (fun p => p.2 = true) wanted.

Lemma buildAll_run env wanted built o :
  let '(err, built', o') := buildAll env wanted built o in
  exists new, built' = built ++ new /\ o' = o <| ot_built ::= fun b => reverse new ++ b |> /\
    new `prefix_of` wantedPipelines env wanted /\
    (err = None <-> new = wantedPipelines env wanted /\ forall s, (s, true) ∈ wanted -> new_exporter env s = None).
Proof.
  revert built o. induction wanted as [|[s on] wanted IH]; intros built o; cbn [buildAll].
  { exists []. rewrite app_nil_r. split_and!; [done|by destruct o|done|]. split; [|done]. intros _. split; [done|].
    intros s Hs. by apply elem_of_nil in Hs. }
  unfold buildSignal. destruct on.
  - unfold wantedPipelines. rewrite filter_cons_True by done. rewrite fmap_cons. fold (wantedPipelines env wanted). simpl.
    destruct (new_exporter env s) as [e|] eqn:He.
    + exists []. rewrite app_nil_r. split_and!; [done|by destruct o|apply prefix_nil|]. split; [done|]. by intros [[=] _].
    + specialize (IH (built ++ [pipelineOf env s]) (o <| ot_built ::= cons (pipelineOf env s) |>)).
      destruct (buildAll _ _ _ _) as [[err built'] o']. destruct IH as (new & -> & -> & Hp & Herr).
      exists (pipelineOf env s :: new). split_and!.
      * by rewrite <- app_assoc.
      * destruct o. simpl. unfold update. simpl. by rewrite reverse_cons, <- app_assoc.
      * by apply prefix_cons.
      * rewrite Herr. split; [intros [-> Hn]|intros [[= ->] Hn]]; (split; [done|]); intros s' Hs'; [|by apply Hn; right].
        apply elem_of_cons in Hs' as [[= ->]|Hs']; [done|by apply Hn].
  - unfold wantedPipelines. rewrite filter_cons_False by done. fold (wantedPipelines env wanted).
    specialize (IH built o). destruct (buildAll _ _ _ _) as [[err built'] o']. destruct IH as (new & -> & -> & Hp & Herr).
    exists new. split_and!; [done|done|done|]. rewrite Herr. setoid_rewrite elem_of_cons. naive_solver.
Qed.

Lemma buildAll_succeeds env wanted built o :
  (forall s, (s, true) ∈ wanted -> new_exporter env s = None) -> (buildAll env wanted built o).1.1 = None.
Proof.
  revert built o. induction wanted as [|[s on] wanted IH]; intros built o He; cbn [buildAll]; [done|].
  unfold buildSignal. destruct on.
  - rewrite He by left. apply IH. intros s' Hs'. apply He. by right.
  - apply IH. intros s' Hs'. apply He. by right.
Qed.

(** A signal that an active [Setup] builds. *)
Definition wanted (env : Environ) (s : signal) : bool :=
  activated env && match signalEnabled env s with inr on => on | inl _ => false end.

Lemma find_wanted env b1 b2 b3 s :
  find s (wantedPipelines env [(traces, b1); (metrics, b2); (logs, b3)]) =
  if match s with traces => b1 | metrics => b2 | logs => b3 end then Some (pipelineOf env s) else None.
Proof. by destruct b1, b2, b3, s. Qed.

Lemma firstLimit_nonneg env keys : 0 <= firstLimit env keys.
Proof.
  induction keys as [|key keys IH]; [done|]. simpl. destruct (env key); [|done]. destruct (atoi _) as [n|]; [|done].
  destruct (Z.ltb_spec n 0); [done|lia].
Qed.

(** What [Setup] leaves, whether or not it succeeded: the providers it built, [built], in order. *)
Definition setup_ok (env : Environ) (o : Otel) (result : Provider * option goerr * Otel) : Prop :=
  let '(p, err, o') := result in
  exists built, ot_built o' = reverse built ++ ot_built o /\ built `prefix_of` (pipelineOf env <$> filter (fun s => wanted env s = true) [traces; metrics; logs]) /\
  match err with
  | Some _ => p = inert /\ ot_global o' = ot_global o /\ ot_propagator o' = ot_propagator o /\ ot_stopped o' = built ++ ot_stopped o
  | None => shutdownFuncs p = built /\ ot_stopped o' = ot_stopped o /\
      built = (pipelineOf env <$> filter (fun s => wanted env s = true) [traces; metrics; logs]) /\
      (enabled p = true <-> exists s, wanted env s = true) /\ zapCore p = (if wanted env logs then Some (pipelineOf env logs) else None) /\
      forall s, ot_global o' s = if wanted env s then Some (pipelineOf env s) else ot_global o s
  end.

Lemma setup_nothing env o e : setup_ok env o (inert, Some e, o).
Proof. exists []. split_and!; [done|apply prefix_nil|done..]. Qed.

Lemma wantedPipelines_signals env b1 b2 b3 :
  activated env = true -> signalEnabled env traces = inr b1 -> signalEnabled env metrics = inr b2 -> signalEnabled env logs = inr b3 ->
  wantedPipelines env [(traces, b1); (metrics, b2); (logs, b3)] =
  pipelineOf env <$> filter (fun s => wanted env s = true) [traces; metrics; logs].
Proof.
  intros Ha H1 H2 H3. unfold wantedPipelines, wanted. rewrite !filter_cons, filter_nil, Ha, H1, H2, H3. by destruct b1, b2, b3.
Qed.

Lemma Setup_ok env o : setup_ok env o (Setup env o).
Proof.
  unfold Setup. destruct (activated env) eqn:Ha; cbn [negb].
  2: { exists []. assert (forall s, wanted env s = false) as Hw by (intros s; unfold wanted; by rewrite Ha).
       split_and!; [done|apply prefix_nil|done|done|..];
         [by rewrite !filter_cons, !Hw| |by rewrite Hw|intros s; by rewrite Hw].
       split; [done|]. intros [s Hs]. by rewrite Hw in Hs. }
  destruct (signalEnabled env traces) as [e|b1] eqn:H1; [apply setup_nothing|].
  destruct (signalEnabled env metrics) as [e|b2] eqn:H2; [apply setup_nothing|].
  destruct (signalEnabled env logs) as [e|b3] eqn:H3; [apply setup_nothing|].
  destruct (new_resource env); [apply setup_nothing|].
  assert (forall s, wanted env s = match s with traces => b1 | metrics => b2 | logs => b3 end) as Hw.
  { intros s. unfold wanted. rewrite Ha. destruct s; simpl; by rewrite ?H1, ?H2, ?H3. }
  pose proof (buildAll_run env [(traces, b1); (metrics, b2); (logs, b3)] [] o) as Hb.
  destruct (buildAll _ _ _ _) as [[err built] o']. destruct Hb as (new & -> & -> & Hp & Herr).
  rewrite (wantedPipelines_signals env b1 b2 b3) in * by done. simpl app in *. destruct err as [e|].
  - unfold failSetup. destruct (Shutdown_run (mkProvider false None new) (o <| ot_built ::= fun b => reverse new ++ b |>)) as (errs & ->).
    exists new. by split_and!.
  - destruct (proj1 Herr eq_refl) as [-> _]. eexists. split_and!; [reflexivity|done|done|done|done|..].
    + cbn [enabled]. rewrite bool_decide_eq_true, fmap_nil_iff. split.
      * intros Hne. destruct (filter _ _) as [|s l] eqn:Hf; [done|]. exists s.
        assert (s ∈ filter (fun s => wanted env s = true) [traces; metrics; logs]) as Hs by (rewrite Hf; left).
        by apply list_elem_of_filter in Hs as [Hs _].
      * intros [s Hs] Hf. eapply filter_nil_not_elem_of; [exact Hf|exact Hs|]. by destruct s; apply (bool_decide_unpack _).
    + rewrite Hw. rewrite <- (wantedPipelines_signals env b1 b2 b3) by done. cbn [zapCore]. by rewrite find_wanted.
    + intros s. rewrite Hw. unfold publish. simpl. rewrite <- (wantedPipelines_signals env b1 b2 b3) by done.
      rewrite find_wanted. by destruct s, b1, b2, b3.
Qed.

(** ** What the environment asks for

    Read off the documented values of the variables, ignoring case and surrounding space. *)

Definition setting (env : Environ) (key : string) : string := to_lower (TrimSpace (default "" (env key))).

(** Telemetry is off by default. *)
Definition switchedOff (env : Environ) : Prop := setting env "OTEL_SDK_DISABLED" ∈ [""; "true"; "1"; "yes"].

(** The values that explicitly say that the SDK is not disabled. *)
Definition switchedOn (env : Environ) : Prop := setting env "OTEL_SDK_DISABLED" ∈ ["false"; "0"; "no"].

Definition exporterSetting (env : Environ) (s : signal) : string :=
  setting env (match s with
               | traces => "OTEL_TRACES_EXPORTER" | metrics => "OTEL_METRICS_EXPORTER" | logs => "OTEL_LOGS_EXPORTER"
               end).

Definition exported (env : Environ) (s : signal) : bool := bool_decide (exporterSetting env s ∈ [""; "otlp"]).

(** Every signal is exported or explicitly not. *)
Definition exportersNamed (env : Environ) : Prop := forall s, exporterSetting env s ∈ [""; "otlp"; "none"].

(** Everything asked for was set up. *)
Definition published (env : Environ) (o : Otel) (p : Provider) (o' : Otel) : Prop :=
  exportersNamed env /\
  shutdownFuncs p = (pipelineOf env <$> filter (fun s => exported env s = true) [traces; metrics; logs]) /\
  ot_built o' = reverse (shutdownFuncs p) ++ ot_built o /\ ot_stopped o' = ot_stopped o /\
  (enabled p = true <-> exists s, exported env s = true) /\
  zapCore p = (if exported env logs then Some (pipelineOf env logs) else None) /\
  forall s, ot_global o' s = if exported env s then Some (pipelineOf env s) else ot_global o s.

(** Nothing of a failed setup is left. *)
Definition undone (o : Otel) (p : Provider) (o' : Otel) : Prop :=
  p = inert /\ ot_global o' = ot_global o /\ ot_propagator o' = ot_propagator o /\
  exists built, ot_built o' = reverse built ++ ot_built o /\ ot_stopped o' = built ++ ot_stopped o.

Lemma signalEnabled_exported env s on :
  signalEnabled env s = inr on -> exported env s = on /\ exporterSetting env s ∈ [""; "otlp"; "none"].
Proof.
  unfold signalEnabled, exported, exporterSetting, setting, Getenv, exporterKey. set (v := to_lower _).
  case_decide as H1; [intros [= <-]; split; [apply bool_decide_eq_true|]; set_solver|].
  case_decide as H2; [intros [= <-]; split; [apply bool_decide_eq_false|]; set_solver|done].
Qed.

Lemma signalEnabled_named env s e : signalEnabled env s = inl e -> ~ (exporterSetting env s ∈ [""; "otlp"; "none"]).
Proof.
  unfold signalEnabled, exporterSetting, setting, Getenv, exporterKey. intros Hs. repeat case_decide; simplify_eq. set_solver.
Qed.

Lemma activated_off env : switchedOff env -> activated env = false.
Proof.
  unfold switchedOff, activated, setting, Getenv. set (v := to_lower _). intros Hv. case_decide; [done|].
  repeat (apply elem_of_cons in Hv as [->|Hv]; [done|]). by apply elem_of_nil in Hv.
Qed.

Lemma activated_on env : switchedOn env -> activated env = true.
Proof.
  unfold switchedOn, activated, setting, Getenv. set (v := to_lower _). intros Hv.
  repeat (apply elem_of_cons in Hv as [->|Hv]; [done|]). by apply elem_of_nil in Hv.
Qed.

(** An active setup that names its exporters asks for the signals they export. *)
Lemma wanted_exported env : activated env = true -> exportersNamed env -> forall s, wanted env s = exported env s.
Proof.
  intros Ha Hn s. unfold wanted. rewrite Ha. destruct (signalEnabled env s) as [e|on] eqn:Hs.
  - by destruct (signalEnabled_named _ _ _ Hs (Hn s)).
  - by apply signalEnabled_exported in Hs as [-> _].
Qed.

(** A setup that succeeds while telemetry is active has read the three exporters. *)
Lemma Setup_named env o p o' : activated env = true -> Setup env o = (p, None, o') -> exportersNamed env.
Proof.
  intros Ha. unfold Setup. rewrite Ha. cbn [negb].
  destruct (signalEnabled env traces) as [|b1] eqn:H1; [done|]. destruct (signalEnabled env metrics) as [|b2] eqn:H2; [done|].
  destruct (signalEnabled env logs) as [|b3] eqn:H3; [done|]. intros _ []; by eapply signalEnabled_exported.
Qed.

Lemma Setup_succeeds env o :
  activated env = true -> exportersNamed env -> new_resource env = None ->
  (forall s, exported env s = true -> new_exporter env s = None) -> (Setup env o).1.2 = None.
Proof.
  intros Ha Hn Hr He. unfold Setup. rewrite Ha, Hr. cbn [negb].
  assert (forall s, signalEnabled env s = inr (exported env s)) as Hs.
  { intros s. destruct (signalEnabled env s) as [e|on] eqn:Hs; [by destruct (signalEnabled_named _ _ _ Hs (Hn s))|].
    by apply signalEnabled_exported in Hs as [-> _]. }
  rewrite !Hs.
  pose proof (buildAll_succeeds env [(traces, exported env traces); (metrics, exported env metrics); (logs, exported env logs)] [] o) as Hb.
  destruct (buildAll _ _ _ _) as [[err built] o']. simpl in Hb. rewrite Hb; [done|].
  intros s Hin. apply He. repeat (apply elem_of_cons in Hin as [[= -> ->]|Hin]; [done|]). by apply elem_of_nil in Hin.
Qed.

(** C36: telemetry is all or nothing: a setup that fails touched no global provider, is
    inert and has stopped every provider built on the way; one that succeeds changed
    nothing or published a provider for exactly the signals the environment exports; it
    changes nothing when OTEL_SDK_DISABLED is unset, true, 1 or yes, and when it is
    false, 0 or no it publishes, provided each exporter is unset, otlp or none and the
    resource and the exporters can be built *)
Theorem Setup_all_or_nothing env o :
  let '(p, err, o') := Setup env o in
  match err with
  | Some _ => undone o p o'
  | None => (p = inert /\ o' = o) \/ published env o p o'
  end /\
  (switchedOff env -> p = inert /\ err = None /\ o' = o) /\
  (switchedOn env -> err = None -> published env o p o') /\
  (switchedOn env -> exportersNamed env -> new_resource env = None ->
     (forall s, exported env s = true -> new_exporter env s = None) -> err = None).
Proof.
  pose proof (Setup_ok env o) as Hs. pose proof (Setup_named env o) as Hnamed. pose proof (Setup_succeeds env o) as Hsucc.
  assert (activated env = false -> Setup env o = (inert, None, o)) as Hoff by (intros Ha; unfold Setup; by rewrite Ha).
  destruct (Setup env o) as [[p err] o']. simpl in Hsucc.
  assert (activated env = true -> err = None -> published env o p o') as Hpub.
  { intros Ha ->. specialize (Hnamed p o' Ha eq_refl). destruct Hs as (built & Hb & _ & Hsd & Hst & -> & Hen & Hz & Hg).
    pose proof (wanted_exported env Ha Hnamed) as Hw. setoid_rewrite Hw in Hen. rewrite Hw in Hz.
    assert (filter (fun s => wanted env s = true) [traces; metrics; logs] = filter (fun s => exported env s = true) [traces; metrics; logs]) as Hf
      by (apply list_filter_ext_in; intros s _; by rewrite Hw).
    rewrite Hf in *. split_and!; [done|done|by rewrite Hsd|done|exact Hen|done|]. intros s. by rewrite Hg, Hw. }
  split_and!.
  - destruct err as [e|].
    + destruct Hs as (built & Hb & _ & -> & Hg & Hpr & Hst). split_and!; [done..|]. by exists built.
    + destruct (activated env) eqn:Ha; [right; by apply Hpub|left]. by injection (Hoff eq_refl) as -> ->.
  - intros Ha%activated_off. by injection (Hoff Ha) as -> -> ->.
  - intros Ha%activated_on. by apply Hpub.
  - intros Ha%activated_on Hn Hr He. by apply Hsucc.
Qed.

End Setup.

(** ** cmd/main.go *)

(** The flags, with the defaults they are declared with. *)
Record Flags := mkFlags {
  metricsAddr : string;
  probeAddr : string;
  enableLeaderElection : bool;
  secureMetrics : bool;
  webhookCertPath : string;
  webhookCertName : string;
  webhookCertKey : string;
  metricsCertPath : string;
  metricsCertName : string;
  metricsCertKey : string;
  enableHTTP2 : bool;
  devMode : bool
}.

Definition defaultFlags : Flags :=
  mkFlags "0" ":8081" true true "" "tls.crt" "tls.key" "" "tls.crt" "tls.key" false false.

(** [tls.Config], as far as the options change it, and the options. *)
Record tlsConfig := mkTLS { NextProtos : list string }.
Definition disableHTTP2 (c : tlsConfig) : tlsConfig := mkTLS ["http/1.1"].
Definition tlsOpts (flags : Flags) : list (tlsConfig -> tlsConfig) := if enableHTTP2 flags then [] else [disableHTTP2].

(** The certificate files of a server: directory, certificate and key, when they are given. *)
Definition certFiles (path name key : string) : option (string * string * string) :=
  if decide (path = "") then None else Some (path, name, key).

Record webhookOptions := mkWebhookOptions { wo_TLSOpts : list (tlsConfig -> tlsConfig); wo_Cert : option (string * string * string) }.

Definition webhookServerOptions (flags : Flags) : webhookOptions :=
  mkWebhookOptions (tlsOpts flags) (certFiles (webhookCertPath flags) (webhookCertName flags) (webhookCertKey flags)).

(** [FilterProvider] is authentication and authorization, or nothing. *)
Record metricsOptions := mkMetricsOptions {
  mo_BindAddress : string;
  mo_SecureServing : bool;
  mo_TLSOpts : list (tlsConfig -> tlsConfig);
  mo_AuthFilter : bool;
  mo_Cert : option (string * string * string)
}.

Definition metricsServerOptions (flags : Flags) : metricsOptions :=
  mkMetricsOptions (metricsAddr flags) (secureMetrics flags) (tlsOpts flags) (secureMetrics flags)
    (certFiles (metricsCertPath flags) (metricsCertName flags) (metricsCertKey flags)).

Record managerOptions := mkManagerOptions {
  mg_Metrics : metricsOptions;
  mg_WebhookServer : webhookOptions;
  mg_HealthProbeBindAddress : string;
  mg_LeaderElection : bool;
  mg_LeaderElectionID : string
}.

Definition ctrlOptions (flags : Flags) : managerOptions :=
  mkManagerOptions (metricsServerOptions flags) (webhookServerOptions flags) (probeAddr flags) (enableLeaderElection flags)
    "ed3f4371.aerospike.com".

(** The steps of [run] that can fail, in order, and the message each error gets. *)
Inductive startStep := NewManager | SetupController | ClusterWebhook | TemplateWebhook | AddHealthz | AddReadyz | StartManager.

Definition startSteps : list startStep :=
  [NewManager; SetupController; ClusterWebhook; TemplateWebhook; AddHealthz; AddReadyz; StartManager].

Definition stepMessage (s : startStep) : string :=
  match s with
  | NewManager => "unable to start manager"
  | SetupController => "unable to create controller AerospikeCluster"
  | ClusterWebhook => "unable to create webhook AerospikeCluster"
  | TemplateWebhook => "unable to create webhook AerospikeClusterTemplate"
  | AddHealthz => "unable to set up health check"
  | AddReadyz => "unable to set up ready check"
  | StartManager => "problem running manager"
  end.

(** controller-runtime: the outcome of a step under these options.  A step may end the
    process inside the library: [ctrl.GetConfigOrDie], an argument of [NewManager], exits
    when there is no configuration, and the handler of [ctrl.SetupSignalHandler] exits on a
    second signal. *)
Inductive outcome := Succeeds | Fails (e : goerr) | Exits.

Class Manager := manager_step : managerOptions -> startStep -> outcome.

(** How [run] ends: it returns, or the process exits within a call. *)
Inductive ending := Returned (err : option goerr) | Exited.

Section Run.
Context `{!SDK} `{!Manager}.

(** The steps taken, and what the last one led to. *)
Fixpoint runSteps (opts : managerOptions) (steps : list startStep) : list startStep * ending :=
  match steps with
  | [] => ([], Returned None)
  | s :: steps =>
      match manager_step opts s with
      | Fails e => ([s], Returned (Some (wrapErr (stepMessage s) e)))
      | Exits => ([s], Exited)
      | Succeeds => let '(taken, res) := runSteps opts steps in (s :: taken, res)
      end
  end.

(** [run]: the deferred shutdown of telemetry happens when it returns; an exit of the
    process skips it. *)
Definition runOperator (flags : Flags) (env : Environ) (o : Otel) : list startStep * ending * Otel :=
  let '(tel, _, o) := Setup env o in
  let '(taken, res) := runSteps (ctrlOptions flags) startSteps in
  match res with
  | Exited => (taken, Exited, o)
  | Returned err => let '(_, o) := Shutdown (Some tel) o in (taken, Returned err, o)
  end.

(** [main]: the exit code; the library exits with the same one. *)
Definition exitCode (res : ending) : Z := match res with Returned None => 0 | Returned (Some _) | Exited => 1 end.

(** How a sequence of steps ends is decided by the first one that does not succeed. *)
Definition decided (opts : managerOptions) (taken : list startStep) (res : ending) : Prop :=
  match res with
  | Returned None => Forall (fun s => manager_step opts s = Succeeds) taken
  | Returned (Some e) => exists before s e', taken = before ++ [s] /\ Forall (fun s => manager_step opts s = Succeeds) before /\
      manager_step opts s = Fails e' /\ e = wrapErr (stepMessage s) e'
  | Exited => exists before s, taken = before ++ [s] /\ Forall (fun s => manager_step opts s = Succeeds) before /\
      manager_step opts s = Exits
  end.

Lemma decided_cons opts s taken res : manager_step opts s = Succeeds -> decided opts taken res -> decided opts (s :: taken) res.
Proof.
  intros Hs. destruct res as [[e|]|]; simpl.
  - intros (before & s' & e' & -> & Hall & ?). exists (s :: before), s', e'. split; [done|]. split; [by constructor|done].
  - by constructor.
  - intros (before & s' & -> & Hall & ?). exists (s :: before), s'. split; [done|]. split; [by constructor|done].
Qed.

Lemma runSteps_decided opts steps :
  let '(taken, res) := runSteps opts steps in
  taken `prefix_of` steps /\ decided opts taken res /\ (res = Returned None -> taken = steps).
Proof.
  induction steps as [|s steps IH]; simpl; [by repeat split|]. destruct (manager_step opts s) as [|e|] eqn:Hs.
  - destruct (runSteps opts steps) as [taken res]. destruct IH as (Hp & Hd & Hall).
    split_and!; [by apply prefix_cons|by apply decided_cons|]. intros Hr. by rewrite Hall.
  - split_and!; [apply prefix_cons, prefix_nil| |done]. by exists [], s, e.
  - split_and!; [apply prefix_cons, prefix_nil| |done]. by exists [], s.
Qed.

(** The limit on attribute values of a provider: there is one, except on metrics. *)
Definition capped (pl : pipeline) : Prop :=
  match pl_signal pl with
  | metrics => pl_limit pl = None
  | traces | logs => exists l, pl_limit pl = Some l /\ 0 <= l
  end.

Lemma pipelineOf_capped env s : capped (pipelineOf env s).
Proof.
  destruct s; unfold capped; simpl; [|done|eexists; split; [done|apply firstLimit_nonneg]].
  eexists. split; [done|]. destruct (Z.ltb_spec (span_limit env) 0); [done|lia].
Qed.

Lemma built_signals env built :
  built `prefix_of` (pipelineOf env <$> filter (fun s => wanted env s = true) [traces; metrics; logs]) ->
  NoDup (pl_signal <$> built) /\ Forall capped built.
Proof.
  intros [k Hk]. split.
  - apply (f_equal (fmap pl_signal)) in Hk. rewrite fmap_app in Hk.
    assert (NoDup (pl_signal <$> (pipelineOf env <$> filter (fun s => wanted env s = true) [traces; metrics; logs]))) as Hnd.
    { rewrite <- list_fmap_compose. change (pl_signal ∘ pipelineOf env) with (fun s : signal => s). rewrite list_fmap_id.
      apply NoDup_filter. by apply (bool_decide_unpack _). }
    rewrite Hk in Hnd. by apply NoDup_app in Hnd as [? _].
  - apply Forall_forall. intros pl Hin.
    assert (pl ∈ pipelineOf env <$> filter (fun s => wanted env s = true) [traces; metrics; logs]) as (s & -> & _)%list_elem_of_fmap
      by (rewrite Hk; apply elem_of_app; by left).
    apply pipelineOf_capped.
Qed.

(** C37: unless the process exits inside a call of the library, which skips deferred
    calls, every telemetry provider the operator created has been stopped exactly once,
    in the reverse order of creation; in all cases there is at most one provider per
    signal and those of traces and logs have a limit on attribute values; how the
    process ends is decided by the first step of the manager that does not succeed *)
Theorem operator_stops_telemetry flags env o :
  let '(taken, res, o') := runOperator flags env o in
  (exists built, ot_built o' = reverse built ++ ot_built o /\ NoDup (pl_signal <$> built) /\ Forall capped built /\
     match res with
     | Returned _ => ot_stopped o' = built ++ ot_stopped o
     | Exited => exists s, last taken = Some s /\ manager_step (ctrlOptions flags) s = Exits
     end) /\
  taken `prefix_of` startSteps /\ decided (ctrlOptions flags) taken res /\ (res = Returned None -> taken = startSteps).
Proof.
  unfold runOperator. pose proof (Setup_ok env o) as Hs. destruct (Setup env o) as [[tel terr] o1].
  pose proof (runSteps_decided (ctrlOptions flags) startSteps) as Hr. destruct (runSteps _ _) as [taken res] eqn:Hrun.
  destruct Hs as (built & Hb & Hp & Hs).
  assert (NoDup (pl_signal <$> built) /\ Forall capped built) as [Hnd Hcap] by (by eapply built_signals).
  destruct res as [err|].
  - destruct (Shutdown_run tel o1) as (errs & ->). split; [|exact Hr]. exists built. split_and!; [exact Hb|done|done|].
    destruct terr; [destruct Hs as (-> & _ & _ & Hst)|destruct Hs as (Hf & Hst & _)]; simpl; rewrite Hst; [done|by rewrite Hf].
  - split; [|exact Hr]. exists built. split_and!; [exact Hb|done|done|].
    destruct Hr as (_ & (before & s & -> & _ & Hs') & _). exists s. by rewrite last_snoc.
Qed.

End Run.

(** Unless it is asked for, neither server negotiates HTTP/2, whatever was configured before; the metrics are served
    without authentication only when secure serving is switched off, and one manager at a time reconciles. *)
Theorem default_servers_hardened flags c :
  enableHTTP2 flags = false ->
  NextProtos (foldl (fun c f => f c) c (wo_TLSOpts (webhookServerOptions flags))) = ["http/1.1"] /\
  NextProtos (foldl (fun c f => f c) c (mo_TLSOpts (metricsServerOptions flags))) = ["http/1.1"] /\
  mo_AuthFilter (metricsServerOptions flags) = mo_SecureServing (metricsServerOptions flags) /\
  mg_LeaderElection (ctrlOptions defaultFlags) = true.
Proof. intros Hh. unfold webhookServerOptions, metricsServerOptions, tlsOpts. by rewrite Hh. Qed.

(** ** Instances *)

(** A collector that has no pipeline for metrics. *)
#[local] Instance sample_sdk : SDK := {|
  new_resource _ := None;
  new_exporter env s := if decide (s = metrics) then Some (Errorf "connection refused") else None;
  span_limit _ := -1;
  stop _ := None
|}.

Definition sample_environ (metricsExporter : string) : Environ := fun key =>
  map_get key [("OTEL_SDK_DISABLED", " False "); ("OTEL_METRICS_EXPORTER", metricsExporter);
               ("OTEL_ATTRIBUTE_VALUE_LENGTH_LIMIT", "16384"); ("OTEL_LOGRECORD_ATTRIBUTE_VALUE_LENGTH_LIMIT", "-5")].

Definition tracePipeline : pipeline := mkPipeline traces (Some 4096).
Definition logPipeline : pipeline := mkPipeline logs (Some 16384).

(** With metrics switched off the other two are published; otherwise the trace provider is stopped again. *)
Example setup_without_metrics :
  let '(p, err, o) := Setup (sample_environ "none") freshOtel in
  p = mkProvider true (Some logPipeline) [tracePipeline; logPipeline] /\ err = None /\
  ot_global o <$> [traces; metrics; logs] = [Some tracePipeline; None; Some logPipeline] /\ ot_stopped o = [].
Proof. by vm_compute. Qed.

Example setup_with_metrics :
  let '(p, err, o) := Setup (sample_environ "otlp") freshOtel in
  p = inert /\ err = Some (Errorf "connection refused") /\
  ot_global o <$> [traces; metrics; logs] = [None; None; None] /\ ot_stopped o = [tracePipeline].
Proof. by vm_compute. Qed.

(** Any word but the three that mean yes switches telemetry on. *)
Example unknown_word_activates :
  activated (fun _ => Some "on") = true /\ activated (fun _ => Some "disabled") = true /\ activated (fun _ => Some " TRUE ") = false.
Proof. by vm_compute. Qed.

(** When the library exits, here for want of a configuration, the providers that were set up
    are never stopped. *)
#[local] Instance no_config : Manager := fun _ s => match s with NewManager => Exits | _ => Succeeds end.

Example exit_skips_shutdown :
  let '(taken, res, o) := runOperator defaultFlags (sample_environ "none") freshOtel in
  taken = [NewManager] /\ res = Exited /\ exitCode res = 1 /\
  ot_built o = [logPipeline; tracePipeline] /\ ot_stopped o = [].
Proof. by vm_compute. Qed.
